(* ===== verification/_CoqProject ===== *)
-Q . S2P
Prelude.v
RStr.v
F64.v
Core.v
Economics.v
Config.v
Wire.v
Segment.v
Policy.v
Scorer.v
Pipeline.v
Ladder.v
Fallback.v
Controller.v
Text.v
Targets.v
Markup.v
Recode.v
Rewrite.v
Utf8.v
Marker.v
Bm25.v
Store.v
Archive.v
Open.v
Session.v
Intercept.v
Typing.v
UsageTap.v
Synth.v
Summarizer.v
Staging.v
App.v
Relay.v
Seam.v
System.v
Window.v
Stored.v
Recover.v
Guard.v
Serve.v
Json.v
TestKit.v
Legacy.v
TestsCore.v
TestsPipeline.v
TestsRewrite.v
TestsPasses.v
TestsRefs.v
TestsProxy.v
TestsIntercept.v
