(* ===== verification/Prelude.v ===== *)
(** * cc-squash: a verification library

    cc-squash is a local proxy between Claude Code and the Anthropic API.
    Each turn the client resends its whole transcript; the proxy rewrites
    old, bulky tool output into short references before the request goes
    upstream, keeps the originals in a database from which the model can
    retrieve them, and must do so without breaking the request, without
    invalidating the upstream's prompt cache for nothing, and without ever
    standing in the way: whatever goes wrong, the request is forwarded as it
    came.

    The program is six Rust crates under [src/crates]: [ccs-core] (ids,
    tags, token estimates), [ccs-economics] (prices, cache warmth, cost
    formulas), [ccs-policy] (segmentation, scoring, the compaction pipeline
    and its passes, the controller, the rewrite and its gate), [ccs-refs]
    (the reference store, its markers and its search), [ccs-summarizer] (the
    model calls made off the request path) and [ccs-proxy] (the HTTP relay,
    the interceptor, staging, the control channel).  How they interact: a
    request enters [relay.rs]; the interceptor applies the plan the session
    has staged, on a snapshot of the session; the egress goes upstream and
    the usage tap reads the answer's usage back into the session; afterwards
    a staging task recomputes the plan for the next turn, storing each
    original first.  The Go control plane mints and evicts sessions and asks
    for garbage collection over the control channel; the model reads
    originals back through the retrieval tool.

    ** Conventions

    A Rust [String] is its list of Unicode scalar values ([RStr.rstr]),
    bytes are integers in [0, 256), machine integers are [Z] with their
    wrap-around written out ([u32_wrap], [u64_wrap], the saturating casts),
    an index of a [Vec] is [nat], and [f64] is an executable IEEE-754
    binary64 ([F64]): every decision that prices a rewrite is computed with
    the program's rounding.  A panic is [None], an error is [Err].  A
    mutex-guarded session is a cell of a heap, each critical section one
    function on it.  What the sources only call is a class, listed with the
    functions they call and with laws only where a theorem needs them:
    [SerdeJson], [SerdeValue], [SerdeSlice], [SerdeUsage], [SerdeControl]
    (serde_json's typed reads and prints), [Sha256], [Libm] ([exp], [ln]),
    [Unicode] (the tables behind [is_alphanumeric] and [to_lowercase]),
    [FormatCore] (the JSON/TOON encoder), [Similar] (line diffs), [Breaker]
    (the failsafe circuit breaker), [Upstream] (the summarizer's HTTP
    exchange), [Database] (whether a write is accepted), [HttpClient],
    [UrlLib] ([Url::set_path], [Url::set_query]), [UriParser] and [PathMatch]
    (the router's wildcard).  Witnesses
    instantiate them with concrete functions, so no theorem holds for want of
    an instance; [Json] has a JSON reader and printer for [SerdeJson] and
    [SerdeValue].

    ** Files

    Foundations: [Prelude] (tactics, [result], lists, sums), [RStr]
    (strings), [Utf8] (lossy decoding), [F64] (binary64 and its rounding
    theory).

    Policy: [Core] ([ccs-core]); [Economics] ([ccs-economics]); [Config]
    (tunables); [Wire] ([wire.rs]); [Segment] ([segment.rs], [payload.rs]);
    [Policy] ([decision.rs], [strategy.rs], [salience.rs], [candidate.rs],
    [breakpoint.rs], [budget.rs]); [Scorer] ([pipeline/scorer.rs]);
    [Pipeline] ([pipeline/mod.rs], [pipeline/pass.rs]: the ledger and the
    runner); [Ladder] (the on-path passes and [Presets::continuous]);
    [Fallback] ([budget_fallback.rs]); [Controller] ([controller.rs]);
    [Text], [Markup], [Targets], [Recode] (the deterministic passes, the
    leaves they work on and the fast lane); [Rewrite] ([rewrite.rs],
    [rewrite_gate.rs]).

    References: [Marker] ([hash.rs], [dedup.rs], [record.rs], [marker.rs]);
    [Bm25] ([bm25.rs]); [Store] ([store.rs], the table as a map from key to
    row); [Archive] (the archive of immutable originals the table implements);
    [Open] ([store.rs], opening the database and its epoch handshake).

    Proxy: [Session] ([session.rs]); [Intercept] ([intercept.rs]);
    [UsageTap] ([usage_tap.rs]); [Synth] ([synth/]); [Summarizer]
    ([ccs-summarizer]); [Staging] ([staging.rs]); [App] ([app.rs],
    [demux.rs], [headers.rs], [forward.rs]); [Relay] ([relay.rs]); [Seam]
    ([seam.rs], [mcp.rs]); [System] (all of them as one transition system, for
    any client); [Window] (what an orderly client's turns rewrite); [Stored]
    (what is staged is in the store, for any client); [Guard] (the staging
    guard under interleaving); [Serve] ([main.rs], the router, the register
    frame: the process as a run of [System]).

    Across components: [Typing] (the text type the recode chain preserves);
    [Recover] (what a rewritten request lets the model read back); [Legacy]
    (the code before the pipeline, kept by the tests, and its equivalence).

    Conformance: [Json] and [TestKit] (a JSON reader, the tests' fixtures);
    [TestsCore], [TestsPipeline], [TestsRewrite], [TestsPasses], [TestsRefs],
    [TestsProxy], [TestsIntercept]: the crates' unit tests, each a boolean of
    the Rust test's name, all evaluated to [true] by the kernel.

    ** What the theorems show

    The whole proxy ([System], [Window], [Stored], [Guard], [Serve],
    [Recover]). The fast lane rewrites only messages that were never sent, in
    every state a client reaches that resends its transcript and waits for
    each answer; for any client, even one whose turns overlap, what a session
    has staged has its original in the store, unless a sweep of the same
    history took it by the one race the theorem describes; a replaced block is
    a deterministic clean-up, the drop placeholder of the fallback, or a text
    that needs no original or whose original the retrieval tool returns; one
    staging task at a time, with the guard stuck exactly when a handler was
    dropped in its window; what the process does from its start on is a run of
    [System], in which the registered sessions and the two switches are what the
    lines of the seam say, read only if the register frame was taken.

    The request path ([Intercept], [Relay], [Rewrite], [Targets], [Synth],
    [UsageTap]).  The interceptor's output is the input or passed the gate,
    whatever panics or times out; the splice changes only what it must; the
    gate accepts exactly the well-formed shrinking rewrites; the passthrough
    is verbatim, but for what the URL library normalises in a target; the fast
    lane rewrites a committed segment alike each turn, and only what is spliced
    is committed; only payload blocks are targets; the synthesised answer's
    stream is one complete message; the tap reports the first event's usage however
    the stream is cut; the breaker opens on realized busts and closes again
    after its cooldown.

    Equivalence with the replaced code ([Legacy]). On every request the
    fallback returns the bytes of the plan it replaced; so does the pipeline
    of the fold it replaced, at the default score floor, for a plan without
    recodes and without ordinary human turns.

    The decision core ([Segment], [Ladder], [Controller], [Fallback],
    [Policy], [Pipeline], [Scorer], [Economics]).  Segments partition the
    prompt and never split a tool pair; the five passes of the continuous
    pipeline compute one closed-form selection, the squash decision follows
    its four rules in order, the fallback drops only what it may, the runner
    terminates with its revert budget and keeps one proposal per segment;
    costs, gains and scores are the documented formulas and stay in bounds;
    breakpoints, pressure and the prune floor.

    References and staging ([Recode], [Marker], [Store], [Archive], [Open],
    [Bm25], [Staging], [Summarizer], [Typing], [Text]). The fast lane equals
    the off-path chain, the chain never loses content and maps text to text,
    deduplication points back to an identical earlier leaf, the store returns
    what was put to its owner only and refines an archive that never changes
    an original, a sweep removes no reachable or fresh row and no more than it
    must, a database is opened or refused but never repaired, what a task
    stages is sound, the summarizer's retries are bounded, markers are found
    again exactly, search returns the best-scoring passages of the original in order, and each
    text transform is characterised. [Core] has [RefId]'s grammar and the
    token estimate.

    Conformance ([Tests*]).  The definitions meet the expectations the
    program's own unit tests state, on the JSON they are written in.

    ** Bounds and fuel

    The runner's loop takes [run_fuel], one more than the revert budget
    times the number of stages, and [Pipeline]'s termination theorem shows
    no run needs more.  The scanners ([strip_ansi_loop], [strip_html_loop],
    [captures], [find_tag_end], [chunks], [segment_messages], [dec_digits])
    take the length of their input (for [dec_digits], its number of bits
    plus one); each call consumes at least one element of it, so the fuel
    never runs out.  [Json], a stand-in for the tests only, reads with the
    length of its input and prints 32 levels, more than any test's document.

    ** What is not modelled, and why

    Listeners, signals, the drain on shutdown, log set-up and logging, the
    axum, rmcp and clap wiring, the database's pragmas and file mode: I/O that
    decides nothing. The Go control plane is another program; its frames are
    inputs. Property tests, the tests that open a socket or a database, and
    the integration tests under [tests/] are not translated. Mutex poisoning
    does not arise: no critical section panics. A handler
    dropped at its [await] is a step of [System]; the flag it may lose with it
    is [Guard]'s. *)
From stdpp Require Export base tactics list gmap strings sorting.
From Stdlib Require Export ZArith Lia Bool Permutation Sorted.

(** ** Options of the whole development *)

Global Set Default Goal Selector "!".

(** ** Tactics *)

(** Split every boolean conjunction and comparison in the context into the
    proposition it decides. *)
Ltac bool_hyps :=
  repeat match goal with
  | H : (_ && _)%bool = true |- _ => apply andb_true_iff in H as [? ?]
  | H : (_ || _)%bool = false |- _ => apply orb_false_iff in H as [? ?]
  | H : negb _ = true |- _ => apply negb_true_iff in H
  | H : negb _ = false |- _ => apply negb_false_iff in H
  | H : (_ =? _)%Z = true |- _ => apply Z.eqb_eq in H
  | H : (_ =? _)%Z = false |- _ => apply Z.eqb_neq in H
  | H : (_ <? _)%Z = true |- _ => apply Z.ltb_lt in H
  | H : (_ <? _)%Z = false |- _ => apply Z.ltb_ge in H
  | H : (_ <=? _)%Z = true |- _ => apply Z.leb_le in H
  | H : (_ <=? _)%Z = false |- _ => apply Z.leb_gt in H
  | H : (_ =? _)%nat = true |- _ => apply Nat.eqb_eq in H
  | H : (_ =? _)%nat = false |- _ => apply Nat.eqb_neq in H
  | H : (_ <? _)%nat = true |- _ => apply Nat.ltb_lt in H
  | H : (_ <? _)%nat = false |- _ => apply Nat.ltb_ge in H
  | H : (_ <=? _)%nat = true |- _ => apply Nat.leb_le in H
  | H : (_ <=? _)%nat = false |- _ => apply Nat.leb_gt in H
  | H : bool_decide _ = true |- _ => apply bool_decide_eq_true in H
  | H : bool_decide _ = false |- _ => apply bool_decide_eq_false in H
  end.

(** Case on the innermost [match] or [if] of the goal, keeping the equation. *)
Ltac break_match :=
  match goal with
  | |- context [match ?x with _ => _ end] =>
      lazymatch x with context [match _ with _ => _ end] => fail | _ => destruct x eqn:? end
  end.

Ltac break_match_hyp :=
  match goal with
  | H : context [match ?x with _ => _ end] |- _ =>
      lazymatch x with context [match _ with _ => _ end] => fail | _ => destruct x eqn:? end
  end.

(** Close a conjunction of facts about concrete values by evaluation. *)
Ltac by_compute :=
  repeat match goal with |- _ /\ _ => split end;
  vm_compute; first [reflexivity | discriminate | congruence].

(** ** [Result] *)

Inductive result (E A : Type) : Type :=
| Ok (a : A)
| Err (e : E).
Arguments Ok {E A} a.
Arguments Err {E A} e.

#[export] Instance result_ret {E} : MRet (result E) := fun A a => Ok a.
#[export] Instance result_bind {E} : MBind (result E) := fun A B f r =>
  match r with Ok a => f a | Err e => Err e end.
#[export] Instance result_eq_dec {E A} `{EqDecision E, EqDecision A} : EqDecision (result E A).
Proof. solve_decision. Defined.

(** [ok_or]: an option as a result. *)
Definition ok_or {E A} (e : E) (o : option A) : result E A :=
  match o with Some a => Ok a | None => Err e end.

(** A [Result]'s success value. *)
Definition ok {E A} (r : result E A) : option A :=
  match r with Ok a => Some a | Err _ => None end.

(** ** Machine integers: values are [Z], operations wrap at their width *)

Definition u32_wrap (z : Z) : Z := z mod 2 ^ 32.
Definition u32_add (a b : Z) : Z := u32_wrap (a + b).
Definition u64_wrap (z : Z) : Z := z mod 2 ^ 64.
Definition i64_wrap (z : Z) : Z := (z + 2 ^ 63) mod 2 ^ 64 - 2 ^ 63.
Definition i64_add (a b : Z) : Z := i64_wrap (a + b).
Definition sat_sub (a b : Z) : Z := Z.max 0 (a - b).

Definition is_u32 (z : Z) : Prop := (0 <= z < 2 ^ 32)%Z.
Definition is_i64 (z : Z) : Prop := (- 2 ^ 63 <= z < 2 ^ 63)%Z.

Lemma u32_wrap_range z : is_u32 (u32_wrap z).
Proof. apply Z.mod_pos_bound. lia. Qed.

Lemma u32_wrap_id z : is_u32 z -> u32_wrap z = z.
Proof. apply Z.mod_small. Qed.

Lemma i64_wrap_range z : is_i64 (i64_wrap z).
Proof. unfold i64_wrap, is_i64. pose proof (Z.mod_pos_bound (z + 2 ^ 63) (2 ^ 64)). lia. Qed.

Lemma i64_wrap_id z : is_i64 z -> i64_wrap z = z.
Proof. unfold is_i64, i64_wrap. intros. rewrite Z.mod_small; lia. Qed.

(** Sums: exact, and wrapping at the width of the accumulator. *)
Definition sumZ (l : list Z) : Z := foldr Z.add 0%Z l.
Definition u32_sum (l : list Z) : Z := foldl u32_add 0%Z l.
Definition u64_sum (l : list Z) : Z := foldl (fun a b => u64_wrap (a + b)) 0%Z l.
Definition i64_sum (l : list Z) : Z := foldl i64_add 0%Z l.

Lemma sumZ_cons a l : sumZ (a :: l) = (a + sumZ l)%Z.
Proof. done. Qed.

Lemma sumZ_app l1 l2 : sumZ (l1 ++ l2) = (sumZ l1 + sumZ l2)%Z.
Proof. induction l1 as [|a l1 IH]; simpl; [done|]. rewrite IH. lia. Qed.

Lemma sumZ_nonneg l : Forall (fun z => 0 <= z)%Z l -> (0 <= sumZ l)%Z.
Proof. induction 1; simpl; lia. Qed.

Lemma sumZ_Permutation l1 l2 : Permutation l1 l2 -> sumZ l1 = sumZ l2.
Proof. induction 1; simpl; lia. Qed.

Lemma foldl_wrap_mod (m a : Z) (l : list Z) :
  (0 < m)%Z -> (foldl (fun x y => (x + y) mod m) (a mod m) l = (a + sumZ l) mod m)%Z.
Proof.
  intros Hm. revert a. induction l as [|b l IH]; intros a; simpl.
  - by rewrite Z.add_0_r.
  - rewrite Zplus_mod_idemp_l, IH. f_equal. lia.
Qed.

Lemma u32_sum_wrap l : u32_sum l = u32_wrap (sumZ l).
Proof. exact (foldl_wrap_mod (2 ^ 32) 0 l ltac:(lia)). Qed.

Lemma u64_sum_wrap l : u64_sum l = u64_wrap (sumZ l).
Proof. exact (foldl_wrap_mod (2 ^ 64) 0 l ltac:(lia)). Qed.

Lemma i64_wrap_add_l a b : i64_wrap (i64_wrap a + b) = i64_wrap (a + b).
Proof.
  unfold i64_wrap. f_equal.
  replace ((a + 2 ^ 63) mod 2 ^ 64 - 2 ^ 63 + b + 2 ^ 63)%Z
    with ((a + 2 ^ 63) mod 2 ^ 64 + b)%Z by lia.
  rewrite Zplus_mod_idemp_l. f_equal. lia.
Qed.

Lemma i64_sum_wrap l : i64_sum l = i64_wrap (sumZ l).
Proof.
  enough (H : forall a, foldl i64_add (i64_wrap a) l = i64_wrap (a + sumZ l)) by exact (H 0%Z).
  induction l as [|b l IH]; intros a; simpl.
  - by rewrite Z.add_0_r.
  - unfold i64_add at 2. rewrite i64_wrap_add_l, IH. f_equal. lia.
Qed.

(** ** Lists *)

(** [filter] with a boolean test, [position], [rposition], [enumerate]. *)
Abbreviation filterb := List.filter.

Fixpoint position {A} (f : A -> bool) (l : list A) : option nat :=
  match l with
  | [] => None
  | a :: l => if f a then Some 0%nat else S <$> position f l
  end.

Fixpoint rposition {A} (f : A -> bool) (l : list A) : option nat :=
  match l with
  | [] => None
  | a :: l =>
      match rposition f l with
      | Some i => Some (S i)
      | None => if f a then Some 0%nat else None
      end
  end.

Fixpoint enumerate_from {A} (n : nat) (l : list A) : list (nat * A) :=
  match l with
  | [] => []
  | a :: l => (n, a) :: enumerate_from (S n) l
  end.
Definition enumerate {A} (l : list A) : list (nat * A) := enumerate_from 0 l.

(** [all] and [any] of an iterator. *)
Abbreviation allb := List.forallb.
Abbreviation anyb := List.existsb.

(** [slice::get] and [contains]. *)
Definition contains {A} `{EqDecision A} (x : A) (l : list A) : bool := bool_decide (x ∈ l).

(** [Vec::split_off]-style suffix and [dedup] of consecutive equal items. *)
Definition keep_last {A} (n : nat) (l : list A) : list A := drop (length l - n) l.

Fixpoint dedup_from {A} `{EqDecision A} (x : A) (l : list A) : list A :=
  match l with
  | [] => [x]
  | y :: l => if decide (x = y) then dedup_from x l else x :: dedup_from y l
  end.
Definition dedup {A} `{EqDecision A} (l : list A) : list A :=
  match l with [] => [] | x :: l => dedup_from x l end.

(** A stable sort by a comparison function ([slice::sort_by]). *)
Fixpoint insert_by {A} (cmp : A -> A -> comparison) (x : A) (l : list A) : list A :=
  match l with
  | [] => [x]
  | y :: l => match cmp x y with Gt => y :: insert_by cmp x l | _ => x :: y :: l end
  end.
Definition sort_by {A} (cmp : A -> A -> comparison) (l : list A) : list A :=
  foldr (insert_by cmp) [] l.

Lemma insert_by_perm {A} cmp (x : A) l : Permutation (insert_by cmp x l) (x :: l).
Proof.
  induction l as [|y l IH]; simpl; [done|].
  destruct (cmp x y); try done. rewrite IH. apply perm_swap.
Qed.

Lemma sort_by_perm {A} cmp (l : list A) : Permutation (sort_by cmp l) l.
Proof. induction l as [|x l IH]; simpl; [done|]. rewrite insert_by_perm. by constructor. Qed.

Section SortBy.
Context {A : Type} (cmp : A -> A -> comparison).
Let le x y := cmp x y <> Gt.
Hypothesis cmp_total : forall x y, cmp x y = Gt -> cmp y x <> Gt.
Hypothesis cmp_trans : forall x y z, le x y -> le y z -> le x z.

Lemma insert_by_sorted x l : StronglySorted le l -> StronglySorted le (insert_by cmp x l).
Proof.
  intros S. induction S as [|y l S IH F]; simpl; [repeat constructor|].
  destruct (cmp x y) eqn:C.
  - constructor; [by constructor|]. assert (le x y) by (unfold le; congruence).
    constructor; [done|]. eapply Forall_impl; [exact F|]. eauto.
  - constructor; [by constructor|]. assert (le x y) by (unfold le; congruence).
    constructor; [done|]. eapply Forall_impl; [exact F|]. eauto.
  - constructor; [done|]. rewrite insert_by_perm. constructor; [|done]. by apply cmp_total.
Qed.

Lemma sort_by_sorted l : StronglySorted le (sort_by cmp l).
Proof. induction l; simpl; [constructor|]. by apply insert_by_sorted. Qed.
End SortBy.

(** *** Facts about these *)

Lemma contains_true {A} `{EqDecision A} (x : A) l : contains x l = true <-> x ∈ l.
Proof. apply bool_decide_eq_true. Qed.

Lemma contains_false {A} `{EqDecision A} (x : A) l : contains x l = false <-> x ∉ l.
Proof. apply bool_decide_eq_false. Qed.

Lemma enumerate_from_lookup {A} n (l : list A) i :
  enumerate_from n l !! i = (fun a => ((n + i)%nat, a)) <$> l !! i.
Proof.
  revert n i. induction l as [|a l IH]; intros n i; [done|].
  destruct i; simpl; [by rewrite Nat.add_0_r|]. rewrite IH. by rewrite Nat.add_succ_r.
Qed.

Lemma enumerate_lookup {A} (l : list A) i : enumerate l !! i = (fun a => (i, a)) <$> l !! i.
Proof. apply enumerate_from_lookup. Qed.

Lemma enumerate_from_app {A} n (l k : list A) :
  enumerate_from n (l ++ k) = enumerate_from n l ++ enumerate_from (n + length l) k.
Proof.
  revert n. induction l as [|a l IH]; intros n; simpl; [by rewrite Nat.add_0_r|].
  rewrite IH. by rewrite Nat.add_succ_r.
Qed.

Lemma enumerate_length {A} (l : list A) : length (enumerate l) = length l.
Proof. unfold enumerate. generalize 0%nat. induction l; intros; simpl; [done|]. by rewrite IHl. Qed.

Lemma position_Some {A} (f : A -> bool) l i :
  position f l = Some i -> exists a, l !! i = Some a /\ f a = true.
Proof.
  revert i. induction l as [|a l IH]; intros i H; [done|]. simpl in H.
  destruct (f a) eqn:E; simplify_eq; [eauto|].
  apply fmap_Some in H as (j & Hj & ->). eauto.
Qed.

Lemma rposition_None {A} (f : A -> bool) l :
  rposition f l = None -> forall j a, l !! j = Some a -> f a = false.
Proof.
  induction l as [|x l IH]; intros H j a Hj; [done|]. simpl in H.
  destruct (rposition f l); [done|]. destruct (f x) eqn:E; [done|].
  destruct j as [|j]; simplify_eq/=; [done | by eapply IH].
Qed.

Lemma rposition_Some {A} (f : A -> bool) l i :
  rposition f l = Some i ->
  (exists a, l !! i = Some a /\ f a = true) /\ forall j a, l !! j = Some a -> f a = true -> (j <= i)%nat.
Proof.
  revert i. induction l as [|x l IH]; intros i H; [done|]. simpl in H.
  destruct (rposition f l) as [k|] eqn:R.
  - simplify_eq. destruct (IH k eq_refl) as [He Hm]. split; [exact He|].
    intros [|j] a Hj Fa; [lia|]. specialize (Hm j a Hj Fa). lia.
  - destruct (f x) eqn:E; simplify_eq. split; [by exists x|].
    intros [|j] a Hj Fa; [lia|]. by rewrite (rposition_None f l R j a Hj) in Fa.
Qed.

Lemma keep_last_length {A} n (l : list A) : (length (keep_last n l) <= n)%nat.
Proof. unfold keep_last. rewrite length_drop. lia. Qed.

Lemma filterb_app {A} (f : A -> bool) a b : filterb f (a ++ b) = filterb f a ++ filterb f b.
Proof. induction a as [|x a IH]; [done|]. cbn [app filterb]. rewrite IH. by destruct (f x). Qed.

Lemma elem_of_filterb {A} (f : A -> bool) l x : x ∈ filterb f l <-> x ∈ l /\ f x = true.
Proof. rewrite !list_elem_of_In. apply List.filter_In. Qed.

Lemma allb_spec {A} (f : A -> bool) l : allb f l = true <-> forall x, x ∈ l -> f x = true.
Proof. rewrite List.forallb_forall. split; intros H x Hx; apply H; by apply list_elem_of_In. Qed.

Lemma anyb_spec {A} (f : A -> bool) l : anyb f l = true <-> exists x, x ∈ l /\ f x = true.
Proof. rewrite List.existsb_exists. split; intros (x & Hx & H); exists x; split; try done; by apply list_elem_of_In. Qed.

Lemma anyb_false {A} (f : A -> bool) l : anyb f l = false <-> forall x, x ∈ l -> f x = false.
Proof.
  split.
  - intros H x Hx. destruct (f x) eqn:E; [|done].
    assert (anyb f l = true) by (apply anyb_spec; eauto). congruence.
  - intros H. destruct (anyb f l) eqn:E; [|done]. apply anyb_spec in E as (x & Hx & E).
    rewrite H in E; [done|done].
Qed.

Lemma filterb_sublist {A} (f : A -> bool) (l : list A) : sublist (filterb f l) l.
Proof. induction l as [|x l IH]; cbn; [constructor|]. destruct (f x); by constructor. Qed.

Lemma elem_of_concat {A} (x : A) ls : x ∈ concat ls <-> exists l, l ∈ ls /\ x ∈ l.
Proof. rewrite list_elem_of_In, List.in_concat. by setoid_rewrite list_elem_of_In. Qed.

(** [find] by a key that is unique in the list. *)
Lemma find_key {A} (key : A -> nat) l x :
  NoDup (key <$> l) -> x ∈ l -> List.find (fun y => (key y =? key x)%nat) l = Some x.
Proof.
  induction l as [|y l IH]; intros N Hx; [by apply not_elem_of_nil in Hx|].
  apply NoDup_cons in N as [Ny N]. simpl. apply elem_of_cons in Hx as [->|Hx].
  - by rewrite Nat.eqb_refl.
  - destruct (Nat.eqb_spec (key y) (key x)) as [E|_]; [|by apply IH].
    exfalso. apply Ny. rewrite E. by apply list_elem_of_fmap_2.
Qed.

Lemma find_key_Some {A} (key : A -> nat) l i x :
  List.find (fun y => (key y =? i)%nat) l = Some x -> x ∈ l /\ key x = i.
Proof. intros [H1 H2]%List.find_some. split; [by apply list_elem_of_In | by apply Nat.eqb_eq]. Qed.

Lemma find_key_None {A} (key : A -> nat) l i x :
  List.find (fun y => (key y =? i)%nat) l = None -> x ∈ l -> key x <> i.
Proof. intros H Hx%list_elem_of_In. by apply (List.find_none _ _ H), Nat.eqb_neq in Hx. Qed.

(** The automation the components use: option and list membership goals. *)
Create HintDb squash.
Create Rewrite HintDb squash.
#[export] Hint Resolve keep_last_length enumerate_length sort_by_perm : squash.
#[export] Hint Rewrite @enumerate_lookup @enumerate_length : squash.
#[export] Hint Rewrite u32_sum_wrap i64_sum_wrap u64_sum_wrap : squash.
