(* ===== verification/RStr.v ===== *)
(** * Rust strings

    A [String] is modelled as its sequence of Unicode scalar values
    ([chars()]); its UTF-8 bytes ([as_bytes()], [len()]) are computed from
    them.  The functions are the [str] methods the sources use. *)
From S2P Require Import Prelude.
From Stdlib Require Ascii String.

Local Open Scope Z_scope.

Abbreviation char := Z (only parsing).
Abbreviation byte := Z (only parsing).
Abbreviation rstr := (list Z).

(** ** UTF-8 *)

Definition utf8_len (c : char) : Z :=
  if c <? 128 then 1 else if c <? 2048 then 2 else if c <? 65536 then 3 else 4.

Definition utf8_cont (c : Z) : byte := 128 + Z.land c 63.

Definition utf8_bytes (c : char) : list byte :=
  if c <? 128 then [c]
  else if c <? 2048 then [192 + Z.shiftr c 6; utf8_cont c]
  else if c <? 65536 then [224 + Z.shiftr c 12; utf8_cont (Z.shiftr c 6); utf8_cont c]
  else [240 + Z.shiftr c 18; utf8_cont (Z.shiftr c 12); utf8_cont (Z.shiftr c 6); utf8_cont c].

Definition as_bytes (s : rstr) : list byte := s ≫= utf8_bytes.
(** [str::len]: bytes; [chars().count()]. *)
Definition str_len (s : rstr) : Z := sumZ (utf8_len <$> s).
Definition chars_count (s : rstr) : Z := Z.of_nat (length s).

(** Decoding a literal: Rocq stores it as UTF-8 bytes. *)
Fixpoint utf8_decode (l : list byte) : rstr :=
  match l with
  | [] => []
  | b :: l =>
      if b <? 128 then b :: utf8_decode l
      else if b <? 224 then
        match l with
        | c :: l => (Z.land b 31 * 64 + Z.land c 63) :: utf8_decode l
        | _ => []
        end
      else if b <? 240 then
        match l with
        | c :: d :: l => (Z.land b 15 * 4096 + Z.land c 63 * 64 + Z.land d 63) :: utf8_decode l
        | _ => []
        end
      else
        match l with
        | c :: d :: e :: l =>
            (Z.land b 7 * 262144 + Z.land c 63 * 4096 + Z.land d 63 * 64 + Z.land e 63) :: utf8_decode l
        | _ => []
        end
  end.

Definition str (s : string) : rstr :=
  utf8_decode ((fun a => Z.of_N (Ascii.N_of_ascii a)) <$> String.list_ascii_of_string s).
#[global] Arguments str _ : simpl never.

Lemma utf8_bytes_length c : Z.of_nat (length (utf8_bytes c)) = utf8_len c.
Proof. unfold utf8_bytes, utf8_len. repeat destruct (_ <? _); reflexivity. Qed.

Lemma as_bytes_cons c s : as_bytes (c :: s) = utf8_bytes c ++ as_bytes s.
Proof. done. Qed.

Lemma as_bytes_length s : Z.of_nat (length (as_bytes s)) = str_len s.
Proof.
  induction s as [|c s IH]; [done|].
  rewrite as_bytes_cons, length_app, Nat2Z.inj_add, IH, utf8_bytes_length. done.
Qed.

Lemma as_bytes_app s t : as_bytes (s ++ t) = as_bytes s ++ as_bytes t.
Proof. apply bind_app. Qed.

Lemma str_len_app s t : str_len (s ++ t) = str_len s + str_len t.
Proof. unfold str_len. by rewrite fmap_app, sumZ_app. Qed.

Lemma utf8_len_pos c : 1 <= utf8_len c <= 4.
Proof. unfold utf8_len. repeat destruct (_ <? _); lia. Qed.

Lemma str_len_nonneg s : 0 <= str_len s.
Proof. apply sumZ_nonneg, Forall_fmap, Forall_true. intros c; simpl. pose proof (utf8_len_pos c). lia. Qed.

Lemma chars_count_le_len s : chars_count s <= str_len s.
Proof.
  unfold chars_count, str_len. induction s as [|c s IH]; [done|].
  rewrite fmap_cons. cbn [sumZ foldr length]. fold (sumZ (utf8_len <$> s)).
  pose proof (utf8_len_pos c). lia.
Qed.

(** ** Character classes *)

Definition in_range (lo hi c : Z) : bool := (lo <=? c) && (c <=? hi).

(** [char::is_whitespace]: the Unicode White_Space property. *)
Definition is_whitespace (c : char) : bool :=
  in_range 9 13 c || (c =? 32) || (c =? 133) || (c =? 160) || (c =? 5760)
  || in_range 8192 8202 c || (c =? 8232) || (c =? 8233) || (c =? 8239) || (c =? 8287) || (c =? 12288).

(** [char::is_control]: general category Cc. *)
Definition is_control (c : char) : bool := in_range 0 31 c || in_range 127 159 c.

Definition is_ascii_digit (c : Z) : bool := in_range 48 57 c.
Definition is_ascii_lower (c : Z) : bool := in_range 97 122 c.
Definition is_ascii_upper (c : Z) : bool := in_range 65 90 c.
Definition is_ascii_alphabetic (c : Z) : bool := is_ascii_lower c || is_ascii_upper c.
Definition is_ascii_alphanumeric (c : Z) : bool := is_ascii_alphabetic c || is_ascii_digit c.
(** [u8::is_ascii_whitespace]: space, tab, LF, FF, CR. *)
Definition is_ascii_whitespace (c : Z) : bool :=
  (c =? 32) || (c =? 9) || (c =? 10) || (c =? 12) || (c =? 13).
Definition to_ascii_lower (c : Z) : Z := if is_ascii_upper c then c + 32 else c.

(** ** Prefixes, suffixes, searching *)

Fixpoint strip_prefix (p s : list Z) : option (list Z) :=
  match p, s with
  | [], _ => Some s
  | a :: p, b :: s => if a =? b then strip_prefix p s else None
  | _ :: _, [] => None
  end.
Definition starts_with (p s : list Z) : bool :=
  match strip_prefix p s with Some _ => true | None => false end.
Definition strip_suffix (p s : list Z) : option (list Z) :=
  reverse <$> strip_prefix (reverse p) (reverse s).
Definition ends_with (p s : list Z) : bool :=
  match strip_suffix p s with Some _ => true | None => false end.

Lemma strip_prefix_Some p s t : strip_prefix p s = Some t <-> s = p ++ t.
Proof.
  revert s. induction p as [|a p IH]; intros s; simpl.
  - split; congruence.
  - destruct s as [|b s]; [done|]. destruct (Z.eqb_spec a b) as [->|N].
    + rewrite IH. split; [intros ->; done | congruence].
    + split; [done | congruence].
Qed.

Lemma starts_with_spec p s : starts_with p s = true <-> exists t, s = p ++ t.
Proof.
  unfold starts_with. destruct (strip_prefix p s) as [t|] eqn:E.
  - apply strip_prefix_Some in E. split; eauto.
  - split; [done|]. intros [t Ht]. apply strip_prefix_Some in Ht. congruence.
Qed.

(** Byte offset of the first occurrence ([str::find], [memmem::find]). *)
Fixpoint find_sub (p s : list Z) : option nat :=
  if starts_with p s then Some 0%nat
  else match s with [] => None | _ :: s => S <$> find_sub p s end.

(** [matches(p).count()], [memmem::find_iter(..).count()]: non-overlapping
    occurrences, left to right.  [skip] counts down the matched length. *)
Fixpoint count_sub_from (p : list Z) (skip : nat) (s : list Z) : nat :=
  match s with
  | [] => 0
  | _ :: s' =>
      match skip with
      | S k => count_sub_from p k s'
      | O => if starts_with p s then S (count_sub_from p (length p - 1) s')
             else count_sub_from p 0 s'
      end
  end.
Definition count_sub (p s : list Z) : nat := count_sub_from p 0 s.

(** [str::split_once(c)]. *)
Fixpoint split_once (c : Z) (s : rstr) : option (rstr * rstr) :=
  match s with
  | [] => None
  | d :: s =>
      if d =? c then Some ([], s)
      else '(a, b) ← split_once c s; Some (d :: a, b)
  end.

Lemma split_once_Some c s a b : split_once c s = Some (a, b) -> s = a ++ c :: b /\ c ∉ a.
Proof.
  revert a b. induction s as [|d s IH]; intros a b H; [done|]. simpl in H.
  destruct (Z.eqb_spec d c) as [->|N].
  - simplify_eq. split; [done | set_solver].
  - destruct (split_once c s) as [[x y]|] eqn:E; simplify_eq/=.
    destruct (IH _ _ eq_refl) as [-> Hx]. split; [done | set_solver].
Qed.

Lemma split_once_None c s : split_once c s = None -> c ∉ s.
Proof.
  induction s as [|d s IH]; [intros _; apply not_elem_of_nil|]. cbn [split_once]. destruct (Z.eqb_spec d c) as [|N]; [done|].
  destruct (split_once c s) as [[]|]; [done|]. intros _. apply not_elem_of_cons. auto.
Qed.

(** ** Trimming and lines *)

Fixpoint trim_start_by (f : Z -> bool) (s : rstr) : rstr :=
  match s with [] => [] | c :: s' => if f c then trim_start_by f s' else s end.
Definition trim_end_by (f : Z -> bool) (s : rstr) : rstr := reverse (trim_start_by f (reverse s)).
Definition trim_end (s : rstr) : rstr := trim_end_by is_whitespace s.
Definition trim_start (s : rstr) : rstr := trim_start_by is_whitespace s.
Definition trim (s : rstr) : rstr := trim_start (trim_end s).

(** [split_inclusive('\n')]: each piece keeps its terminator. *)
Fixpoint split_inclusive (c : Z) (s : rstr) : list rstr :=
  match s with
  | [] => []
  | d :: s =>
      if d =? c then [d] :: split_inclusive c s
      else match split_inclusive c s with
           | [] => [[d]]
           | l :: ls => (d :: l) :: ls
           end
  end.

Definition LF : Z := 10.
Definition CR : Z := 13.

(** [str::lines]: the terminators LF and CRLF are removed; a bare CR is kept. *)
Definition line_of (l : rstr) : rstr :=
  match strip_suffix [LF] l with
  | None => l
  | Some l' => default l' (strip_suffix [CR] l')
  end.
Definition lines (s : rstr) : list rstr := line_of <$> split_inclusive LF s.

(** [[T]::join]. *)
Fixpoint join (sep : rstr) (ls : list rstr) : rstr :=
  match ls with
  | [] => []
  | [l] => l
  | l :: ls => l ++ sep ++ join sep ls
  end.

(** [str::replace(a, b)] for the one-character patterns and CRLF the code uses. *)
Definition replace_char (a : Z) (b : rstr) (s : rstr) : rstr :=
  s ≫= (fun c => if c =? a then b else [c]).
Fixpoint replace_crlf (s : rstr) : rstr :=
  match s with
  | [] => []
  | c :: s' =>
      match s' with
      | d :: s'' => if (c =? CR) && (d =? LF) then LF :: replace_crlf s'' else c :: replace_crlf s'
      | [] => [c]
      end
  end.

(** ** Decimal integers: [to_string] and [parse::<usize>] *)

Fixpoint dec_digits (fuel : nat) (z : Z) (acc : rstr) : rstr :=
  match fuel with
  | O => acc
  | S fuel =>
      let acc := (48 + z mod 10) :: acc in
      if z / 10 =? 0 then acc else dec_digits fuel (z / 10) acc
  end.
Definition dec_of_Z (z : Z) : rstr := dec_digits (S (Z.to_nat (Z.log2 z))) z [].
Definition dec_of_nat (n : nat) : rstr := dec_of_Z (Z.of_nat n).

Fixpoint parse_digits (acc : Z) (s : rstr) : option Z :=
  match s with
  | [] => Some acc
  | c :: s => if is_ascii_digit c then parse_digits (acc * 10 + (c - 48)) s else None
  end.

(** An optional [+], at least one digit, and no overflow of 64 bits. *)
Definition parse_usize (s : rstr) : option nat :=
  let digits := match s with c :: s' => if c =? 43 then s' else s | [] => s end in
  match digits with
  | [] => None
  | _ =>
      z ← parse_digits 0 digits;
      if z <? 2 ^ 64 then Some (Z.to_nat z) else None
  end.

Lemma parse_digit_cons w z acc :
  0 <= z < 10 -> parse_digits w (48 + z :: acc) = parse_digits (w * 10 + z) acc.
Proof.
  intros H. simpl. unfold is_ascii_digit, in_range.
  rewrite (proj2 (Z.leb_le 48 _)), (proj2 (Z.leb_le _ 57)) by lia. simpl. f_equal. lia.
Qed.

Lemma dec_digits_parse fuel z acc :
  0 <= z < 10 ^ Z.of_nat fuel ->
  exists k, 0 <= k /\ forall v,
    parse_digits v (dec_digits fuel z acc) = parse_digits (v * 10 ^ k + z) acc.
Proof.
  revert z acc. induction fuel as [|fuel IH]; intros z acc [H0 H].
  { simpl in *. exists 0. split; [lia|]. intros v. f_equal. lia. }
  pose proof (Z.div_mod z 10 ltac:(lia)) as D. pose proof (Z.mod_pos_bound z 10 ltac:(lia)).
  simpl dec_digits. destruct (Z.eqb_spec (z / 10) 0) as [E|E].
  - exists 1. split; [lia|]. intros v. rewrite parse_digit_cons by lia. f_equal. lia.
  - rewrite Nat2Z.inj_succ, Z.pow_succ_r in H by lia.
    destruct (IH (z / 10) (48 + z mod 10 :: acc)) as (k & Hk & IH').
    { split; [apply Z.div_pos; lia | apply Z.div_lt_upper_bound; lia]. }
    exists (k + 1). split; [lia|]. intros v. rewrite IH', parse_digit_cons by lia.
    rewrite Z.pow_add_r by lia. f_equal. lia.
Qed.

Lemma dec_digits_digits fuel z acc :
  Forall (fun c => is_ascii_digit c = true) acc ->
  Forall (fun c => is_ascii_digit c = true) (dec_digits fuel z acc).
Proof.
  revert z acc. induction fuel as [|fuel IH]; intros z acc H; simpl; [done|].
  pose proof (Z.mod_pos_bound z 10 ltac:(lia)).
  assert (F : Forall (fun c => is_ascii_digit c = true) (48 + z mod 10 :: acc)).
  { constructor; [|done]. unfold is_ascii_digit, in_range.
    apply andb_true_iff. split; apply Z.leb_le; lia. }
  destruct (_ =? 0); [done | by apply IH].
Qed.

Lemma dec_digits_nonempty fuel z c acc : exists d r, dec_digits fuel z (c :: acc) = d :: r.
Proof.
  revert z c acc. induction fuel as [|fuel IH]; intros z c acc; simpl; [eauto|].
  destruct (_ =? 0); [eauto | apply IH].
Qed.

Lemma dec_of_Z_cons z : exists d r, dec_of_Z z = d :: r.
Proof. unfold dec_of_Z. simpl. destruct (_ =? 0); [eauto | apply dec_digits_nonempty]. Qed.

Lemma dec_of_Z_digits z : Forall (fun c => is_ascii_digit c = true) (dec_of_Z z).
Proof. apply dec_digits_digits. constructor. Qed.

(** Printing an index and parsing it back is the identity. *)
Lemma parse_usize_dec_of_nat n :
  Z.of_nat n < 2 ^ 64 -> parse_usize (dec_of_nat n) = Some n.
Proof.
  intros Hn. unfold parse_usize, dec_of_nat. set (z := Z.of_nat n) in *.
  destruct (dec_of_Z_cons z) as (d & r & E).
  pose proof (dec_of_Z_digits z) as F. rewrite E in F |- *. inversion F as [|? ? Hd _]; subst.
  assert (d =? 43 = false) as -> by (unfold is_ascii_digit, in_range in Hd; bool_hyps; apply Z.eqb_neq; lia).
  destruct (dec_digits_parse (S (Z.to_nat (Z.log2 z))) z []) as (k & Hk & P).
  { split; [lia|]. rewrite Nat2Z.inj_succ, Z2Nat.id by apply Z.log2_nonneg.
    destruct (Z.eq_dec z 0) as [->|N]; [simpl; lia|].
    pose proof (Z.log2_spec z ltac:(lia)). pose proof (Z.log2_nonneg z).
    apply Z.lt_le_trans with (2 ^ Z.succ (Z.log2 z)); [lia|]. apply Z.pow_le_mono_l. lia. }
  specialize (P 0). rewrite Z.mul_0_l, Z.add_0_l in P. fold (dec_of_Z z) in P. rewrite E in P.
  rewrite P. simpl.
  rewrite (proj2 (Z.ltb_lt z _) Hn). f_equal. lia.
Qed.

Example str_utf8 : str_len (str "[… · —]") = 12 /\ chars_count (str "[… · —]") = 7.
Proof. vm_compute. done. Qed.
Example lines_crlf : lines (str "a" ++ [CR; LF] ++ str "b" ++ [LF; LF]) = [str "a"; str "b"; []].
Proof. vm_compute. done. Qed.
