(* ===== verification/F64.v ===== *)
(** * IEEE-754 binary64, as Rust's [f64] uses it.

    The program prices its decisions in [f64].  This file gives the type and
    the operations the sources use: a finite number is a sign, a significand
    and an exponent; every arithmetic operation returns the exact rational
    result rounded once to the nearest representable number, ties to even
    ([f64_round]).  The theory below relates results to the exact rationals:
    [Rounds q x] says that [x] lies on the same side as [q] of every
    representable number, and [f64_add_Rounds], [f64_mul_Rounds] and
    [f64_div_Rounds] are the bridge every later bound goes through. *)
From Stdlib Require Import ZArith QArith Qround Qabs Qpower Lqa Lia Bool.

Local Open Scope Z_scope.

(** ** The type and the rounding function *)

Inductive f64 : Set :=
| F64_nan
| F64_inf (neg : bool)
| F64_fin (neg : bool) (m e : Z).

(** Round [n / d] to the nearest integer, ties to even. *)
Definition rne (n d : Z) : Z :=
  let q := n / d in
  let r := n mod d in
  match 2 * r ?= d with
  | Lt => q
  | Gt => q + 1
  | Eq => if Z.even q then q else q + 1
  end.

(** The exponent [E] with [2^E <= n / d < 2^(E+1)]. *)
Definition log2_frac (n d : Z) : Z :=
  let k := Z.log2 n - Z.log2 d in
  if d * 2 ^ Z.max 0 k <=? n * 2 ^ Z.max 0 (- k) then k else k - 1.

Definition f64_emin : Z := -1074.
Definition f64_emax : Z := 971.

(** The binary64 number nearest to [(-1)^neg * (n / d) * 2^e0]. *)
Definition f64_round (neg : bool) (n d e0 : Z) : f64 :=
  if n <=? 0 then F64_fin neg 0 f64_emin
  else
    let e := Z.max f64_emin (log2_frac n d + e0 - 52) in
    let s := e - e0 in
    let m := rne (n * 2 ^ Z.max 0 (- s)) (d * 2 ^ Z.max 0 s) in
    let '(m, e) := if m =? 2 ^ 53 then (2 ^ 52, e + 1) else (m, e) in
    if f64_emax <? e then F64_inf neg else F64_fin neg m e.

(** ** Operations *)

Definition f64_signed (neg : bool) (m : Z) : Z := if neg then - m else m.

Definition f64_opp (x : f64) : f64 :=
  match x with
  | F64_nan => F64_nan
  | F64_inf s => F64_inf (negb s)
  | F64_fin s m e => F64_fin (negb s) m e
  end.

(** The exponent two numbers are brought to; a zero takes the other's. *)
Definition f64_base (m e n f : Z) : Z := if m =? 0 then f else if n =? 0 then e else Z.min e f.

Definition f64_add (x y : f64) : f64 :=
  match x, y with
  | F64_nan, _ | _, F64_nan => F64_nan
  | F64_inf s, F64_inf t => if Bool.eqb s t then F64_inf s else F64_nan
  | F64_inf s, _ => F64_inf s
  | _, F64_inf t => F64_inf t
  | F64_fin s m e, F64_fin t n f =>
      let g := f64_base m e n f in
      let z := f64_signed s m * 2 ^ (e - g) + f64_signed t n * 2 ^ (f - g) in
      if z =? 0 then F64_fin (s && t) 0 f64_emin
      else f64_round (z <? 0) (Z.abs z) 1 g
  end.

Definition f64_sub (x y : f64) : f64 := f64_add x (f64_opp y).

Definition f64_mul (x y : f64) : f64 :=
  match x, y with
  | F64_nan, _ | _, F64_nan => F64_nan
  | F64_inf s, F64_inf t => F64_inf (xorb s t)
  | F64_inf s, F64_fin t n _ | F64_fin t n _, F64_inf s =>
      if n =? 0 then F64_nan else F64_inf (xorb s t)
  | F64_fin s m e, F64_fin t n f => f64_round (xorb s t) (m * n) 1 (e + f)
  end.

Definition f64_div (x y : f64) : f64 :=
  match x, y with
  | F64_nan, _ | _, F64_nan => F64_nan
  | F64_inf _, F64_inf _ => F64_nan
  | F64_inf s, F64_fin t _ _ => F64_inf (xorb s t)
  | F64_fin s _ _, F64_inf t => F64_fin (xorb s t) 0 f64_emin
  | F64_fin s m e, F64_fin t n f =>
      if n =? 0 then (if m =? 0 then F64_nan else F64_inf (xorb s t))
      else f64_round (xorb s t) m n (e - f)
  end.

(** [partial_cmp]: [None] when an operand is NaN; the two zeros are equal. *)
Definition f64_compare (x y : f64) : option comparison :=
  match x, y with
  | F64_nan, _ | _, F64_nan => None
  | F64_inf s, F64_inf t =>
      Some (if Bool.eqb s t then Eq else if s then Lt else Gt)
  | F64_inf s, _ => Some (if s then Lt else Gt)
  | _, F64_inf t => Some (if t then Gt else Lt)
  | F64_fin s m e, F64_fin t n f =>
      let g := f64_base m e n f in
      Some (f64_signed s m * 2 ^ (e - g) ?= f64_signed t n * 2 ^ (f - g))
  end.

Definition f64_ltb (x y : f64) : bool :=
  match f64_compare x y with Some Lt => true | _ => false end.
Definition f64_leb (x y : f64) : bool :=
  match f64_compare x y with Some Lt | Some Eq => true | _ => false end.
Definition f64_eqb (x y : f64) : bool :=
  match f64_compare x y with Some Eq => true | _ => false end.

(** [f64::total_cmp]: by sign, then by magnitude; NaN (taken positive) last. *)
Definition f64_neg_sign (x : f64) : bool :=
  match x with F64_nan => false | F64_inf s | F64_fin s _ _ => s end.

Definition f64_total_cmp (x y : f64) : comparison :=
  match f64_compare x y with
  | Some Eq =>
      match f64_neg_sign x, f64_neg_sign y with
      | true, false => Lt
      | false, true => Gt
      | _, _ => Eq
      end
  | Some c => c
  | None =>
      match x, y with
      | F64_nan, F64_nan => Eq
      | F64_nan, _ => Gt
      | _, _ => Lt
      end
  end.

(** [f64::max]: the other operand when one is NaN. *)
Definition f64_max (x y : f64) : f64 :=
  match x, y with
  | F64_nan, _ => y
  | _, F64_nan => x
  | _, _ => if f64_ltb x y then y else x
  end.

(** [f64::clamp]: NaN stays NaN. *)
Definition f64_clamp (x lo hi : f64) : f64 :=
  if f64_ltb x lo then lo else if f64_ltb hi x then hi else x.

Definition f64_is_finite (x : f64) : bool :=
  match x with F64_fin _ _ _ => true | _ => false end.

(** Conversion from an integer ([as f64], [f64::from]). *)
Definition f64_of_Z (z : Z) : f64 := f64_round (z <? 0) (Z.abs z) 1 0.

(** A decimal literal [n / d], correctly rounded. *)
Definition f64_lit (n d : Z) : f64 := f64_round (n <? 0) (Z.abs n) d 0.

(** [ceil]: the integer significand is exact, so the result is too. *)
Definition f64_ceil (x : f64) : f64 :=
  match x with
  | F64_fin s m e =>
      if 0 <=? e then x
      else let z := - ((- f64_signed s m) / 2 ^ (- e)) in
           f64_round s (Z.abs z) 1 0
  | _ => x
  end.

(** [f64::round]: to the nearest integer, half away from zero. *)
Definition f64_round_half_away (x : f64) : f64 :=
  match x with
  | F64_fin s m e =>
      if 0 <=? e then x
      else f64_round s ((2 * m + 2 ^ (- e)) / (2 * 2 ^ (- e))) 1 0
  | _ => x
  end.

(** Truncation toward zero, then saturation: Rust's float-to-integer [as]. *)
Definition f64_trunc (x : f64) : Z :=
  match x with
  | F64_fin s m e =>
      f64_signed s (if 0 <=? e then m * 2 ^ e else m / 2 ^ (- e))
  | _ => 0
  end.

Definition f64_to_int (lo hi : Z) (x : f64) : Z :=
  match x with
  | F64_nan => 0
  | F64_inf s => if s then lo else hi
  | F64_fin _ _ _ => Z.max lo (Z.min hi (f64_trunc x))
  end.

Definition f64_to_u32 : f64 -> Z := f64_to_int 0 (2 ^ 32 - 1).
Definition f64_to_u64 : f64 -> Z := f64_to_int 0 (2 ^ 64 - 1).
Definition f64_to_i64 : f64 -> Z := f64_to_int (- 2 ^ 63) (2 ^ 63 - 1).

Definition f64_zero : f64 := F64_fin false 0 f64_emin.
Definition f64_one : f64 := f64_lit 1 1.
Definition f64_neg_inf : f64 := F64_inf true.
(** [f64::MIN_POSITIVE], the smallest positive normal number [2^-1022]. *)
Definition f64_min_positive : f64 := f64_round false 1 1 (-1022).

(** Checks of the operations against known binary64 bit patterns. *)
Example f64_lit_tenth : f64_lit 1 10 = F64_fin false 7205759403792794 (-56).
Proof. vm_compute. reflexivity. Qed.
Example f64_add_tenths :
  f64_add (f64_lit 1 10) (f64_lit 2 10) = F64_fin false 5404319552844596 (-54).
Proof. vm_compute. reflexivity. Qed.
Example f64_overflow : f64_mul (f64_of_Z (2 ^ 1000)) (f64_of_Z (2 ^ 100)) = F64_inf false.
Proof. vm_compute. reflexivity. Qed.
Example f64_underflow : f64_mul f64_min_positive (f64_lit 1 (2 ^ 60)) = f64_zero.
Proof. vm_compute. reflexivity. Qed.

(** ** Powers of two in [Q] *)

Local Open Scope Q_scope.

Definition pow2 (e : Z) : Q := (2 # 1) ^ e.

Lemma pow2_pos e : 0 < pow2 e.
Proof. apply Qpower_0_lt. reflexivity. Qed.

Lemma pow2_add a b : pow2 (a + b) == pow2 a * pow2 b.
Proof. apply Qpower_plus. discriminate. Qed.

Lemma pow2_Z e : (0 <= e)%Z -> pow2 e == inject_Z (2 ^ e).
Proof. intros He. symmetry. exact (Zpower_Qpower 2 e He). Qed.

Lemma pow2_0 : pow2 0 == 1.
Proof. reflexivity. Qed.

Lemma pow2_split a b : pow2 a == pow2 (a - b) * pow2 b.
Proof. rewrite <- pow2_add. replace (a - b + b)%Z with a by lia. reflexivity. Qed.

Lemma pow2_opp a : pow2 a * pow2 (- a) == 1.
Proof. rewrite <- pow2_add, Z.add_opp_diag_r. reflexivity. Qed.

Lemma pow2_le a b : (a <= b)%Z -> pow2 a <= pow2 b.
Proof.
  intros H. rewrite (pow2_split b a), (pow2_Z (b - a)) by lia.
  assert (1 <= inject_Z (2 ^ (b - a))).
  { change 1 with (inject_Z 1). rewrite <- Zle_Qle. pose proof (Z.pow_pos_nonneg 2 (b - a)). lia. }
  pose proof (pow2_pos a). nra.
Qed.

Lemma inject_Z_pos z : (0 < z)%Z -> 0 < inject_Z z.
Proof. intros. change 0 with (inject_Z 0). rewrite <- Zlt_Qlt. lia. Qed.

Lemma inject_Z_mul a b : inject_Z (a * b) == inject_Z a * inject_Z b.
Proof. rewrite inject_Z_mult. reflexivity. Qed.

(** ** Rounding a fraction to an integer *)

Lemma rne_bounds n d : (0 < d)%Z -> (n / d <= rne n d <= n / d + 1)%Z.
Proof.
  intros Hd. unfold rne.
  destruct (2 * (n mod d) ?= d)%Z; [destruct (Z.even (n / d)) | |]; lia.
Qed.

Lemma rne_ge n d k : (0 < d -> k * d <= n -> k <= rne n d)%Z.
Proof.
  intros Hd H. pose proof (rne_bounds n d Hd).
  assert (k <= n / d)%Z by (apply Z.div_le_lower_bound; lia). lia.
Qed.

Lemma rne_le n d k : (0 < d -> n <= k * d -> rne n d <= k)%Z.
Proof.
  intros Hd H. unfold rne.
  pose proof (Z.div_mod n d ltac:(lia)) as E. pose proof (Z.mod_pos_bound n d Hd) as B.
  destruct (Z.compare_spec (2 * (n mod d)) d) as [C|C|C];
    [destruct (Z.even (n / d)) | |]; nia.
Qed.

Lemma rne_mono n n' d : (0 < d -> n <= n' -> rne n d <= rne n' d)%Z.
Proof.
  intros Hd H. destruct (Z_le_gt_dec (rne n d * d) n') as [L|G].
  { apply rne_ge; lia. }
  unfold rne in *.
  pose proof (Z.div_mod n d ltac:(lia)). pose proof (Z.mod_pos_bound n d Hd).
  pose proof (Z.div_mod n' d ltac:(lia)). pose proof (Z.mod_pos_bound n' d Hd).
  assert (n / d = n' / d)%Z as E.
  { destruct (Z.compare_spec (2 * (n mod d)) d);
      [destruct (Z.even (n / d)) | |]; nia. }
  rewrite <- E in *.
  destruct (Z.compare_spec (2 * (n mod d)) d), (Z.compare_spec (2 * (n' mod d)) d);
    destruct (Z.even (n / d)); nia.
Qed.

(** No integer is nearer to [n / d]. *)
Lemma rne_nearest n d k : (0 < d -> Z.abs (n - rne n d * d) <= Z.abs (n - k * d))%Z.
Proof.
  intros Hd.
  assert (H : (2 * Z.abs (n - rne n d * d) <= d)%Z).
  { unfold rne. pose proof (Z.div_mod n d ltac:(lia)). pose proof (Z.mod_pos_bound n d Hd).
    destruct (Z.compare_spec (2 * (n mod d)) d); [destruct (Z.even (n / d)) | |]; nia. }
  destruct (Z.eq_dec k (rne n d)) as [->|N]; [lia|].
  assert (d <= Z.abs ((rne n d - k) * d))%Z by (rewrite Z.abs_mul, (Z.abs_eq d) by lia; nia).
  replace (n - k * d)%Z with ((n - rne n d * d) + (rne n d - k) * d)%Z by ring. lia.
Qed.

(** Only the ratio matters. *)
Lemma rne_ratio n d n' d' : (0 < d -> 0 < d' -> n * d' = n' * d -> rne n d = rne n' d')%Z.
Proof.
  intros Hd Hd' H. unfold rne.
  pose proof (Z.div_mod n d ltac:(lia)) as E. pose proof (Z.mod_pos_bound n d Hd) as B.
  pose proof (Z.div_mod n' d' ltac:(lia)) as E'. pose proof (Z.mod_pos_bound n' d' Hd') as B'.
  assert (Q1 : (n / d = n' / d')%Z).
  { apply Z.le_antisymm; apply Z.div_le_lower_bound; nia. }
  rewrite <- Q1 in *. assert (R : (n mod d * d' = n' mod d' * d)%Z) by nia.
  destruct (Z.compare_spec (2 * (n mod d)) d), (Z.compare_spec (2 * (n' mod d')) d'); try reflexivity; nia.
Qed.

(** The same facts over [Q], for [x == n / d]. *)
Lemma rne_ge_Q n d k :
  (0 < d)%Z -> inject_Z k * inject_Z d <= inject_Z n -> (k <= rne n d)%Z.
Proof. intros Hd H. apply rne_ge; [lia|]. rewrite Zle_Qle, inject_Z_mul. exact H. Qed.

Lemma rne_le_Q n d k :
  (0 < d)%Z -> inject_Z n <= inject_Z k * inject_Z d -> (rne n d <= k)%Z.
Proof. intros Hd H. apply rne_le; [lia|]. rewrite Zle_Qle, inject_Z_mul. exact H. Qed.

(** ** The exponent chosen by the rounding *)

Lemma log2_frac_spec n d :
  (0 < n)%Z -> (0 < d)%Z ->
  inject_Z d * pow2 (log2_frac n d) <= inject_Z n < inject_Z d * pow2 (log2_frac n d + 1).
Proof.
  intros Hn Hd. unfold log2_frac.
  pose proof (Z.log2_spec n Hn) as [n1 n2]. pose proof (Z.log2_spec d Hd) as [d1 d2].
  pose proof (Z.log2_nonneg n). pose proof (Z.log2_nonneg d).
  set (k := (Z.log2 n - Z.log2 d)%Z).
  rewrite Z.pow_succ_r in n2, d2 by lia.
  rewrite Zle_Qle in n1, d1. rewrite Zlt_Qlt in n2, d2.
  rewrite inject_Z_mul in n2, d2. rewrite <- pow2_Z in n1, n2, d1, d2 by lia.
  assert (Hk : pow2 (Z.log2 n) == pow2 k * pow2 (Z.log2 d)) by (apply pow2_split).
  pose proof (pow2_pos k). pose proof (pow2_pos (Z.log2 d)).
  assert (Hb : (d * 2 ^ Z.max 0 k <= n * 2 ^ Z.max 0 (- k))%Z <->
               inject_Z d * pow2 k <= inject_Z n).
  { rewrite Zle_Qle, !inject_Z_mul, <- !pow2_Z by lia.
    destruct (Z.leb_spec 0 k).
    - rewrite Z.max_r, Z.max_l, pow2_0 by lia. split; intros; lra.
    - rewrite Z.max_l, Z.max_r, pow2_0 by lia.
      pose proof (pow2_opp k). pose proof (pow2_pos (- k)). split; intros; nra. }
  change (inject_Z 2) with (2 # 1) in n2, d2.
  assert (P1 : pow2 (k + 1) == 2 * pow2 k) by (rewrite pow2_add; change (pow2 1) with (2 # 1); ring).
  assert (P2 : pow2 k == 2 * pow2 (k - 1)).
  { rewrite (pow2_split k (k - 1)). replace (k - (k - 1))%Z with 1%Z by lia.
    change (pow2 1) with (2 # 1). reflexivity. }
  destruct (Z.leb_spec (d * 2 ^ Z.max 0 k) (n * 2 ^ Z.max 0 (- k))) as [L|G].
  - apply Hb in L. split; [exact L|]. rewrite P1. nra.
  - assert (~ inject_Z d * pow2 k <= inject_Z n) as G' by (rewrite <- Hb; lia).
    replace (k - 1 + 1)%Z with k by lia. split; nra.
Qed.

(** ** Values and representable numbers *)

Definition f_val (x : f64) : Q :=
  match x with F64_fin s m e => inject_Z (f64_signed s m) * pow2 e | _ => 0 end.

(** [n * 2^k] with a 53-bit significand and an exponent in range. *)
Definition f64_repr (q : Q) : Prop :=
  exists n k, (Z.abs n <= 2 ^ 53)%Z /\ (f64_emin <= k <= f64_emax)%Z /\ q == inject_Z n * pow2 k.

(** [x] is finite, representable, on the same side as [q] of every
    representable number, and no further from [q] than any of them: what
    rounding to nearest guarantees, and all the bounds below need. *)
Definition Rounds (q : Q) (x : f64) : Prop :=
  f64_is_finite x = true /\ f64_repr (f_val x) /\
  forall y, f64_repr y ->
    (y <= q -> y <= f_val x) /\ (q <= y -> f_val x <= y) /\ Qabs (f_val x - q) <= Qabs (y - q).

Lemma Rounds_ge q x y : Rounds q x -> f64_repr y -> y <= q -> y <= f_val x.
Proof. intros (_ & _ & H) R. apply H, R. Qed.
Lemma Rounds_le q x y : Rounds q x -> f64_repr y -> q <= y -> f_val x <= y.
Proof. intros (_ & _ & H) R. apply H, R. Qed.
Lemma Rounds_near q x y : Rounds q x -> f64_repr y -> Qabs (f_val x - q) <= Qabs (y - q).
Proof. intros (_ & _ & H) R. apply H, R. Qed.
Lemma Rounds_repr q x : Rounds q x -> f64_repr (f_val x).
Proof. intros (_ & H & _). exact H. Qed.
Lemma Rounds_exact q x : Rounds q x -> f64_repr q -> f_val x == q.
Proof.
  intros H R. apply Qle_antisym;
    [apply (Rounds_le _ _ _ H R) | apply (Rounds_ge _ _ _ H R)]; apply Qle_refl.
Qed.
Lemma Rounds_finite q x : Rounds q x -> f64_is_finite x = true.
Proof. intros [H _]. exact H. Qed.

(** Rounding is strictly order-reflecting between distinct exact values. *)
Lemma Rounds_mono p q x y : Rounds p x -> Rounds q y -> p < q -> f_val x <= f_val y.
Proof.
  intros X Y L. apply Qnot_lt_le. intros G.
  assert (B : f_val y < p) by (apply Qnot_le_lt; intros C; pose proof (Rounds_le _ _ _ X (Rounds_repr _ _ Y) C); lra).
  assert (A : q < f_val x) by (apply Qnot_le_lt; intros C; pose proof (Rounds_ge _ _ _ Y (Rounds_repr _ _ X) C); lra).
  pose proof (Rounds_near _ _ _ X (Rounds_repr _ _ Y)) as NX.
  pose proof (Rounds_near _ _ _ Y (Rounds_repr _ _ X)) as NY.
  rewrite (Qabs_pos (f_val x - p)), (Qabs_neg (f_val y - p)) in NX by lra.
  rewrite (Qabs_neg (f_val y - q)), (Qabs_pos (f_val x - q)) in NY by lra. lra.
Qed.

#[export] Instance f64_repr_proper : Proper (Qeq ==> iff) f64_repr.
Proof.
  intros p q E. unfold f64_repr. split; intros (n & k & H1 & H2 & H3); exists n, k;
    (split; [exact H1 | split; [exact H2|]]); rewrite <- H3; [symmetry|]; exact E.
Qed.

Lemma f64_repr_Z z : (Z.abs z <= 2 ^ 53)%Z -> f64_repr (inject_Z z).
Proof.
  intros H. exists z, 0%Z. unfold f64_emin, f64_emax. split; [exact H|]. split; [lia|].
  rewrite pow2_0. ring.
Qed.

Lemma f64_repr_frac z k :
  (Z.abs z <= 2 ^ 53)%Z -> (f64_emin <= k <= f64_emax)%Z -> f64_repr (inject_Z z * pow2 k).
Proof. intros H K. exists z, k. split; [exact H|]. split; [exact K|]. reflexivity. Qed.

Lemma f64_repr_opp q : f64_repr q -> f64_repr (- q).
Proof.
  intros (n & k & H1 & H2 & H3). exists (- n)%Z, k. rewrite Z.abs_opp.
  split; [exact H1|]. split; [exact H2|]. rewrite H3, inject_Z_opp. ring.
Qed.

(** ** Rounding to nearest stays between representable neighbours *)

Definition f64_max_finite : Q := inject_Z (2 ^ 53 - 1) * pow2 f64_emax.

Section RoundPositive.
Context (n d e0 : Z) (q : Q).
Hypothesis (Hn : (0 < n)%Z) (Hd : (0 < d)%Z).
Hypothesis Hq : inject_Z d * q == inject_Z n * pow2 e0.

Let E := (log2_frac n d + e0)%Z.
Let e := Z.max f64_emin (E - 52).
Let s := (e - e0)%Z.
Let N := (n * 2 ^ Z.max 0 (- s))%Z.
Let D := (d * 2 ^ Z.max 0 s)%Z.
Let m := rne N D.

Local Lemma D_pos : (0 < D)%Z.
Proof. apply Z.mul_pos_pos; [exact Hd | apply Z.pow_pos_nonneg; lia]. Qed.

Local Lemma q_binade : pow2 E <= q < pow2 (E + 1).
Proof.
  destruct (log2_frac_spec n d Hn Hd) as [L U].
  assert (pow2 E == pow2 (log2_frac n d) * pow2 e0) as -> by apply pow2_add.
  assert (pow2 (E + 1) == pow2 (log2_frac n d + 1) * pow2 e0) as ->.
  { rewrite <- pow2_add. unfold E. replace (log2_frac n d + e0 + 1)%Z
      with (log2_frac n d + 1 + e0)%Z by lia. reflexivity. }
  pose proof (pow2_pos e0). pose proof (inject_Z_pos d Hd).
  split; [apply (Qmult_le_l _ _ (inject_Z d)) | apply (Qmult_lt_l _ _ (inject_Z d))];
    try assumption; rewrite Hq; nra.
Qed.

Local Lemma N_scaled : inject_Z N * pow2 e == q * inject_Z D.
Proof.
  unfold N, D. rewrite !inject_Z_mul, <- !pow2_Z by lia.
  assert (pow2 (Z.max 0 (- s)) * pow2 e == pow2 e0 * pow2 (Z.max 0 s)) as H.
  { rewrite <- !pow2_add. unfold s.
    replace (Z.max 0 (- (e - e0)) + e)%Z with (e0 + Z.max 0 (e - e0))%Z by lia. reflexivity. }
  rewrite <- Qmult_assoc, H, !Qmult_assoc, <- Hq. ring.
Qed.

Local Lemma m_ge k : inject_Z k * pow2 e <= q -> (k <= m)%Z.
Proof.
  intros H. apply rne_ge_Q; [exact D_pos|].
  pose proof N_scaled. pose proof (pow2_pos e). pose proof (inject_Z_pos D D_pos).
  apply (Qmult_le_r _ _ (pow2 e)); [assumption|]. rewrite N_scaled. nra.
Qed.

Local Lemma m_le k : q <= inject_Z k * pow2 e -> (m <= k)%Z.
Proof.
  intros H. apply rne_le_Q; [exact D_pos|].
  pose proof N_scaled. pose proof (pow2_pos e). pose proof (inject_Z_pos D D_pos).
  apply (Qmult_le_r _ _ (pow2 e)); [assumption|]. rewrite N_scaled. nra.
Qed.

Local Lemma m_val_ge y : f64_repr y -> y <= q -> y <= inject_Z m * pow2 e.
Proof.
  intros (a & k & Ha & Hk & Hy) L. pose proof q_binade as [B _].
  destruct (Z.le_gt_cases e k) as [C|C].
  - assert (Hy' : y == inject_Z (a * 2 ^ (k - e)) * pow2 e).
    { rewrite Hy, inject_Z_mul, <- pow2_Z, (pow2_split k e) by lia. ring. }
    rewrite Hy' in L |- *. apply m_ge in L. rewrite Zle_Qle in L.
    pose proof (pow2_pos e). nra.
  - assert (e = E - 52)%Z as He by lia.
    assert (P : pow2 E == inject_Z (2 ^ 52) * pow2 e).
    { rewrite <- pow2_Z, <- pow2_add, He by lia. replace (52 + (E - 52))%Z with E by lia. reflexivity. }
    assert (M : (2 ^ 52 <= m)%Z) by (apply m_ge; rewrite <- P; exact B).
    assert (K : pow2 k <= pow2 (e - 1)) by (apply pow2_le; lia).
    assert (P' : pow2 E == inject_Z (2 ^ 53) * pow2 (e - 1)).
    { rewrite <- pow2_Z, <- pow2_add, He by lia.
      replace (53 + (E - 52 - 1))%Z with E by lia. reflexivity. }
    assert (A : inject_Z a <= inject_Z (2 ^ 53)) by (rewrite <- Zle_Qle; lia).
    rewrite Zle_Qle in M. pose proof (pow2_pos e). pose proof (pow2_pos k).
    assert (0 <= inject_Z (2 ^ 53)) by (apply Qlt_le_weak, inject_Z_pos; lia).
    apply Qle_trans with (pow2 E); [rewrite Hy, P'; nra | rewrite P; nra].
Qed.

Local Lemma m_val_le y : f64_repr y -> q <= y -> inject_Z m * pow2 e <= y.
Proof.
  intros (a & k & Ha & Hk & Hy) L. pose proof q_binade as [B _].
  destruct (Z.le_gt_cases e k) as [C|C].
  - assert (Hy' : y == inject_Z (a * 2 ^ (k - e)) * pow2 e).
    { rewrite Hy, inject_Z_mul, <- pow2_Z, (pow2_split k e) by lia. ring. }
    rewrite Hy' in L |- *. apply m_le in L. rewrite Zle_Qle in L.
    pose proof (pow2_pos e). nra.
  - assert (e = E - 52)%Z as He by lia.
    assert (P : pow2 E == inject_Z (2 ^ 52) * pow2 e).
    { rewrite <- pow2_Z, <- pow2_add, He by lia. replace (52 + (E - 52))%Z with E by lia. reflexivity. }
    assert (K : pow2 k <= pow2 (e - 1)) by (apply pow2_le; lia).
    assert (P' : pow2 E == inject_Z (2 ^ 53) * pow2 (e - 1)).
    { rewrite <- pow2_Z, <- pow2_add, He by lia.
      replace (53 + (E - 52 - 1))%Z with E by lia. reflexivity. }
    assert (A : inject_Z a <= inject_Z (2 ^ 53)) by (rewrite <- Zle_Qle; lia).
    pose proof (pow2_pos k).
    assert (0 <= inject_Z (2 ^ 53)) by (apply Qlt_le_weak, inject_Z_pos; lia).
    assert (Y : y <= pow2 E) by (rewrite Hy, P'; nra).
    assert (M : (m <= 2 ^ 52)%Z) by (apply m_le; rewrite <- P; lra).
    rewrite Zle_Qle in M. pose proof (pow2_pos e).
    apply Qle_trans with (pow2 E); [rewrite P; nra | lra].
Qed.

(** Distances to [q] in units of [pow2 e / D]. *)
Local Lemma near_scaled k :
  Qabs (inject_Z k * pow2 e - q) * inject_Z D == inject_Z (Z.abs (N - k * D)) * pow2 e.
Proof.
  pose proof (pow2_pos e). pose proof (inject_Z_pos D D_pos).
  rewrite <- (Qabs_pos (inject_Z D)) at 1 by lra. rewrite <- Qabs_Qmult.
  change (inject_Z (Z.abs (N - k * D))) with (Qabs (inject_Z (N - k * D))).
  rewrite <- (Qabs_pos (pow2 e)) at 2 by lra. rewrite <- Qabs_Qmult.
  unfold Z.sub. rewrite inject_Z_plus, inject_Z_opp, inject_Z_mul.
  rewrite <- (Qabs_opp ((inject_Z N + _) * _)). apply Qabs_wd.
  pose proof N_scaled. lra.
Qed.

Local Lemma m_near k : Qabs (inject_Z m * pow2 e - q) <= Qabs (inject_Z k * pow2 e - q).
Proof.
  pose proof (pow2_pos e). pose proof (inject_Z_pos D D_pos).
  apply (Qmult_le_r _ _ (inject_Z D)); [assumption|]. rewrite !near_scaled.
  apply Qmult_le_compat_r; [|lra]. rewrite <- Zle_Qle. apply rne_nearest, D_pos.
Qed.

Local Lemma m_val_near y : f64_repr y -> Qabs (inject_Z m * pow2 e - q) <= Qabs (y - q).
Proof.
  intros (a & k & Ha & Hk & Hy). pose proof q_binade as [B _].
  destruct (Z.le_gt_cases e k) as [C|C].
  - assert (Hy' : y == inject_Z (a * 2 ^ (k - e)) * pow2 e).
    { rewrite Hy, inject_Z_mul, <- pow2_Z, (pow2_split k e) by lia. ring. }
    rewrite Hy'. apply m_near.
  - assert (e = E - 52)%Z as He by lia.
    assert (P : pow2 E == inject_Z (2 ^ 52) * pow2 e).
    { rewrite <- pow2_Z, <- pow2_add, He by lia. replace (52 + (E - 52))%Z with E by lia. reflexivity. }
    assert (K : pow2 k <= pow2 (e - 1)) by (apply pow2_le; lia).
    assert (P' : pow2 E == inject_Z (2 ^ 53) * pow2 (e - 1)).
    { rewrite <- pow2_Z, <- pow2_add, He by lia.
      replace (53 + (E - 52 - 1))%Z with E by lia. reflexivity. }
    assert (A : inject_Z a <= inject_Z (2 ^ 53)) by (rewrite <- Zle_Qle; lia).
    pose proof (pow2_pos k).
    assert (0 <= inject_Z (2 ^ 53)) by (apply Qlt_le_weak, inject_Z_pos; lia).
    assert (Y : y <= pow2 E) by (rewrite Hy, P'; nra).
    apply Qle_trans with (Qabs (inject_Z (2 ^ 52) * pow2 e - q)); [apply m_near|].
    rewrite <- P. rewrite !Qabs_neg by lra. lra.
Qed.

(** The significand fits: the result is representable. *)
Local Lemma m_nonneg : (0 <= m)%Z.
Proof. apply m_ge. pose proof q_binade as [B _]. pose proof (pow2_pos E). change (inject_Z 0) with 0. lra. Qed.

Local Lemma m_le_53 : (m <= 2 ^ 53)%Z.
Proof.
  apply m_le. pose proof q_binade as [_ B].
  rewrite <- pow2_Z, <- pow2_add by lia. apply Qlt_le_weak, (Qlt_le_trans _ _ _ B), pow2_le. lia.
Qed.

Local Lemma e_bound : q <= f64_max_finite -> (f64_emin <= e <= f64_emax)%Z.
Proof.
  intros Hmax. pose proof q_binade as [B _]. split; [unfold e; lia|].
  destruct (Z.le_gt_cases E 1023) as [L|G]; [unfold e, f64_emin, f64_emax; lia|].
  exfalso. assert (pow2 1024 <= q) by (apply Qle_trans with (pow2 E); [apply pow2_le; lia | exact B]).
  assert (f64_max_finite < pow2 1024) by (vm_compute; reflexivity). lra.
Qed.

Lemma f64_round_pos (neg : bool) :
  q <= f64_max_finite ->
  f64_is_finite (f64_round neg n d e0) = true /\
  f_val (f64_round neg n d e0) == (if neg then - (inject_Z m * pow2 e) else inject_Z m * pow2 e).
Proof.
  intros Hmax. pose proof m_le_53 as M53. pose proof q_binade as [B _].
  pose proof (e_bound Hmax) as [_ He].
  assert (Hm : e = f64_emax -> (m <= 2 ^ 53 - 1)%Z) by (intros Ee; apply m_le; rewrite Ee; exact Hmax).
  unfold f64_round. rewrite (proj2 (Z.leb_gt n 0) Hn). fold E e s N D m.
  destruct (Z.eqb_spec m (2 ^ 53)) as [Em|Em].
  - assert (e <> f64_emax) by (intros Ee; specialize (Hm Ee); lia).
    destruct (Z.ltb_spec f64_emax (e + 1)); [lia|]. split; [reflexivity|].
    cbn [f_val]. rewrite Em.
    assert (P : pow2 (e + 1) == 2 * pow2 e) by (rewrite pow2_add; change (pow2 1) with (2 # 1); ring).
    assert (P' : inject_Z (2 ^ 53) == 2 * inject_Z (2 ^ 52)) by reflexivity.
    destruct neg; unfold f64_signed; rewrite ?inject_Z_opp, P, P'; ring.
  - destruct (Z.ltb_spec f64_emax e); [lia|]. split; [reflexivity|].
    cbn [f_val]. destruct neg; unfold f64_signed; rewrite ?inject_Z_opp; ring.
Qed.

Lemma f64_round_Rounds_pos (neg : bool) :
  q <= f64_max_finite -> Rounds (if neg then - q else q) (f64_round neg n d e0).
Proof.
  intros Hmax. destruct (f64_round_pos neg Hmax) as [F V]. split; [exact F|].
  assert (Rm : f64_repr (inject_Z m * pow2 e)).
  { apply f64_repr_frac; [|exact (e_bound Hmax)]. pose proof m_nonneg. pose proof m_le_53. lia. }
  split; [rewrite V; destruct neg; [apply f64_repr_opp|]; exact Rm|].
  intros y Ry. rewrite V. destruct neg.
  - apply f64_repr_opp in Ry.
    pose proof (m_val_le _ Ry). pose proof (m_val_ge _ Ry). pose proof (m_val_near _ Ry) as Nr.
    rewrite <- (Qabs_opp (_ - q)), <- (Qabs_opp (- y - q)) in Nr.
    assert (E1 : - (inject_Z m * pow2 e - q) == - (inject_Z m * pow2 e) - - q) by ring.
    assert (E2 : - (- y - q) == y - - q) by ring.
    rewrite E1, E2 in Nr. split; [intros; lra|]. split; [intros; lra | exact Nr].
  - split; [exact (m_val_ge _ Ry)|]. split; [exact (m_val_le _ Ry) | exact (m_val_near _ Ry)].
Qed.
End RoundPositive.

Lemma f64_round_zero neg d e0 : f64_round neg 0 d e0 = F64_fin neg 0 f64_emin.
Proof. reflexivity. Qed.

Lemma f64_val_zero neg e : f_val (F64_fin neg 0 e) == 0.
Proof. destruct neg; cbn [f_val]; unfold f64_signed; cbn; ring. Qed.

Lemma Rounds_zero neg e q : q == 0 -> Rounds q (F64_fin neg 0 e).
Proof.
  intros H. split; [reflexivity|]. split.
  - rewrite f64_val_zero. apply (f64_repr_Z 0). lia.
  - intros y _. rewrite f64_val_zero, H. split; [tauto|]. split; [tauto|].
    assert (0 - 0 == 0) as -> by ring. apply Qabs_nonneg.
Qed.

Lemma Rounds_eq p q x : p == q -> Rounds p x -> Rounds q x.
Proof.
  intros E (F & R & H). split; [exact F|]. split; [exact R|].
  intros y Ry. rewrite <- E. exact (H y Ry).
Qed.

#[export] Instance Rounds_proper : Proper (Qeq ==> eq ==> iff) Rounds.
Proof.
  intros p q E x ? <-. split; apply Rounds_eq; [|symmetry]; exact E.
Qed.

(** A signed numerator [z]: the form every operation below reduces to. *)
Lemma f64_round_signed z d e0 q :
  (0 < d)%Z -> inject_Z d * q == inject_Z z * pow2 e0 -> Qabs q <= f64_max_finite ->
  Rounds q (f64_round (z <? 0)%Z (Z.abs z) d e0).
Proof.
  intros Hd Hq Hm. pose proof (inject_Z_pos d Hd) as Dp.
  destruct (Z.lt_trichotomy z 0) as [L|[->|G]].
  - rewrite (proj2 (Z.ltb_lt z 0) L).
    assert (Rounds (- - q) (f64_round true (Z.abs z) d e0)) as H.
    { apply (f64_round_Rounds_pos (Z.abs z) d e0 (- q)) with (neg := true); [lia | lia | |].
      - rewrite Z.abs_neq, inject_Z_opp by lia. lra.
      - rewrite <- Qabs_opp in Hm. pose proof (Qle_Qabs (- q)). lra. }
    rewrite Qopp_involutive in H. exact H.
  - apply Rounds_zero. change (inject_Z 0) with 0 in Hq. nra.
  - rewrite (proj2 (Z.ltb_ge z 0)) by lia.
    apply (f64_round_Rounds_pos (Z.abs z) d e0 q) with (neg := false); [lia | lia | |].
    + rewrite Z.abs_eq by lia. exact Hq.
    + pose proof (Qle_Qabs q). lra.
Qed.

(** ** The operations round the exact result *)

Definition f64_wf (x : f64) : Prop :=
  match x with F64_fin _ m e => (0 <= m)%Z | _ => True end.

Lemma f64_is_finite_inv x :
  f64_is_finite x = true -> exists s m e, x = F64_fin s m e.
Proof. destruct x; try discriminate. eauto. Qed.

Lemma f64_signed_mul s t m n :
  f64_signed (xorb s t) (m * n) = (f64_signed s m * f64_signed t n)%Z.
Proof. destruct s, t; cbn; lia. Qed.

Lemma f64_signed_alt s m :
  (0 < m)%Z -> s = (f64_signed s m <? 0)%Z /\ m = Z.abs (f64_signed s m).
Proof.
  intros H. destruct s; cbn.
  - split; [symmetry; apply Z.ltb_lt; lia | lia].
  - split; [symmetry; apply Z.ltb_ge; lia | lia].
Qed.

Lemma f64_round_of_signed s m d e0 q :
  (0 <= m)%Z -> (0 < d)%Z -> inject_Z d * q == inject_Z (f64_signed s m) * pow2 e0 ->
  Qabs q <= f64_max_finite -> Rounds q (f64_round s m d e0).
Proof.
  intros Hm Hd Hq Hb. pose proof (inject_Z_pos d Hd).
  destruct (Z.eq_dec m 0) as [->|N].
  - apply Rounds_zero. assert (inject_Z (f64_signed s 0) == 0) by (destruct s; reflexivity). nra.
  - destruct (f64_signed_alt s m ltac:(lia)) as [E1 E2].
    pose proof (f64_round_signed (f64_signed s m) d e0 q Hd Hq Hb) as R.
    rewrite <- E1, <- E2 in R. exact R.
Qed.

Lemma f64_base_align s m e t n f :
  inject_Z (f64_signed s m) * pow2 e == inject_Z (f64_signed s m * 2 ^ (e - f64_base m e n f)) * pow2 (f64_base m e n f) /\
  inject_Z (f64_signed t n) * pow2 f == inject_Z (f64_signed t n * 2 ^ (f - f64_base m e n f)) * pow2 (f64_base m e n f).
Proof.
  assert (A : forall z e g, (z = 0 \/ g <= e)%Z -> inject_Z z * pow2 e == inject_Z (z * 2 ^ (e - g)) * pow2 g).
  { intros z a g [->|L]; [rewrite Z.mul_0_l; change (inject_Z 0) with 0; ring|].
    rewrite inject_Z_mul, <- pow2_Z, (pow2_split a g) by lia. ring. }
  unfold f64_base. split; apply A;
    (destruct (Z.eqb_spec m 0) as [->|]; [|destruct (Z.eqb_spec n 0) as [->|]]); try (right; lia); left; destruct s, t; reflexivity.
Qed.

Lemma f64_add_Rounds x y :
  f64_is_finite x = true -> f64_is_finite y = true ->
  Qabs (f_val x + f_val y) <= f64_max_finite ->
  Rounds (f_val x + f_val y) (f64_add x y).
Proof.
  intros (s & m & e & ->)%f64_is_finite_inv (t & n & f & ->)%f64_is_finite_inv Hb.
  cbn [f64_add f_val] in *. destruct (f64_base_align s m e t n f) as [X Y]. set (g := f64_base m e n f) in *.
  set (z := (f64_signed s m * 2 ^ (e - g) + f64_signed t n * 2 ^ (f - g))%Z).
  assert (V : inject_Z (f64_signed s m) * pow2 e + inject_Z (f64_signed t n) * pow2 f
              == inject_Z z * pow2 g) by (rewrite X, Y; unfold z; rewrite inject_Z_plus; ring).
  rewrite V in *. destruct (Z.eqb_spec z 0) as [->|N].
  - apply Rounds_zero. ring.
  - apply f64_round_signed; [lia | ring | exact Hb].
Qed.

Lemma f64_opp_val x : f_val (f64_opp x) == - f_val x.
Proof.
  destruct x as [|s|s m e]; try reflexivity. cbn [f64_opp f_val].
  destruct s; unfold f64_signed; cbn [negb]; rewrite ?inject_Z_opp; ring.
Qed.

Lemma f64_opp_finite x : f64_is_finite (f64_opp x) = f64_is_finite x.
Proof. destruct x; reflexivity. Qed.

Lemma f64_sub_Rounds x y :
  f64_is_finite x = true -> f64_is_finite y = true ->
  Qabs (f_val x - f_val y) <= f64_max_finite ->
  Rounds (f_val x - f_val y) (f64_sub x y).
Proof.
  intros Fx Fy Hb. unfold f64_sub.
  assert (E : f_val x - f_val y == f_val x + f_val (f64_opp y)) by (rewrite f64_opp_val; ring).
  rewrite E in *. apply f64_add_Rounds; try assumption. rewrite f64_opp_finite. exact Fy.
Qed.

Lemma f64_mul_Rounds x y :
  f64_wf x -> f64_wf y -> f64_is_finite x = true -> f64_is_finite y = true ->
  Qabs (f_val x * f_val y) <= f64_max_finite ->
  Rounds (f_val x * f_val y) (f64_mul x y).
Proof.
  intros Wx Wy (s & m & e & ->)%f64_is_finite_inv (t & n & f & ->)%f64_is_finite_inv Hb.
  cbn [f64_wf f64_mul] in *. apply f64_round_of_signed; [nia | lia | | exact Hb].
  rewrite f64_signed_mul, inject_Z_mul, pow2_add. cbn [f_val]. ring.
Qed.

Lemma f64_div_Rounds x y q :
  f64_wf x -> f64_wf y -> f64_is_finite x = true -> f64_is_finite y = true ->
  ~ f_val y == 0 -> q * f_val y == f_val x -> Qabs q <= f64_max_finite ->
  Rounds q (f64_div x y).
Proof.
  intros Wx Wy (s & m & e & ->)%f64_is_finite_inv (t & n & f & ->)%f64_is_finite_inv Ny Hq Hb.
  cbn [f64_wf f64_div] in *. destruct (Z.eqb_spec n 0) as [->|Nn].
  { exfalso. apply Ny, f64_val_zero. }
  apply f64_round_of_signed; [lia | lia | | exact Hb].
  cbn [f_val] in Hq. pose proof (pow2_pos f) as Pf.
  assert (pow2 e == pow2 (e - f) * pow2 f) as Pe by apply pow2_split.
  rewrite Pe in Hq. apply (Qmult_inj_r _ _ (pow2 f)); [lra|].
  destruct s, t; unfold f64_signed in *; cbn [xorb]; rewrite ?inject_Z_opp in *; nra.
Qed.

(** ** Well-formedness: significands are never negative *)

Lemma f64_round_wf s n d e0 : (0 < d)%Z -> f64_wf (f64_round s n d e0).
Proof.
  intros Hd. unfold f64_round. destruct (Z.leb_spec n 0); [cbn; lia|].
  set (e := Z.max _ _). set (N := (n * _)%Z). set (D := (d * _)%Z).
  assert (0 <= rne N D)%Z.
  { apply rne_ge; [|unfold N; nia]. apply Z.mul_pos_pos; [exact Hd | apply Z.pow_pos_nonneg; lia]. }
  destruct (rne N D =? 2 ^ 53)%Z; destruct (f64_emax <? _)%Z; cbn [f64_wf]; lia.
Qed.

Lemma f64_opp_wf x : f64_wf x -> f64_wf (f64_opp x).
Proof. destruct x; exact (fun H => H). Qed.

Lemma f64_add_wf x y : f64_wf x -> f64_wf y -> f64_wf (f64_add x y).
Proof.
  destruct x as [|s|s m e], y as [|t|t n f]; cbn [f64_add f64_wf]; intros; try exact I; try lia.
  - destruct (Bool.eqb s t); exact I.
  - destruct (_ =? 0)%Z; [cbn; lia | apply f64_round_wf; lia].
Qed.

Lemma f64_sub_wf x y : f64_wf x -> f64_wf y -> f64_wf (f64_sub x y).
Proof. intros. apply f64_add_wf; [|apply f64_opp_wf]; assumption. Qed.

Lemma f64_mul_wf x y : f64_wf (f64_mul x y).
Proof.
  destruct x, y; cbn [f64_mul]; try exact I; try (destruct (_ =? 0)%Z; exact I).
  apply f64_round_wf. lia.
Qed.

Lemma f64_div_wf x y : f64_wf y -> f64_wf (f64_div x y).
Proof.
  destruct x, y; cbn [f64_div f64_wf]; intros; try exact I; try lia.
  destruct (Z.eqb_spec m0 0); [destruct (m =? 0)%Z; exact I | apply f64_round_wf; lia].
Qed.

Lemma f64_of_Z_wf z : f64_wf (f64_of_Z z).
Proof. apply f64_round_wf. lia. Qed.

Lemma f64_lit_wf n d : (0 < d)%Z -> f64_wf (f64_lit n d).
Proof. apply f64_round_wf. Qed.

(** ** Integers and literals *)

Lemma f64_of_Z_Rounds z : (Z.abs z <= 2 ^ 64)%Z -> Rounds (inject_Z z) (f64_of_Z z).
Proof.
  intros H. apply f64_round_signed; [lia | change (inject_Z 1) with 1; rewrite pow2_0; ring |].
  apply Qle_trans with (inject_Z (2 ^ 64)); [|vm_compute; discriminate].
  change (Qabs (inject_Z z)) with (inject_Z (Z.abs z)). rewrite <- Zle_Qle. exact H.
Qed.

Lemma f64_of_Z_exact z : (Z.abs z <= 2 ^ 53)%Z -> f_val (f64_of_Z z) == inject_Z z.
Proof. intros H. apply Rounds_exact; [apply f64_of_Z_Rounds; lia | apply f64_repr_Z, H]. Qed.

Lemma f64_of_Z_finite z : (Z.abs z <= 2 ^ 64)%Z -> f64_is_finite (f64_of_Z z) = true.
Proof. intros H. exact (Rounds_finite _ _ (f64_of_Z_Rounds z H)). Qed.

(** ** Comparisons *)

Lemma f64_compare_val x y :
  f64_is_finite x = true -> f64_is_finite y = true ->
  f64_compare x y = Some (f_val x ?= f_val y).
Proof.
  intros (s & m & e & ->)%f64_is_finite_inv (t & n & f & ->)%f64_is_finite_inv.
  cbn [f64_compare f_val]. f_equal. destruct (f64_base_align s m e t n f) as [X Y]. set (g := f64_base m e n f) in *.
  pose proof (pow2_pos g). symmetry.
  destruct (Z.compare_spec (f64_signed s m * 2 ^ (e - g)) (f64_signed t n * 2 ^ (f - g))) as [C|C|C].
  - apply Qeq_alt. rewrite X, Y, C. reflexivity.
  - apply Qlt_alt. rewrite X, Y. apply Qmult_lt_r; [assumption|]. rewrite <- Zlt_Qlt. exact C.
  - apply Qgt_alt. rewrite X, Y. apply Qmult_lt_r; [assumption|]. rewrite <- Zlt_Qlt. exact C.
Qed.

Lemma f64_ltb_val x y :
  f64_is_finite x = true -> f64_is_finite y = true ->
  f64_ltb x y = true <-> f_val x < f_val y.
Proof.
  intros Fx Fy. unfold f64_ltb. rewrite f64_compare_val by assumption.
  rewrite Qlt_alt. destruct (f_val x ?= f_val y); split; congruence.
Qed.

Lemma f64_leb_val x y :
  f64_is_finite x = true -> f64_is_finite y = true ->
  f64_leb x y = true <-> f_val x <= f_val y.
Proof.
  intros Fx Fy. unfold f64_leb. rewrite f64_compare_val by assumption.
  rewrite Qle_alt. destruct (f_val x ?= f_val y); split; congruence.
Qed.

Lemma f64_ltb_false x y :
  f64_is_finite x = true -> f64_is_finite y = true ->
  f64_ltb x y = false <-> f_val y <= f_val x.
Proof.
  intros Fx Fy. rewrite <- not_true_iff_false, f64_ltb_val by assumption.
  split; [apply Qnot_lt_le | apply Qle_not_lt].
Qed.

(** *** [total_cmp] orders by class, value and sign *)

Definition f64_class (x : f64) : Z := match x with F64_nan => 2 | F64_inf s => if s then -1 else 1 | F64_fin _ _ _ => 0 end.

Definition f64_total_le (x y : f64) : Prop :=
  (f64_class x < f64_class y)%Z \/
  f64_class x = f64_class y /\
  (f_val x < f_val y \/ f_val x == f_val y /\ (f64_neg_sign y = true -> f64_neg_sign x = true)).

Lemma f64_total_cmp_le x y : f64_total_cmp x y <> Gt <-> f64_total_le x y.
Proof.
  unfold f64_total_le, f64_total_cmp.
  destruct (f64_is_finite x) eqn:Fx; [destruct (f64_is_finite y) eqn:Fy|].
  - rewrite f64_compare_val by assumption. destruct (f64_is_finite_inv x Fx) as (s & m & e & Ex), (f64_is_finite_inv y Fy) as (t & n & f & Ey).
    assert (f64_class x = 0 /\ f64_class y = 0)%Z as [-> ->] by (rewrite Ex, Ey; auto).
    destruct (f_val x ?= f_val y) eqn:C.
    + apply Qeq_alt in C. split.
      * intros N. right. split; [reflexivity|]. right. split; [exact C|].
        intros Sy. rewrite Sy in N. destruct (f64_neg_sign x); [reflexivity|]. exfalso. apply N. reflexivity.
      * intros [L|[_ [L|[_ S]]]]; [lia | lra|]. destruct (f64_neg_sign x), (f64_neg_sign y); try discriminate. discriminate (S eq_refl).
    + apply Qlt_alt in C. split; [|discriminate]. intros _. right. split; [reflexivity | left; assumption].
    + apply Qgt_alt in C. split; [congruence|]. intros [L|[_ [L|[L _]]]]; [lia | lra | lra].
  - destruct x as [|s|s m e], y as [|[]|t n f]; try discriminate; cbn; (split; [intros N; try lia; exfalso; apply N; reflexivity | ]);
      intros [L|[L _]]; try lia; discriminate.
  - destruct x as [|[]|s m e], y as [|[]|t n f]; try discriminate; cbn; split; intros N; try lia; try discriminate;
      try (exfalso; apply N; reflexivity); try (right; split; [reflexivity | right; split; [reflexivity | tauto]]);
      destruct N as [L|[L _]]; lia.
Qed.

Lemma f64_total_cmp_total x y : f64_total_cmp x y <> Gt \/ f64_total_cmp y x <> Gt.
Proof.
  rewrite !f64_total_cmp_le. unfold f64_total_le.
  destruct (Z.lt_total (f64_class x) (f64_class y)) as [|[E|]]; [left; left; assumption| |right; left; assumption].
  destruct (Qlt_le_dec (f_val x) (f_val y)); [left; right; auto|].
  destruct (Qlt_le_dec (f_val y) (f_val x)); [right; right; auto|].
  assert (f_val x == f_val y) by lra. assert (f_val y == f_val x) by lra.
  destruct (f64_neg_sign x); [left; right; split; [exact E | right; tauto]|].
  right; right; split; [symmetry; exact E | right; split; [assumption | discriminate]].
Qed.

Lemma f64_total_cmp_trans x y z : f64_total_cmp x y <> Gt -> f64_total_cmp y z <> Gt -> f64_total_cmp x z <> Gt.
Proof.
  rewrite !f64_total_cmp_le. unfold f64_total_le. intros [A|[A [A'|[A' A'']]]] [B|[B [B'|[B' B'']]]]; try (left; lia);
    right; (split; [lia|]); [left; lra.. | right; split; [lra | tauto]].
Qed.

Lemma f64_compare_sym x y : f64_compare y x = option_map CompOpp (f64_compare x y).
Proof.
  destruct (f64_is_finite x) eqn:Fx; [destruct (f64_is_finite y) eqn:Fy|].
  - rewrite !f64_compare_val by assumption. cbn. rewrite <- Qcompare_antisym. reflexivity.
  - destruct x as [|[]|], y as [|[]|]; try reflexivity; discriminate.
  - destruct x as [|[]|], y as [|[]|]; try reflexivity; discriminate.
Qed.

Lemma f64_total_cmp_sym x y : f64_total_cmp y x = CompOpp (f64_total_cmp x y).
Proof.
  unfold f64_total_cmp. rewrite f64_compare_sym. destruct (f64_compare x y) as [[]|] eqn:C; cbn; try reflexivity.
  - destruct (f64_neg_sign x), (f64_neg_sign y); reflexivity.
  - destruct x as [|[]|], y as [|[]|]; try reflexivity; discriminate.
Qed.

(** ** [clamp] and [max] *)

Lemma f64_clamp_bounds x lo hi :
  f64_is_finite x = true -> f64_is_finite lo = true -> f64_is_finite hi = true ->
  f_val lo <= f_val hi ->
  f64_is_finite (f64_clamp x lo hi) = true /\
  f_val lo <= f_val (f64_clamp x lo hi) <= f_val hi.
Proof.
  intros Fx Fl Fh H. unfold f64_clamp. destruct (f64_ltb x lo) eqn:A.
  - split; [exact Fl|]. lra.
  - apply f64_ltb_false in A; try assumption. destruct (f64_ltb hi x) eqn:B.
    + split; [exact Fh|]. lra.
    + apply f64_ltb_false in B; try assumption. split; [exact Fx|]. lra.
Qed.

(** ** Conversions to integers *)

Lemma f64_val_nonneg_exp s m e : (0 <= e)%Z ->
  f_val (F64_fin s m e) == inject_Z (f64_signed s m * 2 ^ e).
Proof. intros. cbn [f_val]. rewrite inject_Z_mul, <- pow2_Z by lia. reflexivity. Qed.

Lemma f64_val_neg_exp s m e : (e < 0)%Z ->
  f_val (F64_fin s m e) * inject_Z (2 ^ (- e)) == inject_Z (f64_signed s m).
Proof.
  intros. cbn [f_val]. rewrite <- pow2_Z by lia. rewrite <- Qmult_assoc, pow2_opp. ring.
Qed.

(** A finite value lies in [[z, z+1)] exactly when its floor is [z]. *)
Lemma f64_trunc_floor s m e z :
  (0 <= m)%Z -> (0 <= f64_signed s m)%Z ->
  inject_Z z <= f_val (F64_fin s m e) < inject_Z (z + 1) -> f64_trunc (F64_fin s m e) = z.
Proof.
  intros Hm Hs [L U].
  assert (S : f64_signed s m = m) by (destruct s; unfold f64_signed in *; lia).
  assert (T : f64_trunc (F64_fin s m e) = (if 0 <=? e then m * 2 ^ e else m / 2 ^ (- e))%Z).
  { destruct s; [|reflexivity]. unfold f64_signed in Hs. assert (m = 0)%Z as -> by lia.
    cbn [f64_trunc f64_signed]. rewrite Z.mul_0_l, Zdiv_0_l.
    destruct (0 <=? e)%Z; reflexivity. }
  rewrite T. destruct (Z.leb_spec 0 e).
  - rewrite f64_val_nonneg_exp, S in L, U by lia. rewrite <- Zle_Qle in L. rewrite <- Zlt_Qlt in U. lia.
  - pose proof (f64_val_neg_exp s m e ltac:(lia)) as V. rewrite S in V.
    assert (P : (0 < 2 ^ (- e))%Z) by (apply Z.pow_pos_nonneg; lia).
    pose proof (inject_Z_pos _ P) as PQ.
    assert (L' : (z * 2 ^ (- e) <= m)%Z) by (rewrite Zle_Qle, inject_Z_mul, <- V; nra).
    assert (U' : (m < (z + 1) * 2 ^ (- e))%Z) by (rewrite Zlt_Qlt, inject_Z_mul, <- V; nra).
    apply Z.le_antisymm; [apply Z.lt_succ_r, Z.div_lt_upper_bound; lia|].
    apply Z.div_le_lower_bound; lia.
Qed.

Lemma f64_signed_nonneg s m e :
  0 <= f_val (F64_fin s m e) -> (0 <= f64_signed s m)%Z.
Proof.
  cbn [f_val]. intros H. rewrite Zle_Qle. change (inject_Z 0) with 0.
  pose proof (pow2_pos e). nra.
Qed.

(** Saturating conversion of a nonnegative value: the floor, clamped. *)
Lemma f64_to_int_floor lo hi x z :
  f64_wf x -> f64_is_finite x = true -> (lo <= 0)%Z -> (0 <= z <= hi)%Z ->
  inject_Z z <= f_val x < inject_Z (z + 1) -> f64_to_int lo hi x = z.
Proof.
  intros W (s & m & e & ->)%f64_is_finite_inv Hlo Hz Hv. cbn [f64_to_int].
  rewrite (f64_trunc_floor s m e z); [lia | exact W | | exact Hv].
  apply (f64_signed_nonneg s m e). destruct Hv as [L _].
  assert (0 <= inject_Z z) by (change 0 with (inject_Z 0); rewrite <- Zle_Qle; lia). lra.
Qed.

(** [ceil] of a finite value in the exactly representable integer range. *)
Lemma f64_ceil_val x z :
  f64_wf x -> f64_is_finite x = true -> (0 <= z <= 2 ^ 53)%Z ->
  inject_Z z - 1 < f_val x <= inject_Z z -> 0 <= f_val x ->
  f64_is_finite (f64_ceil x) = true /\ f64_wf (f64_ceil x) /\ f_val (f64_ceil x) == inject_Z z.
Proof.
  intros W (s & m & e & ->)%f64_is_finite_inv Hz [L U] Hpos.
  pose proof (f64_signed_nonneg s m e Hpos) as Hs.
  cbn [f64_ceil]. destruct (Z.leb_spec 0 e).
  - split; [reflexivity|]. split; [exact W|].
    rewrite f64_val_nonneg_exp in * by lia.
    change 1 with (inject_Z 1) in L. unfold Qminus in L. rewrite <- inject_Z_opp, <- inject_Z_plus, <- Zlt_Qlt in L.
    rewrite <- Zle_Qle in U. replace (f64_signed s m * 2 ^ e)%Z with z by lia. reflexivity.
  - pose proof (f64_val_neg_exp s m e ltac:(lia)) as V.
    assert (P : (0 < 2 ^ (- e))%Z) by (apply Z.pow_pos_nonneg; lia).
    pose proof (inject_Z_pos _ P) as PQ.
    set (k := (2 ^ (- e))%Z) in *.
    assert (U' : (f64_signed s m <= z * k)%Z).
    { rewrite Zle_Qle, inject_Z_mul, <- V. apply Qmult_le_compat_r; [exact U | lra]. }
    assert (L' : ((z - 1) * k < f64_signed s m)%Z).
    { rewrite Zlt_Qlt, inject_Z_mul, <- V. change (z - 1)%Z with (z + - (1))%Z.
      rewrite inject_Z_plus. change (inject_Z (-(1))) with (- (1)).
      apply Qmult_lt_r; [exact PQ | exact L]. }
    assert (D : (- ((- f64_signed s m) / k) = z)%Z).
    { assert (- f64_signed s m / k = - z)%Z; [|lia].
      apply Z.le_antisymm; [apply Z.lt_succ_r, Z.div_lt_upper_bound; lia|].
      apply Z.div_le_lower_bound; lia. }
    rewrite D, Z.abs_eq by lia.
    assert (R : Rounds (inject_Z z) (f64_round s z 1 0)).
    { destruct (Z.eq_dec z 0) as [->|Nz]; [apply Rounds_zero; reflexivity|].
      assert (s = false) as ->.
      { destruct s; [|reflexivity]. unfold f64_signed in *. cbn [f64_wf] in W.
        assert (m = 0)%Z by lia. subst m. exfalso. assert (z - 1 < 0)%Z by nia. lia. }
      apply f64_round_of_signed; [lia | lia | rewrite pow2_0; unfold f64_signed; ring |].
      apply Qle_trans with (inject_Z (2 ^ 53)); [|vm_compute; discriminate].
      change (Qabs (inject_Z z)) with (inject_Z (Z.abs z)). rewrite <- Zle_Qle. lia. }
    split; [exact (Rounds_finite _ _ R)|]. split; [apply f64_round_wf; lia|].
    apply (Rounds_exact _ _ R), f64_repr_Z. lia.
Qed.

(** ** Rounding to an integer away from zero on ties, on integral values *)

Lemma f64_round_half_away_int x z :
  f64_wf x -> f64_is_finite x = true -> (Z.abs z <= 2 ^ 53)%Z -> f_val x == inject_Z z ->
  f64_is_finite (f64_round_half_away x) = true /\
  f64_wf (f64_round_half_away x) /\ f_val (f64_round_half_away x) == inject_Z z.
Proof.
  intros W (s & m & e & ->)%f64_is_finite_inv Hz V.
  cbn [f64_round_half_away]. destruct (Z.leb_spec 0 e); [tauto|].
  pose proof (f64_val_neg_exp s m e ltac:(lia)) as Ve. rewrite V, <- inject_Z_mul in Ve.
  assert (P : (0 < 2 ^ (- e))%Z) by (apply Z.pow_pos_nonneg; lia).
  set (k := (2 ^ (- e))%Z) in *.
  assert (M : (z * k = f64_signed s m)%Z).
  { apply Z.le_antisymm; rewrite Zle_Qle, Ve; apply Qle_refl. }
  cbn [f64_wf] in W.
  assert (A : (m = Z.abs z * k)%Z) by (destruct s; unfold f64_signed in M; nia).
  assert (D : ((2 * m + k) / (2 * k) = Z.abs z)%Z).
  { symmetry. apply (Z.div_unique_pos _ _ _ k); [lia|]. rewrite A. ring. }
  rewrite D.
  assert (R : Rounds (inject_Z z) (f64_round s (Z.abs z) 1 0)).
  { destruct (Z.eq_dec z 0) as [->|Nz]; [apply Rounds_zero; reflexivity|].
    apply f64_round_of_signed; [lia | lia | |].
    - rewrite pow2_0. replace (f64_signed s (Z.abs z)) with z; [change (inject_Z 1) with 1; ring|].
      destruct s; unfold f64_signed in *; nia.
    - apply Qle_trans with (inject_Z (2 ^ 53)); [|vm_compute; discriminate].
      change (Qabs (inject_Z z)) with (inject_Z (Z.abs z)). rewrite <- Zle_Qle. lia. }
  split; [exact (Rounds_finite _ _ R)|]. split; [apply f64_round_wf; lia|].
  apply (Rounds_exact _ _ R), f64_repr_Z, Hz.
Qed.

(** A finite value equal to an integer converts to it, within the bounds. *)
Lemma f64_to_int_exact lo hi x z :
  f64_wf x -> f64_is_finite x = true -> (lo <= z <= hi)%Z -> (lo <= 0)%Z -> f_val x == inject_Z z ->
  f64_to_int lo hi x = z.
Proof.
  intros W F Hz Hlo V. destruct (Z.le_gt_cases 0 z) as [N|N].
  { apply f64_to_int_floor; try assumption; [lia|]. rewrite V. split; [apply Qle_refl|].
    rewrite <- Zlt_Qlt. lia. }
  apply f64_is_finite_inv in F as (s & m & e & ->). cbn [f64_to_int f64_trunc].
  cbn [f64_wf] in W. destruct (Z.leb_spec 0 e) as [E|E].
  - rewrite f64_val_nonneg_exp in V by lia.
    assert (f64_signed s m * 2 ^ e = z)%Z.
    { apply Z.le_antisymm; rewrite Zle_Qle, V; apply Qle_refl. }
    assert (f64_signed s (m * 2 ^ e) = z)%Z by (destruct s; unfold f64_signed in *; lia). lia.
  - pose proof (f64_val_neg_exp s m e E) as Ve. rewrite V, <- inject_Z_mul in Ve.
    assert (P : (0 < 2 ^ (- e))%Z) by (apply Z.pow_pos_nonneg; lia).
    assert (M : (z * 2 ^ (- e) = f64_signed s m)%Z).
    { apply Z.le_antisymm; rewrite Zle_Qle, Ve; apply Qle_refl. }
    destruct s; unfold f64_signed in *; [|nia].
    replace m with (- z * 2 ^ (- e))%Z by lia. rewrite Z.div_mul by lia. lia.
Qed.

(** ** The result depends on the exact value only, and is monotone in it *)

Lemma pow2_binade_unique a b q : pow2 a <= q < pow2 (a + 1) -> pow2 b <= q < pow2 (b + 1) -> a = b.
Proof.
  intros [A1 A2] [B1 B2]. destruct (Z.lt_trichotomy a b) as [L|[E|G]]; [|exact E|]; exfalso.
  - assert (pow2 (a + 1) <= pow2 b) by (apply pow2_le; lia). lra.
  - assert (pow2 (b + 1) <= pow2 a) by (apply pow2_le; lia). lra.
Qed.

Lemma f64_round_det n d e0 n' d' e0' q (s : bool) :
  (0 < n)%Z -> (0 < d)%Z -> (0 < n')%Z -> (0 < d')%Z ->
  inject_Z d * q == inject_Z n * pow2 e0 -> inject_Z d' * q == inject_Z n' * pow2 e0' ->
  f64_round s n d e0 = f64_round s n' d' e0'.
Proof.
  intros Hn Hd Hn' Hd' Hq Hq'.
  assert (EE : (log2_frac n d + e0 = log2_frac n' d' + e0')%Z).
  { eapply pow2_binade_unique; [apply (q_binade n d e0 q); assumption | apply (q_binade n' d' e0' q); assumption]. }
  unfold f64_round. rewrite (proj2 (Z.leb_gt n 0)), (proj2 (Z.leb_gt n' 0)), EE by assumption.
  set (e := Z.max f64_emin (log2_frac n' d' + e0' - 52)).
  pose proof (N_scaled n d e0 q Hq) as S1. pose proof (N_scaled n' d' e0' q Hq') as S2.
  rewrite EE in S1. fold e in S1, S2.
  rewrite (rne_ratio _ _ (n' * 2 ^ Z.max 0 (- (e - e0'))) (d' * 2 ^ Z.max 0 (e - e0'))); [reflexivity | | |].
  - apply Z.mul_pos_pos; [exact Hd | apply Z.pow_pos_nonneg; lia].
  - apply Z.mul_pos_pos; [exact Hd' | apply Z.pow_pos_nonneg; lia].
  - set (N := (n * _)%Z) in *. set (D := (d * _)%Z) in *. set (N' := (n' * _)%Z) in *. set (D' := (d' * _)%Z) in *.
    pose proof (pow2_pos e).
    assert (H0 : inject_Z (N * D') == inject_Z (N' * D)).
    { rewrite !inject_Z_mul. apply (Qmult_inj_r _ _ (pow2 e)); [lra|].
      assert (inject_Z N * inject_Z D' * pow2 e == inject_Z N * pow2 e * inject_Z D') as -> by ring.
      assert (inject_Z N' * inject_Z D * pow2 e == inject_Z N' * pow2 e * inject_Z D) as -> by ring.
      rewrite S1, S2. ring. }
    apply Z.le_antisymm; rewrite Zle_Qle, H0; apply Qle_refl.
Qed.

Lemma f64_round_signed_det z d e0 z' d' e0' q :
  (0 < d)%Z -> (0 < d')%Z ->
  inject_Z d * q == inject_Z z * pow2 e0 -> inject_Z d' * q == inject_Z z' * pow2 e0' ->
  f64_round (z <? 0)%Z (Z.abs z) d e0 = f64_round (z' <? 0)%Z (Z.abs z') d' e0'.
Proof.
  intros Hd Hd' Hq Hq'. pose proof (inject_Z_pos d Hd). pose proof (inject_Z_pos d' Hd').
  pose proof (pow2_pos e0). pose proof (pow2_pos e0').
  assert (Sg : forall w d1 e1, 0 < d1 -> 0 < pow2 e1 -> d1 * q == inject_Z w * pow2 e1 ->
    (0 < q <-> (0 < w)%Z) /\ (q < 0 <-> (w < 0)%Z)).
  { intros w d1 e1 P1 P2 E1. rewrite !Zlt_Qlt. change (inject_Z 0) with 0. split; split; intros; nra. }
  destruct (Sg z _ _ H H1 Hq) as [P1 P2]. destruct (Sg z' _ _ H0 H2 Hq') as [P1' P2'].
  destruct (Z.lt_trichotomy z 0) as [L|[->|G]].
  - assert (z' < 0)%Z by (apply P2', P2, L).
    rewrite (proj2 (Z.ltb_lt z 0)), (proj2 (Z.ltb_lt z' 0)) by assumption.
    apply (f64_round_det _ _ _ _ _ _ (- q)); try lia; rewrite Z.abs_neq, inject_Z_opp by lia; lra.
  - assert (z' = 0)%Z as -> by (destruct (Z.lt_trichotomy z' 0) as [C|[C|C]];
      [apply P2', P2 in C; lia | exact C | apply P1', P1 in C; lia]). reflexivity.
  - assert (0 < z')%Z by (apply P1', P1, G).
    rewrite (proj2 (Z.ltb_ge z 0)), (proj2 (Z.ltb_ge z' 0)) by lia.
    apply (f64_round_det _ _ _ _ _ _ q); try lia; rewrite Z.abs_eq by lia; assumption.
Qed.

(** Addition is monotone: the fact that lets a larger gain or a smaller cost
    only ever raise a price. *)
Lemma f64_add_val_eq x y x' y' :
  f64_is_finite x = true -> f64_is_finite y = true ->
  f64_is_finite x' = true -> f64_is_finite y' = true ->
  f_val x + f_val y == f_val x' + f_val y' ->
  f_val (f64_add x y) == f_val (f64_add x' y').
Proof.
  assert (A : forall x y, f64_is_finite x = true -> f64_is_finite y = true ->
    exists z g, f_val (f64_add x y) == f_val (f64_round (z <? 0)%Z (Z.abs z) 1 g) /\
                f_val x + f_val y == inject_Z z * pow2 g).
  { intros u v (s & m & e & ->)%f64_is_finite_inv (t & n & f & ->)%f64_is_finite_inv.
    cbn [f64_add f_val]. destruct (f64_base_align s m e t n f) as [X Y]. set (g := f64_base m e n f) in *.
    set (z := (f64_signed s m * 2 ^ (e - g) + f64_signed t n * 2 ^ (f - g))%Z). exists z, g. split.
    - destruct (Z.eqb_spec z 0) as [->|N]; [|reflexivity]. rewrite !f64_val_zero. reflexivity.
    - rewrite X, Y. unfold z. rewrite inject_Z_plus. ring. }
  intros F1 F2 F3 F4 E. destruct (A x y F1 F2) as (z & g & V & S). destruct (A x' y' F3 F4) as (z' & g' & V' & S').
  rewrite V, V'. rewrite (f64_round_signed_det z 1 g z' 1 g' (f_val x + f_val y)); [reflexivity | lia | lia | |].
  - rewrite S. change (inject_Z 1) with 1. ring.
  - rewrite E, S'. change (inject_Z 1) with 1. ring.
Qed.

Lemma f64_add_mono x y x' y' :
  f64_is_finite x = true -> f64_is_finite y = true ->
  f64_is_finite x' = true -> f64_is_finite y' = true ->
  Qabs (f_val x + f_val y) <= f64_max_finite -> Qabs (f_val x' + f_val y') <= f64_max_finite ->
  f_val x + f_val y <= f_val x' + f_val y' ->
  f_val (f64_add x y) <= f_val (f64_add x' y').
Proof.
  intros F1 F2 F3 F4 B B' L. destruct (Qlt_le_dec (f_val x + f_val y) (f_val x' + f_val y')) as [S|G].
  - apply (Rounds_mono _ _ _ _ (f64_add_Rounds x y F1 F2 B) (f64_add_Rounds x' y' F3 F4 B') S).
  - apply Qle_lteq. right. apply f64_add_val_eq; try assumption. apply Qle_antisym; assumption.
Qed.

(** ** Magnitude bookkeeping: nonnegative values below a power of two *)

Definition f64_within (k : Z) (x : f64) : Prop :=
  f64_wf x /\ f64_is_finite x = true /\ 0 <= f_val x <= pow2 k.

Lemma f64_repr_pow2 k : (0 <= k <= 971)%Z -> f64_repr (pow2 k).
Proof.
  intros H. exists 1%Z, k. unfold f64_emin, f64_emax. split; [lia|]. split; [lia|].
  change (inject_Z 1) with 1. ring.
Qed.

Lemma pow2_le_max k : (k <= 971)%Z -> pow2 k <= f64_max_finite.
Proof.
  intros H. apply Qle_trans with (pow2 971); [apply pow2_le, H | vm_compute; discriminate].
Qed.

Lemma Rounds_within q k x : (0 <= k <= 971)%Z -> f64_wf x -> Rounds q x -> 0 <= q <= pow2 k -> f64_within k x.
Proof.
  intros Hk W R [L U]. split; [exact W|]. split; [exact (Rounds_finite _ _ R)|]. split.
  - apply (Rounds_ge _ _ _ R); [apply (f64_repr_Z 0); lia | exact L].
  - apply (Rounds_le _ _ _ R); [apply f64_repr_pow2, Hk | exact U].
Qed.

Lemma f64_within_le a b x : (a <= b)%Z -> f64_within a x -> f64_within b x.
Proof.
  intros L (W & F & B). split; [exact W|]. split; [exact F|]. pose proof (pow2_le a b L). lra.
Qed.

Lemma f64_mul_within a b x y :
  (0 <= a -> 0 <= b -> a + b <= 971)%Z -> (0 <= a)%Z -> (0 <= b)%Z ->
  f64_within a x -> f64_within b y -> f64_within (a + b) (f64_mul x y).
Proof.
  intros Hab Ha Hb (Wx & Fx & Bx) (Wy & Fy & By).
  assert (B : 0 <= f_val x * f_val y <= pow2 (a + b)) by (rewrite pow2_add; nra).
  apply Rounds_within with (f_val x * f_val y); [lia | apply f64_mul_wf | | exact B].
  apply f64_mul_Rounds; try assumption. rewrite Qabs_pos by lra.
  apply Qle_trans with (pow2 (a + b)); [lra | apply pow2_le_max; lia].
Qed.

Lemma f64_of_Z_within k z : (0 <= k <= 53)%Z -> (0 <= z <= 2 ^ k)%Z -> f64_within k (f64_of_Z z).
Proof.
  intros Hk Hz. assert (2 ^ k <= 2 ^ 53)%Z by (apply Z.pow_le_mono_r; lia).
  apply Rounds_within with (inject_Z z); [lia | apply f64_of_Z_wf | apply f64_of_Z_Rounds; lia |].
  rewrite pow2_Z by lia. change 0 with (inject_Z 0). rewrite <- !Zle_Qle. exact Hz.
Qed.
