(* ===== verification/Core.v ===== *)
(** * ccs-core: identifiers, tags, units and the token estimator

    Models [crates/ccs-core/src]: the branded identifiers and the [RefId]
    parser ([ids.rs]), the closed tags ([kind.rs]), [LineRange], the units
    (token counts and offsets are [u32]/[usize] values, here [Z] and [nat]),
    and the char-proxy estimator with its calibration scale ([estimate.rs]). *)
From S2P Require Import Prelude RStr F64.
From Stdlib Require Import QArith Qabs Lqa.

Local Open Scope Z_scope.

(** ** Identifiers ([ids.rs]) *)

Record ModelId := ModelId_new { ModelId_as_str : rstr }.
Record MessageId := MessageId_new { MessageId_as_str : rstr }.
Record SessionId := SessionId_new { SessionId_as_str : rstr }.
Record RefId := RefId_mk { RefId_as_str : rstr }.

#[export] Instance ModelId_eq_dec : EqDecision ModelId.
Proof. solve_decision. Defined.
#[export] Instance MessageId_eq_dec : EqDecision MessageId.
Proof. solve_decision. Defined.
#[export] Instance SessionId_eq_dec : EqDecision SessionId.
Proof. solve_decision. Defined.
#[export] Instance RefId_eq_dec : EqDecision RefId.
Proof. solve_decision. Defined.
#[export] Instance RefId_countable : Countable RefId.
Proof. apply (inj_countable' RefId_as_str RefId_mk). by intros []. Defined.
#[export] Instance SessionId_countable : Countable SessionId.
Proof. apply (inj_countable' SessionId_as_str SessionId_new). by intros []. Defined.

Definition REF_PREFIX : rstr := str "sha256:".
Definition REF_HEX_LEN : Z := 64.

Inductive RefIdError := MissingPrefix | BadLength | NonHex.
#[export] Instance RefIdError_eq_dec : EqDecision RefIdError.
Proof. solve_decision. Defined.

Definition is_lower_hex (b : byte) : bool := is_ascii_digit b || in_range 97 102 b.

Definition RefId_parse (s : rstr) : result RefIdError RefId :=
  digest ← ok_or MissingPrefix (strip_prefix REF_PREFIX s);
  if str_len digest =? REF_HEX_LEN then
    if allb is_lower_hex (as_bytes digest) then Ok (RefId_mk s) else Err NonHex
  else Err BadLength.

Definition RefIdError_fmt (e : RefIdError) : rstr :=
  match e with
  | MissingPrefix => str "ref id must start with `sha256:`"
  | BadLength => str "ref id digest must be exactly 64 hex characters"
  | NonHex => str "ref id digest must be lowercase hex"
  end.

(** [Deserialize]: the deserializer's string, validated; its error type has a
    [custom] constructor. *)
Definition RefId_deserialize {E} (custom : rstr -> E) (string_deserialize : result E rstr) : result E RefId :=
  raw ← string_deserialize;
  match RefId_parse raw with Ok id => Ok id | Err e => Err (custom (RefIdError_fmt e)) end.

(** ** Tags ([kind.rs]) and [LineRange] ([range.rs]) *)

Inductive SegmentKind := UserTurn | AssistantTurn | ToolPair | System | Tools.
#[export] Instance SegmentKind_eq_dec : EqDecision SegmentKind.
Proof. solve_decision. Defined.

Definition SegmentKind_to_string (k : SegmentKind) : rstr :=
  match k with
  | UserTurn => str "user_turn"
  | AssistantTurn => str "assistant_turn"
  | ToolPair => str "tool_pair"
  | System => str "system"
  | Tools => str "tools"
  end.

Inductive ChoiceTag :=
| ChoiceTag_Truncate | ChoiceTag_Summarize | ChoiceTag_Compress | ChoiceTag_Keep.
#[export] Instance ChoiceTag_eq_dec : EqDecision ChoiceTag.
Proof. solve_decision. Defined.

Definition ChoiceTag_to_string (t : ChoiceTag) : rstr :=
  match t with
  | ChoiceTag_Truncate => str "truncate"
  | ChoiceTag_Summarize => str "summarize"
  | ChoiceTag_Compress => str "compress"
  | ChoiceTag_Keep => str "keep"
  end.

Record LineRange := mkLineRange { range_start : nat; range_end : nat }.
#[export] Instance LineRange_eq_dec : EqDecision LineRange.
Proof. solve_decision. Defined.

(** ** Units ([units.rs]): newtypes over [u32] and [usize] *)

Abbreviation TokenCount := Z (only parsing).
Abbreviation ByteOffset := Z (only parsing).
Abbreviation Generation := Z (only parsing).

(** ** Token estimation ([estimate.rs]) *)

Definition CALIBRATION_ALPHA : f64 := f64_lit 3 10.

(** [(text.chars().count() as f64 / 3.5).ceil() as u32] *)
Definition estimate_chars_proxy (text : rstr) : TokenCount :=
  f64_to_u32 (f64_ceil (f64_div (f64_of_Z (chars_count text)) (f64_lit 7 2))).

Record TokenScale := mkTokenScale { scale_get : f64 }.

Definition TokenScale_default : TokenScale := mkTokenScale f64_one.

Definition TokenScale_fold (self : TokenScale) (observed estimated : f64) : TokenScale :=
  if negb (f64_is_finite observed && f64_is_finite estimated)
     || f64_leb observed f64_zero || f64_leb estimated f64_zero
  then self
  else
    let ratio := f64_div observed estimated in
    if f64_eqb (scale_get self) (scale_get TokenScale_default) then mkTokenScale ratio
    else mkTokenScale
           (f64_add (f64_mul (f64_sub f64_one CALIBRATION_ALPHA) (scale_get self))
                    (f64_mul CALIBRATION_ALPHA ratio)).

Definition TokenScale_apply (self : TokenScale) (estimate : TokenCount) : TokenCount :=
  f64_to_u32 (f64_round_half_away (f64_mul (f64_of_Z estimate) (scale_get self))).

Definition TokenScale_apply_signed (self : TokenScale) (estimate : Z) : Z :=
  f64_to_i64 (f64_round_half_away (f64_mul (f64_of_Z estimate) (scale_get self))).

Example estimate_examples :
  estimate_chars_proxy [] = 0 /\ estimate_chars_proxy (str "abc") = 1 /\
  estimate_chars_proxy (str "abcdefg") = 2 /\ estimate_chars_proxy (str "abcdefgh") = 3 /\
  estimate_chars_proxy (str "café") = 2 /\ estimate_chars_proxy (str "é") = 1.
Proof. vm_compute. done. Qed.

Example fold_examples :
  let s := TokenScale_fold TokenScale_default (f64_of_Z 2000) (f64_of_Z 1000) in
  TokenScale_apply s 100 = 200 /\ TokenScale_apply_signed s 100 = 200 /\
  TokenScale_apply (TokenScale_fold s (f64_of_Z 1000) (f64_of_Z 1000)) 1000 = 1700.
Proof. vm_compute. done. Qed.

(** ** Correctness of the estimator *)

Lemma f64_lit_3_5 : f_val (f64_lit 7 2) == 7 # 2.
Proof. vm_compute. reflexivity. Qed.

Lemma estimate_quotient n :
  (0 <= n < 2 ^ 32) -> Rounds (inject_Z (2 * n) / 7)%Q (f64_div (f64_of_Z n) (f64_lit 7 2)).
Proof.
  intros Hn.
  assert (E : (f_val (f64_of_Z n) == inject_Z n)%Q) by (apply f64_of_Z_exact; lia).
  apply f64_div_Rounds.
  - apply f64_of_Z_wf.
  - apply f64_lit_wf; lia.
  - apply f64_of_Z_finite; lia.
  - reflexivity.
  - rewrite f64_lit_3_5. discriminate.
  - rewrite f64_lit_3_5, E, inject_Z_mult. change (inject_Z 2) with 2%Q. field.
  - rewrite Qabs_pos by (apply Qle_shift_div_l; [reflexivity|]; rewrite Qmult_0_l;
      change 0%Q with (inject_Z 0); rewrite <- Zle_Qle; lia).
    apply Qle_trans with (inject_Z (2 ^ 33)); [|vm_compute; discriminate].
    apply Qle_shift_div_r; [reflexivity|]. change 7%Q with (inject_Z 7).
    rewrite <- inject_Z_mult, <- Zle_Qle. lia.
Qed.

(** The estimator's float arithmetic computes the exact ceiling of [2n/7]. *)
Lemma estimate_chars_proxy_ceil text :
  chars_count text < 2 ^ 32 -> estimate_chars_proxy text = (2 * chars_count text + 6) / 7.
Proof.
  intros Hn. unfold estimate_chars_proxy. set (n := chars_count text) in *.
  assert (0 <= n) by (unfold n, chars_count; lia).
  set (z := (2 * n + 6) / 7).
  assert (Hz : 7 * (z - 1) + 1 <= 2 * n <= 7 * z).
  { unfold z. pose proof (Z.div_mod (2 * n + 6) 7). pose proof (Z.mod_pos_bound (2 * n + 6) 7). lia. }
  pose proof (estimate_quotient n ltac:(lia)) as R. set (x := f64_div _ _) in *.
  assert (Wx : f64_wf x) by (apply f64_div_wf, f64_lit_wf; lia).
  assert (U : (f_val x <= inject_Z z)%Q).
  { apply (Rounds_le _ _ _ R); [apply f64_repr_Z; lia|]. apply Qle_shift_div_r; [reflexivity|].
    change 7%Q with (inject_Z 7). rewrite <- inject_Z_mult, <- Zle_Qle. lia. }
  assert (L0 : (0 <= f_val x)%Q).
  { change 0%Q with (inject_Z 0). apply (Rounds_ge _ _ _ R); [apply f64_repr_Z; lia|].
    apply Qle_shift_div_l; [reflexivity|]. change 7%Q with (inject_Z 7).
    rewrite <- inject_Z_mult, <- Zle_Qle. lia. }
  assert (L : (inject_Z z - 1 < f_val x)%Q).
  { assert (inject_Z (8 * (z - 1) + 1) * pow2 (-3) <= f_val x)%Q as L1.
    { apply (Rounds_ge _ _ _ R); [apply f64_repr_frac; unfold f64_emin, f64_emax; lia|].
      apply Qle_shift_div_l; [reflexivity|]. change (pow2 (-3)) with (1 # 8).
      assert (7 * (8 * (z - 1) + 1) <= 8 * (2 * n)) as I by lia.
      rewrite Zle_Qle, !inject_Z_mult in I. change (inject_Z 7) with 7%Q in I.
      change (inject_Z 8) with 8%Q in I. rewrite inject_Z_mult. lra. }
    assert (inject_Z (8 * (z - 1) + 1) == 8 * (inject_Z z - 1) + 1)%Q as E1.
    { unfold Z.sub. rewrite inject_Z_plus, inject_Z_mult, inject_Z_plus. reflexivity. }
    rewrite E1 in L1. change (pow2 (-3)) with (1 # 8) in L1. lra. }
  destruct (f64_ceil_val x z Wx (Rounds_finite _ _ R) ltac:(lia) (conj L U) L0) as (F & W & V).
  apply f64_to_int_exact; [exact W | exact F | lia | lia | exact V].
Qed.

Lemma estimate_chars_proxy_u32 text : is_u32 (estimate_chars_proxy text).
Proof.
  unfold estimate_chars_proxy, f64_to_u32, f64_to_int, is_u32.
  destruct (f64_ceil _) as [|[]|]; lia.
Qed.

(** ** The calibration scale *)

Lemma f64_mul_one_val n :
  Z.abs n <= 2 ^ 53 ->
  f64_is_finite (f64_mul (f64_of_Z n) f64_one) = true /\
  (f_val (f64_mul (f64_of_Z n) f64_one) == inject_Z n)%Q.
Proof.
  intros H. assert (E : (f_val (f64_of_Z n) * f_val f64_one == inject_Z n)%Q).
  { rewrite f64_of_Z_exact by lia. change (f_val f64_one) with (f_val (f64_lit 1 1)).
    assert (f_val (f64_lit 1 1) == 1)%Q as -> by (vm_compute; reflexivity). ring. }
  assert (R : Rounds (inject_Z n) (f64_mul (f64_of_Z n) f64_one)).
  { rewrite <- E. apply f64_mul_Rounds.
    - apply f64_of_Z_wf.
    - apply f64_lit_wf; lia.
    - apply f64_of_Z_finite; lia.
    - reflexivity.
    - rewrite E. apply Qle_trans with (inject_Z (2 ^ 53)); [|vm_compute; discriminate].
      change (Qabs (inject_Z n)) with (inject_Z (Z.abs n)). rewrite <- Zle_Qle. exact H. }
  split; [exact (Rounds_finite _ _ R)|]. apply (Rounds_exact _ _ R), f64_repr_Z, H.
Qed.

Lemma scale_default_int lo hi n :
  Z.abs n <= 2 ^ 53 -> lo <= n <= hi -> lo <= 0 ->
  f64_to_int lo hi (f64_round_half_away (f64_mul (f64_of_Z n) f64_one)) = n.
Proof.
  intros H B L. destruct (f64_mul_one_val n H) as [F V].
  destruct (f64_round_half_away_int _ n (f64_mul_wf _ _) F H V) as (F' & W' & V').
  by apply f64_to_int_exact.
Qed.

Lemma TokenScale_apply_default n : is_u32 n -> TokenScale_apply TokenScale_default n = n.
Proof. unfold is_u32. intros H. apply scale_default_int; lia. Qed.

Lemma TokenScale_apply_signed_default n :
  Z.abs n <= 2 ^ 53 -> TokenScale_apply_signed TokenScale_default n = n.
Proof. intros H. apply scale_default_int; lia. Qed.

(** ** The [RefId] grammar *)

Lemma RefId_parse_Ok s r :
  RefId_parse s = Ok r <->
  r = RefId_mk s /\ exists d, s = REF_PREFIX ++ d /\ str_len d = 64 /\
    Forall (fun b => is_lower_hex b = true) (as_bytes d).
Proof.
  unfold RefId_parse. destruct (strip_prefix REF_PREFIX s) as [d|] eqn:E; cbn -[str_len as_bytes].
  - apply strip_prefix_Some in E. subst s. destruct (Z.eqb_spec (str_len d) REF_HEX_LEN) as [L|L].
    + destruct (allb is_lower_hex (as_bytes d)) eqn:A.
      * split; [|intros [-> _]; done]. intros [= <-]. split; [done|]. exists d.
        split; [done|]. split; [done|]. apply Forall_forall, allb_spec, A.
      * split; [done|]. intros [-> (d' & Hd & _ & F)]. apply app_inv_head in Hd. subst d'.
        exfalso. rewrite Forall_forall in F.
        by rewrite (proj2 (allb_spec is_lower_hex _) F) in A.
    + split; [done|]. intros [-> (d' & Hd & L' & _)]. apply app_inv_head in Hd. subst d'. done.
  - split; [done|]. intros [-> (d & Hd & _)].
    by rewrite (proj2 (strip_prefix_Some REF_PREFIX s d) Hd) in E.
Qed.

(** ** Properties *)

(** C35. The token estimator's [f64] arithmetic is exact integer arithmetic: for
    every text of fewer than [2^32] characters the estimate is the ceiling of
    [chars / 3.5], a [u32], and a longer text never gets a smaller estimate. *)
Theorem estimate_is_ceiling (text longer : rstr) :
  chars_count text <= chars_count longer -> chars_count longer < 2 ^ 32 ->
  let t := estimate_chars_proxy text in
  7 * (t - 1) < 2 * chars_count text <= 7 * t /\
  is_u32 t /\ t <= estimate_chars_proxy longer.
Proof.
  intros L Hn t. unfold t. rewrite !estimate_chars_proxy_ceil by lia.
  assert (0 <= chars_count text) by (unfold chars_count; lia).
  set (n := chars_count text) in *. set (k := chars_count longer) in *.
  pose proof (Z.div_mod (2 * n + 6) 7). pose proof (Z.mod_pos_bound (2 * n + 6) 7).
  pose proof (Z.div_le_mono (2 * n + 6) (2 * k + 6) 7). unfold is_u32. lia.
Qed.

Lemma estimate_is_ceiling_witness :
  estimate_chars_proxy (str "hello") = 2 /\
  estimate_chars_proxy (str "hello") <= estimate_chars_proxy (str "hello, world").
Proof.
  split; [vm_compute; reflexivity|].
  apply (estimate_is_ceiling (str "hello") (str "hello, world")); vm_compute; [discriminate | reflexivity].
Defined.

(** C36. [RefId::parse] accepts exactly the strings [sha256:] followed by 64
    lowercase hexadecimal bytes and keeps the string as it is; a missing prefix
    is reported before a bad length, and a bad length before a bad digit. *)
Theorem RefId_parse_grammar (s : rstr) :
  match RefId_parse s with
  | Ok r => RefId_as_str r = s /\ exists d, s = REF_PREFIX ++ d /\ str_len d = REF_HEX_LEN /\
              Forall (fun b => is_lower_hex b = true) (as_bytes d)
  | Err MissingPrefix => forall d, s <> REF_PREFIX ++ d
  | Err BadLength => exists d, s = REF_PREFIX ++ d /\ str_len d <> REF_HEX_LEN
  | Err NonHex => exists d, s = REF_PREFIX ++ d /\ str_len d = REF_HEX_LEN /\
                    exists b, b ∈ as_bytes d /\ is_lower_hex b = false
  end.
Proof.
  unfold RefId_parse. destruct (strip_prefix REF_PREFIX s) as [d|] eqn:E; cbn -[str_len as_bytes].
  - apply strip_prefix_Some in E. destruct (Z.eqb_spec (str_len d) REF_HEX_LEN) as [L|L]; [|eauto].
    destruct (allb is_lower_hex (as_bytes d)) eqn:A.
    + split; [done|]. exists d. split_and!; try done. by apply Forall_forall, allb_spec.
    + exists d. split_and!; try done.
      destruct (List.existsb (fun b => negb (is_lower_hex b)) (as_bytes d)) eqn:X.
      * apply anyb_spec in X as (b & Hb & X). exists b. split; [done|]. by apply negb_true_iff.
      * exfalso. rewrite anyb_false in X. enough (allb is_lower_hex (as_bytes d) = true) by congruence.
        apply allb_spec. intros b Hb. by apply negb_false_iff, X.
  - intros d Hd. by rewrite (proj2 (strip_prefix_Some REF_PREFIX s d) Hd) in E.
Qed.

(** Calibration is the identity until the first usable observation and
    snaps to the observed ratio on it: the default scale leaves every [u32]
    estimate and every signed estimate of at most [2^53] unchanged, a
    non-finite or non-positive observation changes nothing, and the first good
    one makes the scale [observed / estimated] exactly as divided. *)
Theorem TokenScale_calibration (n z : Z) (observed estimated : f64) :
  is_u32 n -> Z.abs z <= 2 ^ 53 ->
  TokenScale_apply TokenScale_default n = n /\
  TokenScale_apply_signed TokenScale_default z = z /\
  (forall s, f64_is_finite observed = false \/ f64_is_finite estimated = false \/
     f64_leb observed f64_zero = true \/ f64_leb estimated f64_zero = true ->
     TokenScale_fold s observed estimated = s) /\
  (f64_is_finite observed = true -> f64_is_finite estimated = true ->
   f64_leb observed f64_zero = false -> f64_leb estimated f64_zero = false ->
   TokenScale_fold TokenScale_default observed estimated = mkTokenScale (f64_div observed estimated)).
Proof.
  intros Hn Hz. split; [by apply TokenScale_apply_default|].
  split; [by apply TokenScale_apply_signed_default|]. split.
  - intros s H. unfold TokenScale_fold. destruct H as [H|[H|[H|H]]]; rewrite H.
    + reflexivity.
    + rewrite andb_false_r. reflexivity.
    + rewrite orb_true_r. reflexivity.
    + rewrite orb_true_r. reflexivity.
  - intros F1 F2 H1 H2. unfold TokenScale_fold. rewrite F1, F2, H1, H2. reflexivity.
Qed.

Lemma TokenScale_calibration_witness :
  TokenScale_apply TokenScale_default 1234 = 1234 /\
  TokenScale_fold TokenScale_default (f64_of_Z 3) (f64_of_Z 2) = mkTokenScale (f64_lit 3 2).
Proof.
  destruct (TokenScale_calibration 1234 (-7) (f64_of_Z 3) (f64_of_Z 2)) as (A & _ & _ & B).
  - unfold is_u32. lia.
  - lia.
  - split; [exact A|]. rewrite B; vm_compute; reflexivity.
Defined.
