(* ===== verification/Economics.v ===== *)
(** * ccs-economics: the cache cost model

    Models [crates/ccs-economics/src]: the per-model constants ([model.rs]),
    the cache warmth state and its fold ([cache.rs]), and the bust, saving,
    break-even and NPV functions over the [BatchView] interface ([cost.rs]). *)
From S2P Require Import Prelude RStr F64 Core.
From Stdlib Require Import QArith Qabs Lqa.

Local Open Scope Z_scope.

(** ** Constants per model ([model.rs]) *)

Definition DEFAULT_TTL_AUTO_S : f64 := f64_of_Z 3600.
Definition DEFAULT_TTL_FORCED_S : f64 := f64_of_Z 300.
Definition DEFAULT_NPV_FLOOR : f64 := f64_zero.

Record ModelEconomics := mkModelEconomics {
  base_input : f64;
  write_mult : f64;
  read_mult : f64;
  min_cache_floor : TokenCount;
}.

Record EconomicsConfig := mkEconomicsConfig {
  ttl_auto_s : f64;
  ttl_forced_s : f64;
  cfg_npv_floor : f64;
}.

Definition EconomicsConfig_default : EconomicsConfig :=
  mkEconomicsConfig DEFAULT_TTL_AUTO_S DEFAULT_TTL_FORCED_S DEFAULT_NPV_FLOOR.

Definition economics_for (model : ModelId) : option ModelEconomics :=
  let named s := bool_decide (ModelId_as_str model = str s) in
  if named "claude-opus-4-8" then
    Some (mkModelEconomics (f64_lit 5 1000000) (f64_lit 2 1) (f64_lit 1 10) 1024)
  else if named "claude-sonnet-4-6" || named "claude-sonnet-4-5" then
    Some (mkModelEconomics (f64_lit 3 1000000) (f64_lit 2 1) (f64_lit 1 10) 1024)
  else if named "claude-haiku-4-5-20251001" || named "claude-haiku-4-5" then
    Some (mkModelEconomics (f64_lit 1 1000000) (f64_lit 2 1) (f64_lit 1 10) 4096)
  else None.

(** ** Cache warmth ([cache.rs]) *)

Record CacheUsage := mkCacheUsage {
  cache_creation_input_tokens : TokenCount;
  cache_read_input_tokens : TokenCount;
  input_tokens : TokenCount;
}.

Record CacheState := mkCacheState {
  cached_prefix_tokens : TokenCount;
  last_request_ts : f64;
  assumed_ttl_s : f64;
  cache_model : ModelId;
  cache_breakpoints : list nat;
}.

Definition idle_seconds (self : CacheState) (now : f64) : f64 :=
  f64_sub now (last_request_ts self).

Definition p_alive (self : CacheState) (now : f64) : f64 :=
  f64_clamp (f64_sub f64_one (f64_div (idle_seconds self now) (assumed_ttl_s self)))
            f64_zero f64_one.

Definition is_cold (self : CacheState) (now : f64) : bool :=
  f64_leb (assumed_ttl_s self) (idle_seconds self now).

Definition CacheState_observe (self : CacheState) (usage : CacheUsage) (now : f64) : CacheState :=
  mkCacheState
    (u32_add (cache_read_input_tokens usage) (cache_creation_input_tokens usage))
    now (assumed_ttl_s self) (cache_model self) (cache_breakpoints self).

(** ** Cost and benefit ([cost.rs]) *)

Record Cost := mkCost { dollars : f64; cost_tokens : TokenCount }.

(** The interface a batch of candidates offers to the cost functions. *)
Class BatchView (B : Type) := {
  suffix_tokens : B -> TokenCount;
  total_removed : B -> Z;
  quality_gain : B -> f64;
}.

Section CostModel.
Context {B : Type} `{BatchView B}.

Definition bust_cost (batch : B) (cache : CacheState) (econ : ModelEconomics) (now : f64) : Cost :=
  if is_cold cache now then mkCost f64_zero 0
  else
    let suffix := suffix_tokens batch in
    mkCost
      (f64_mul (f64_mul (f64_mul (f64_of_Z suffix) (base_input econ))
                        (f64_sub (write_mult econ) (read_mult econ)))
               (p_alive cache now))
      suffix.

Definition recurring_saving (batch : B) (econ : ModelEconomics) (n_turns : f64) : Cost :=
  let removed := total_removed batch in
  mkCost
    (f64_mul (f64_mul (f64_mul n_turns (f64_of_Z removed)) (base_input econ)) (read_mult econ))
    (u32_wrap (Z.max removed 0)).

Definition break_even_turns (batch : B) (cache : CacheState) (econ : ModelEconomics) (now : f64) : f64 :=
  if is_cold cache now then f64_zero
  else f64_div
         (f64_mul (f64_of_Z (suffix_tokens batch)) (f64_sub (write_mult econ) (read_mult econ)))
         (f64_mul (f64_of_Z (total_removed batch)) (read_mult econ)).

Definition npv (batch : B) (cache : CacheState) (econ : ModelEconomics) (n_turns now : f64) : f64 :=
  f64_sub (f64_add (dollars (recurring_saving batch econ n_turns)) (quality_gain batch))
          (dollars (bust_cost batch cache econ now)).
End CostModel.

(** ** Warmth *)

Local Lemma val_one : (f_val f64_one == 1)%Q.
Proof. vm_compute. reflexivity. Qed.
Local Lemma val_zero : (f_val f64_zero == 0)%Q.
Proof. reflexivity. Qed.

Lemma p_alive_unit cache now :
  f64_is_finite (f64_sub f64_one (f64_div (idle_seconds cache now) (assumed_ttl_s cache))) = true ->
  f64_is_finite (p_alive cache now) = true /\ (0 <= f_val (p_alive cache now) <= 1)%Q.
Proof.
  intros F. destruct (f64_clamp_bounds _ f64_zero f64_one F eq_refl eq_refl) as [F' B].
  { rewrite val_one, val_zero. discriminate. }
  rewrite val_one, val_zero in B. done.
Qed.

(** The values a clock and a TTL can take: finite, and idle over TTL in range. *)
Definition clock_ok (cache : CacheState) (now : f64) : Prop :=
  f64_wf (idle_seconds cache now) /\ f64_is_finite (idle_seconds cache now) = true /\
  f64_wf (assumed_ttl_s cache) /\ f64_is_finite (assumed_ttl_s cache) = true /\
  (1 <= f_val (assumed_ttl_s cache))%Q /\
  (Qabs (f_val (idle_seconds cache now)) <= inject_Z (2 ^ 53))%Q.

Section Clock.
Context (cache : CacheState) (now : f64) (Hc : clock_ok cache now).
Let q := (f_val (idle_seconds cache now) / f_val (assumed_ttl_s cache))%Q.

Local Lemma ttl_pos : (0 < f_val (assumed_ttl_s cache))%Q.
Proof. destruct Hc as (_ & _ & _ & _ & T & _). lra. Qed.

Local Lemma idle_ratio_bound : (Qabs q <= inject_Z (2 ^ 53))%Q.
Proof.
  destruct Hc as (_ & _ & _ & _ & T & B). pose proof ttl_pos as P. unfold q, Qdiv.
  rewrite Qabs_Qmult, (Qabs_pos (/ _)) by (apply Qlt_le_weak, Qinv_lt_0_compat, P).
  apply Qle_trans with (Qabs (f_val (idle_seconds cache now)) * 1)%Q; [|lra].
  rewrite (Qmult_comm _ (/ _)), (Qmult_comm _ 1).
  apply Qmult_le_compat_r; [|apply Qabs_nonneg].
  rewrite <- (Qmult_1_l (/ _)). apply Qle_shift_div_r; [exact P | lra].
Qed.

Local Lemma idle_ratio_Rounds :
  Rounds q (f64_div (idle_seconds cache now) (assumed_ttl_s cache)).
Proof.
  pose proof ttl_pos as P. destruct Hc as (W1 & F1 & W2 & F2 & T & B).
  apply f64_div_Rounds; try assumption; [lra | unfold q; field; lra |].
  eapply Qle_trans; [exact idle_ratio_bound | vm_compute; discriminate].
Qed.

Local Lemma idle_ratio_val_bound :
  (Qabs (f_val (f64_div (idle_seconds cache now) (assumed_ttl_s cache))) <= inject_Z (2 ^ 53))%Q.
Proof.
  pose proof idle_ratio_bound as B. apply Qabs_Qle_condition in B as [B1 B2].
  apply Qabs_Qle_condition. split.
  - apply (Rounds_ge _ _ _ idle_ratio_Rounds); [|exact B1].
    apply f64_repr_opp, f64_repr_Z. lia.
  - apply (Rounds_le _ _ _ idle_ratio_Rounds); [|exact B2]. apply f64_repr_Z. lia.
Qed.

Local Lemma alive_Rounds :
  Rounds (1 - f_val (f64_div (idle_seconds cache now) (assumed_ttl_s cache)))%Q
    (f64_sub f64_one (f64_div (idle_seconds cache now) (assumed_ttl_s cache))).
Proof.
  rewrite <- val_one. apply f64_sub_Rounds; [reflexivity | exact (Rounds_finite _ _ idle_ratio_Rounds) |].
  rewrite val_one. pose proof idle_ratio_val_bound as B. apply Qabs_Qle_condition in B as [B1 B2].
  apply Qle_trans with (inject_Z (2 ^ 54)); [|vm_compute; discriminate].
  change (inject_Z (2 ^ 53)) with (inject_Z (9007199254740992)) in *.
  change (inject_Z (2 ^ 54)) with (inject_Z (18014398509481984)).
  unfold inject_Z in *. apply Qabs_Qle_condition. split; lra.
Qed.

Lemma p_alive_range : f64_is_finite (p_alive cache now) = true /\ (0 <= f_val (p_alive cache now) <= 1)%Q.
Proof. apply p_alive_unit. exact (Rounds_finite _ _ alive_Rounds). Qed.

Lemma is_cold_spec : is_cold cache now = true <-> (1 <= q)%Q.
Proof.
  pose proof ttl_pos as P. destruct Hc as (_ & F1 & _ & F2 & _).
  unfold is_cold. rewrite f64_leb_val by assumption. unfold q.
  split; intros L.
  - apply Qle_shift_div_l; [exact P | lra].
  - apply (Qmult_le_r _ _ (/ f_val (assumed_ttl_s cache))); [apply Qinv_lt_0_compat, P|].
    rewrite Qmult_inv_r by lra. exact L.
Qed.

Lemma p_alive_cold : is_cold cache now = true -> (f_val (p_alive cache now) == 0)%Q.
Proof.
  intros C%is_cold_spec. unfold p_alive.
  pose proof (Rounds_ge _ _ 1 idle_ratio_Rounds (f64_repr_Z 1 ltac:(lia)) C) as V.
  pose proof (Rounds_le _ _ 0 alive_Rounds (f64_repr_Z 0 ltac:(lia)) ltac:(lra)) as N.
  pose proof (Rounds_finite _ _ alive_Rounds) as F. unfold f64_clamp.
  destruct (f64_ltb _ f64_zero) eqn:L; [reflexivity|].
  apply f64_ltb_false in L; [|exact F | reflexivity]. rewrite val_zero in L.
  rewrite (proj2 (f64_ltb_false f64_one _ eq_refl F)); [lra|]. rewrite val_one. lra.
Qed.
End Clock.

(** ** Prices *)

(** The constants an economics table may hold: finite, a read no dearer than
    a write, everything of modest size. *)
Definition econ_ok (econ : ModelEconomics) : Prop :=
  f64_within 0 (base_input econ) /\ f64_within 0 (read_mult econ) /\
  f64_within 2 (f64_sub (write_mult econ) (read_mult econ)) /\
  is_u32 (min_cache_floor econ).

Local Ltac decide_within := split; [vm_compute; discriminate | split; [reflexivity | split; vm_compute; discriminate]].

Lemma economics_for_ok m econ : economics_for m = Some econ -> econ_ok econ.
Proof.
  unfold economics_for. intros H.
  repeat match type of H with context [if ?b then _ else _] => destruct b end; simplify_eq.
  all: split; [decide_within|]; split; [decide_within|]; split; [decide_within | done].
Qed.

Section Prices.
Context {B : Type} `{BatchView B} (batch : B) (cache : CacheState) (econ : ModelEconomics) (now : f64).
Hypothesis (Hclock : clock_ok cache now) (Hecon : econ_ok econ).
Hypothesis Hsuffix : is_u32 (suffix_tokens batch).

Lemma p_alive_within : f64_within 0 (p_alive cache now).
Proof.
  destruct (p_alive_range cache now Hclock) as [F R].
  split; [|split; [exact F | exact R]]. unfold p_alive, f64_clamp.
  destruct (f64_ltb _ f64_zero); [vm_compute; discriminate|].
  destruct (f64_ltb f64_one _); [vm_compute; discriminate|].
  apply f64_sub_wf; [vm_compute; discriminate|]. apply f64_div_wf. apply Hclock.
Qed.

(** The formula of the warm branch, without the cold gate. *)
Definition warm_bust : f64 :=
  f64_mul (f64_mul (f64_mul (f64_of_Z (suffix_tokens batch)) (base_input econ))
                   (f64_sub (write_mult econ) (read_mult econ)))
          (p_alive cache now).

Lemma warm_bust_within : f64_within 34 warm_bust.
Proof.
  destruct Hecon as (E1 & E2 & E3 & _). unfold is_u32 in Hsuffix.
  apply (f64_mul_within 34 0); [lia | lia | lia | | exact p_alive_within].
  apply (f64_mul_within 32 2); [lia | lia | lia | | exact E3].
  apply (f64_mul_within 32 0); [lia | lia | lia | | exact E1].
  apply f64_of_Z_within; lia.
Qed.

Lemma bust_cost_within : f64_within 34 (dollars (bust_cost batch cache econ now)).
Proof.
  unfold bust_cost. destruct (is_cold cache now); cbn [dollars]; [|exact warm_bust_within].
  split; [vm_compute; discriminate|]. split; [reflexivity|]. split; vm_compute; discriminate.
Qed.

Lemma warm_bust_cold : is_cold cache now = true -> (f_val warm_bust == 0)%Q.
Proof.
  intros C. pose proof (p_alive_cold cache now Hclock C) as Z0.
  destruct Hecon as (E1 & E2 & E3 & _). unfold is_u32 in Hsuffix. unfold warm_bust.
  set (x := f64_mul (f64_mul (f64_of_Z _) _) _).
  assert (f64_within 34 x) as (W & F & _).
  { apply (f64_mul_within 32 2); [lia | lia | lia | | exact E3].
    apply (f64_mul_within 32 0); [lia | lia | lia | | exact E1]. apply f64_of_Z_within; lia. }
  destruct p_alive_within as (Wp & Fp & _).
  assert (E : (f_val x * f_val (p_alive cache now) == 0)%Q) by (rewrite Z0; ring).
  apply (Rounds_exact 0); [|apply (f64_repr_Z 0); lia]. rewrite <- E.
  apply f64_mul_Rounds; try assumption. rewrite E. vm_compute. discriminate.
Qed.
End Prices.

(** A batch given by its three numbers, for concrete prices. *)
Record FixedBatch := mkFixedBatch { fb_suffix : Z; fb_removed : Z; fb_quality : f64 }.
#[export] Instance FixedBatch_view : BatchView FixedBatch := {
  suffix_tokens := fb_suffix; total_removed := fb_removed; quality_gain := fb_quality }.

(** ** Properties *)

(** C34. The cold gate of [bust_cost] is not a special case of the price but
    agrees with it: with a finite clock, a TTL of at least a second and table
    constants, the returned dollars always equal
    [S_after * base_input * (write - read) * p_alive] evaluated in [f64], are
    finite and never negative, and are zero as soon as the idle time reaches
    the TTL. *)
Theorem bust_cost_is_formula {B : Type} `{BatchView B}
    (batch : B) (cache : CacheState) (econ : ModelEconomics) (now : f64) :
  clock_ok cache now -> econ_ok econ -> is_u32 (suffix_tokens batch) ->
  f64_is_finite (dollars (bust_cost batch cache econ now)) = true /\
  (0 <= f_val (dollars (bust_cost batch cache econ now)))%Q /\
  (f_val (dollars (bust_cost batch cache econ now)) == f_val (warm_bust batch cache econ now))%Q /\
  (is_cold cache now = true -> (f_val (p_alive cache now) == 0)%Q).
Proof.
  intros Hc He Hs. destruct (bust_cost_within batch cache econ now Hc He Hs) as (_ & F & R & _).
  split; [exact F|]. split; [exact R|]. split; [|apply p_alive_cold, Hc].
  unfold bust_cost. destruct (is_cold cache now) eqn:C; cbn [dollars]; [|reflexivity].
  rewrite warm_bust_cold by assumption. reflexivity.
Qed.

Definition opus : ModelEconomics :=
  mkModelEconomics (f64_lit 5 1000000) (f64_lit 2 1) (f64_lit 1 10) 1024.
Definition test_cache : CacheState :=
  mkCacheState 0 (f64_of_Z 1000) DEFAULT_TTL_AUTO_S (ModelId_new (str "claude-opus-4-8")) [].
Definition test_batch : FixedBatch := mkFixedBatch 10000 4000 f64_zero.

Lemma bust_cost_is_formula_witness :
  f64_is_finite (dollars (bust_cost test_batch test_cache opus (f64_of_Z 2800))) = true /\
  (0 <= f_val (dollars (bust_cost test_batch test_cache opus (f64_of_Z 2800))))%Q /\
  (f_val (dollars (bust_cost test_batch test_cache opus (f64_of_Z 2800))) ==
     f_val (warm_bust test_batch test_cache opus (f64_of_Z 2800)))%Q /\
  (is_cold test_cache (f64_of_Z 2800) = true -> (f_val (p_alive test_cache (f64_of_Z 2800)) == 0)%Q).
Proof.
  apply (bust_cost_is_formula test_batch test_cache opus (f64_of_Z 2800)).
  - unfold clock_ok. by_compute.
  - exact (economics_for_ok (ModelId_new (str "claude-opus-4-8")) opus eq_refl).
  - unfold is_u32. by_compute.
Defined.

(** A quality gain can only raise a batch's NPV: for two batches with the
    same suffix and removal, a larger [Q] never gives a smaller [npv], through
    every rounding of the sum and the subtraction. *)
Theorem npv_mono_quality {B : Type} `{BatchView B}
    (b1 b2 : B) (cache : CacheState) (econ : ModelEconomics) (n_turns now : f64) :
  clock_ok cache now -> econ_ok econ -> is_u32 (suffix_tokens b1) ->
  suffix_tokens b1 = suffix_tokens b2 -> total_removed b1 = total_removed b2 ->
  f64_is_finite (dollars (recurring_saving b1 econ n_turns)) = true ->
  (Qabs (f_val (dollars (recurring_saving b1 econ n_turns))) <= pow2 60)%Q ->
  f64_within 60 (quality_gain b1) -> f64_within 60 (quality_gain b2) ->
  (f_val (quality_gain b1) <= f_val (quality_gain b2))%Q ->
  (f_val (npv b1 cache econ n_turns now) <= f_val (npv b2 cache econ n_turns now))%Q.
Proof.
  intros Hc He Hs Es Er Fs Bs (W1 & F1 & G1) (W2 & F2 & G2) L.
  destruct (bust_cost_within b1 cache econ now Hc He Hs) as (_ & Fb & Rb).
  unfold npv. assert (bust_cost b2 cache econ now = bust_cost b1 cache econ now) as ->.
  { unfold bust_cost. by rewrite Es. }
  assert (recurring_saving b2 econ n_turns = recurring_saving b1 econ n_turns) as ->.
  { unfold recurring_saving. by rewrite Er. }
  set (s := dollars (recurring_saving b1 econ n_turns)) in *.
  set (c := dollars (bust_cost b1 cache econ now)) in *.
  apply Qabs_Qle_condition in Bs as [S1 S2].
  assert (P : (pow2 61 == pow2 60 + pow2 60)%Q) by (vm_compute; reflexivity).
  assert (P' : (pow2 34 <= pow2 60)%Q) by (apply pow2_le; lia).
  assert (M : (pow2 62 <= f64_max_finite)%Q) by (apply pow2_le_max; lia).
  assert (P2 : (pow2 62 == pow2 61 + pow2 61)%Q) by (vm_compute; reflexivity).
  assert (B1 : (Qabs (f_val s + f_val (quality_gain b1)) <= pow2 61)%Q) by (apply Qabs_Qle_condition; lra).
  assert (B2 : (Qabs (f_val s + f_val (quality_gain b2)) <= pow2 61)%Q) by (apply Qabs_Qle_condition; lra).
  assert (R : forall b, f64_is_finite (quality_gain b) = true ->
    (Qabs (f_val s + f_val (quality_gain b)) <= pow2 61)%Q ->
    f64_is_finite (f64_add s (quality_gain b)) = true /\
    (Qabs (f_val (f64_add s (quality_gain b))) <= pow2 61)%Q).
  { intros b Fb' Bb. assert (Rd : Rounds (f_val s + f_val (quality_gain b))%Q (f64_add s (quality_gain b))).
    { apply f64_add_Rounds; [exact Fs | exact Fb' | lra]. }
    split; [exact (Rounds_finite _ _ Rd)|]. apply Qabs_Qle_condition in Bb as [b1' b2'].
    apply Qabs_Qle_condition. split.
    - apply (Rounds_ge _ _ _ Rd); [|exact b1']. apply f64_repr_opp, f64_repr_pow2. lia.
    - apply (Rounds_le _ _ _ Rd); [|exact b2']. apply f64_repr_pow2. lia. }
  destruct (R b1 F1 B1) as [A1 C1]. destruct (R b2 F2 B2) as [A2 C2].
  apply Qabs_Qle_condition in C1. apply Qabs_Qle_condition in C2.
  assert (Mono : (f_val (f64_add s (quality_gain b1)) <= f_val (f64_add s (quality_gain b2)))%Q).
  { apply f64_add_mono; try assumption; [lra | lra | lra]. }
  assert (Small : forall x, (- pow2 61 <= x <= pow2 61)%Q -> (Qabs (x + - f_val c) <= f64_max_finite)%Q).
  { intros x Hx. apply Qle_trans with (pow2 62); [|exact M]. apply Qabs_Qle_condition. lra. }
  unfold f64_sub. apply f64_add_mono; rewrite ?f64_opp_finite, ?f64_opp_val; try assumption.
  - apply Small, C1.
  - apply Small, C2.
  - lra.
Qed.

Definition test_batch_q : FixedBatch := mkFixedBatch 10000 4000 (f64_lit 5 10000).

Lemma npv_mono_quality_witness :
  (f_val (npv test_batch test_cache opus (f64_of_Z 4) (f64_of_Z 2800)) <=
   f_val (npv test_batch_q test_cache opus (f64_of_Z 4) (f64_of_Z 2800)))%Q.
Proof.
  apply (npv_mono_quality test_batch test_batch_q test_cache opus (f64_of_Z 4) (f64_of_Z 2800)).
  - unfold clock_ok. by_compute.
  - exact (economics_for_ok (ModelId_new (str "claude-opus-4-8")) opus eq_refl).
  - unfold is_u32. by_compute.
  - reflexivity.
  - reflexivity.
  - reflexivity.
  - vm_compute. congruence.
  - unfold f64_within. by_compute.
  - unfold f64_within. by_compute.
  - vm_compute. congruence.
Defined.
