(* ===== verification/Config.v ===== *)
(** * The policy tunables

    [PolicyConfig] and its defaults ([crates/ccs-policy/src/config.rs]) with
    the constants it collects from their owning modules, and the scorer's
    weights ([pipeline/scorer.rs]).  [usize] sizes that index lists are [nat];
    character counts are [Z]. *)
From S2P Require Import Prelude F64 Economics.

Local Open Scope Z_scope.

Definition RECENCY_WINDOW_N : nat := 3.
Definition HUMAN_VERBATIM_MAX : Z := 16384.
Definition PRE_GATE_MIN_CHARS : Z := 256.
Definition CACHE_HINT_CAP : nat := 4.
Definition LOOKBACK_POSITIONS : nat := 20.

Definition FRESHNESS_TAU_GENS : f64 := f64_of_Z 4.
Definition SIZE_SATURATION_TOKENS : f64 := f64_of_Z 4096.
Definition Q_WEIGHT_DOLLARS : f64 := f64_lit 5 10000.

Record ScoreWeights := mkScoreWeights {
  w_freshness : f64;
  w_economics : f64;
  w_size : f64;
  w_content_type : f64;
  w_access_count : f64;
  w_tau : f64;
  w_size_scale : f64;
  w_q_weight : f64;
  w_score_floor : f64;
}.

Definition ScoreWeights_default : ScoreWeights :=
  mkScoreWeights f64_one f64_one f64_one f64_one f64_one
    FRESHNESS_TAU_GENS SIZE_SATURATION_TOKENS Q_WEIGHT_DOLLARS f64_neg_inf.

Record PolicyConfig := mkPolicyConfig {
  recency_window_n : nat;
  human_verbatim_max : Z;
  pre_gate_min_chars : Z;
  cache_hint_cap : nat;
  lookback_positions : nat;
  weights : ScoreWeights;
}.

Definition PolicyConfig_default : PolicyConfig :=
  mkPolicyConfig RECENCY_WINDOW_N HUMAN_VERBATIM_MAX PRE_GATE_MIN_CHARS
    CACHE_HINT_CAP LOOKBACK_POSITIONS ScoreWeights_default.

(** ** The control plane's view of the knobs ([crates/ccs-proxy/src/config.rs]):
    every field optional on the wire, an absent one takes the engine default. *)

Record EconomicsKnobs := mkEconomicsKnobs {
  knob_npv_floor : f64;
  knob_ttl_auto_s : f64;
  knob_ttl_forced_s : f64;
}.

Definition EconomicsKnobs_default : EconomicsKnobs :=
  let c := EconomicsConfig_default in
  mkEconomicsKnobs (cfg_npv_floor c) (ttl_auto_s c) (ttl_forced_s c).

Definition EconomicsConfig_from (k : EconomicsKnobs) : EconomicsConfig :=
  mkEconomicsConfig (knob_ttl_auto_s k) (knob_ttl_forced_s k) (knob_npv_floor k).

Record PolicyKnobs := mkPolicyKnobs {
  knob_recency_window_n : nat;
  knob_human_verbatim_max : Z;
  knob_pre_gate_min_chars : Z;
  knob_cache_hint_cap : nat;
  knob_lookback_positions : nat;
}.

Definition PolicyKnobs_default : PolicyKnobs :=
  let c := PolicyConfig_default in
  mkPolicyKnobs (recency_window_n c) (human_verbatim_max c) (pre_gate_min_chars c)
    (cache_hint_cap c) (lookback_positions c).

(** The scorer weights have no wire face: they stay at the engine default. *)
Definition PolicyConfig_from (k : PolicyKnobs) : PolicyConfig :=
  mkPolicyConfig (knob_recency_window_n k) (knob_human_verbatim_max k) (knob_pre_gate_min_chars k)
    (knob_cache_hint_cap k) (knob_lookback_positions k) (weights PolicyConfig_default).

Record RelayConfig := mkRelayConfig {
  relay_economics : EconomicsKnobs;
  relay_policy : PolicyKnobs;
}.
Definition RelayConfig_default : RelayConfig :=
  mkRelayConfig EconomicsKnobs_default PolicyKnobs_default.

Lemma knobs_default_agree :
  EconomicsConfig_from EconomicsKnobs_default = EconomicsConfig_default /\
  PolicyConfig_from PolicyKnobs_default = PolicyConfig_default.
Proof. done. Qed.
