(* ===== verification/Wire.v ===== *)
(** * The serde parse boundary

    Models [crates/ccs-policy/src/wire.rs].  A [RawValue] is its verbatim JSON
    text.  Parsing JSON text is [serde_json]'s work, a library outside this
    repository: the class [SerdeJson] lists the typed parses the code asks of
    it, and every definition that parses is generic over it.  What the crate
    decides itself — the role spellings, the string-or-blocks split, the block
    classification, the pairing ids — is defined here. *)
From S2P Require Import Prelude RStr Core.

Local Open Scope Z_scope.

Abbreviation RawValue := rstr (only parsing).

(** The optional fields of the private [IdFields] struct. *)
Record IdFields := mkIdFields {
  field_id : option rstr;
  field_tool_use_id : option rstr;
  field_name : option rstr;
}.

(** The scalar and subtree fields of a request envelope, before the role and
    content of each message are interpreted. *)
Record EnvelopeFields := mkEnvelopeFields {
  env_model : rstr;
  env_system : option RawValue;
  env_tools : option RawValue;
  env_messages : list (rstr * RawValue);
  env_max_tokens : Z;
}.

(** A [tool_result]'s content and error flag, as [targets.rs] reads them: the
    content is a string, an array of raw blocks, or absent. *)
Inductive ToolResultContent :=
| Result_Text (text : rstr)
| Result_Blocks (bs : list RawValue)
| Result_Empty.

Record ToolResultFields := mkToolResultFields {
  result_is_error : option bool;
  result_content : ToolResultContent;
}.

(** The typed parses requested of [serde_json]; [json_result_text] is the
    looser read of [recode.rs], whose content is a string or nothing. *)
Class SerdeJson := {
  json_envelope : list byte -> option EnvelopeFields;
  json_string : RawValue -> option rstr;
  json_array : RawValue -> option (list RawValue);
  json_type_tag : RawValue -> option (option rstr);
  json_id_fields : RawValue -> option IdFields;
  json_text_field : RawValue -> option rstr;
  json_result_text : RawValue -> option (option rstr);
  json_result_fields : RawValue -> option ToolResultFields;
}.

Inductive Role := Role_User | Role_Assistant | Role_System.
#[export] Instance Role_eq_dec : EqDecision Role.
Proof. solve_decision. Defined.

(** The [snake_case] spellings; any other role fails the parse. *)
Definition Role_deserialize (s : rstr) : option Role :=
  if decide (s = str "user") then Some Role_User
  else if decide (s = str "assistant") then Some Role_Assistant
  else if decide (s = str "system") then Some Role_System
  else None.

Inductive ContentBlock :=
| Block_Text (raw : RawValue)
| Block_ToolUse (raw : RawValue)
| Block_ToolResult (raw : RawValue)
| Block_Thinking (raw : RawValue)
| Block_RedactedThinking (raw : RawValue)
| Block_ServerToolUse (raw : RawValue)
| Block_ServerToolResult (raw : RawValue)
| Block_Other (raw : RawValue).
#[export] Instance ContentBlock_eq_dec : EqDecision ContentBlock.
Proof. solve_decision. Defined.

Inductive MessageContent :=
| Content_Text (raw : RawValue) (text : rstr)
| Content_Blocks (bs : list ContentBlock).

Record WireMessage := mkWireMessage { role : Role; content : MessageContent }.

Record WireBody := mkWireBody {
  body_model : ModelId;
  body_system : option RawValue;
  body_tools : option RawValue;
  messages : list WireMessage;
  max_tokens : Z;
}.

(** ** Accessors *)

Definition block_raw (b : ContentBlock) : RawValue :=
  match b with
  | Block_Text raw | Block_ToolUse raw | Block_ToolResult raw | Block_Thinking raw
  | Block_RedactedThinking raw | Block_ServerToolUse raw | Block_ServerToolResult raw
  | Block_Other raw => raw
  end.

Definition is_client_tool_use (b : ContentBlock) : bool :=
  match b with Block_ToolUse _ => true | _ => false end.

Definition is_tool_result (b : ContentBlock) : bool :=
  match b with Block_ToolResult _ => true | _ => false end.

Definition is_string (c : MessageContent) : bool :=
  match c with Content_Text _ _ => true | Content_Blocks _ => false end.

Definition blocks (c : MessageContent) : list ContentBlock :=
  match c with Content_Blocks bs => bs | Content_Text _ _ => [] end.

Definition raws (c : MessageContent) : list RawValue :=
  match c with Content_Text raw _ => [raw] | Content_Blocks bs => block_raw <$> bs end.

Definition rendered (c : MessageContent) : rstr :=
  match c with
  | Content_Text _ text => text
  | Content_Blocks bs => concat (block_raw <$> bs)
  end.

Section Parse.
Context `{SerdeJson}.

Definition tool_use_id (b : ContentBlock) : option rstr :=
  fields ← json_id_fields (block_raw b);
  match b with
  | Block_ToolUse _ | Block_ServerToolUse _ => field_id fields
  | Block_ToolResult _ | Block_ServerToolResult _ => field_tool_use_id fields
  | _ => None
  end.

Definition tool_name (b : ContentBlock) : option rstr :=
  fields ← json_id_fields (block_raw b);
  match b with
  | Block_ToolUse _ | Block_ServerToolUse _ => field_name fields
  | _ => None
  end.

Definition classify (raw : RawValue) : ContentBlock :=
  match mjoin (json_type_tag raw) with
  | None => Block_Other raw
  | Some t =>
      if decide (t = str "text") then Block_Text raw
      else if decide (t = str "tool_use") then Block_ToolUse raw
      else if decide (t = str "tool_result") then Block_ToolResult raw
      else if decide (t = str "thinking") then Block_Thinking raw
      else if decide (t = str "redacted_thinking") then Block_RedactedThinking raw
      else if decide (t = str "server_tool_use") then Block_ServerToolUse raw
      else if decide (t = str "web_search_tool_result") then Block_ServerToolResult raw
      else if decide (t = str "web_fetch_tool_result") then Block_ServerToolResult raw
      else if decide (t = str "code_execution_tool_result") then Block_ServerToolResult raw
      else Block_Other raw
  end.

Definition DQUOTE : Z := 34.

Definition MessageContent_deserialize (raw : RawValue) : option MessageContent :=
  if starts_with [DQUOTE] (trim_start raw) then
    text ← json_string raw; Some (Content_Text raw text)
  else
    bs ← json_array raw; Some (Content_Blocks (classify <$> bs)).

Definition WireMessage_deserialize (m : rstr * RawValue) : option WireMessage :=
  r ← Role_deserialize m.1;
  c ← MessageContent_deserialize m.2;
  Some (mkWireMessage r c).

Definition parse_body (bytes : list byte) : option WireBody :=
  env ← json_envelope bytes;
  msgs ← mapM WireMessage_deserialize (env_messages env);
  Some (mkWireBody (ModelId_new (env_model env)) (env_system env) (env_tools env)
          msgs (env_max_tokens env)).

Lemma classify_raw raw : block_raw (classify raw) = raw.
Proof. unfold classify. repeat case_match; done. Qed.

(** Parsing keeps every span verbatim: the raws are the library's pieces. *)
Lemma MessageContent_deserialize_raws raw c :
  MessageContent_deserialize raw = Some c ->
  raws c = [raw] \/ exists ps, json_array raw = Some ps /\ raws c = ps.
Proof.
  unfold MessageContent_deserialize. intros Hc. destruct (starts_with _ _).
  - destruct (json_string raw); simplify_eq/=. by left.
  - destruct (json_array raw) as [ps|]; simplify_eq/=. right. exists ps. split; [done|].
    rewrite <- list_fmap_compose. rewrite <- (list_fmap_id ps) at 2.
    apply list_fmap_ext. intros i x _. apply classify_raw.
Qed.
End Parse.

(** The raw bytes of a message, and their total length. *)
Definition raws_len (rs : list RawValue) : Z := sumZ (str_len <$> rs).

Lemma raws_len_app a b : raws_len (a ++ b) = raws_len a + raws_len b.
Proof. unfold raws_len. by rewrite fmap_app, sumZ_app. Qed.

(** ** A concrete instance for the examples

    Fields are found by scanning for their quoted key; enough to evaluate the
    definitions on small prompts. *)
Definition quoted (s : rstr) : rstr := DQUOTE :: s ++ [DQUOTE].

Definition scan_string_field (key : rstr) (raw : RawValue) : option rstr :=
  let pat := quoted key ++ str ":" ++ [DQUOTE] in
  at_ ← find_sub pat raw;
  '(v, _) ← split_once DQUOTE (drop (at_ + length pat) raw);
  Some v.

Definition scan_json : SerdeJson := {|
  json_envelope := fun _ => None;
  json_string := fun raw => strip_prefix [DQUOTE] raw ≫= strip_suffix [DQUOTE];
  json_array := fun raw => Some [raw];
  json_type_tag := fun raw => Some (scan_string_field (str "type") raw);
  json_id_fields := fun raw =>
    Some (mkIdFields (scan_string_field (str "id") raw)
            (scan_string_field (str "tool_use_id") raw)
            (scan_string_field (str "name") raw));
  json_text_field := scan_string_field (str "text");
  json_result_text := fun raw => Some (scan_string_field (str "content") raw);
  json_result_fields := fun raw =>
    Some (mkToolResultFields None
            (match scan_string_field (str "content") raw with Some t => Result_Text t | None => Result_Empty end));
|}.

(** A JSON object of string fields, printed compactly. *)
Definition json_object (fields : list (rstr * rstr)) : rstr :=
  str "{" ++ join (str ",") ((fun f => quoted f.1 ++ str ":" ++ quoted f.2) <$> fields) ++ str "}".

Definition text_block (t : rstr) : ContentBlock :=
  Block_Text (json_object [(str "type", str "text"); (str "text", t)]).
Definition tool_use_block (id name : rstr) : ContentBlock :=
  Block_ToolUse (json_object [(str "type", str "tool_use"); (str "id", id); (str "name", name)]).
Definition tool_result_block (id out : rstr) : ContentBlock :=
  Block_ToolResult (json_object [(str "type", str "tool_result"); (str "tool_use_id", id); (str "content", out)]).
Definition human (t : rstr) : WireMessage := mkWireMessage Role_User (Content_Text (quoted t) t).
Definition assistant (bs : list ContentBlock) : WireMessage := mkWireMessage Role_Assistant (Content_Blocks bs).
Definition user (bs : list ContentBlock) : WireMessage := mkWireMessage Role_User (Content_Blocks bs).

(** Two rounds with a tool call that is answered, then one still in flight. *)
Definition sample_body : WireBody :=
  mkWireBody (ModelId_new (str "claude-opus-4-8")) (Some (quoted (str "be brief"))) None
    [human (str "list the files");
     assistant [text_block (str "ok"); tool_use_block (str "tu_1") (str "Bash")];
     user [tool_result_block (str "tu_1") (str "a.rs b.rs")];
     assistant [text_block (str "two files")];
     human (str "read a.rs");
     assistant [tool_use_block (str "tu_2") (str "Read")]]
    1024.

Example sample_classify :
  (let _ := scan_json in
   (fun m => classify <$> raws (content m)) <$> messages sample_body !! 1%nat) =
  Some [text_block (str "ok"); tool_use_block (str "tu_1") (str "Bash")].
Proof. vm_compute. reflexivity. Qed.
