(* ===== verification/Segment.v ===== *)
(** * Segmentation

    Models [crates/ccs-policy/src/segment.rs]: the deterministic split of a
    wire body into segments, the freshness boundary and the recency window. *)
From S2P Require Import Prelude RStr Core Config Wire.

Local Open Scope Z_scope.

Record Segment := mkSegment {
  seg_index : nat;
  kind : SegmentKind;
  byte_offset : ByteOffset;
  token_estimate : TokenCount;
  generation : Generation;
  pinned : bool;
  is_current : bool;
  seg_is_true_human : bool;
  source_uuids : list MessageId;
}.

(** The argument of [push]. *)
Record Build := mkBuild {
  b_kind : SegmentKind;
  b_generation : Z;
  b_pinned : bool;
  b_is_true_human : bool;
  b_source_uuids : list MessageId;
  b_raws : list RawValue;
  b_rendered : rstr;
}.

(** The accumulator [push] mutates: the segments and the running offset. *)
Record SegState := mkSegState { st_segments : list Segment; st_offset : Z }.

Definition push (st : SegState) (build : Build) : SegState :=
  let index := length (st_segments st) in
  mkSegState
    (st_segments st ++
     [mkSegment index (b_kind build) (st_offset st)
        (estimate_chars_proxy (b_rendered build)) (b_generation build) (b_pinned build)
        false (b_is_true_human build) (b_source_uuids build)])
    (st_offset st + raws_len (b_raws build)).

Definition message_id (index : nat) : MessageId := MessageId_new (dec_of_nat index).

(** [uuid.parse::<usize>().ok()], the inverse every consumer uses. *)
Definition message_index (u : MessageId) : option nat := parse_usize (MessageId_as_str u).

Definition has_client_tool_use (c : MessageContent) : bool :=
  anyb is_client_tool_use (blocks c).

Definition is_true_human (c : MessageContent) : bool := is_string c.

Section Segmentation.
Context `{SerdeJson}.

Definition paired_user (msgs : list WireMessage) (i : nat) : option nat :=
  m ← msgs !! i;
  let use_ids := omap tool_use_id (filterb is_client_tool_use (blocks (content m))) in
  match use_ids with
  | [] => None
  | _ =>
      let j := S i in
      u ← msgs !! j;
      if decide (role u = Role_User) then
        if anyb (fun b => is_tool_result b &&
                   match tool_use_id b with Some id => contains id use_ids | None => false end)
                (blocks (content u))
        then Some j else None
      else None
  end.

(** The message loop; [fuel] bounds the iterations, each of which advances
    [i] by at least one. *)
Fixpoint segment_messages (fuel : nat) (msgs : list WireMessage) (i : nat) (gen : Z)
    (st : SegState) : SegState :=
  match fuel with
  | O => st
  | S fuel =>
      match msgs !! i with
      | None => st
      | Some m =>
          match role m with
          | Role_Assistant =>
              match paired_user msgs i with
              | Some j =>
                  match msgs !! j with
                  | None => st
                  | Some u =>
                      segment_messages fuel msgs (S j) gen
                        (push st (mkBuild ToolPair gen false false
                           [message_id i; message_id j]
                           (raws (content m) ++ raws (content u))
                           (rendered (content m) ++ rendered (content u))))
                  end
              | None =>
                  segment_messages fuel msgs (S i) gen
                    (push st (mkBuild AssistantTurn gen (has_client_tool_use (content m)) false
                       [message_id i] (raws (content m)) (rendered (content m))))
              end
          | Role_User =>
              let gen := u32_add gen 1 in
              segment_messages fuel msgs (S i) gen
                (push st (mkBuild UserTurn gen false (is_true_human (content m))
                   [message_id i] (raws (content m)) (rendered (content m))))
          | Role_System =>
              segment_messages fuel msgs (S i) gen
                (push st (mkBuild System gen false false
                   [message_id i] (raws (content m)) (rendered (content m))))
          end
      end
  end.

Definition push_envelope (st : SegState) (k : SegmentKind) (raw : option RawValue) : SegState :=
  match raw with
  | None => st
  | Some r => push st (mkBuild k 0 false false [] [r] r)
  end.

Definition mark_last (segs : list Segment) : list Segment :=
  match last segs with
  | None => segs
  | Some s =>
      take (length segs - 1) segs ++
      [mkSegment (seg_index s) (kind s) (byte_offset s) (token_estimate s) (generation s)
         true true (seg_is_true_human s) (source_uuids s)]
  end.

Definition segment_prompt (body : WireBody) : list Segment :=
  let st := mkSegState [] 0 in
  let st := push_envelope st Tools (body_tools body) in
  let st := push_envelope st System (body_system body) in
  let msgs := messages body in
  mark_last (st_segments (segment_messages (length msgs) msgs 0 0 st)).
End Segmentation.

(** ** Freshness and recency *)

Definition Z_cmp : Z -> Z -> comparison := Z.compare.

Definition fresh_boundary (segments : list Segment) : Generation :=
  let gens := dedup (sort_by Z_cmp (filterb (fun g => 0 <? g) (generation <$> segments))) in
  default 0 (gens !! (length gens - 2)%nat).

Definition is_recency_protected (seg : Segment) (segments : list Segment) (cfg : PolicyConfig) : bool :=
  (length segments - recency_window_n cfg <=? seg_index seg)%nat.

Definition is_prune_candidate (seg : Segment) (segments : list Segment) (cfg : PolicyConfig) : bool :=
  negb (pinned seg) && negb (is_recency_protected seg segments cfg).

(** ** The canonical bytes of a segment ([payload.rs]) *)

Definition segment_payload_bytes (seg : Segment) (body : WireBody) : list byte :=
  concat (as_bytes <$>
    concat ((fun m => raws (content m)) <$>
      omap (fun i => messages body !! i) (omap message_index (source_uuids seg)))).

(** ** Facts about [push] *)

(** The segments a run of builds appends, from position [n] and offset [off]. *)
Fixpoint built (n : nat) (off : Z) (bs : list Build) : list Segment :=
  match bs with
  | [] => []
  | b :: bs =>
      mkSegment n (b_kind b) off (estimate_chars_proxy (b_rendered b)) (b_generation b)
        (b_pinned b) false (b_is_true_human b) (b_source_uuids b)
      :: built (S n) (off + raws_len (b_raws b)) bs
  end.

Lemma foldl_push bs : forall st,
  st_segments (foldl push st bs) = st_segments st ++ built (length (st_segments st)) (st_offset st) bs.
Proof.
  induction bs as [|b bs IH]; intros st; simpl; [by rewrite app_nil_r|].
  rewrite IH. unfold push at 1 2 3. cbn [st_segments st_offset]. rewrite <- app_assoc. simpl.
  do 3 f_equal. rewrite length_app. simpl. lia.
Qed.

Lemma built_lookup bs : forall n off k s,
  built n off bs !! k = Some s <->
  exists b, bs !! k = Some b /\
    s = mkSegment (n + k) (b_kind b) (off + sumZ (raws_len ∘ b_raws <$> take k bs))
          (estimate_chars_proxy (b_rendered b)) (b_generation b) (b_pinned b) false
          (b_is_true_human b) (b_source_uuids b).
Proof.
  induction bs as [|b bs IH]; intros n off k s; [split; [done | by intros (b & Hb & _)]|].
  destruct k as [|k]; cbn [built lookup list_lookup take].
  - rewrite Nat.add_0_r, fmap_nil, Z.add_0_r. split; [intros; simplify_eq; eauto | by intros (b' & ? & ->); simplify_eq].
  - rewrite IH, Nat.add_succ_r, fmap_cons, sumZ_cons.
    split; intros (b' & Hb & ->); exists b'; (split; [done|]); f_equal; simpl; lia.
Qed.

Lemma built_length bs : forall n off, length (built n off bs) = length bs.
Proof. induction bs; intros; simpl; [done | by rewrite IHbs]. Qed.

Lemma built_uuids bs : forall n off, source_uuids <$> built n off bs = b_source_uuids <$> bs.
Proof. induction bs as [|b bs IH]; intros; simpl; [done | by rewrite IH]. Qed.

(** ** The message loop against its specification

    [Split msgs i g bs]: from message [i], in generation [g], the messages up
    to the end are cut into the builds [bs]: an assistant message goes with the
    user message that answers its tool calls, everything else stands alone. *)
Section Splitting.
Context `{SerdeJson}.
Implicit Types (msgs : list WireMessage) (bs : list Build).

Inductive Split msgs : nat -> Z -> list Build -> Prop :=
| split_end i g : msgs !! i = None -> Split msgs i g []
| split_pair i g m u bs :
    msgs !! i = Some m -> role m = Role_Assistant ->
    paired_user msgs i = Some (S i) -> msgs !! S i = Some u -> role u = Role_User ->
    Split msgs (S (S i)) g bs ->
    Split msgs i g
      (mkBuild ToolPair g false false [message_id i; message_id (S i)]
         (raws (content m) ++ raws (content u))
         (rendered (content m) ++ rendered (content u)) :: bs)
| split_assistant i g m bs :
    msgs !! i = Some m -> role m = Role_Assistant -> paired_user msgs i = None ->
    Split msgs (S i) g bs ->
    Split msgs i g
      (mkBuild AssistantTurn g (has_client_tool_use (content m)) false [message_id i]
         (raws (content m)) (rendered (content m)) :: bs)
| split_user i g m bs :
    msgs !! i = Some m -> role m = Role_User ->
    Split msgs (S i) (u32_add g 1) bs ->
    Split msgs i g
      (mkBuild UserTurn (u32_add g 1) false (is_true_human (content m)) [message_id i]
         (raws (content m)) (rendered (content m)) :: bs)
| split_system i g m bs :
    msgs !! i = Some m -> role m = Role_System ->
    Split msgs (S i) g bs ->
    Split msgs i g
      (mkBuild System g false false [message_id i]
         (raws (content m)) (rendered (content m)) :: bs).

Lemma paired_user_Some msgs i j :
  paired_user msgs i = Some j ->
  j = S i /\ exists m u ub id, msgs !! i = Some m /\ msgs !! S i = Some u /\ role u = Role_User /\
    ub ∈ blocks (content u) /\ is_tool_result ub = true /\ tool_use_id ub = Some id /\
    exists mb, mb ∈ blocks (content m) /\ is_client_tool_use mb = true /\ tool_use_id mb = Some id.
Proof.
  unfold paired_user. intros P. destruct (msgs !! i) as [m|]; simplify_eq/=.
  set (ids := omap tool_use_id _) in P.
  assert (ids <> [] -> exists u, msgs !! S i = Some u /\ j = S i /\ role u = Role_User /\
    exists ub id, ub ∈ blocks (content u) /\ is_tool_result ub = true /\
      tool_use_id ub = Some id /\ id ∈ ids) as K.
  { intros N. destruct ids as [|x ids'] eqn:E; [done|]. rewrite <- E in *.
    destruct (msgs !! S i) as [u|]; simplify_eq/=. case_decide; [|done].
    destruct (anyb _ _) eqn:A; [|done]. simplify_eq. exists u. split_and!; try done.
    apply anyb_spec in A as (ub & Hub & A). destruct (tool_use_id ub) as [id|] eqn:T; [|by rewrite andb_false_r in A].
    apply andb_true_iff in A as [A1 A2]. rewrite contains_true in A2. eauto 10. }
  destruct (decide (ids = [])) as [E|N]; [by rewrite E in P|].
  destruct (K N) as (u & Hu & -> & R & ub & id & A1 & A2 & A3 & A4).
  split; [done|]. exists m, u, ub, id. split_and!; try done.
  unfold ids in A4. apply list_elem_of_omap in A4 as (mb & Hmb & T).
  apply elem_of_filterb in Hmb as [? ?]. eauto.
Qed.

(** Enough fuel: one unit per remaining message. *)
Lemma segment_messages_Split fuel msgs : forall i g st,
  (length msgs - i <= fuel)%nat ->
  exists bs, Split msgs i g bs /\ segment_messages fuel msgs i g st = foldl push st bs.
Proof.
  induction fuel as [|fuel IH]; intros i g st F; simpl.
  { exists []. split; [|done]. constructor. apply lookup_ge_None. lia. }
  destruct (msgs !! i) as [m|] eqn:Hi; [|exists []; by repeat constructor].
  apply lookup_lt_Some in Hi as L.
  destruct (role m) eqn:R.
  - edestruct (IH (S i)) as (bs & S1 & ->); [lia|]. eexists (_ :: bs). split; [by econstructor | done].
  - destruct (paired_user msgs i) as [j|] eqn:P.
    + destruct (paired_user_Some _ _ _ P) as (-> & m' & u & ub & id & Hm & Hu & Ru & _).
      rewrite Hu. apply lookup_lt_Some in Hu as L'.
      edestruct (IH (S (S i))) as (bs & S1 & ->); [lia|].
      eexists (_ :: bs). split; [by apply (split_pair _ _ _ m u) | done].
    + edestruct (IH (S i)) as (bs & S1 & ->); [lia|]. eexists (_ :: bs). split; [by econstructor | done].
  - edestruct (IH (S i)) as (bs & S1 & ->); [lia|]. eexists (_ :: bs). split; [by econstructor | done].
Qed.

Lemma Split_uuids msgs i g bs :
  Split msgs i g bs -> (i <= length msgs)%nat ->
  concat (b_source_uuids <$> bs) = message_id <$> seq i (length msgs - i).
Proof.
  induction 1 as [i g E|i g m u bs E R P E' R' S IH|i g m bs E R P S IH|i g m bs E R S IH|i g m bs E R S IH];
    intros L; cbn [fmap list_fmap concat b_source_uuids].
  { apply lookup_ge_None in E. by replace (length msgs - i)%nat with 0%nat by lia. }
  all: apply lookup_lt_Some in E; try apply lookup_lt_Some in E'; rewrite IH by lia.
  1: replace (length msgs - i)%nat with (Datatypes.S (Datatypes.S (length msgs - (Datatypes.S (Datatypes.S i))))) by lia; done.
  all: replace (length msgs - i)%nat with (Datatypes.S (length msgs - (Datatypes.S i))) by lia; done.
Qed.

(** *** The whole prompt *)

Definition envelope_builds (body : WireBody) : list Build :=
  (match body_tools body with Some r => [mkBuild Tools 0 false false [] [r] r] | None => [] end) ++
  (match body_system body with Some r => [mkBuild System 0 false false [] [r] r] | None => [] end).

Definition marked (s : Segment) : Segment :=
  mkSegment (seg_index s) (kind s) (byte_offset s) (token_estimate s) (generation s)
    true true (seg_is_true_human s) (source_uuids s).

Lemma mark_last_snoc l s : mark_last (l ++ [s]) = l ++ [marked s].
Proof.
  unfold mark_last. rewrite last_snoc, length_app. simpl.
  rewrite Nat.add_sub, take_app_length. done.
Qed.

Lemma mark_last_lookup segs k s' :
  mark_last segs !! k = Some s' ->
  exists s, segs !! k = Some s /\ s' = (if decide (S k = length segs) then marked s else s).
Proof.
  destruct segs as [|s0 l0] using rev_ind; [done|]. rewrite mark_last_snoc, length_app. simpl.
  intros [Hk|[L Hk]]%lookup_app_Some.
  - exists s'. rewrite lookup_app_l by (by eapply lookup_lt_Some). split; [done|].
    apply lookup_lt_Some in Hk. rewrite decide_False by lia. done.
  - apply list_lookup_singleton_Some in Hk as [E <-]. exists s0. rewrite lookup_app_r by done.
    rewrite E. split; [done|]. rewrite decide_True by lia. done.
Qed.

Lemma mark_last_fmap {A} (f : Segment -> A) segs :
  (forall s, f (marked s) = f s) -> f <$> mark_last segs = f <$> segs.
Proof.
  intros Hf. destruct segs as [|s l] using rev_ind; [done|].
  rewrite mark_last_snoc, !fmap_app. simpl. by rewrite Hf.
Qed.

Lemma mark_last_length segs : length (mark_last segs) = length segs.
Proof. destruct segs using rev_ind; [done|]. by rewrite mark_last_snoc, !length_app. Qed.

(** The prompt's segments are the envelope's builds and a split of the
    messages, laid out from offset 0, with the last one marked. *)
Lemma segment_prompt_built body :
  exists bs, Split (messages body) 0 0 bs /\
    segment_prompt body = mark_last (built 0 0 (envelope_builds body ++ bs)).
Proof.
  unfold segment_prompt. edestruct (segment_messages_Split (length (messages body))) as (bs & S0 & ->); [lia|].
  exists bs. split; [done|]. f_equal.
  replace (push_envelope _ System _) with (foldl push (mkSegState [] 0) (envelope_builds body)).
  - rewrite <- foldl_app, foldl_push. done.
  - unfold envelope_builds, push_envelope.
    destruct (body_tools body), (body_system body); done.
Qed.

Lemma segment_prompt_lookup body bs k s :
  segment_prompt body = mark_last (built 0 0 (envelope_builds body ++ bs)) ->
  segment_prompt body !! k = Some s ->
  exists b, (envelope_builds body ++ bs) !! k = Some b /\
    seg_index s = k /\ kind s = b_kind b /\ source_uuids s = b_source_uuids b /\
    generation s = b_generation b /\ seg_is_true_human s = b_is_true_human b /\
    byte_offset s = sumZ (raws_len ∘ b_raws <$> take k (envelope_builds body ++ bs)) /\
    token_estimate s = estimate_chars_proxy (b_rendered b) /\
    ((S k = length (segment_prompt body) /\ pinned s = true /\ is_current s = true) \/
     ((S k < length (segment_prompt body))%nat /\ pinned s = b_pinned b /\ is_current s = false)).
Proof.
  intros E Hk. pose proof (lookup_lt_Some _ _ _ Hk) as L. rewrite E in Hk. rewrite E, mark_last_length in *.
  apply mark_last_lookup in Hk as (s0 & Hk & ->). apply built_lookup in Hk as (b & Hb & ->).
  exists b. split; [done|]. case_decide; cbn; rewrite ?Z.add_0_l; split_and!; try done.
  - by left.
  - right. split; [lia | done].
Qed.

Lemma envelope_uuids body : concat (b_source_uuids <$> envelope_builds body) = [].
Proof. unfold envelope_builds. by destruct (body_tools body), (body_system body). Qed.

Lemma segment_prompt_uuids body :
  concat (source_uuids <$> segment_prompt body) = message_id <$> seq 0 (length (messages body)).
Proof.
  destruct (segment_prompt_built body) as (bs & S0 & ->).
  rewrite mark_last_fmap by done. rewrite built_uuids, fmap_app, concat_app, envelope_uuids.
  simpl. rewrite (Split_uuids _ _ _ _ S0) by lia. by rewrite Nat.sub_0_r.
Qed.

(** A message id names its index. *)
Lemma message_index_id i : Z.of_nat i < 2 ^ 64 -> message_index (message_id i) = Some i.
Proof. apply parse_usize_dec_of_nat. Qed.

Lemma omap_message_index l :
  Forall (fun i => Z.of_nat i < 2 ^ 64) l -> omap message_index (message_id <$> l) = l.
Proof.
  induction 1 as [|i l Hi _ IH]; [done|]. cbn -[message_index message_id].
  rewrite message_index_id by done. by rewrite IH.
Qed.

Lemma segment_payload_concat body segs :
  concat ((fun s => segment_payload_bytes s body) <$> segs) =
  concat (as_bytes <$> concat ((fun m => raws (content m)) <$>
    omap (fun i => messages body !! i) (omap message_index (concat (source_uuids <$> segs))))).
Proof.
  induction segs as [|s segs IH]; [done|]. rewrite fmap_cons. cbn [concat]. rewrite IH.
  unfold segment_payload_bytes. rewrite fmap_cons. cbn [concat].
  by rewrite !omap_app, !fmap_app, !concat_app, !fmap_app, concat_app.
Qed.

Lemma omap_lookup_seq {A} (l : list A) : omap (fun i => l !! i) (seq 0 (length l)) = l.
Proof.
  induction l as [|a l IH] using rev_ind; [done|].
  rewrite length_app, Nat.add_1_r, seq_S, omap_app. simpl.
  rewrite lookup_app_r, Nat.sub_diag by lia. simpl. f_equal. rewrite <- IH at 2.
  apply list_omap_ext. apply Forall2_same_length_lookup_2; [done|].
  intros i x y Hx Hy. rewrite Hx in Hy. simplify_eq.
  apply lookup_seq in Hx as [-> Hlt]. by rewrite lookup_app_l.
Qed.

(** What the builds of a split say about the messages they cover. *)
Definition uuid_messages msgs (us : list MessageId) : list WireMessage :=
  omap (fun i => msgs !! i) (omap message_index us).

Lemma Split_raws msgs i g bs :
  Z.of_nat (length msgs) <= 2 ^ 64 -> Split msgs i g bs ->
  forall b, b ∈ bs -> b_raws b = concat ((fun m => raws (content m)) <$> uuid_messages msgs (b_source_uuids b)).
Proof.
  intros Hn. assert (M : forall j m, msgs !! j = Some m -> message_index (message_id j) = Some j).
  { intros j m Hj%lookup_lt_Some. apply message_index_id. lia. }
  induction 1 as [|i g m u bs E R P E' R' _ IH|i g m bs E R P _ IH|i g m bs E R _ IH|i g m bs E R _ IH];
    intros b Hb; [by apply not_elem_of_nil in Hb|..];
    (apply elem_of_cons in Hb as [->|Hb]; [|by apply IH]);
    unfold uuid_messages; cbn -[message_index message_id]; rewrite (M _ _ E); [rewrite (M _ _ E')|..];
    cbn; rewrite E; [rewrite E'|..]; cbn; by rewrite !app_nil_r.
Qed.

Lemma Split_assistant msgs i g bs :
  Split msgs i g bs -> forall j m, (i <= j)%nat -> msgs !! j = Some m -> role m = Role_Assistant ->
  exists b, b ∈ bs /\
    ((b_kind b = ToolPair /\ b_source_uuids b = [message_id j; message_id (S j)] /\
      paired_user msgs j = Some (S j)) \/
     (b_kind b = AssistantTurn /\ b_source_uuids b = [message_id j] /\
      b_pinned b = has_client_tool_use (content m) /\ paired_user msgs j = None)).
Proof.
  induction 1 as [i g E|i g m0 u bs E R P E' R' _ IH|i g m0 bs E R P _ IH|i g m0 bs E R _ IH|i g m0 bs E R _ IH];
    intros j m L Hj Rj.
  { apply lookup_lt_Some in Hj. apply lookup_ge_None in E. lia. }
  all: destruct (decide (j = i)) as [->|N]; simplify_eq.
  - eexists. split; [by left|]. by left.
  - destruct (decide (j = S i)) as [->|N']; [congruence|].
    destruct (IH j m ltac:(lia) Hj Rj) as (b & Hb & K). exists b. split; [by right | done].
  - eexists. split; [by left|]. by right.
  - destruct (IH j m ltac:(lia) Hj Rj) as (b & Hb & K). exists b. split; [by right | done].
  - congruence.
  - destruct (IH j m ltac:(lia) Hj Rj) as (b & Hb & K). exists b. split; [by right | done].
  - congruence.
  - destruct (IH j m ltac:(lia) Hj Rj) as (b & Hb & K). exists b. split; [by right | done].
Qed.

Lemma Split_user msgs i g bs :
  Split msgs i g bs -> forall b, b ∈ bs -> b_is_true_human b = true ->
  exists j m, b_kind b = UserTurn /\ b_source_uuids b = [message_id j] /\ msgs !! j = Some m /\
    role m = Role_User /\ is_string (content m) = true.
Proof.
  induction 1 as [|i g m u bs E R P E' R' _ IH|i g m bs E R P _ IH|i g m bs E R _ IH|i g m bs E R _ IH];
    intros b Hb; [by apply not_elem_of_nil in Hb|..];
    (apply elem_of_cons in Hb as [->|Hb]; [|by apply IH]); cbn; try done.
  intros T. exists i, m. done.
Qed.

Lemma envelope_raws_sum body k :
  sumZ (raws_len ∘ b_raws <$> take k (envelope_builds body)) =
  raws_len (take k (option_list (body_tools body) ++ option_list (body_system body))).
Proof.
  unfold envelope_builds, raws_len.
  destruct (body_tools body), (body_system body); destruct k as [|[|[|k]]]; cbn; lia.
Qed.

Lemma envelope_payload body b s :
  b ∈ envelope_builds body -> source_uuids s = b_source_uuids b -> segment_payload_bytes s body = [].
Proof.
  unfold envelope_builds, segment_payload_bytes. intros Hb ->.
  destruct (body_tools body), (body_system body); cbn in Hb;
    repeat (apply elem_of_cons in Hb as [->|Hb]; [done|]); by apply not_elem_of_nil in Hb.
Qed.

Lemma raws_len_bytes rs : raws_len rs = Z.of_nat (length (concat (as_bytes <$> rs))).
Proof.
  unfold raws_len. induction rs as [|r rs IH]; [done|].
  rewrite !fmap_cons. cbn [concat]. rewrite sumZ_cons, IH, length_app, <- as_bytes_length. lia.
Qed.

(** The running offset of the message builds is the bytes laid out so far. *)
Lemma message_offset body bs segs :
  (forall b, b ∈ bs -> b_raws b =
    concat ((fun m => raws (content m)) <$> uuid_messages (messages body) (b_source_uuids b))) ->
  source_uuids <$> segs = b_source_uuids <$> bs ->
  sumZ (raws_len ∘ b_raws <$> bs) =
  Z.of_nat (length (concat ((fun s => segment_payload_bytes s body) <$> segs))).
Proof.
  revert segs. induction bs as [|b bs IH]; intros [|s segs] HB E; [done..|].
  rewrite !fmap_cons in E. injection E as Es E.
  rewrite !fmap_cons. cbn [concat]. rewrite sumZ_cons, (IH segs), length_app, Nat2Z.inj_add; [|set_solver | done]. f_equal.
  unfold compose. rewrite (HB b) by set_solver. rewrite raws_len_bytes.
  unfold segment_payload_bytes, uuid_messages. congruence.
Qed.
End Splitting.

(** ** The freshness cutoff *)

Lemma dedup_from_sorted x l :
  StronglySorted (fun a b => a <= b) (x :: l) ->
  StronglySorted Z.lt (dedup_from x l) /\ forall y, y ∈ dedup_from x l <-> y ∈ x :: l.
Proof.
  revert x. induction l as [|y l IH]; intros x Hs; cbn [dedup_from].
  { split; [repeat constructor | done]. }
  apply StronglySorted_inv in Hs as [Hs Hx]. destruct (IH y Hs) as [D E].
  case_decide as C; [subst; split; [done | set_solver]|].
  assert (x < y) by (apply Forall_cons in Hx as [? _]; lia). split; [|set_solver].
  constructor; [done|]. apply Forall_forall. intros z Hz. apply E in Hz.
  apply StronglySorted_inv in Hs as [_ Hy]. rewrite Forall_forall in Hy.
  apply elem_of_cons in Hz as [->|Hz]; [done|]. specialize (Hy z Hz). lia.
Qed.

Lemma dedup_sorted l :
  StronglySorted (fun a b => a <= b) l ->
  StronglySorted Z.lt (dedup l) /\ forall y, y ∈ dedup l <-> y ∈ l.
Proof. destruct l; [split; [constructor | done] | apply dedup_from_sorted]. Qed.

Lemma sort_by_Z_sorted l : StronglySorted (fun a b => a <= b) (sort_by Z_cmp l).
Proof.
  apply (sort_by_sorted Z_cmp); unfold Z_cmp.
  - intros x y G%Z.compare_gt_iff. change (y <= x). lia.
  - intros x y z A B. change (x <= y) in A. change (y <= z) in B. change (x <= z). lia.
Qed.

Lemma sorted_penultimate l :
  StronglySorted Z.lt l ->
  match l !! (length l - 2)%nat with
  | None => l = []
  | Some b => b ∈ l /\ exists top, top ∈ l /\ b <= top /\
      (forall g, g ∈ l -> g <= b \/ g = top) /\ (b = top -> l = [top])
  end.
Proof.
  destruct l as [|x l] using rev_ind; [done|]. clear IHl. intros Hs.
  destruct l as [|b l] using rev_ind; [|clear IHl].
  { simpl. split; [set_solver|]. exists x. set_solver by lia. }
  rewrite <- app_assoc in Hs |- *. simpl in *. rewrite length_app. simpl.
  rewrite Nat.add_sub, lookup_app_r, Nat.sub_diag by lia. simpl. split; [set_solver|].
  apply sorting.StronglySorted_app in Hs as (HR & _ & Hs).
  apply StronglySorted_inv in Hs as [_ Hbx]. apply Forall_cons in Hbx as [Hbx _].
  exists x. split; [set_solver|]. split; [lia|]. split; [|lia].
  intros g Hg. apply elem_of_app in Hg as [Hg|Hg]; [|set_solver by lia].
  left. enough (g < b) by lia. apply HR; set_solver.
Qed.

(** ** Properties *)

Section Properties.
Context `{SerdeJson} (body : WireBody).
Hypothesis Hlen : Z.of_nat (length (messages body)) <= 2 ^ 64.

Lemma segment_prompt_payloads :
  concat ((fun s => segment_payload_bytes s body) <$> segment_prompt body) =
  concat (as_bytes <$> concat ((fun m => raws (content m)) <$> messages body)).
Proof.
  rewrite segment_payload_concat, segment_prompt_uuids, omap_message_index, omap_lookup_seq; [done|].
  apply Forall_forall. intros i Hi%elem_of_seq. lia.
Qed.

Lemma segment_prompt_offset k s :
  segment_prompt body !! k = Some s ->
  byte_offset s =
    raws_len (take k (option_list (body_tools body) ++ option_list (body_system body))) +
    Z.of_nat (length (concat ((fun s => segment_payload_bytes s body) <$> take k (segment_prompt body)))).
Proof.
  destruct (segment_prompt_built body) as (bs & S0 & E). intros Hk.
  destruct (segment_prompt_lookup _ _ _ _ E Hk) as (b & _ & _ & _ & _ & _ & _ & -> & _).
  assert (U : source_uuids <$> segment_prompt body = b_source_uuids <$> envelope_builds body ++ bs).
  { by rewrite E, mark_last_fmap, built_uuids. }
  rewrite take_app, fmap_app, sumZ_app, envelope_raws_sum. f_equal.
  set (ne := length (envelope_builds body)).
  assert (Ln : (ne <= length (segment_prompt body))%nat).
  { apply (f_equal length) in U. rewrite !length_fmap, length_app in U. lia. }
  rewrite <- (take_drop ne (segment_prompt body)) in U |- *.
  rewrite fmap_app, fmap_app in U. apply app_inj_1 in U as [U1 U2].
  2:{ rewrite !length_fmap, length_take. lia. }
  rewrite take_app, fmap_app, concat_app. rewrite length_app, Nat2Z.inj_add.
  assert (L : length (take ne (segment_prompt body)) = ne).
  { apply (f_equal length) in U1. by rewrite !length_fmap in U1. }
  rewrite L.
  assert (forall n, concat ((fun s => segment_payload_bytes s body) <$> take n (take ne (segment_prompt body))) = []) as ->.
  { intros n. apply concat_nil_Forall, Forall_fmap, Forall_take, Forall_lookup.
    intros i x Hx. apply (f_equal (fun l => l !! i)) in U1. rewrite !list_lookup_fmap, Hx in U1.
    destruct (envelope_builds body !! i) as [b'|] eqn:B; simplify_eq/=.
    apply (envelope_payload _ b'); [by eapply list_elem_of_lookup_2 | congruence]. }
  simpl. apply message_offset.
  - intros b' Hb'. apply (Split_raws _ _ _ _ Hlen S0). rewrite <- (take_drop (k - ne) bs). apply elem_of_app. by left.
  - by rewrite !fmap_take, U2.
Qed.
End Properties.

(** C9. Segmentation is a partition: over [tools], [system] and the messages,
    every message index appears in exactly one segment and in order, a
    segment's [index] is its position, the canonical payloads concatenate to
    the bytes of all messages (nothing lost, nothing twice), and [byte_offset]
    is the number of envelope and payload bytes before the segment. *)
Theorem segment_prompt_partition `{SerdeJson} (body : WireBody) :
  Z.of_nat (length (messages body)) <= 2 ^ 64 ->
  concat (source_uuids <$> segment_prompt body) = message_id <$> seq 0 (length (messages body)) /\
  concat ((fun s => segment_payload_bytes s body) <$> segment_prompt body) =
    concat (as_bytes <$> concat ((fun m => raws (content m)) <$> messages body)) /\
  forall k s, segment_prompt body !! k = Some s ->
    seg_index s = k /\
    byte_offset s =
      raws_len (take k (option_list (body_tools body) ++ option_list (body_system body))) +
      Z.of_nat (length (concat ((fun s => segment_payload_bytes s body) <$> take k (segment_prompt body)))).
Proof.
  intros Hlen. split; [apply segment_prompt_uuids|]. split; [by apply segment_prompt_payloads|].
  intros k s Hk. split; [|by apply segment_prompt_offset].
  destruct (segment_prompt_built body) as (bs & _ & E).
  by destruct (segment_prompt_lookup _ _ _ _ E Hk) as (b & _ & ? & _).
Qed.

Lemma segment_prompt_partition_witness :
  let _ := scan_json in
  length (segment_prompt sample_body) = 6%nat /\
  concat (source_uuids <$> segment_prompt sample_body) = message_id <$> seq 0 6.
Proof.
  split; [vm_compute; reflexivity|].
  exact (proj1 (@segment_prompt_partition scan_json sample_body ltac:(vm_compute; discriminate))).
Defined.

(** C31. No client tool call is orphaned: an assistant message with a client
    [tool_use] either shares a [ToolPair] segment with the very next message, a
    user message carrying a [tool_result] for one of its ids, or it stands in
    an [AssistantTurn] that is pinned, hence never a prune candidate. *)
Theorem segment_prompt_no_orphan `{SerdeJson} (body : WireBody) (cfg : PolicyConfig)
    (i : nat) (m : WireMessage) :
  messages body !! i = Some m -> role m = Role_Assistant -> has_client_tool_use (content m) = true ->
  exists s, s ∈ segment_prompt body /\
    ((kind s = ToolPair /\ source_uuids s = [message_id i; message_id (S i)] /\
      exists u ub mb id, messages body !! S i = Some u /\ role u = Role_User /\
        ub ∈ blocks (content u) /\ is_tool_result ub = true /\ tool_use_id ub = Some id /\
        mb ∈ blocks (content m) /\ is_client_tool_use mb = true /\ tool_use_id mb = Some id) \/
     (kind s = AssistantTurn /\ source_uuids s = [message_id i] /\ pinned s = true /\
      is_prune_candidate s (segment_prompt body) cfg = false)).
Proof.
  intros Hi R T. destruct (segment_prompt_built body) as (bs & S0 & E).
  destruct (Split_assistant _ _ _ _ S0 i m ltac:(lia) Hi R) as (b & Hb & K).
  apply list_elem_of_lookup in Hb as [k Hk].
  set (k' := (length (envelope_builds body) + k)%nat).
  assert (Hb : (envelope_builds body ++ bs) !! k' = Some b).
  { unfold k'. rewrite lookup_app_r by lia. rewrite Nat.add_sub_swap by lia. by rewrite Nat.sub_diag. }
  destruct (segment_prompt body !! k') as [s|] eqn:Hs.
  2:{ apply lookup_ge_None in Hs. apply lookup_lt_Some in Hb.
      rewrite E, mark_last_length, built_length in Hs. lia. }
  destruct (segment_prompt_lookup _ _ _ _ E Hs) as (b' & Hb' & _ & Kd & U & _ & _ & _ & _ & P).
  simplify_eq. exists s. split; [by eapply list_elem_of_lookup_2|].
  destruct K as [(Kb & Ub & Pu) | (Kb & Ub & Pb & Pu)].
  - left. destruct (paired_user_Some _ _ _ Pu) as (_ & m' & u & ub & id & Hm & Hu & Ru & H1 & H2 & H3 & mb & H4 & H5 & H6).
    simplify_eq. rewrite Kd, U. split_and!; try done. exists u, ub, mb, id. done.
  - right. rewrite T in Pb. assert (pinned s = true) as Ps by (destruct P as [(_ & ? & _)|(_ & ? & _)]; congruence).
    rewrite Kd, U. split_and!; try done. unfold is_prune_candidate. by rewrite Ps.
Qed.

Lemma segment_prompt_no_orphan_witness :
  let _ := scan_json in
  exists s, s ∈ segment_prompt sample_body /\
    source_uuids s = [message_id 5] /\ pinned s = true.
Proof.
  destruct (@segment_prompt_no_orphan scan_json sample_body PolicyConfig_default 5
    (assistant [tool_use_block (str "tu_2") (str "Read")]) ltac:(reflexivity) ltac:(reflexivity)
    ltac:(reflexivity)) as (s & Hs & [(_ & _ & u & _ & _ & _ & Hu & _) | (_ & U & P & _)]).
  - vm_compute in Hu. discriminate.
  - exists s. split; [exact Hs|]. split; [exact U | exact P].
Defined.

(** The floors of pruning: exactly the last segment is current (and it is
    pinned), and a prune candidate is never the last segment, never pinned and
    always lies before the recency window, whatever window is configured. *)
Theorem prune_candidate_floor `{SerdeJson} (body : WireBody) (cfg : PolicyConfig) (k : nat) (s : Segment) :
  segment_prompt body !! k = Some s ->
  (is_current s = true <-> S k = length (segment_prompt body)) /\
  (is_current s = true -> pinned s = true) /\
  (is_prune_candidate s (segment_prompt body) cfg = true <->
     pinned s = false /\ (k + Nat.max 1 (recency_window_n cfg) < length (segment_prompt body))%nat).
Proof.
  intros Hk. destruct (segment_prompt_built body) as (bs & _ & E).
  destruct (segment_prompt_lookup _ _ _ _ E Hk) as (b & _ & I & _ & _ & _ & _ & _ & _ & P).
  split; [|split].
  - destruct P as [(-> & _ & ->)|(? & _ & ->)]; split; try done. lia.
  - by destruct P as [(_ & -> & _)|(_ & _ & ->)].
  - unfold is_prune_candidate, is_recency_protected. rewrite andb_true_iff, !negb_true_iff, Nat.leb_gt, I.
    apply lookup_lt_Some in Hk.
    destruct P as [(L & -> & _)|(L & -> & _)]; split; intros [? ?]; split; try done; lia.
Qed.

Lemma prune_candidate_floor_witness :
  let _ := scan_json in
  ((fun s => is_prune_candidate s (segment_prompt sample_body) PolicyConfig_default) <$>
     segment_prompt sample_body) = [true; true; true; false; false; false] /\
  (forall s, segment_prompt sample_body !! 5%nat = Some s -> is_current s = true).
Proof.
  split; [vm_compute; reflexivity|]. intros s Hs.
  apply (proj1 (@prune_candidate_floor scan_json sample_body PolicyConfig_default 5 s Hs)).
  vm_compute. reflexivity.
Defined.

(** The freshness cutoff is the second most recent user generation
    ([gen[-2]]): with no positive generation it is 0; otherwise it is one of
    them, at most one distinct generation is newer, and it equals the newest
    only when there is just one. *)
Theorem fresh_boundary_spec (segments : list Segment) :
  let live g := g ∈ generation <$> segments /\ 0 < g in
  let b := fresh_boundary segments in
  (b = 0 /\ forall g, ~ live g) \/
  (live b /\ exists top, live top /\ b <= top /\ (forall g, live g -> g <= b \/ g = top) /\
     (b = top -> forall g, live g -> g = top)).
Proof.
  intros live b. unfold b, fresh_boundary. set (gens := dedup _).
  destruct (dedup_sorted _ (sort_by_Z_sorted (filterb (fun g => 0 <? g) (generation <$> segments)))) as [D El].
  fold gens in D, El.
  assert (L : forall g, g ∈ gens <-> live g).
  { intros g. rewrite El, sort_by_perm, elem_of_filterb, Z.ltb_lt. done. }
  pose proof (sorted_penultimate gens D) as P. destruct (gens !! _) as [b'|]; simpl.
  - destruct P as [Hb (top & Ht & Hle & Hall & Heq)]. right. split; [by apply L|].
    exists top. split; [by apply L|]. split; [done|]. split; [intros g Hg%L; by apply Hall|].
    intros Hbt g Hg%L. rewrite (Heq Hbt) in Hg. set_solver.
  - left. split; [done|]. intros g Hg%L. rewrite P in Hg. set_solver.
Qed.
