(* ===== verification/Policy.v ===== *)
(** * The policy data model

    Models the small modules of [crates/ccs-policy/src]: the summarizer's
    decision and its repair ([decision.rs]), the lossy ladder ([strategy.rs]),
    the salience pins ([salience.rs]), candidates and batches
    ([candidate.rs]), breakpoint planning ([breakpoint.rs]) and the two-layer
    budget ([budget.rs]). *)
From S2P Require Import Prelude RStr F64 Core Economics Config Wire Segment.
From Stdlib Require Import QArith Qabs Lqa.

Local Open Scope Z_scope.

(** ** The ladder ([strategy.rs]) *)

Inductive Strategy :=
| Keep
| Recode (recode_content : rstr) (recode_ref : option RefId)
| Truncate (ranges : list LineRange)
| Summarize (summary_text : rstr)
| ReversibleRef (rr_ref : RefId) (rr_summary : rstr)
| Drop.
#[export] Instance Strategy_eq_dec : EqDecision Strategy.
Proof. solve_decision. Defined.

Inductive StrategyKind :=
| Kind_Keep | Kind_Recode | Kind_Truncate | Kind_Summarize | Kind_ReversibleRef | Kind_Drop.
#[export] Instance StrategyKind_eq_dec : EqDecision StrategyKind.
Proof. solve_decision. Defined.

Definition LADDER_PRIORITY : list StrategyKind :=
  [Kind_Recode; Kind_Truncate; Kind_Summarize; Kind_ReversibleRef; Kind_Keep].

(** ** The summarizer's decision ([decision.rs]) *)

Record ContentDecision := mkContentDecision {
  choice : ChoiceTag;
  ranges_to_keep : list LineRange;
  summary_content : option rstr;
}.
#[export] Instance ContentDecision_eq_dec : EqDecision ContentDecision.
Proof. solve_decision. Defined.

Definition is_empty {A} (l : list A) : bool := match l with [] => true | _ => false end.

Definition normalize (self : ContentDecision) : ContentDecision :=
  let with_choice c := mkContentDecision c (ranges_to_keep self) (summary_content self) in
  match choice self with
  | ChoiceTag_Truncate =>
      if is_empty (ranges_to_keep self) then with_choice ChoiceTag_Keep else self
  | ChoiceTag_Summarize =>
      if is_empty (default [] (summary_content self)) then with_choice ChoiceTag_Compress else self
  | _ => self
  end.

Definition pre_gate (self : ContentDecision) (original_len : Z) (cfg : PolicyConfig) : option Strategy :=
  if original_len <? pre_gate_min_chars cfg then Some Keep
  else
    match choice self, summary_content self with
    | ChoiceTag_Summarize, Some summary =>
        if original_len <? chars_count summary then Some Keep else None
    | _, _ => None
    end.

(** ** Salience ([salience.rs]) *)

Record Constraint := mkConstraint {
  constraint_text : rstr;
  source_message : MessageId;
  constraint_superseded_by : option MessageId;
}.

Record Decision := mkDecision {
  decision_text : rstr;
  rationale : rstr;
  planned : bool;
  decision_superseded_by : option MessageId;
}.

Record InFlightWork := mkInFlightWork {
  task : rstr;
  last_safe_point : rstr;
  open_files : list rstr;
  skill_paths : list rstr;
}.

Record WorkingState := mkWorkingState {
  constraints : list Constraint;
  decisions : list Decision;
  in_flight : option InFlightWork;
}.

Definition WorkingState_default : WorkingState := mkWorkingState [] [] None.

Definition is_none {A} (o : option A) : bool := match o with None => true | Some _ => false end.

Definition carries_live_constraint (seg : Segment) (state : WorkingState) : bool :=
  anyb (fun c => contains (source_message c) (source_uuids seg))
    (filterb (fun c => is_none (constraint_superseded_by c)) (constraints state)).

Definition is_pinned (seg : Segment) (state : WorkingState) : bool :=
  (bool_decide (kind seg = UserTurn) && seg_is_true_human seg) || carries_live_constraint seg state.

(** ** Candidates ([candidate.rs]) *)

Record SquashCandidate := mkSquashCandidate {
  earliest_offset : ByteOffset;
  cand_suffix_tokens : TokenCount;
  cand_net_removed : Z;
  cand_quality_gain : f64;
  cand_ref_id : RefId;
  cand_strategy : Strategy;
}.

Record SquashBatch := mkSquashBatch { candidates : list SquashCandidate }.

Definition SquashBatch_of_single (cand : SquashCandidate) : SquashBatch := mkSquashBatch [cand].

(** [Iterator::min] and [max]. *)
Definition list_min (l : list Z) : option Z :=
  match l with [] => None | x :: l => Some (foldl Z.min x l) end.
Definition list_max (l : list Z) : option Z :=
  match l with [] => None | x :: l => Some (foldl Z.max x l) end.

Definition head_offset (self : SquashBatch) : ByteOffset :=
  default 0 (list_min (earliest_offset <$> candidates self)).

(** [Iterator::sum::<f64>] starts from [-0.0]. *)
Definition f64_sum (l : list f64) : f64 := foldl f64_add (f64_opp f64_zero) l.

#[export] Instance SquashBatch_view : BatchView SquashBatch := {
  suffix_tokens self := default 0 (list_max (cand_suffix_tokens <$> candidates self));
  total_removed self := i64_sum (cand_net_removed <$> candidates self);
  quality_gain self := f64_sum (cand_quality_gain <$> candidates self);
}.

(** [(f64::from(tokens) * 3.5).round() as usize] *)
Definition approx_chars (seg : Segment) : Z :=
  f64_to_u64 (f64_round_half_away (f64_mul (f64_of_Z (token_estimate seg)) (f64_lit 7 2))).

Definition is_huge_human_paste (seg : Segment) (cfg : PolicyConfig) : bool :=
  seg_is_true_human seg && bool_decide (kind seg = UserTurn)
  && (human_verbatim_max cfg <? approx_chars seg).

Definition is_squash_candidate (seg : Segment) (working : WorkingState) (cfg : PolicyConfig) : bool :=
  negb (is_pinned seg working) || is_huge_human_paste seg cfg.

(** ** Cache breakpoints ([breakpoint.rs]) *)

Record BreakpointPlan := mkBreakpointPlan { positions : list nat }.

Definition cap_cache_hints_to (ps : list nat) (cap : nat) : list nat :=
  if (length ps <=? cap)%nat then ps else drop (length ps - cap) ps.

Definition cap_cache_hints (ps : list nat) : list nat := cap_cache_hints_to ps CACHE_HINT_CAP.

(** [scan]: each segment's index with the running [u64] prefix sum. *)
Fixpoint scan_prefix (prefix : Z) (segments : list Segment) : list (nat * Z) :=
  match segments with
  | [] => []
  | seg :: rest =>
      let prefix := u64_wrap (prefix + token_estimate seg) in
      (seg_index seg, prefix) :: scan_prefix prefix rest
  end.

(** The indices that pass the filter; [None] is the panic of [segments[index]]
    on an index out of range. *)
Fixpoint stable_positions (segments : list Segment) (lookback_start : nat) (floor : Z)
    (cfg : PolicyConfig) (scanned : list (nat * Z)) : option (list nat) :=
  match scanned with
  | [] => Some []
  | (index, prefix) :: rest =>
      keep ← (if (lookback_start <=? index)%nat && (floor <=? prefix) then
                seg ← segments !! index;
                Some (negb (is_recency_protected seg segments cfg))
              else Some false);
      ps ← stable_positions segments lookback_start floor cfg rest;
      Some (if (keep : bool) then index :: ps else ps)
  end.

Definition plan_breakpoints (segments : list Segment) (min_floor : TokenCount) (cfg : PolicyConfig)
    : option BreakpointPlan :=
  let lookback_start := (length segments - lookback_positions cfg)%nat in
  ps ← stable_positions segments lookback_start min_floor cfg (scan_prefix 0 segments);
  Some (mkBreakpointPlan (cap_cache_hints_to ps (cache_hint_cap cfg))).

(** ** The budget ([budget.rs]) *)

Inductive Pressure := Nominal | OverBudget.
#[export] Instance Pressure_eq_dec : EqDecision Pressure.
Proof. solve_decision. Defined.

Definition soft_pressure (window just_added : TokenCount) : Pressure :=
  let max_tokens := f64_mul (f64_lit 8 10) (f64_of_Z window) in
  if f64_ltb (f64_div max_tokens (f64_of_Z 2)) (f64_of_Z just_added) then OverBudget else Nominal.

Definition hard_target (window max_output : TokenCount) : TokenCount :=
  Z.max (sat_sub (sat_sub window max_output) 1024) 256.

Definition is_reasoning_block (block : ContentBlock) : bool :=
  match block with Block_Thinking _ | Block_RedactedThinking _ => true | _ => false end.

(** The blocks of the messages a segment covers. *)
Definition segment_blocks (body : WireBody) (seg : Segment) : list ContentBlock :=
  concat ((fun m => blocks (content m)) <$>
    omap (fun i => messages body !! i) (omap message_index (source_uuids seg))).

Definition segment_has_reasoning (body : WireBody) (seg : Segment) : bool :=
  anyb is_reasoning_block (segment_blocks body seg).

Definition strip_reasoning (body : WireBody) (segments : list Segment) : list nat :=
  let latest_assistant := rposition (fun s => bool_decide (kind s = AssistantTurn)) segments in
  seg_index <$>
    filterb (segment_has_reasoning body)
      (filterb (fun s => bool_decide (kind s = AssistantTurn)
                         && bool_decide (Some (seg_index s) <> latest_assistant)) segments).

Definition shed_tokens (body : WireBody) (seg : Segment) : Z :=
  let kept := concat (block_raw <$> filterb (fun b => negb (is_reasoning_block b)) (segment_blocks body seg)) in
  sat_sub (token_estimate seg) (estimate_chars_proxy kept).

(** ** The soft budget is exact *)

Lemma eight_tenths : (f_val (f64_lit 8 10) == (4 # 5) + (1 # 22517998136852480))%Q.
Proof. vm_compute. reflexivity. Qed.

Lemma half_cap window :
  is_u32 window ->
  Rounds (f_val (f64_mul (f64_lit 8 10) (f64_of_Z window)) / 2)%Q
    (f64_div (f64_mul (f64_lit 8 10) (f64_of_Z window)) (f64_of_Z 2)) /\
  Rounds (inject_Z window * ((4 # 5) + (1 # 22517998136852480)))%Q
    (f64_mul (f64_lit 8 10) (f64_of_Z window)).
Proof.
  unfold is_u32. intros Hw.
  assert (E : (f_val (f64_of_Z window) == inject_Z window)%Q) by (apply f64_of_Z_exact; lia).
  assert (B : (0 <= inject_Z window <= inject_Z (2 ^ 32))%Q).
  { change 0%Q with (inject_Z 0). rewrite <- !Zle_Qle. lia. }
  assert (M : (inject_Z (2 ^ 34) <= f64_max_finite)%Q) by (vm_compute; discriminate).
  change (inject_Z (2 ^ 34)) with (inject_Z 17179869184) in M.
  change (inject_Z (2 ^ 32)) with (inject_Z 4294967296) in B. unfold inject_Z at 3 in B.
  unfold inject_Z at 1 in M.
  assert (R : Rounds (inject_Z window * ((4 # 5) + (1 # 22517998136852480)))%Q
                (f64_mul (f64_lit 8 10) (f64_of_Z window))).
  { assert (E2 : (f_val (f64_lit 8 10) * f_val (f64_of_Z window) ==
                 inject_Z window * ((4 # 5) + (1 # 22517998136852480)))%Q) by (rewrite eight_tenths, E; ring).
    rewrite <- E2. apply f64_mul_Rounds; [apply f64_lit_wf; lia | apply f64_of_Z_wf | reflexivity |
      apply f64_of_Z_finite; lia |]. rewrite E2. apply Qabs_Qle_condition. lra. }
  split; [|exact R].
  apply f64_div_Rounds; [apply f64_mul_wf | apply f64_of_Z_wf | exact (Rounds_finite _ _ R) | reflexivity | | |].
  - vm_compute. discriminate.
  - assert (f_val (f64_of_Z 2) == 2)%Q as -> by (vm_compute; reflexivity). field.
  - pose proof (Rounds_le _ _ (inject_Z (2 ^ 33)) R (f64_repr_Z (2 ^ 33) ltac:(lia))) as U.
    pose proof (Rounds_ge _ _ 0 R (f64_repr_Z 0 ltac:(lia))) as L.
    change (inject_Z (2 ^ 33)) with (8589934592 # 1)%Q in U. change (inject_Z 0) with 0%Q in L.
    change (inject_Z 4294967296) with (4294967296 # 1)%Q in B. change (17179869184 # 1 <= f64_max_finite)%Q in M.
    specialize (U ltac:(lra)). specialize (L ltac:(lra)).
    apply Qabs_Qle_condition. unfold Qdiv. change (/ 2)%Q with (1 # 2)%Q. lra.
Qed.

(** The soft budget, decided in [f64] as [j > 0.8 * w / 2], is the exact
    integer test [5 * j > 2 * w] for every [u32] window and addition: the
    rounding of [0.8] never moves the boundary. *)
Theorem soft_pressure_exact (window just_added : Z) :
  is_u32 window -> is_u32 just_added ->
  (soft_pressure window just_added = OverBudget <-> 2 * window < 5 * just_added).
Proof.
  intros Hw Hj. destruct (half_cap window Hw) as [Rh Rx]. unfold is_u32 in *.
  unfold soft_pressure. set (h := f64_div _ _) in *. set (x := f64_mul _ _) in *.
  assert (Ej : (f_val (f64_of_Z just_added) == inject_Z just_added)%Q) by (apply f64_of_Z_exact; lia).
  assert (L : f64_ltb h (f64_of_Z just_added) = true <-> (f_val h < inject_Z just_added)%Q).
  { rewrite f64_ltb_val; [by rewrite Ej | exact (Rounds_finite _ _ Rh) | apply f64_of_Z_finite; lia]. }
  assert (B : (0 <= inject_Z window <= 4294967296 # 1)%Q).
  { change 0%Q with (inject_Z 0). change (4294967296 # 1)%Q with (inject_Z 4294967296).
    rewrite <- !Zle_Qle. lia. }
  transitivity (f64_ltb h (f64_of_Z just_added) = true); [by destruct (f64_ltb h _)|].
  rewrite L. split; intros C.
  - destruct (Z.lt_ge_cases (2 * window) (5 * just_added)) as [|G]; [done|]. exfalso.
    apply (Qlt_not_le _ _ C). rewrite Zle_Qle, !inject_Z_mult in G.
    change (inject_Z 5) with 5%Q in G. change (inject_Z 2) with 2%Q in G.
    apply (Rounds_ge _ _ _ Rh); [apply f64_repr_Z; lia|].
    assert (inject_Z (2 * just_added) <= f_val x)%Q as G'.
    { apply (Rounds_ge _ _ _ Rx); [apply f64_repr_Z; lia|]. rewrite inject_Z_mult.
      change (inject_Z 2) with 2%Q. lra. }
    rewrite inject_Z_mult in G'. change (inject_Z 2) with 2%Q in G'.
    unfold Qdiv. change (/ 2)%Q with (1 # 2)%Q. lra.
  - assert (2 * window + 1 <= 5 * just_added) as G by lia.
    rewrite Zle_Qle, inject_Z_plus, !inject_Z_mult in G.
    change (inject_Z 5) with 5%Q in G. change (inject_Z 2) with 2%Q in G. change (inject_Z 1) with 1%Q in G.
    assert (T : (inject_Z (8 * just_added - 1) == 8 * inject_Z just_added - 1)%Q).
    { unfold Z.sub. rewrite inject_Z_plus, inject_Z_mult. reflexivity. }
    assert (P2 : (pow2 (-2) == 1 # 4)%Q) by reflexivity.
    assert (P3 : (pow2 (-3) == 1 # 8)%Q) by reflexivity.
    assert (f_val x <= inject_Z (8 * just_added - 1) * pow2 (-2))%Q as G'.
    { apply (Rounds_le _ _ _ Rx); [apply f64_repr_frac; unfold f64_emin, f64_emax; lia|].
      rewrite T, P2. lra. }
    assert (f_val h <= inject_Z (8 * just_added - 1) * pow2 (-3))%Q as G2.
    { apply (Rounds_le _ _ _ Rh); [apply f64_repr_frac; unfold f64_emin, f64_emax; lia|].
      rewrite T, P2 in G'. rewrite T, P3.
      unfold Qdiv. change (/ 2)%Q with (1 # 2)%Q. lra. }
    rewrite T, P3 in G2. lra.
Qed.

Lemma soft_pressure_exact_witness :
  soft_pressure 200000 80001 = OverBudget /\ soft_pressure 200000 80000 <> OverBudget.
Proof.
  split.
  - apply (soft_pressure_exact 200000 80001); unfold is_u32; lia.
  - intros H. apply (soft_pressure_exact 200000 80000) in H; unfold is_u32; lia.
Defined.

Lemma hard_target_bounds window max_output :
  is_u32 window -> is_u32 max_output ->
  256 <= hard_target window max_output /\ window - max_output - 1024 <= hard_target window max_output /\
  hard_target window max_output <= Z.max 256 window.
Proof. unfold is_u32, hard_target, sat_sub. lia. Qed.

(** ** Breakpoints *)

(** The tokens up to and including segment [p], in the [u64] accumulator. *)
Definition prefix_tokens (segments : list Segment) (p : nat) : Z :=
  u64_sum (token_estimate <$> take (S p) segments).

(** A position a breakpoint may take. *)
Definition stable_position (segments : list Segment) (floor : Z) (cfg : PolicyConfig) (p : nat) : bool :=
  (length segments - lookback_positions cfg <=? p)%nat && (floor <=? prefix_tokens segments p)
  && negb (length segments - recency_window_n cfg <=? p)%nat.

Lemma scan_prefix_seq segments : forall pre,
  (forall k s, (pre ++ segments) !! k = Some s -> seg_index s = k) ->
  scan_prefix (u64_sum (token_estimate <$> pre)) segments =
  (fun p => (p, prefix_tokens (pre ++ segments) p)) <$> seq (length pre) (length segments).
Proof.
  induction segments as [|s segments IH]; intros pre Hidx; [done|]. cbn [scan_prefix length seq].
  assert (E : u64_wrap (u64_sum (token_estimate <$> pre) + token_estimate s) =
              u64_sum (token_estimate <$> pre ++ [s])).
  { unfold u64_sum. by rewrite fmap_app, foldl_app. }
  rewrite E, fmap_cons. f_equal.
  - rewrite (Hidx (length pre) s) by (rewrite lookup_app_r, Nat.sub_diag by lia; done).
    unfold prefix_tokens. rewrite take_app_ge by lia.
    replace (S (length pre) - length pre)%nat with 1%nat by lia. reflexivity.
  - rewrite (IH (pre ++ [s])) by (by rewrite <- app_assoc). rewrite length_app, Nat.add_1_r.
    by rewrite <- app_assoc.
Qed.

Lemma stable_positions_filter segments floor cfg ps :
  (forall k s, segments !! k = Some s -> seg_index s = k) -> Forall (fun p => (p < length segments)%nat) ps ->
  stable_positions segments (length segments - lookback_positions cfg) floor cfg
    ((fun p => (p, prefix_tokens segments p)) <$> ps) =
  Some (filterb (stable_position segments floor cfg) ps).
Proof.
  intros Hidx F. induction F as [|p ps Hp _ IH]; [done|].
  rewrite fmap_cons. cbn [stable_positions filterb]. rewrite IH.
  change (stable_position segments floor cfg p) with
    ((length segments - lookback_positions cfg <=? p)%nat && (floor <=? prefix_tokens segments p)
     && negb (length segments - recency_window_n cfg <=? p)%nat).
  destruct ((_ <=? p)%nat && _); [|done].
  destruct (lookup_lt_is_Some_2 segments p Hp) as [s Hs]. rewrite Hs. cbn -[stable_position].
  unfold is_recency_protected. rewrite (Hidx p s Hs). by destruct (negb _).
Qed.

Lemma StronglySorted_filterb {A} (R : relation A) f l :
  StronglySorted R l -> StronglySorted R (filterb f l).
Proof.
  induction 1 as [|a l S IH F]; simpl; [constructor|]. destruct (f a); [|done].
  constructor; [done|]. apply Forall_forall. intros x [Hx _]%elem_of_filterb.
  rewrite Forall_forall in F. by apply F.
Qed.

Lemma seq_sorted n k : StronglySorted lt (seq k n).
Proof.
  revert k. induction n as [|n IH]; intros k; simpl; constructor; [done|].
  apply Forall_forall. intros x Hx%elem_of_seq. lia.
Qed.

Lemma plan_breakpoints_positions (segments : list Segment) (min_floor : Z) (cfg : PolicyConfig) :
  (forall k s, segments !! k = Some s -> seg_index s = k) ->
  exists plan, plan_breakpoints segments min_floor cfg = Some plan /\
    (length (positions plan) <= cache_hint_cap cfg)%nat /\
    StronglySorted lt (positions plan) /\
    (forall p, p ∈ positions plan ->
       (length segments - lookback_positions cfg <= p < length segments - recency_window_n cfg)%nat /\
       min_floor <= prefix_tokens segments p) /\
    (forall p, (p < length segments)%nat -> stable_position segments min_floor cfg p = true ->
       p ∈ positions plan \/
       (length (positions plan) = cache_hint_cap cfg /\ forall q, q ∈ positions plan -> (p < q)%nat)).
Proof.
  intros Hidx. unfold plan_breakpoints.
  pose proof (scan_prefix_seq segments [] Hidx) as Sc. change (u64_sum _) with 0 in Sc. simpl in Sc.
  rewrite Sc, stable_positions_filter; [|done | apply Forall_forall; intros p Hp%elem_of_seq; lia].
  set (ps := filterb _ _). set (d := (length ps - cache_hint_cap cfg)%nat).
  assert (Hs : StronglySorted lt ps) by (apply StronglySorted_filterb, seq_sorted).
  assert (Ec : cap_cache_hints_to ps (cache_hint_cap cfg) = drop d ps).
  { unfold cap_cache_hints_to, d. destruct (Nat.leb_spec (length ps) (cache_hint_cap cfg)); [|done].
    by replace (length ps - cache_hint_cap cfg)%nat with 0%nat by lia. }
  simpl. eexists. split; [done|]. cbn [positions]. rewrite Ec.
  pose proof Hs as Hs'. rewrite <- (take_drop d ps) in Hs'.
  apply sorting.StronglySorted_app in Hs' as (HR & _ & Hd). split_and!.
  - rewrite length_drop. unfold d. lia.
  - done.
  - intros p Hp. assert (Hp' : p ∈ ps) by (rewrite <- (take_drop d ps); set_solver).
    apply elem_of_filterb in Hp' as [_ Hp']. unfold stable_position in Hp'. bool_hyps. lia.
  - intros p Hp Sp. assert (Hp' : p ∈ ps) by (apply elem_of_filterb; split; [apply elem_of_seq; lia | done]).
    rewrite <- (take_drop d ps) in Hp'. apply elem_of_app in Hp' as [Hp'|Hp']; [right | by left].
    split; [|by intros q Hq; apply HR].
    assert (d <> 0%nat) by (intros E0; rewrite E0 in Hp'; set_solver).
    rewrite length_drop. unfold d in *. lia.
Qed.

Lemma plan_breakpoints_total segments min_floor cfg :
  (forall k s, segments !! k = Some s -> seg_index s = k) ->
  exists plan, plan_breakpoints segments min_floor cfg = Some plan /\ (length (positions plan) <= cache_hint_cap cfg)%nat.
Proof. intros H. destruct (plan_breakpoints_positions segments min_floor cfg H) as (p & E & L & _). eauto. Qed.

(** C39. Breakpoint planning on any list of segments whose [index] is their
    position: it never panics, it emits at most [cache_hint_cap] positions in
    increasing order, each within the lookback window, before the recency
    window and with at least [min_floor] prefix tokens, and when a stable
    position is left out the plan is full of later ones. *)
Theorem plan_breakpoints_spec (segments : list Segment) (min_floor : Z) (cfg : PolicyConfig) :
  (forall k s, segments !! k = Some s -> seg_index s = k) ->
  exists plan, plan_breakpoints segments min_floor cfg = Some plan /\
    (length (positions plan) <= cache_hint_cap cfg)%nat /\
    StronglySorted lt (positions plan) /\
    (forall p, p ∈ positions plan ->
       (length segments - lookback_positions cfg <= p < length segments - recency_window_n cfg)%nat /\
       min_floor <= prefix_tokens segments p) /\
    (forall p, (p < length segments)%nat -> stable_position segments min_floor cfg p = true ->
       p ∈ positions plan \/
       (length (positions plan) = cache_hint_cap cfg /\ forall q, q ∈ positions plan -> (p < q)%nat)).
Proof. apply plan_breakpoints_positions. Qed.

Lemma plan_breakpoints_spec_witness :
  let segs := (fun k => mkSegment k UserTurn 0 1000 1 false false true []) <$> seq 0 10 in
  plan_breakpoints segs 1500 PolicyConfig_default = Some (mkBreakpointPlan [3; 4; 5; 6]%nat) /\
  exists plan, plan_breakpoints segs 1500 PolicyConfig_default = Some plan /\
    (length (positions plan) <= 4)%nat.
Proof.
  intros segs. split; [vm_compute; reflexivity|].
  destruct (plan_breakpoints_spec segs 1500 PolicyConfig_default) as (plan & E & L & _).
  - intros k s Hk. unfold segs in Hk. rewrite list_lookup_fmap in Hk.
    apply fmap_Some in Hk as (j & Hj & ->). by apply lookup_seq in Hj as [-> _].
  - exists plan. split; [exact E | exact L].
Defined.

(** ** Decisions *)

(** Self-repair is idempotent, leaves every payload field alone, and its
    result is consistent: [truncate] has ranges, [summarize] has a non-empty
    summary; a consistent decision is not changed, and the only rewrites are
    [truncate -> keep] and [summarize -> compress]. *)
Theorem normalize_repairs (d : ContentDecision) :
  let consistent d :=
    (choice d = ChoiceTag_Truncate -> ranges_to_keep d <> []) /\
    (choice d = ChoiceTag_Summarize -> exists s, summary_content d = Some s /\ s <> []) in
  consistent (normalize d) /\ normalize (normalize d) = normalize d /\
  (consistent d -> normalize d = d) /\
  ranges_to_keep (normalize d) = ranges_to_keep d /\
  summary_content (normalize d) = summary_content d /\
  (normalize d <> d ->
     (choice d = ChoiceTag_Truncate /\ choice (normalize d) = ChoiceTag_Keep) \/
     (choice d = ChoiceTag_Summarize /\ choice (normalize d) = ChoiceTag_Compress)).
Proof.
  destruct d as [c r s]. cbv zeta. unfold normalize. cbn.
  destruct c; [destruct r as [|x r]|destruct s as [[|y s]|]|..]; cbn; split_and!; try done;
    try (intros; naive_solver); naive_solver.
Qed.

Lemma pre_gate_pays_off d n cfg :
  pre_gate d n cfg = None ->
  pre_gate_min_chars cfg <= n /\
  (choice d = ChoiceTag_Summarize -> forall s, summary_content d = Some s -> chars_count s <= n).
Proof.
  unfold pre_gate. destruct (Z.ltb_spec n (pre_gate_min_chars cfg)) as [|L]; [done|]. intros H.
  split; [done|]. intros Hc s Hs. rewrite Hc, Hs in H.
  destruct (Z.ltb_spec n (chars_count s)); [done | lia].
Qed.

(** ** Eligibility *)

Lemma is_squash_candidate_spec seg working cfg :
  is_squash_candidate seg working cfg = true <->
  (is_huge_human_paste seg cfg = true \/
   ((kind seg = UserTurn -> seg_is_true_human seg = false) /\
    forall c, c ∈ constraints working -> constraint_superseded_by c = None ->
      source_message c ∉ source_uuids seg)).
Proof.
  unfold is_squash_candidate, is_pinned, carries_live_constraint.
  rewrite orb_true_iff, negb_true_iff, orb_false_iff, andb_false_iff, bool_decide_eq_false, anyb_false.
  rewrite (or_comm (is_huge_human_paste _ _ = true)). apply or_iff_compat_r. split; intros [H1 H2].
  - split; [intros K; by destruct H1|].
    intros c Hc Hs. specialize (H2 c). rewrite contains_false in H2. apply H2.
    apply elem_of_filterb. split; [done | by rewrite Hs].
  - split.
    + destruct (decide (kind seg = UserTurn)); [right; auto | by left].
    + intros c [Hc Hs]%elem_of_filterb. apply contains_false, H2; [done|].
      by destruct (constraint_superseded_by c).
Qed.
