(* ===== verification/Scorer.v ===== *)
(** * The segment scorer

    Models [crates/ccs-policy/src/pipeline/scorer.rs]: the per-signal scores,
    the vetoes, the weighted value, the quality gain [Q] and the admission
    floor.  [exp] is the platform's math library, whose precision Rust leaves
    unspecified: it is the parameter [Libm], and no property below assumes
    anything about it. *)
From S2P Require Import Prelude F64 Core Economics Config Wire Segment Policy.
From Stdlib Require Import QArith Qabs Lqa.

Local Open Scope Z_scope.

Class Libm := { f64_exp : f64 -> f64; f64_ln : f64 -> f64 }.

Record SegmentScore := mkSegmentScore {
  salience : f64;
  recency : f64;
  freshness : f64;
  economics : f64;
  size : f64;
  content_type : f64;
  access_count : f64;
}.

Definition SegmentScore_default : SegmentScore :=
  mkSegmentScore f64_zero f64_zero f64_zero f64_zero f64_zero f64_zero f64_zero.

(** The dense table, indexed by segment. *)
Record ScoreTable := mkScoreTable { scores : list SegmentScore }.

Definition ScoreTable_sized (count : nat) : ScoreTable :=
  mkScoreTable (replicate count SegmentScore_default).

Definition ScoreTable_get (self : ScoreTable) (seg_index : nat) : option SegmentScore :=
  scores self !! seg_index.

(** [None] is the index panic. *)
Definition ScoreTable_set (self : ScoreTable) (seg_index : nat) (score : SegmentScore) : option ScoreTable :=
  if (seg_index <? length (scores self))%nat
  then Some (mkScoreTable (<[seg_index := score]> (scores self)))
  else None.

Definition clamp_unit (x : f64) : f64 := f64_clamp x f64_zero f64_one.

Definition value (self : SegmentScore) (w : ScoreWeights) : f64 :=
  if f64_leb f64_one (salience self) || f64_leb f64_one (recency self) then f64_neg_inf
  else
    let s := f64_mul (w_freshness w) (clamp_unit (freshness self)) in
    let s := f64_add s (f64_mul (w_economics w) (clamp_unit (economics self))) in
    let s := f64_add s (f64_mul (w_size w) (clamp_unit (size self))) in
    let s := f64_add s (f64_mul (w_content_type w) (clamp_unit (content_type self))) in
    let s := f64_sub s (f64_mul (w_access_count w) (clamp_unit (access_count self))) in
    f64_max s f64_zero.

Definition score_quality_gain (self : SegmentScore) (w : ScoreWeights) : f64 :=
  let q := f64_mul (w_q_weight w) (value self w) in
  if f64_is_finite q then f64_max q f64_zero else f64_zero.

Definition admitted (self : SegmentScore) (w : ScoreWeights) : bool :=
  f64_leb (w_score_floor w) (value self w).

Definition veto (flag : bool) : f64 := if flag then f64_one else f64_zero.

Section Signals.
Context `{Libm}.

Definition freshness_signal (seg : Segment) (segments : list Segment) (w : ScoreWeights) : f64 :=
  let newest := default 0 (list_max (generation <$> segments)) in
  let gap := f64_of_Z (sat_sub newest (generation seg)) in
  clamp_unit (f64_sub f64_one (f64_exp (f64_div (f64_opp gap) (w_tau w)))).

Definition logistic (x : f64) : f64 :=
  f64_div f64_one (f64_add f64_one (f64_exp (f64_opp x))).

Definition economics_signal (seg : Segment) (cache : CacheState) (econ : ModelEconomics) (now : f64) : f64 :=
  if pinned seg then f64_zero
  else
    let removed := f64_of_Z (token_estimate seg) in
    let saving := f64_mul (f64_mul removed (base_input econ)) (read_mult econ) in
    let bust := f64_mul (f64_mul (f64_mul removed (base_input econ))
                                 (f64_sub (write_mult econ) (read_mult econ)))
                        (p_alive cache now) in
    logistic (f64_div (f64_sub saving bust) (f64_max saving f64_min_positive)).

Definition size_signal (seg : Segment) (w : ScoreWeights) : f64 :=
  clamp_unit (f64_div (f64_of_Z (token_estimate seg)) (w_size_scale w)).

Definition content_type_signal (seg : Segment) : f64 :=
  match kind seg with
  | ToolPair => f64_one
  | AssistantTurn => f64_lit 6 10
  | System | Tools => f64_lit 3 10
  | UserTurn => f64_lit 1 10
  end.

Definition score_segment (seg : Segment) (segments : list Segment) (working : WorkingState)
    (cache : CacheState) (econ : ModelEconomics) (now : f64) (knobs : PolicyConfig) : SegmentScore :=
  mkSegmentScore
    (veto (is_pinned seg working))
    (veto (is_recency_protected seg segments knobs))
    (freshness_signal seg segments (weights knobs))
    (economics_signal seg cache econ now)
    (size_signal seg (weights knobs))
    (content_type_signal seg)
    f64_zero.
End Signals.

(** A math library for the examples: [exp] and [ln] are constant. *)
Definition flat_libm : Libm := {| f64_exp := fun _ => f64_one; f64_ln := fun _ => f64_zero |}.

(** ** Facts *)

Lemma f64_compare_inf_zero s : f64_compare f64_zero (F64_inf s) = Some (if s then Gt else Lt).
Proof. done. Qed.

Lemma f64_max_zero x : f64_leb f64_zero (f64_max x f64_zero) = true.
Proof.
  destruct x as [|[]|s m e]; [reflexivity..|]. set (x := F64_fin s m e).
  change (f64_max x f64_zero) with (if f64_ltb x f64_zero then f64_zero else x).
  destruct (f64_ltb x f64_zero) eqn:L; [reflexivity|].
  apply f64_ltb_false in L; [|reflexivity..]. by apply f64_leb_val.
Qed.

Lemma f64_leb_nonneg x :
  f64_leb f64_zero x = true -> x = F64_inf false \/ (f64_is_finite x = true /\ (0 <= f_val x)%Q).
Proof.
  destruct x as [|[]|s m e]; [done..| by left |]. intros L. right. split; [done|].
  apply (f64_leb_val f64_zero (F64_fin s m e)) in L; [|reflexivity..].
  assert (Z0 : (f_val f64_zero == 0)%Q) by reflexivity. lra.
Qed.

(** The value of a score is never NaN: a veto or a non-negative number. *)
Lemma value_cases sc w :
  (value sc w = f64_neg_inf /\ (f64_leb f64_one (salience sc) = true \/ f64_leb f64_one (recency sc) = true)) \/
  (f64_leb f64_zero (value sc w) = true /\ f64_leb f64_one (salience sc) = false /\
   f64_leb f64_one (recency sc) = false).
Proof.
  unfold value. destruct (f64_leb f64_one (salience sc)), (f64_leb f64_one (recency sc));
    cbn [orb]; try (left; auto; fail).
  right. split; [apply f64_max_zero | done].
Qed.

Lemma f64_leb_neg_inf x : x <> F64_nan -> f64_leb f64_neg_inf x = true.
Proof. destruct x as [|[]|s m e]; [done|reflexivity..]. Qed.

Lemma veto_leb b : f64_leb f64_one (veto b) = b.
Proof. destruct b; reflexivity. Qed.

Lemma quality_gain_of_veto sc w : value sc w = f64_neg_inf -> score_quality_gain sc w = f64_zero.
Proof.
  intros V. unfold score_quality_gain. rewrite V. unfold f64_neg_inf.
  destruct (w_q_weight w) as [|t|t n f]; try reflexivity. cbn [f64_mul]. by destruct (n =? 0).
Qed.

(** ** Properties *)

(** C37. [Q] is sound for every score and every weights, NaN and infinities
    included: it is a finite, non-negative number, it is zero for a vetoed
    score, and with the default floor every score is admitted, so lighting the
    score up can neither lower an NPV nor drop a segment. *)
Theorem quality_gain_sound (sc : SegmentScore) (w : ScoreWeights) :
  f64_is_finite (score_quality_gain sc w) = true /\
  (0 <= f_val (score_quality_gain sc w))%Q /\
  (value sc w = f64_neg_inf -> score_quality_gain sc w = f64_zero) /\
  (w_score_floor w = f64_neg_inf -> admitted sc w = true).
Proof.
  split; [|split; [|split]].
  - unfold score_quality_gain. destruct (f64_mul _ _) as [| |s m e]; [reflexivity..|].
    cbn [f64_is_finite f64_max]. set (x := F64_fin s m e).
    change (f64_is_finite (if f64_ltb x f64_zero then f64_zero else x) = true). by destruct (f64_ltb _ _).
  - unfold score_quality_gain. destruct (f64_is_finite _) eqn:F; [|discriminate].
    destruct (f64_leb_nonneg _ (f64_max_zero (f64_mul (w_q_weight w) (value sc w)))) as [E|[_ E]]; [|exact E].
    by rewrite E.
  - apply quality_gain_of_veto.
  - intros E. unfold admitted. rewrite E. apply f64_leb_neg_inf.
    destruct (value_cases sc w) as [[-> _]|[V _]]; [done|]. intros N. by rewrite N in V.
Qed.

Lemma quality_gain_sound_witness :
  admitted SegmentScore_default ScoreWeights_default = true.
Proof. apply (quality_gain_sound SegmentScore_default ScoreWeights_default). reflexivity. Defined.

(** The vetoes are exact: a scored segment's value is [-inf] if and only if
    the segment is pinned by salience or lies in the recency window, whatever
    the cache, the prices, the clock, the weights and the math library; and a
    vetoed segment has [Q = 0] and clears no floor above [-inf]. *)
Theorem score_segment_veto `{Libm} (seg : Segment) (segments : list Segment) (working : WorkingState)
    (cache : CacheState) (econ : ModelEconomics) (now : f64) (knobs : PolicyConfig) (w : ScoreWeights) :
  let sc := score_segment seg segments working cache econ now knobs in
  (value sc w = f64_neg_inf <->
     is_pinned seg working = true \/ is_recency_protected seg segments knobs = true) /\
  (is_pinned seg working = true \/ is_recency_protected seg segments knobs = true ->
     score_quality_gain sc w = f64_zero /\
     (w_score_floor w <> f64_neg_inf -> admitted sc w = false)).
Proof.
  intros sc.
  assert (V : value sc w = f64_neg_inf <->
    is_pinned seg working = true \/ is_recency_protected seg segments knobs = true).
  { destruct (value_cases sc w) as [[-> C]|(N & C1 & C2)]; cbn in *; rewrite !veto_leb in *.
    - done.
    - rewrite C1, C2. split; [intros E; by rewrite E in N | by intros [|]]. }
  split; [exact V|]. intros P. apply V in P. split.
  - by apply quality_gain_of_veto.
  - intros Nf. unfold admitted. rewrite P. by destruct (w_score_floor w) as [|[]|].
Qed.
