(* ===== verification/Pipeline.v ===== *)
(** * The compaction pipeline

    Models [crates/ccs-policy/src/pipeline/pass.rs] and [pipeline/mod.rs]: the
    plan ledger the passes refine, the pass interface, and the runner with its
    capped reverts.  A pass is a record of its id, its phase and its [apply];
    [apply] returns [None] where the Rust code would panic on an index. *)
From S2P Require Import Prelude RStr F64 Core Economics Config Wire Segment Policy Scorer.

Local Open Scope Z_scope.

(** ** Pass data ([pass.rs]) *)

Inductive Phase := OnPath | OffPath.
#[export] Instance Phase_eq_dec : EqDecision Phase.
Proof. solve_decision. Defined.

Record PassId := mkPassId { pass_id_str : rstr }.
#[export] Instance PassId_eq_dec : EqDecision PassId.
Proof. solve_decision. Defined.

Record CheckpointId := mkCheckpointId { checkpoint_str : rstr }.
#[export] Instance CheckpointId_eq_dec : EqDecision CheckpointId.
Proof. solve_decision. Defined.

Inductive PassControl := Continue | RevertTo (id : CheckpointId).

Record Proposal := mkProposal {
  prop_seg_index : nat;
  prop_strategy : Strategy;
  prop_ref_id : option RefId;
  needs_ref : option (list byte);
  prop_net_removed : Z;
  prop_quality_gain : f64;
  prop_by : PassId;
}.

Record Provenance := mkProvenance {
  prov_seg_index : nat;
  prov_by : PassId;
  prov_note : rstr;
}.

Record PlanLedger := mkPlanLedger {
  ledger_scores : ScoreTable;
  proposals : list Proposal;
  provenance : list Provenance;
}.

Definition PlanLedger_sized (segment_count : nat) : PlanLedger :=
  mkPlanLedger (ScoreTable_sized segment_count) [] [].

Definition for_segment (seg_index : nat) (p : Proposal) : bool := (prop_seg_index p =? seg_index)%nat.

Definition proposal_for (self : PlanLedger) (seg_index : nat) : option Proposal :=
  List.find (for_segment seg_index) (proposals self).

(** Replace the first proposal for the segment in place, or append. *)
Fixpoint upsert (proposal : Proposal) (l : list Proposal) : list Proposal :=
  match l with
  | [] => [proposal]
  | p :: l =>
      if for_segment (prop_seg_index proposal) p then proposal :: l else p :: upsert proposal l
  end.

Definition upsert_proposal (self : PlanLedger) (proposal : Proposal) : PlanLedger :=
  mkPlanLedger (ledger_scores self) (upsert proposal (proposals self)) (provenance self).

Definition record (self : PlanLedger) (p : Provenance) : PlanLedger :=
  mkPlanLedger (ledger_scores self) (proposals self) (provenance self ++ [p]).

(** [retain] on the proposals. *)
Definition retain_proposals (f : Proposal -> bool) (self : PlanLedger) : PlanLedger :=
  mkPlanLedger (ledger_scores self) (filterb f (proposals self)) (provenance self).

Record StagedSegment := mkStagedSegment {
  staged_seg_index : nat;
  staged_decision : ContentDecision;
  staged_candidate : SquashCandidate;
  staged_npv_floor : f64;
}.

Record StagedDecisions := mkStagedDecisions {
  staged_present : bool;
  staged_segments : list StagedSegment;
  hot_refs : list RefId;
}.

Definition StagedDecisions_segment (self : StagedDecisions) (seg_index : nat) : option StagedSegment :=
  List.find (fun s => (staged_seg_index s =? seg_index)%nat) (staged_segments self).

Definition is_hot (self : StagedDecisions) (ref_id : RefId) : bool := contains ref_id (hot_refs self).

Record PassCtx := mkPassCtx {
  ctx_body : WireBody;
  ctx_segments : list Segment;
  ctx_working : WorkingState;
  ctx_econ : ModelEconomics;
  ctx_cache : CacheState;
  ctx_knobs : PolicyConfig;
  ctx_staged : StagedDecisions;
  ctx_remaining_turns : f64;
  ctx_now : f64;
}.

(** The [Pass] trait. *)
Record Pass := mkPass {
  pass_id : PassId;
  phase : Phase;
  apply : PassCtx -> PlanLedger -> option (PlanLedger * PassControl);
}.

(** ** The pipeline and its runner ([mod.rs]) *)

Definition DEFAULT_MAX_REVERTS : nat := 2.

Inductive Stage := Stage_Pass (p : Pass) | Stage_Checkpoint (id : CheckpointId).

Record Pipeline := mkPipeline { stages : list Stage }.

Definition Pipeline_of (parts : list Stage) : Pipeline := mkPipeline parts.

Definition is_on_path (s : Stage) : bool :=
  match s with Stage_Pass p => bool_decide (phase p = OnPath) | Stage_Checkpoint _ => true end.

Definition on_path (self : Pipeline) : Pipeline := mkPipeline (filterb is_on_path (stages self)).

Definition extend (self other : Pipeline) : Pipeline := mkPipeline (stages self ++ stages other).

(** [pipeline >> stage]: the composition the presets use. *)
Definition shr (self : Pipeline) (rhs : Stage) : Pipeline := extend self (Pipeline_of [rhs]).

Definition checkpoint_position (stages : list Stage) (id : CheckpointId) : option nat :=
  position (fun s => match s with Stage_Checkpoint cid => bool_decide (cid = id) | _ => false end) stages.

Inductive RunStop := Panicked | OutOfFuel.

Record Runner := mkRunner { max_reverts : nat }.
Definition Runner_default : Runner := mkRunner DEFAULT_MAX_REVERTS.

(** The [while] loop: [reverts] and [i] are its two counters. *)
Fixpoint run_loop (fuel : nat) (max_reverts : nat) (stages : list Stage) (ctx : PassCtx)
    (ledger : PlanLedger) (reverts i : nat) : result RunStop PlanLedger :=
  match stages !! i with
  | None => Ok ledger
  | Some stage =>
      match fuel with
      | O => Err OutOfFuel
      | S fuel =>
          match stage with
          | Stage_Checkpoint _ => run_loop fuel max_reverts stages ctx ledger reverts (S i)
          | Stage_Pass pass =>
              match apply pass ctx ledger with
              | None => Err Panicked
              | Some (ledger, Continue) => run_loop fuel max_reverts stages ctx ledger reverts (S i)
              | Some (ledger, RevertTo id) =>
                  if (reverts <? max_reverts)%nat then
                    run_loop fuel max_reverts stages ctx ledger (S reverts)
                      (match checkpoint_position stages id with Some pos => S pos | None => S i end)
                  else run_loop fuel max_reverts stages ctx ledger reverts (S i)
              end
          end
      end
  end.

Definition run_fuel (max_reverts len : nat) : nat := S max_reverts * len.

Definition Runner_run (self : Runner) (pipeline : Pipeline) (ctx : PassCtx) (ledger : PlanLedger)
    : result RunStop PlanLedger :=
  run_loop (run_fuel (max_reverts self) (length (stages pipeline))) (max_reverts self)
    (stages pipeline) ctx ledger 0 0.

(** ** The ledger holds one proposal per segment *)

Definition ledger_ok (l : PlanLedger) : Prop := NoDup (prop_seg_index <$> proposals l).

Lemma for_segment_true i p : for_segment i p = true <-> prop_seg_index p = i.
Proof. apply Nat.eqb_eq. Qed.

Lemma upsert_indices q l :
  prop_seg_index <$> upsert q l =
    (if decide (prop_seg_index q ∈ prop_seg_index <$> l) then prop_seg_index <$> l
     else (prop_seg_index <$> l) ++ [prop_seg_index q]).
Proof.
  induction l as [|p l IH]; cbn [upsert].
  { rewrite decide_False by set_solver. done. }
  destruct (for_segment _ p) eqn:E.
  - apply for_segment_true in E. rewrite decide_True by (rewrite fmap_cons; set_solver).
    rewrite !fmap_cons. by rewrite E.
  - assert (prop_seg_index p <> prop_seg_index q) by (intros C; by apply for_segment_true in C; congruence).
    rewrite !fmap_cons, IH. case_decide; [rewrite decide_True by set_solver | rewrite decide_False by set_solver]; done.
Qed.

Lemma find_upsert q l i :
  List.find (for_segment i) (upsert q l) =
  if decide (prop_seg_index q = i) then Some q else List.find (for_segment i) l.
Proof.
  induction l as [|p l IH]; simpl.
  - unfold for_segment. destruct (Nat.eqb_spec (prop_seg_index q) i); by case_decide.
  - destruct (for_segment (prop_seg_index q) p) eqn:E; simpl.
    + apply for_segment_true in E. unfold for_segment.
      rewrite E. destruct (Nat.eqb_spec (prop_seg_index q) i); by case_decide.
    + rewrite IH. destruct (for_segment i p) eqn:F; [|done].
      apply for_segment_true in F. case_decide; [|done]. subst i.
      unfold for_segment in E. by rewrite F, Nat.eqb_refl in E.
Qed.

Lemma proposal_for_upsert l q i :
  proposal_for (upsert_proposal l q) i =
  if decide (prop_seg_index q = i) then Some q else proposal_for l i.
Proof. apply find_upsert. Qed.

Lemma upsert_ledger_ok l q : ledger_ok l -> ledger_ok (upsert_proposal l q).
Proof.
  unfold ledger_ok. cbn. rewrite upsert_indices. case_decide as C; [done|]. intros H.
  apply NoDup_app. split; [done|]. split; [set_solver|]. apply NoDup_singleton.
Qed.

Lemma find_filterb {A} (f g : A -> bool) l :
  (forall x, x ∈ l -> f x = true -> g x = true) -> List.find f (filterb g l) = List.find f l.
Proof.
  induction l as [|x l IH]; intros H; [done|]. simpl.
  destruct (g x) eqn:G; simpl; destruct (f x) eqn:F; try done; try (apply IH; set_solver).
  rewrite H in G; [done | set_solver | done].
Qed.

Lemma find_filterb_none {A} (f g : A -> bool) l :
  (forall x, x ∈ l -> f x = true -> g x = false) -> List.find f (filterb g l) = None.
Proof.
  induction l as [|x l IH]; intros H; [done|]. simpl.
  destruct (g x) eqn:G; simpl; [|apply IH; set_solver].
  destruct (f x) eqn:F; [|apply IH; set_solver]. rewrite H in G; [done | set_solver | done].
Qed.

Lemma proposal_for_Some l i p : proposal_for l i = Some p -> p ∈ proposals l /\ prop_seg_index p = i.
Proof. intros [H1 H2]%List.find_some. split; [by apply list_elem_of_In | by apply for_segment_true]. Qed.

(** On a ledger with one proposal per segment, membership is lookup. *)
Lemma proposal_for_elem l p : ledger_ok l -> p ∈ proposals l -> proposal_for l (prop_seg_index p) = Some p.
Proof.
  unfold ledger_ok, proposal_for. induction (proposals l) as [|q qs IH]; intros N Hp; [by apply not_elem_of_nil in Hp|].
  apply NoDup_cons in N as [Nq N]. simpl. apply elem_of_cons in Hp as [->|Hp].
  - by rewrite (proj2 (for_segment_true _ q) eq_refl).
  - destruct (for_segment _ q) eqn:E; [|by apply IH]. apply for_segment_true in E.
    exfalso. apply Nq. rewrite E. by apply list_elem_of_fmap_2.
Qed.

Lemma retain_ledger_ok f l : ledger_ok l -> ledger_ok (retain_proposals f l).
Proof.
  unfold ledger_ok. cbn. induction (proposals l) as [|q qs IH]; intros N; [done|].
  apply NoDup_cons in N as [Nq N]. simpl. destruct (f q); [|by apply IH]. cbn.
  apply NoDup_cons. split; [|by apply IH]. intros (p & Hp & [H _]%elem_of_filterb)%list_elem_of_fmap.
  apply Nq. rewrite Hp. by apply list_elem_of_fmap_2.
Qed.

Lemma proposal_for_retain f l i :
  ledger_ok l ->
  proposal_for (retain_proposals f l) i =
    (p ← proposal_for l i; if f p then Some p else None).
Proof.
  intros N. destruct (proposal_for l i) as [p|] eqn:E; cbn.
  - apply proposal_for_Some in E as [Hp <-]. destruct (f p) eqn:F.
    + assert (R : p ∈ proposals (retain_proposals f l)) by by apply elem_of_filterb.
      by apply (proposal_for_elem _ _ (retain_ledger_ok f l N)) in R.
    + apply find_filterb_none. intros q Hq Eq%for_segment_true. 
      apply (proposal_for_elem _ _ N) in Hq, Hp. rewrite Eq in Hq. congruence.
  - destruct (proposal_for (retain_proposals f l) i) as [p|] eqn:R; [|done].
    apply proposal_for_Some in R as [[Hp _]%elem_of_filterb <-].
    apply (proposal_for_elem _ _ N) in Hp. congruence.
Qed.

(** ** The runner *)

Lemma checkpoint_position_lt stages id pos :
  checkpoint_position stages id = Some pos -> (pos < length stages)%nat.
Proof. intros (s & Hs & _)%position_Some. by eapply lookup_lt_Some. Qed.

(** The measure of the loop: what is left to run in this sweep and in the
    sweeps the remaining reverts allow. *)
Definition run_measure (max_reverts len reverts i : nat) : nat :=
  ((max_reverts - reverts) * len + (len - i))%nat.

Lemma run_loop_fuel mr stages ctx f1 : forall f2 ledger r i,
  (run_measure mr (length stages) r i <= f1)%nat -> (run_measure mr (length stages) r i <= f2)%nat ->
  run_loop f1 mr stages ctx ledger r i = run_loop f2 mr stages ctx ledger r i /\
  run_loop f1 mr stages ctx ledger r i <> Err OutOfFuel.
Proof.
  unfold run_measure. induction f1 as [|f1 IH]; intros f2 ledger r i H1 H2.
  { assert (stages !! i = None) as E by (apply lookup_ge_None; apply Nat.le_0_r, Nat.eq_add_0 in H1; lia).
    destruct f2; cbn [run_loop]; by rewrite E. }
  destruct (stages !! i) as [st|] eqn:E; [|destruct f2; cbn [run_loop]; by rewrite E].
  apply lookup_lt_Some in E as L. destruct f2 as [|f2]; [apply Nat.le_0_r, Nat.eq_add_0 in H2; lia|]. cbn [run_loop]. rewrite E.
  destruct st as [p|c]; [|apply IH; lia].
  destruct (apply p ctx ledger) as [[ledger' [|id]]|]; [apply IH; lia| |done].
  destruct (Nat.ltb_spec r mr) as [R|R]; [|apply IH; lia].
  assert (M : forall j, (j <= length stages)%nat ->
    (((mr - S r) * length stages + (length stages - j)) <= f1)%nat /\
    (((mr - S r) * length stages + (length stages - j)) <= f2)%nat).
  { intros j Hj. replace (mr - r)%nat with (S (mr - S r)) in H1, H2 by lia. simpl in H1, H2. lia. }
  destruct (checkpoint_position stages id) as [pos|] eqn:C.
  - apply checkpoint_position_lt in C. apply IH; apply M; lia.
  - apply IH; apply M; lia.
Qed.

(** A pass that never asks for a revert and never panics, as a function. *)
Definition pass_total (p : Pass) (f : PassCtx -> PlanLedger -> PlanLedger) : Prop :=
  forall ctx l, apply p ctx l = Some (f ctx l, Continue).

(** The passes of a pipeline applied once each, in order. *)
Fixpoint run_straight (stages : list Stage) (ctx : PassCtx) (ledger : PlanLedger) : option PlanLedger :=
  match stages with
  | [] => Some ledger
  | Stage_Checkpoint _ :: stages => run_straight stages ctx ledger
  | Stage_Pass p :: stages =>
      '(ledger, _) ← apply p ctx ledger;
      run_straight stages ctx ledger
  end.

Definition never_reverts (s : Stage) : Prop :=
  match s with
  | Stage_Pass p => forall ctx l l' c, apply p ctx l = Some (l', c) -> c = Continue
  | Stage_Checkpoint _ => True
  end.

Lemma run_loop_straight mr stages ctx : forall fuel i ledger,
  Forall never_reverts stages -> (length stages - i <= fuel)%nat ->
  run_loop fuel mr stages ctx ledger 0 i =
  ok_or Panicked (run_straight (drop i stages) ctx ledger).
Proof.
  intros fuel. induction fuel as [|fuel IH]; intros i ledger F Hf.
  { assert (stages !! i = None) as E by (apply lookup_ge_None; lia).
    cbn [run_loop]. rewrite E. rewrite drop_ge by lia. done. }
  cbn [run_loop]. destruct (stages !! i) as [st|] eqn:E.
  2:{ apply lookup_ge_None in E. by rewrite drop_ge. }
  apply lookup_lt_Some in E as L. rewrite (drop_S _ _ _ E).
  destruct st as [p|c]; cbn [run_straight]; [|apply IH; [done | lia]].
  rewrite Forall_lookup in F. pose proof (F _ _ E) as N. cbn in N.
  destruct (apply p ctx ledger) as [[l' c]|] eqn:A; [|done]. rewrite (N _ _ _ _ A). cbn.
  apply IH; [by apply Forall_lookup | lia].
Qed.

Lemma Runner_run_straight self pl ctx ledger :
  Forall never_reverts (stages pl) ->
  Runner_run self pl ctx ledger = ok_or Panicked (run_straight (stages pl) ctx ledger).
Proof. intros F. unfold Runner_run. rewrite run_loop_straight; [done | done | unfold run_fuel; lia]. Qed.

(** ** Properties *)

(** C38. A cycling pass can never loop the runner: for every pipeline, context
    and ledger the loop ends within [(max_reverts + 1) * stages] iterations
    (more fuel changes nothing), and when no pass asks for a revert the run is
    exactly the passes applied once each in declared order. *)
Theorem Runner_terminates (self : Runner) (pl : Pipeline) (ctx : PassCtx) (ledger : PlanLedger) :
  Runner_run self pl ctx ledger <> Err OutOfFuel /\
  (forall fuel, (run_fuel (max_reverts self) (length (stages pl)) <= fuel)%nat ->
     run_loop fuel (max_reverts self) (stages pl) ctx ledger 0 0 = Runner_run self pl ctx ledger) /\
  (Forall never_reverts (stages pl) ->
     Runner_run self pl ctx ledger = ok_or Panicked (run_straight (stages pl) ctx ledger)).
Proof.
  assert (M : (run_measure (max_reverts self) (length (stages pl)) 0 0 <=
               run_fuel (max_reverts self) (length (stages pl)))%nat).
  { unfold run_measure, run_fuel. rewrite !Nat.sub_0_r. lia. }
  split; [|split].
  - by apply (run_loop_fuel _ _ _ _ (run_fuel (max_reverts self) (length (stages pl)))).
  - intros fuel Hf. apply run_loop_fuel; lia.
  - apply Runner_run_straight.
Qed.

(** A pass that always reverts, over a checkpoint. *)
Definition cycle_pass : Pass :=
  mkPass (mkPassId (str "cycle")) OnPath
    (fun _ l => Some (record l (mkProvenance 0 (mkPassId (str "cycle")) []), RevertTo (mkCheckpointId (str "top")))).
Definition cycle_pipeline : Pipeline :=
  Pipeline_of [Stage_Checkpoint (mkCheckpointId (str "top")); Stage_Pass cycle_pass].
Definition sample_ctx : PassCtx :=
  mkPassCtx sample_body [] WorkingState_default (mkModelEconomics f64_zero f64_zero f64_zero 0)
    (mkCacheState 0 f64_zero f64_zero (ModelId_new []) []) PolicyConfig_default
    (mkStagedDecisions false [] []) f64_zero f64_zero.

Example cycle_runs_three_times :
  (fun l => length (provenance l)) <$> ok (Runner_run Runner_default cycle_pipeline sample_ctx (PlanLedger_sized 0)) = Some 3%nat.
Proof. vm_compute. reflexivity. Qed.

Lemma Runner_terminates_witness :
  Runner_run Runner_default cycle_pipeline sample_ctx (PlanLedger_sized 0) =
  run_loop 100 2 (stages cycle_pipeline) sample_ctx (PlanLedger_sized 0) 0 0.
Proof.
  symmetry. apply (Runner_terminates Runner_default cycle_pipeline sample_ctx (PlanLedger_sized 0)).
  vm_compute. repeat constructor.
Defined.

(** The ledger keeps one proposal per segment: [upsert_proposal]
    preserves it, a lookup after an upsert finds the new proposal for its
    segment and the old one for any other, and [retain] drops exactly the
    proposals its test rejects. *)
Theorem ledger_one_per_segment (l : PlanLedger) (q : Proposal) (f : Proposal -> bool) (i : nat) :
  ledger_ok l ->
  ledger_ok (upsert_proposal l q) /\
  proposal_for (upsert_proposal l q) i =
    (if decide (prop_seg_index q = i) then Some q else proposal_for l i) /\
  ledger_ok (retain_proposals f l) /\
  proposal_for (retain_proposals f l) i = (p ← proposal_for l i; if f p then Some p else None).
Proof.
  intros N. split; [by apply upsert_ledger_ok|]. split; [apply proposal_for_upsert|].
  split; [by apply retain_ledger_ok | by apply proposal_for_retain].
Qed.

Lemma ledger_one_per_segment_witness :
  let q := mkProposal 3 Drop None None 10 f64_zero (mkPassId (str "drop_oldest")) in
  ledger_ok (PlanLedger_sized 5) /\ ledger_ok (upsert_proposal (PlanLedger_sized 5) q).
Proof.
  intros q. assert (N : ledger_ok (PlanLedger_sized 5)) by constructor. split; [exact N|].
  apply (ledger_one_per_segment (PlanLedger_sized 5) q (fun _ => true) 3 N).
Defined.
