(* ===== verification/Ladder.v ===== *)
(** * The continuous squash spine

    Models the on-path passes of [crates/ccs-policy/src/pipeline/passes]:
    [salience_gate.rs], [score.rs], [ladder_select.rs] (the ladder and the
    economics gate) and [anti_thrash.rs], with their composition
    [Presets::continuous] ([pipeline/presets.rs]).  The refinement theorem at
    the end says what the five passes together compute. *)
From S2P Require Import Prelude RStr F64 Core Economics Config Wire Segment Policy Scorer Pipeline.

Local Open Scope Z_scope.

Definition SALIENCE_GATE : PassId := mkPassId (str "salience_gate").
Definition SCORE : PassId := mkPassId (str "score").
Definition LADDER_SELECT : PassId := mkPassId (str "ladder_select").
Definition ECONOMICS_GATE : PassId := mkPassId (str "economics_gate").
Definition ANTI_THRASH : PassId := mkPassId (str "anti_thrash").

(** ** [SalienceGatePass] *)

Definition salience_gate_apply (ctx : PassCtx) (ledger : PlanLedger) : PlanLedger :=
  foldl (fun l seg => record l (mkProvenance (seg_index seg) SALIENCE_GATE (str "ineligible: pinned")))
    ledger
    (filterb (fun seg => negb (is_squash_candidate seg (ctx_working ctx) (ctx_knobs ctx))) (ctx_segments ctx)).

Definition SalienceGatePass : Pass :=
  mkPass SALIENCE_GATE OnPath (fun ctx l => Some (salience_gate_apply ctx l, Continue)).

Definition is_gated (ledger : PlanLedger) (seg_index : nat) : bool :=
  anyb (fun p => (prov_seg_index p =? seg_index)%nat && bool_decide (prov_by p = SALIENCE_GATE))
    (provenance ledger).

(** ** [ScorePass] *)

Section ScorePass.
Context `{Libm}.

(** The score of a segment, with the hot-ref penalty folded in. *)
Definition pass_score (ctx : PassCtx) (seg : Segment) : SegmentScore :=
  let score := score_segment seg (ctx_segments ctx) (ctx_working ctx) (ctx_cache ctx)
                 (ctx_econ ctx) (ctx_now ctx) (ctx_knobs ctx) in
  match StagedDecisions_segment (ctx_staged ctx) (seg_index seg) with
  | Some s =>
      if is_hot (ctx_staged ctx) (cand_ref_id (staged_candidate s)) then
        mkSegmentScore (salience score) (recency score) (freshness score) (economics score)
          (size score) (content_type score) f64_one
      else score
  | None => score
  end.

Fixpoint score_all (ctx : PassCtx) (segments : list Segment) (table : ScoreTable) : option ScoreTable :=
  match segments with
  | [] => Some table
  | seg :: rest =>
      table ← ScoreTable_set table (seg_index seg) (pass_score ctx seg);
      score_all ctx rest table
  end.

Definition score_apply (ctx : PassCtx) (ledger : PlanLedger) : option (PlanLedger * PassControl) :=
  table ← score_all ctx (ctx_segments ctx) (ledger_scores ledger);
  Some (mkPlanLedger table (proposals ledger) (provenance ledger), Continue).

Definition ScorePass : Pass := mkPass SCORE OnPath score_apply.
End ScorePass.

(** ** [LadderSelectPass] *)

Definition ladder (seg : Segment) (decision : ContentDecision) (cand : SquashCandidate)
    (cfg : PolicyConfig) : Strategy :=
  let chars := approx_chars seg in
  let reversible := ReversibleRef (cand_ref_id cand) (default [] (summary_content decision)) in
  if seg_is_true_human seg && bool_decide (kind seg = UserTurn) && (human_verbatim_max cfg <? chars) then
    match choice decision with
    | ChoiceTag_Compress => reversible
    | _ => Keep
    end
  else
    match pre_gate decision chars cfg with
    | Some gated => gated
    | None =>
        match choice decision with
        | ChoiceTag_Truncate => Truncate (ranges_to_keep decision)
        | ChoiceTag_Summarize => Summarize (default [] (summary_content decision))
        | ChoiceTag_Compress => reversible
        | ChoiceTag_Keep => Keep
        end
    end.

(** Score-descending, ties by segment index. *)
Definition ladder_order (w : ScoreWeights) (table : ScoreTable) (a b : StagedSegment) : comparison :=
  let v s := match ScoreTable_get table (staged_seg_index s) with
             | Some sc => value sc w | None => f64_zero end in
  match f64_total_cmp (v b) (v a) with
  | Eq => Nat.compare (staged_seg_index a) (staged_seg_index b)
  | c => c
  end.

(** The proposal one staged segment contributes, if any. *)
Definition ladder_proposal (ctx : PassCtx) (ledger : PlanLedger) (staged : StagedSegment) : option Proposal :=
  seg ← ctx_segments ctx !! staged_seg_index staged;
  if is_gated ledger (staged_seg_index staged) then None
  else if match ScoreTable_get (ledger_scores ledger) (staged_seg_index staged) with
          | Some s => negb (admitted s (weights (ctx_knobs ctx))) | None => false end then None
  else
    match ladder seg (staged_decision staged) (staged_candidate staged) (ctx_knobs ctx) with
    | Keep => None
    | strategy =>
        Some (mkProposal (staged_seg_index staged) strategy (Some (cand_ref_id (staged_candidate staged)))
                None (cand_net_removed (staged_candidate staged))
                (cand_quality_gain (staged_candidate staged)) LADDER_SELECT)
    end.

Definition ladder_step (ctx : PassCtx) (ledger : PlanLedger) (staged : StagedSegment) : PlanLedger :=
  match ladder_proposal ctx ledger staged with
  | Some p => upsert_proposal ledger p
  | None => ledger
  end.

Definition ladder_select_apply (ctx : PassCtx) (ledger : PlanLedger) : PlanLedger :=
  let ordered := sort_by (ladder_order (weights (ctx_knobs ctx)) (ledger_scores ledger))
                   (staged_segments (ctx_staged ctx)) in
  foldl (ladder_step ctx) ledger ordered.

Definition LadderSelectPass : Pass :=
  mkPass LADDER_SELECT OnPath (fun ctx l => Some (ladder_select_apply ctx l, Continue)).

(** ** [EconomicsGatePass] *)

Definition admits (staged : StagedSegment) (seg : Segment) (ctx : PassCtx) : bool :=
  if is_huge_human_paste seg (ctx_knobs ctx) then true
  else
    let batch := SquashBatch_of_single (staged_candidate staged) in
    negb (pinned seg
          || f64_leb (npv batch (ctx_cache ctx) (ctx_econ ctx) (ctx_remaining_turns ctx) (ctx_now ctx))
                     (staged_npv_floor staged)
          || (approx_chars seg <? pre_gate_min_chars (ctx_knobs ctx))).

Definition vetoed (ctx : PassCtx) (ledger : PlanLedger) : list nat :=
  omap (fun staged =>
          seg ← ctx_segments ctx !! staged_seg_index staged;
          if negb (admits staged seg ctx) then Some (staged_seg_index staged) else None)
    (filterb (fun staged =>
                match proposal_for ledger (staged_seg_index staged) with
                | Some p => bool_decide (prop_by p = LADDER_SELECT) | None => false end)
      (staged_segments (ctx_staged ctx))).

Definition economics_gate_apply (ctx : PassCtx) (ledger : PlanLedger) : PlanLedger :=
  foldl (fun l i =>
           record (retain_proposals (fun p => negb (prop_seg_index p =? i)%nat) l)
             (mkProvenance i ECONOMICS_GATE (str "economics veto")))
    ledger (vetoed ctx ledger).

Definition EconomicsGatePass : Pass :=
  mkPass ECONOMICS_GATE OnPath (fun ctx l => Some (economics_gate_apply ctx l, Continue)).

(** ** [AntiThrashPass] *)

Definition proposal_hot (ctx : PassCtx) (p : Proposal) : bool :=
  match prop_ref_id p with Some r => is_hot (ctx_staged ctx) r | None => false end.

Definition anti_thrash_apply (ctx : PassCtx) (ledger : PlanLedger) : PlanLedger :=
  let dropped := prop_seg_index <$> filterb (proposal_hot ctx) (proposals ledger) in
  foldl (fun l i => record l (mkProvenance i ANTI_THRASH (str "dropped: ref hot")))
    (retain_proposals (fun p => negb (proposal_hot ctx p)) ledger) dropped.

Definition AntiThrashPass : Pass :=
  mkPass ANTI_THRASH OnPath (fun ctx l => Some (anti_thrash_apply ctx l, Continue)).

(** ** [Presets::continuous] *)

Definition continuous `{Libm} : Pipeline :=
  shr (shr (shr (shr (Pipeline_of [Stage_Pass SalienceGatePass]) (Stage_Pass ScorePass))
    (Stage_Pass LadderSelectPass)) (Stage_Pass EconomicsGatePass)) (Stage_Pass AntiThrashPass).

(** ** The specification: one function of one segment

    [select_strategy] is the fold the two ladder passes split: the huge-paste
    exception, the pre-gate, the pin/NPV/size veto, then the choice. *)
Definition select_strategy (ctx : PassCtx) (seg : Segment) (staged : StagedSegment) : Strategy :=
  let cfg := ctx_knobs ctx in
  let decision := staged_decision staged in
  let cand := staged_candidate staged in
  if is_huge_human_paste seg cfg then
    match choice decision with
    | ChoiceTag_Compress => ReversibleRef (cand_ref_id cand) (default [] (summary_content decision))
    | _ => Keep
    end
  else if match pre_gate decision (approx_chars seg) cfg with Some _ => true | None => false end then Keep
  else if pinned seg
          || f64_leb (npv (SquashBatch_of_single cand) (ctx_cache ctx) (ctx_econ ctx)
                        (ctx_remaining_turns ctx) (ctx_now ctx)) (staged_npv_floor staged)
          || (approx_chars seg <? pre_gate_min_chars cfg) then Keep
  else
    match choice decision with
    | ChoiceTag_Truncate => Truncate (ranges_to_keep decision)
    | ChoiceTag_Summarize => Summarize (default [] (summary_content decision))
    | ChoiceTag_Compress => ReversibleRef (cand_ref_id cand) (default [] (summary_content decision))
    | ChoiceTag_Keep => Keep
    end.

(** What the spine proposes for segment [i]. *)
Definition spine_spec `{Libm} (ctx : PassCtx) (i : nat) : option Proposal :=
  staged ← StagedDecisions_segment (ctx_staged ctx) i;
  seg ← ctx_segments ctx !! i;
  if is_squash_candidate seg (ctx_working ctx) (ctx_knobs ctx)
     && admitted (pass_score ctx seg) (weights (ctx_knobs ctx))
     && negb (is_hot (ctx_staged ctx) (cand_ref_id (staged_candidate staged)))
  then
    match select_strategy ctx seg staged with
    | Keep => None
    | strategy =>
        Some (mkProposal i strategy (Some (cand_ref_id (staged_candidate staged))) None
                (cand_net_removed (staged_candidate staged))
                (cand_quality_gain (staged_candidate staged)) LADDER_SELECT)
    end
  else None.

(** ** Each pass against the specification *)

Section Spine.
Context `{Libm} (ctx : PassCtx).
Let segs := ctx_segments ctx.
Let staged := ctx_staged ctx.

(** A [Segment] list in the order of its indices, and one staged entry per
    segment. *)
Hypothesis Hidx : forall k s, segs !! k = Some s -> seg_index s = k.
Hypothesis Hstaged : NoDup (staged_seg_index <$> staged_segments staged).

Lemma record_fold (note : rstr) (by_ : PassId) ks l :
  foldl (fun l i => record l (mkProvenance i by_ note)) l ks =
  mkPlanLedger (ledger_scores l) (proposals l)
    (provenance l ++ ((fun i => mkProvenance i by_ note) <$> ks)).
Proof.
  revert l. induction ks as [|i ks IH]; intros l; simpl; [destruct l; by rewrite app_nil_r|].
  rewrite IH. unfold record. cbn. by rewrite <- app_assoc.
Qed.

Lemma salience_gate_ledger l :
  ledger_scores (salience_gate_apply ctx l) = ledger_scores l /\
  proposals (salience_gate_apply ctx l) = proposals l.
Proof.
  unfold salience_gate_apply. revert l. induction (filterb _ _) as [|s ss IH]; intros l; [done|].
  simpl. destruct (IH (record l (mkProvenance (seg_index s) SALIENCE_GATE (str "ineligible: pinned")))).
  done.
Qed.

Lemma salience_gate_gated l i s :
  provenance l = [] -> segs !! i = Some s ->
  is_gated (salience_gate_apply ctx l) i = negb (is_squash_candidate s (ctx_working ctx) (ctx_knobs ctx)).
Proof.
  intros P Hs. unfold salience_gate_apply.
  assert (E : forall ss l, provenance (foldl (fun l seg => record l (mkProvenance (seg_index seg) SALIENCE_GATE
      (str "ineligible: pinned"))) l ss) =
    provenance l ++ ((fun seg => mkProvenance (seg_index seg) SALIENCE_GATE (str "ineligible: pinned")) <$> ss)).
  { induction ss as [|x ss IH]; intros l'; simpl; [by rewrite app_nil_r|].
    rewrite IH. cbn. by rewrite <- app_assoc. }
  unfold is_gated. rewrite E, P, app_nil_l.
  apply eq_true_iff_eq. rewrite anyb_spec. split.
  - intros (p & (x & -> & [Hx Ex]%elem_of_filterb)%list_elem_of_fmap & C). cbn [prov_seg_index prov_by] in C.
    apply andb_true_iff in C as [C _]. apply Nat.eqb_eq in C. subst i.
    apply list_elem_of_lookup in Hx as [j Hj]. rewrite (Hidx _ _ Hj) in Hs. fold segs in Hj. congruence.
  - intros C. exists (mkProvenance (seg_index s) SALIENCE_GATE (str "ineligible: pinned")). split.
    + apply list_elem_of_fmap. exists s. split; [done|]. apply elem_of_filterb.
      split; [by eapply list_elem_of_lookup_2 | done].
    + cbn [prov_seg_index prov_by]. by rewrite (Hidx _ _ Hs), Nat.eqb_refl, bool_decide_true.
Qed.

Lemma score_all_table ss : forall pre table,
  segs = pre ++ ss -> length (scores table) = length segs ->
  (forall k s, pre !! k = Some s -> scores table !! k = Some (pass_score ctx s)) ->
  exists t, score_all ctx ss table = Some t /\ length (scores t) = length segs /\
    forall k s, segs !! k = Some s -> scores t !! k = Some (pass_score ctx s).
Proof.
  induction ss as [|s ss IH]; intros pre table E L P; cbn [score_all].
  { rewrite app_nil_r in E. subst pre. eauto. }
  assert (Hs : segs !! length pre = Some s) by (rewrite E, lookup_app_r, Nat.sub_diag by lia; done).
  apply Hidx in Hs as I. apply lookup_lt_Some in Hs as Lt.
  unfold ScoreTable_set. rewrite I, L, (proj2 (Nat.ltb_lt _ _) Lt). cbn.
  apply (IH (pre ++ [s])); cbn.
  - by rewrite <- app_assoc.
  - by rewrite length_insert.
  - intros k s' [Hk|[Hk1 Hk2]]%lookup_app_Some.
    + apply lookup_lt_Some in Hk as Lk. rewrite list_lookup_insert_ne by lia. by apply P.
    + apply list_lookup_singleton_Some in Hk2 as [E2 <-].
      replace k with (length pre) by lia. rewrite list_lookup_insert_eq; [done | lia].
Qed.

(** The proposals a run of ladder steps leaves, for entries with distinct
    segments: each entry's own contribution, or what was there. *)
Lemma ladder_fold l0 ss : forall l,
  (forall st, ladder_proposal ctx l st = ladder_proposal ctx l0 st) -> ledger_ok l ->
  NoDup (staged_seg_index <$> ss) ->
  let l' := foldl (ladder_step ctx) l ss in
  ledger_ok l' /\
  forall i, proposal_for l' i =
    match List.find (fun st => (staged_seg_index st =? i)%nat) ss with
    | Some st => match ladder_proposal ctx l0 st with Some p => Some p | None => proposal_for l i end
    | None => proposal_for l i
    end.
Proof.
  induction ss as [|st ss IH]; intros l F N ND; [done|].
  rewrite fmap_cons in ND. apply NoDup_cons in ND as [Nst ND]. cbn [foldl List.find].
  assert (Ip : forall p, ladder_proposal ctx l0 st = Some p -> prop_seg_index p = staged_seg_index st).
  { intros p. unfold ladder_proposal. destruct (_ !! _); [|done]. cbn.
    destruct (is_gated _ _); [done|]. destruct (ScoreTable_get _ _); [destruct (negb _); [done|]|];
    destruct (ladder _ _ _ _); intros; by simplify_eq. }
  unfold ladder_step at 2 4. rewrite F. destruct (ladder_proposal ctx l0 st) as [p|] eqn:E.
  - destruct (IH (upsert_proposal l p)) as [N' S']; [intros st'; by rewrite <- F | by apply upsert_ledger_ok | done |].
    split; [exact N'|]. intros i. rewrite S', proposal_for_upsert, (Ip p eq_refl).
    destruct (Nat.eqb_spec (staged_seg_index st) i) as [<-|Ni]; [|by rewrite decide_False].
    destruct (List.find _ ss) as [st'|] eqn:Fd; [|by rewrite decide_True, E].
    apply find_key_Some in Fd as [Hin Ei]. exfalso. apply Nst. rewrite <- Ei. by apply list_elem_of_fmap_2.
  - destruct (IH l F N ND) as [N' S']. split; [exact N'|]. intros i. rewrite S'.
    destruct (Nat.eqb_spec (staged_seg_index st) i) as [<-|Ni]; [|done]. rewrite E.
    destruct (List.find _ ss) as [st'|] eqn:Fd; [|done].
    apply find_key_Some in Fd as [Hin Ei]. exfalso. apply Nst. rewrite <- Ei. by apply list_elem_of_fmap_2.
Qed.

Lemma find_staged_perm ss i :
  Permutation ss (staged_segments staged) ->
  NoDup (staged_seg_index <$> ss) /\
  List.find (fun st => (staged_seg_index st =? i)%nat) ss = StagedDecisions_segment staged i.
Proof.
  intros P. assert (ND : NoDup (staged_seg_index <$> ss)) by by rewrite P.
  split; [exact ND|]. unfold StagedDecisions_segment.
  destruct (List.find _ ss) as [st|] eqn:F.
  - apply find_key_Some in F as [Hin <-]. symmetry. apply find_key; [done | by rewrite <- P].
  - destruct (List.find _ (staged_segments staged)) as [st|] eqn:F2; [|done].
    apply find_key_Some in F2 as [Hin Ei]. rewrite <- P in Hin. by apply (find_key_None _ _ _ _ F) in Hin.
Qed.

Lemma ladder_select_spec l i :
  ledger_ok l ->
  ledger_ok (ladder_select_apply ctx l) /\
  proposal_for (ladder_select_apply ctx l) i =
    match StagedDecisions_segment staged i with
    | Some st => match ladder_proposal ctx l st with Some p => Some p | None => proposal_for l i end
    | None => proposal_for l i
    end.
Proof.
  intros N. unfold ladder_select_apply.
  destruct (find_staged_perm _ i (sort_by_perm (ladder_order (weights (ctx_knobs ctx)) (ledger_scores l)) _)) as [ND E].
  rewrite <- E. destruct (ladder_fold l _ l (fun _ => eq_refl) N ND) as [N' S']. by split.
Qed.

Lemma retain_fold note by_ ks : forall l,
  ledger_ok l ->
  let l' := foldl (fun l i => record (retain_proposals (fun p => negb (prop_seg_index p =? i)%nat) l)
              (mkProvenance i by_ note)) l ks in
  ledger_ok l' /\
  forall i, proposal_for l' i = if decide (i ∈ ks) then None else proposal_for l i.
Proof.
  induction ks as [|k ks IH]; intros l N; cbn [foldl].
  { split; [done|]. intros i. by rewrite decide_False by set_solver. }
  set (r := record _ _).
  assert (Nr : ledger_ok r) by exact (retain_ledger_ok _ l N).
  destruct (IH r Nr) as [N' S']. split; [exact N'|]. intros i. rewrite S'.
  assert (Er : proposal_for r i = (p ← proposal_for l i; if negb (prop_seg_index p =? k)%nat then Some p else None))
    by exact (proposal_for_retain _ l i N).
  rewrite Er. destruct (decide (i ∈ ks)) as [Hi|Hi]; [by rewrite decide_True by set_solver|].
  destruct (proposal_for l i) as [p|] eqn:E; cbn; [|by case_decide].
  apply proposal_for_Some in E as [_ E]. rewrite E.
  destruct (Nat.eqb_spec i k) as [->|Nk]; cbn; [by rewrite decide_True by set_solver | by rewrite decide_False by set_solver].
Qed.

Lemma vetoed_spec l i :
  i ∈ vetoed ctx l <->
  exists st seg p, StagedDecisions_segment staged i = Some st /\ segs !! i = Some seg /\
    proposal_for l i = Some p /\ prop_by p = LADDER_SELECT /\ admits st seg ctx = false.
Proof.
  unfold vetoed. rewrite list_elem_of_omap. split.
  - intros (st & [Hst Hp]%elem_of_filterb & E).
    destruct (ctx_segments ctx !! _) as [seg|] eqn:Hseg; [|done]. cbn in E.
    destruct (admits st seg ctx) eqn:A; simplify_eq/=.
    destruct (proposal_for l _) as [p|] eqn:P; [|done]. apply bool_decide_eq_true in Hp.
    exists st, seg, p. split_and!; try done. by apply (find_key staged_seg_index).
  - intros (st & seg & p & Hst & Hseg & Hp & Hb & A). apply find_key_Some in Hst as [Hin <-].
    exists st. split; [|fold segs; by rewrite Hseg; cbn; rewrite A].
    apply elem_of_filterb. split; [done|]. rewrite Hp. by apply bool_decide_eq_true.
Qed.

Lemma economics_gate_spec l i :
  ledger_ok l ->
  ledger_ok (economics_gate_apply ctx l) /\
  proposal_for (economics_gate_apply ctx l) i =
    (p ← proposal_for l i;
     match StagedDecisions_segment staged i, segs !! i with
     | Some st, Some seg =>
         if bool_decide (prop_by p = LADDER_SELECT) && negb (admits st seg ctx) then None else Some p
     | _, _ => Some p
     end).
Proof.
  intros N. destruct (retain_fold (str "economics veto") ECONOMICS_GATE (vetoed ctx l) l N) as [N' S'].
  split; [exact N'|]. unfold economics_gate_apply. rewrite S'. case_decide as V.
  - apply vetoed_spec in V as (st & seg & p & -> & -> & -> & B & A). cbn.
    by rewrite A, (bool_decide_true _ B).
  - destruct (proposal_for l i) as [p|] eqn:P; [|done]. cbn.
    destruct (StagedDecisions_segment staged i) as [st|] eqn:Est; [|done].
    destruct (segs !! i) as [seg|] eqn:Eseg; [|done].
    destruct (bool_decide _) eqn:B; [|done]. destruct (admits st seg ctx) eqn:A; [done|].
    apply bool_decide_eq_true in B. destruct V. apply vetoed_spec. eauto 10.
Qed.

Lemma anti_thrash_spec l i :
  ledger_ok l ->
  ledger_ok (anti_thrash_apply ctx l) /\
  proposal_for (anti_thrash_apply ctx l) i =
    (p ← proposal_for l i; if negb (proposal_hot ctx p) then Some p else None).
Proof.
  intros N. unfold anti_thrash_apply. rewrite record_fold. split.
  - exact (retain_ledger_ok _ l N).
  - exact (proposal_for_retain _ l i N).
Qed.

(** The ladder with the gate behind it is [select_strategy]. *)
Lemma ladder_gate_select st seg :
  (match ladder seg (staged_decision st) (staged_candidate st) (ctx_knobs ctx) with
   | Keep => Keep
   | s => if admits st seg ctx then s else Keep
   end) = select_strategy ctx seg st.
Proof.
  unfold ladder, select_strategy, admits.
  change (seg_is_true_human seg && bool_decide (kind seg = UserTurn)
    && (human_verbatim_max (ctx_knobs ctx) <? approx_chars seg)) with (is_huge_human_paste seg (ctx_knobs ctx)).
  destruct (is_huge_human_paste seg (ctx_knobs ctx)); [by destruct (choice _)|].
  assert (G : forall d n c s, pre_gate d n c = Some s -> s = Keep).
  { intros d n c s. unfold pre_gate. destruct (_ <? _); [congruence|].
    destruct (choice d), (summary_content d); try destruct (_ <? _); congruence. }
  destruct (pre_gate _ _ _) as [g|] eqn:E; [by rewrite (G _ _ _ _ E)|].
  set (veto := _ || _ || _). destruct veto; by destruct (choice _).
Qed.

(** *** The five passes in sequence *)

Lemma continuous_straight l :
  run_straight (stages continuous) ctx l =
  ('(l2, _) ← score_apply ctx (salience_gate_apply ctx l);
   Some (anti_thrash_apply ctx (economics_gate_apply ctx (ladder_select_apply ctx l2)))).
Proof. cbn -[score_apply]. by destruct (score_apply ctx _) as [[l2 c]|]. Qed.

Lemma continuous_never_reverts : Forall never_reverts (stages continuous).
Proof.
  repeat constructor; cbn; intros ? ? ? ?; try (intros; by simplify_eq).
  unfold score_apply. destruct (score_all _ _ _); intros; by simplify_eq/=.
Qed.

Lemma continuous_spine self :
  exists l, Runner_run self continuous ctx (PlanLedger_sized (length segs)) = Ok l /\ ledger_ok l /\
    forall i, proposal_for l i = spine_spec ctx i.
Proof.
  rewrite Runner_run_straight by apply continuous_never_reverts. rewrite continuous_straight.
  set (l0 := PlanLedger_sized (length segs)). destruct (salience_gate_ledger l0) as [Sc0 Pr0].
  destruct (score_all_table segs [] (ScoreTable_sized (length segs))) as (t & Et & Lt & St); [done | by cbn; rewrite length_replicate | done |].
  unfold score_apply. rewrite Sc0. cbn [ledger_scores l0 PlanLedger_sized]. fold segs. rewrite Et.
  cbn [mbind option_bind ok_or].
  set (l2 := mkPlanLedger t _ _). assert (N2 : ledger_ok l2) by (unfold ledger_ok; cbn; rewrite Pr0; constructor).
  destruct (ladder_select_spec l2 0 N2) as [N3 _]. destruct (economics_gate_spec (ladder_select_apply ctx l2) 0 N3) as [N4 _].
  eexists. split; [done|]. split; [apply (anti_thrash_spec _ 0 N4)|]. intros i.
  rewrite (proj2 (anti_thrash_spec _ i N4)), (proj2 (economics_gate_spec _ i N3)), (proj2 (ladder_select_spec _ i N2)).
  assert (P2 : proposal_for l2 i = None) by (unfold proposal_for; cbn; by rewrite Pr0).
  unfold spine_spec. fold staged. destruct (StagedDecisions_segment staged i) as [st|] eqn:Est; [|by rewrite P2].
  apply find_key_Some in Est as Est'. destruct Est' as [_ Ei].
  unfold ladder_proposal. rewrite Ei. fold segs. destruct (segs !! i) as [seg|] eqn:Es; [|by rewrite P2].
  assert (G : is_gated l2 i = negb (is_squash_candidate seg (ctx_working ctx) (ctx_knobs ctx)))
    by exact (salience_gate_gated l0 i seg eq_refl Es).
  cbn [mbind option_bind]. rewrite G. unfold ScoreTable_get. cbn [ledger_scores l2]. rewrite (St i seg Es).
  destruct (is_squash_candidate seg _ _); cbn [negb andb]; [|by rewrite P2].
  destruct (admitted _ _); cbn [negb andb]; [|by rewrite P2].
  rewrite <- ladder_gate_select.
  destruct (ladder seg _ _ _) eqn:El; cbn [mbind option_bind prop_by]; rewrite ?P2, ?bool_decide_true by done;
    destruct (admits st seg ctx); cbn; unfold proposal_hot; cbn; fold staged; destruct (is_hot staged _); done.
Qed.
End Spine.

(** ** Property *)

(** C10. The continuous pipeline (salience gate, scores, ladder, economics gate,
    anti-thrash) computes [select_strategy] per segment: on any segments with
    positional indices and at most one staged decision per segment the run
    succeeds, whatever the revert budget, and segment [i]'s proposal is the
    staged decision's strategy exactly when the segment is eligible, its score
    clears the floor, its ref is not in flight and the strategy is not [Keep];
    every other segment has no proposal. *)
Theorem continuous_computes_select_strategy `{Libm} (ctx : PassCtx) (self : Runner) :
  (forall k s, ctx_segments ctx !! k = Some s -> seg_index s = k) ->
  NoDup (staged_seg_index <$> staged_segments (ctx_staged ctx)) ->
  exists l, Runner_run self continuous ctx (PlanLedger_sized (length (ctx_segments ctx))) = Ok l /\
    ledger_ok l /\ forall i, proposal_for l i = spine_spec ctx i.
Proof. intros Hidx Hst. exact (continuous_spine ctx Hidx Hst self). Qed.

(** Six tool pairs; the second has a staged compression, the third one whose
    ref is in flight. *)
Definition spine_sample : PassCtx :=
  let ref_of c := RefId_mk (REF_PREFIX ++ replicate 64 c) in
  let compress i c := mkStagedSegment i (mkContentDecision ChoiceTag_Compress [] (Some (str "sum")))
    (mkSquashCandidate 0 4000 1500 f64_zero (ref_of c) Keep) f64_zero in
  mkPassCtx sample_body ((fun k => mkSegment k ToolPair 0 2000 1 false false false []) <$> seq 0 6)
    WorkingState_default opus
    (mkCacheState 0 f64_zero f64_zero (ModelId_new (str "claude-opus-4-8")) []) PolicyConfig_default
    (mkStagedDecisions true [compress 2%nat 98; compress 1%nat 97] [ref_of 98])
    (f64_of_Z 4) (f64_of_Z 100).

Lemma continuous_computes_select_strategy_witness :
  let _ := flat_libm in
  (exists l, Runner_run Runner_default continuous spine_sample (PlanLedger_sized 6) = Ok l /\
     ledger_ok l /\ forall i, proposal_for l i = spine_spec spine_sample i) /\
  (prop_strategy <$> spine_spec spine_sample 1) =
    Some (ReversibleRef (RefId_mk (REF_PREFIX ++ replicate 64 97)) (str "sum")) /\
  spine_spec spine_sample 2 = None /\ spine_spec spine_sample 3 = None.
Proof.
  split; [|by_compute].
  apply (@continuous_computes_select_strategy flat_libm spine_sample Runner_default).
  - intros k s. cbn [spine_sample ctx_segments]. rewrite list_lookup_fmap.
    intros (j & Hj & ->)%fmap_Some. by apply lookup_seq in Hj as [-> _].
  - apply (bool_decide_unpack _). vm_compute. exact I.
Defined.
