(* ===== verification/Fallback.v ===== *)
(** * The over-budget fallback

    Models [crates/ccs-policy/src/pipeline/passes/budget_fallback.rs] and
    [Presets::budget_fallback]: strip historical reasoning, drop the oldest
    tool pairs, drop the oldest segments, each against the same hard target. *)
From S2P Require Import Prelude RStr F64 Core Economics Config Wire Segment Policy Scorer Pipeline.

Local Open Scope Z_scope.

Definition STRIP_REASONING : PassId := mkPassId (str "strip_reasoning").
Definition DROP_TOOL_PAIRS : PassId := mkPassId (str "drop_tool_pairs").
Definition DROP_OLDEST : PassId := mkPassId (str "drop_oldest").

Definition target (ctx : PassCtx) : Z :=
  let window := max_tokens (ctx_body ctx) in
  hard_target window window.

Definition total_tokens (ctx : PassCtx) : Z := u64_sum (token_estimate <$> ctx_segments ctx).

Definition removed_so_far (ledger : PlanLedger) : Z :=
  u64_sum ((fun p => Z.max (prop_net_removed p) 0) <$> proposals ledger).

Definition dropped_by_tool_pairs (ledger : PlanLedger) (seg_index : nat) : bool :=
  match proposal_for ledger seg_index with
  | Some p => bool_decide (prop_by p = DROP_TOOL_PAIRS)
  | None => false
  end.

Definition drop_proposal (seg_index : nat) (net_removed : Z) (by_ : PassId) : Proposal :=
  mkProposal seg_index Drop None None net_removed f64_zero by_.

(** Rung 1; [None] is the panic of [ctx.segments[index]]. *)
Fixpoint strip_loop (ctx : PassCtx) (indices : list nat) (ledger : PlanLedger) : option PlanLedger :=
  match indices with
  | [] => Some ledger
  | index :: rest =>
      seg ← ctx_segments ctx !! index;
      strip_loop ctx rest
        (upsert_proposal ledger (drop_proposal index (shed_tokens (ctx_body ctx) seg) STRIP_REASONING))
  end.

Definition strip_reasoning_apply (ctx : PassCtx) (ledger : PlanLedger) : option (PlanLedger * PassControl) :=
  if total_tokens ctx <=? target ctx then Some (ledger, Continue)
  else
    l ← strip_loop ctx (strip_reasoning (ctx_body ctx) (ctx_segments ctx)) ledger;
    Some (l, Continue).

Definition StripReasoningPass : Pass := mkPass STRIP_REASONING OffPath strip_reasoning_apply.

(** Rungs 2 and 3 share the step: charge the running total, propose the drop. *)
Definition drop_step (by_ : PassId) (seg : Segment) (running : Z) (ledger : PlanLedger) : Z * PlanLedger :=
  (sat_sub running (token_estimate seg),
   upsert_proposal ledger (drop_proposal (seg_index seg) (token_estimate seg) by_)).

Fixpoint drop_tool_pairs_loop (target : Z) (segs : list Segment) (running : Z) (ledger : PlanLedger)
    : Z * PlanLedger :=
  match segs with
  | [] => (running, ledger)
  | seg :: rest =>
      if running <=? target then (running, ledger)
      else
        let '(running, ledger) := drop_step DROP_TOOL_PAIRS seg running ledger in
        drop_tool_pairs_loop target rest running ledger
  end.

Definition is_droppable_pair (s : Segment) : bool := bool_decide (kind s = ToolPair) && negb (pinned s).

Definition drop_tool_pairs_apply (ctx : PassCtx) (ledger : PlanLedger) : PlanLedger :=
  if total_tokens ctx <=? target ctx then ledger
  else
    (drop_tool_pairs_loop (target ctx) (filterb is_droppable_pair (ctx_segments ctx))
       (sat_sub (total_tokens ctx) (removed_so_far ledger)) ledger).2.

Definition DropToolPairsPass : Pass :=
  mkPass DROP_TOOL_PAIRS OffPath (fun ctx l => Some (drop_tool_pairs_apply ctx l, Continue)).

Definition is_instruction (k : SegmentKind) : bool :=
  match k with System | Tools => true | _ => false end.

Fixpoint drop_oldest_loop (target : Z) (last : nat) (segs : list Segment) (running : Z) (ledger : PlanLedger)
    : Z * PlanLedger :=
  match segs with
  | [] => (running, ledger)
  | seg :: rest =>
      if running <=? target then (running, ledger)
      else if (seg_index seg =? last)%nat || is_instruction (kind seg)
              || dropped_by_tool_pairs ledger (seg_index seg)
      then drop_oldest_loop target last rest running ledger
      else
        let '(running, ledger) := drop_step DROP_OLDEST seg running ledger in
        drop_oldest_loop target last rest running ledger
  end.

Definition drop_oldest_apply (ctx : PassCtx) (ledger : PlanLedger) : PlanLedger :=
  if total_tokens ctx <=? target ctx then ledger
  else
    (drop_oldest_loop (target ctx) (length (ctx_segments ctx) - 1) (ctx_segments ctx)
       (sat_sub (total_tokens ctx) (removed_so_far ledger)) ledger).2.

Definition DropOldestPass : Pass :=
  mkPass DROP_OLDEST OffPath (fun ctx l => Some (drop_oldest_apply ctx l, Continue)).

(** [Presets::budget_fallback]. *)
Definition budget_fallback : Pipeline :=
  shr (shr (Pipeline_of [Stage_Pass StripReasoningPass]) (Stage_Pass DropToolPairsPass)) (Stage_Pass DropOldestPass).

(** ** The rungs *)

Section Fallback.
Context (ctx : PassCtx).
Let segs := ctx_segments ctx.
Hypothesis Hidx : forall k s, segs !! k = Some s -> seg_index s = k.
Hypothesis Htok : forall k s, segs !! k = Some s -> is_u32 (token_estimate s).

(** A drop the ladder may propose: a segment that is neither the last one nor
    an instruction segment, and no more tokens than it holds. *)
Definition drop_ok (p : Proposal) : Prop :=
  prop_strategy p = Drop /\ prop_ref_id p = None /\ needs_ref p = None /\
  exists s, segs !! prop_seg_index p = Some s /\ S (prop_seg_index p) <> length segs /\
    is_instruction (kind s) = false /\ prop_net_removed p <= token_estimate s.

Definition ladder_inv (l : PlanLedger) : Prop := ledger_ok l /\ Forall drop_ok (proposals l).

Lemma upsert_Forall (P : Proposal -> Prop) q l : P q -> Forall P l -> Forall P (upsert q l).
Proof.
  intros Hq. induction 1 as [|p l Hp Hl IH]; simpl; [by repeat constructor|].
  destruct (for_segment _ p); by constructor.
Qed.

Lemma upsert_inv l q : ladder_inv l -> drop_ok q -> ladder_inv (upsert_proposal l q).
Proof. intros [N F] Hq. split; [by apply upsert_ledger_ok | by apply upsert_Forall]. Qed.

Lemma strip_reasoning_ok i :
  i ∈ strip_reasoning (ctx_body ctx) segs ->
  exists s, segs !! i = Some s /\ kind s = AssistantTurn /\ S i <> length segs.
Proof.
  unfold strip_reasoning.
  intros (s & -> & [[Hs C]%elem_of_filterb _]%elem_of_filterb)%list_elem_of_fmap.
  apply andb_true_iff in C as [K L]. apply bool_decide_eq_true in K, L.
  apply list_elem_of_lookup in Hs as [k Hk]. rewrite (Hidx _ _ Hk) in *.
  exists s. split; [done|]. split; [done|]. intros E. apply L.
  destruct (rposition _ segs) as [j|] eqn:R.
  - apply rposition_Some in R as [(a & Ha & _) Hm]. apply lookup_lt_Some in Ha.
    specialize (Hm k s Hk (bool_decide_eq_true_2 _ K)). f_equal. lia.
  - pose proof (rposition_None _ _ R k s Hk) as F. cbv beta in F.
    by rewrite (bool_decide_eq_true_2 _ K) in F.
Qed.

Lemma strip_loop_inv ks : forall l,
  (forall i, i ∈ ks -> i ∈ strip_reasoning (ctx_body ctx) segs) -> ladder_inv l ->
  exists l', strip_loop ctx ks l = Some l' /\ ladder_inv l'.
Proof.
  induction ks as [|i ks IH]; intros l Hks Hl; [eauto|]. cbn [strip_loop].
  destruct (strip_reasoning_ok i) as (s & Hs & K & Hlast); [apply Hks; set_solver|].
  fold segs. rewrite Hs. cbn [mbind option_bind]. apply IH; [set_solver|].
  apply upsert_inv; [done|]. unfold drop_ok. cbn. split_and!; try done.
  exists s. rewrite K. split_and!; try done. unfold shed_tokens, sat_sub.
  set (kept := concat _). pose proof (estimate_chars_proxy_u32 kept). pose proof (Htok _ _ Hs).
  unfold is_u32 in *. lia.
Qed.

Lemma drop_tool_pairs_inv t ss : forall running l,
  (forall s, s ∈ ss -> is_droppable_pair s = true /\ exists k, segs !! k = Some s /\ S k <> length segs) ->
  ladder_inv l ->
  let '(running', l') := drop_tool_pairs_loop t ss running l in
  ladder_inv l' /\
  (running' <= t \/ forall s, s ∈ ss -> dropped_by_tool_pairs l' (seg_index s) = true) /\
  (forall i, dropped_by_tool_pairs l i = true -> dropped_by_tool_pairs l' i = true).
Proof.
  induction ss as [|s ss IH]; intros running l Hss Hl; cbn [drop_tool_pairs_loop].
  { split_and!; [done | right; set_solver | done]. }
  destruct (Z.leb_spec running t) as [R|R]; [split_and!; auto|]. cbn [drop_step].
  set (q := drop_proposal _ _ _). destruct (Hss s) as [Hd (k & Hk & Hlast)]; [set_solver|].
  pose proof (Hidx _ _ Hk) as I. unfold is_droppable_pair in Hd. apply andb_true_iff in Hd as [K _].
  apply bool_decide_eq_true in K.
  assert (Hq : ladder_inv (upsert_proposal l q)).
  { apply upsert_inv; [done|]. unfold drop_ok, q. cbn. rewrite I. split_and!; try done.
    exists s. rewrite K. split_and!; try done. }
  specialize (IH (sat_sub running (token_estimate s)) (upsert_proposal l q)).
  destruct (drop_tool_pairs_loop t ss _ _) as [running' l']. destruct IH as (N' & D' & M'); [set_solver | done |].
  assert (Mq : forall i, dropped_by_tool_pairs l i = true -> dropped_by_tool_pairs (upsert_proposal l q) i = true).
  { intros i. unfold dropped_by_tool_pairs. rewrite proposal_for_upsert. by case_decide. }
  split_and!; [done | | intros i Hi; by apply M', Mq].
  destruct D' as [?|D']; [by left|]. right. intros s' [->|Hs']%elem_of_cons; [|by apply D'].
  apply M'. unfold dropped_by_tool_pairs. rewrite proposal_for_upsert, decide_True by done. done.
Qed.

Lemma drop_oldest_inv t ss : forall running l,
  (forall s, s ∈ ss -> exists k, segs !! k = Some s) -> ladder_inv l ->
  let '(running', l') := drop_oldest_loop t (length segs - 1) ss running l in
  ladder_inv l' /\
  (running' <= t \/
   forall s, s ∈ ss -> S (seg_index s) <> length segs -> is_instruction (kind s) = false ->
     is_Some (proposal_for l' (seg_index s))) /\
  (forall i, is_Some (proposal_for l i) -> is_Some (proposal_for l' i)).
Proof.
  induction ss as [|s ss IH]; intros running l Hss Hl; cbn [drop_oldest_loop].
  { split_and!; [done | right; set_solver | done]. }
  destruct (Z.leb_spec running t) as [R|R]; [split_and!; auto|].
  destruct (Hss s) as (k & Hk); [set_solver|]. pose proof (Hidx _ _ Hk) as I.
  apply lookup_lt_Some in Hk as Lk.
  destruct ((seg_index s =? _)%nat || _ || _) eqn:C.
  - specialize (IH running l). destruct (drop_oldest_loop _ _ ss _ _) as [running' l'].
    destruct IH as (N' & D' & M'); [set_solver | done |]. split_and!; try done.
    destruct D' as [?|D']; [by left|]. right. intros s' [->|Hs']%elem_of_cons L' K'; [|by apply D'].
    rewrite K', orb_false_r in C. apply orb_true_iff in C as [C%Nat.eqb_eq|C]; [lia|].
    apply M'. unfold dropped_by_tool_pairs in C. by destruct (proposal_for l _).
  - apply orb_false_iff in C as [[C1%Nat.eqb_neq C2]%orb_false_iff _]. cbn [drop_step].
    set (q := drop_proposal _ _ _).
    assert (Hq : ladder_inv (upsert_proposal l q)).
    { apply upsert_inv; [done|]. unfold drop_ok, q. cbn. rewrite I. split_and!; try done.
      exists s. split_and!; try done. lia. }
    specialize (IH (sat_sub running (token_estimate s)) (upsert_proposal l q)).
    destruct (drop_oldest_loop _ _ ss _ _) as [running' l']. destruct IH as (N' & D' & M'); [set_solver | done |].
    assert (Mq : forall i, is_Some (proposal_for l i) -> is_Some (proposal_for (upsert_proposal l q) i)).
    { intros i. rewrite proposal_for_upsert. by case_decide. }
    split_and!; [done | | intros i Hi; by apply M', Mq].
    destruct D' as [?|D']; [by left|]. right. intros s' [->|Hs']%elem_of_cons; [|by apply D'].
    intros _ _. apply M'. rewrite proposal_for_upsert, decide_True by done. eauto.
Qed.
End Fallback.

(** ** The whole ladder on a segmented prompt *)

Lemma segment_prompt_facts `{SerdeJson} body :
  (forall k s, segment_prompt body !! k = Some s -> seg_index s = k) /\
  (forall k s, segment_prompt body !! k = Some s -> is_u32 (token_estimate s)) /\
  (forall k s, segment_prompt body !! k = Some s -> pinned s = false -> S k <> length (segment_prompt body)).
Proof.
  destruct (segment_prompt_built body) as (bs & _ & E).
  split_and!; intros k s Hk;
    destruct (segment_prompt_lookup _ _ _ _ E Hk) as (b & _ & I & _ & _ & _ & _ & _ & T & P).
  - done.
  - rewrite T. apply estimate_chars_proxy_u32.
  - intros F. destruct P as [(_ & P & _)|(L & _)]; [congruence | lia].
Qed.

(** With [max_tokens] as both the window and the output, nothing is left of the
    window: the hard target is its floor. *)
Lemma target_is_floor ctx : 0 <= max_tokens (ctx_body ctx) -> target ctx = 256.
Proof. unfold target, hard_target, sat_sub. lia. Qed.

Lemma fallback_never_reverts : Forall never_reverts (stages budget_fallback).
Proof.
  repeat constructor; cbn; intros ctx l l' c; try (intros; by simplify_eq).
  unfold strip_reasoning_apply. destruct (_ <=? _); [intros; by simplify_eq|].
  destruct (strip_loop _ _ _); intros; by simplify_eq/=.
Qed.

Lemma fallback_straight ctx l :
  run_straight (stages budget_fallback) ctx l =
  ('(l1, _) ← strip_reasoning_apply ctx l; Some (drop_oldest_apply ctx (drop_tool_pairs_apply ctx l1))).
Proof. cbn -[strip_reasoning_apply]. by destruct (strip_reasoning_apply ctx l) as [[l1 c]|]. Qed.

Lemma budget_fallback_run `{SerdeJson} (ctx : PassCtx) (self : Runner) :
  ctx_segments ctx = segment_prompt (ctx_body ctx) ->
  exists l2 l, Runner_run self budget_fallback ctx (PlanLedger_sized (length (ctx_segments ctx))) = Ok l /\
    run_straight [Stage_Pass StripReasoningPass; Stage_Pass DropToolPairsPass] ctx
      (PlanLedger_sized (length (ctx_segments ctx))) = Some l2 /\
    l = drop_oldest_apply ctx l2 /\ ledger_ok l /\
    (total_tokens ctx <= target ctx -> proposals l = []) /\
    (forall p, p ∈ proposals l -> drop_ok ctx p) /\
    (target ctx < total_tokens ctx ->
     target ctx < (drop_oldest_loop (target ctx) (length (ctx_segments ctx) - 1) (ctx_segments ctx)
                     (sat_sub (total_tokens ctx) (removed_so_far l2)) l2).1 ->
     forall k s, ctx_segments ctx !! k = Some s -> S k <> length (ctx_segments ctx) ->
       is_instruction (kind s) = false -> is_Some (proposal_for l k)).
Proof.
  intros Es. destruct (segment_prompt_facts (ctx_body ctx)) as (Hidx & Htok & Hpin).
  rewrite <- Es in Hidx, Htok, Hpin. set (l0 := PlanLedger_sized _).
  assert (I0 : ladder_inv ctx l0) by (split; [constructor | constructor]).
  rewrite Runner_run_straight by apply fallback_never_reverts. rewrite fallback_straight.
  cbn [run_straight apply StripReasoningPass DropToolPairsPass].
  unfold strip_reasoning_apply, drop_tool_pairs_apply, drop_oldest_apply.
  destruct (Z.leb_spec (total_tokens ctx) (target ctx)) as [L|L].
  { exists l0, l0. split_and!; try done; [constructor | by intros p Hp%not_elem_of_nil | lia]. }
  destruct (strip_loop_inv ctx Hidx Htok (strip_reasoning (ctx_body ctx) (ctx_segments ctx)) l0) as (l1 & E1 & I1);
    [done | done |]. rewrite E1. cbn [mbind option_bind ok_or].
  pose proof (drop_tool_pairs_inv ctx Hidx Htok (target ctx) (filterb is_droppable_pair (ctx_segments ctx))
    (sat_sub (total_tokens ctx) (removed_so_far l1)) l1) as D2.
  destruct (drop_tool_pairs_loop _ _ _ l1) as [r2 l2]. cbn [snd]. destruct D2 as (I2 & _ & _); [|done|].
  { intros s [Hs Hd]%elem_of_filterb. split; [done|]. apply list_elem_of_lookup in Hs as [k Hk].
    exists k. split; [done|]. apply (Hpin k s Hk). unfold is_droppable_pair in Hd.
    apply andb_true_iff in Hd as [_ Hd]. by apply negb_true_iff in Hd. }
  pose proof (drop_oldest_inv ctx Hidx Htok (target ctx) (ctx_segments ctx)
    (sat_sub (total_tokens ctx) (removed_so_far l2)) l2) as D3.
  exists l2. destruct (drop_oldest_loop _ _ _ _ l2) as [r3 l3]. cbn [fst snd].
  destruct D3 as (I3 & D3 & _); [intros s Hs; by apply list_elem_of_lookup in Hs | done |].
  exists l3. split_and!; try done; [apply I3 | lia | apply Forall_forall, I3 |].
  intros _ R k s Hk Hlast K. destruct D3 as [?|D3]; [lia|].
  rewrite <- (Hidx k s Hk). apply D3; [by eapply list_elem_of_lookup_2 | by rewrite (Hidx k s Hk) | done].
Qed.

(** C24. The fallback ladder on any segmented prompt: it always succeeds; within
    the target it proposes nothing; every proposal is a plain [Drop] of a
    segment that is neither the last (current) one nor a system or tools
    segment, with a removal no larger than the segment's estimate, at most one
    per segment; and when the last rung's running total is still above the
    target, every segment it may touch has been proposed. *)
Theorem budget_fallback_sound `{SerdeJson} (ctx : PassCtx) (self : Runner) :
  ctx_segments ctx = segment_prompt (ctx_body ctx) ->
  exists l2 l, Runner_run self budget_fallback ctx (PlanLedger_sized (length (ctx_segments ctx))) = Ok l /\
    run_straight [Stage_Pass StripReasoningPass; Stage_Pass DropToolPairsPass] ctx
      (PlanLedger_sized (length (ctx_segments ctx))) = Some l2 /\
    l = drop_oldest_apply ctx l2 /\ ledger_ok l /\
    (total_tokens ctx <= target ctx -> proposals l = []) /\
    (forall p, p ∈ proposals l -> drop_ok ctx p) /\
    (target ctx < total_tokens ctx ->
     target ctx < (drop_oldest_loop (target ctx) (length (ctx_segments ctx) - 1) (ctx_segments ctx)
                     (sat_sub (total_tokens ctx) (removed_so_far l2)) l2).1 ->
     forall k s, ctx_segments ctx !! k = Some s -> S k <> length (ctx_segments ctx) ->
       is_instruction (kind s) = false -> is_Some (proposal_for l k)).
Proof. apply budget_fallback_run. Qed.

(** A prompt whose oldest assistant turn is almost all reasoning. *)
Definition reasoning_body : WireBody :=
  let pad (n : Z) := replicate (Z.to_nat n) 97 in
  mkWireBody (ModelId_new (str "claude-opus-4-8")) None None
    [human (str "hi");
     assistant [Block_Thinking (pad 1400); text_block (str "a")];
     human (pad 1750);
     assistant [text_block (str "b")];
     human (str "go on")]
    4096.

Definition reasoning_ctx : PassCtx :=
  mkPassCtx reasoning_body (@segment_prompt scan_json reasoning_body) WorkingState_default opus
    (mkCacheState 0 f64_zero f64_zero (ModelId_new []) []) PolicyConfig_default
    (mkStagedDecisions false [] []) f64_zero f64_zero.

Lemma budget_fallback_sound_witness :
  let _ := scan_json in
  exists l2 l, Runner_run Runner_default budget_fallback reasoning_ctx (PlanLedger_sized 5) = Ok l /\
    l = drop_oldest_apply reasoning_ctx l2 /\ ledger_ok l.
Proof.
  destruct (@budget_fallback_sound scan_json reasoning_ctx Runner_default) as (l2 & l & R & _ & E & N & _).
  - reflexivity.
  - exists l2, l. split; [exact R|]. split; [exact E | exact N].
Defined.

(** A segment stripped in rung 1 is charged twice: rung 3 subtracts its whole
    estimate from a running total that already lost its reasoning, so the
    ladder stops with the kept segments still above the target while another
    droppable segment (index 2) is left alone. *)
Lemma drop_oldest_double_counts :
  exists l, Runner_run Runner_default budget_fallback reasoning_ctx (PlanLedger_sized 5) = Ok l /\
    target reasoning_ctx = 256 /\
    target reasoning_ctx < total_tokens reasoning_ctx - removed_so_far l /\
    proposal_for l 2 = None.
Proof.
  eexists. split; [vm_compute; reflexivity|]. split; [vm_compute; reflexivity|].
  split; vm_compute; reflexivity.
Qed.
