(* ===== verification/Controller.v ===== *)
(** * The continuous controller

    Models [crates/ccs-policy/src/controller.rs]: the four-factor status and
    the hold/flush decision. *)
From S2P Require Import Prelude RStr F64 Core Economics Config Wire Segment Policy.
From Stdlib Require Import QArith.

Local Open Scope Z_scope.

Inductive HoldReason := SubFloor | WarmDeep | AwaitCold | AwaitModelSwitch | RefHot.
#[export] Instance HoldReason_eq_dec : EqDecision HoldReason.
Proof. solve_decision. Defined.

Inductive FreeBustTrigger := Trigger_Cold | Trigger_ModelSwitch | Trigger_NativeCompaction.
#[export] Instance FreeBustTrigger_eq_dec : EqDecision FreeBustTrigger.
Proof. solve_decision. Defined.

Record PromptState := mkPromptState {
  prompt_segments : list Segment;
  prompt_window : TokenCount;
  prompt_max_output : TokenCount;
  free_bust : option FreeBustTrigger;
}.

Record Status := mkStatus {
  cold : bool;
  sub_floor : bool;
  warm_clears : bool;
  free_bust_imminent : bool;
}.

Inductive SquashDecision :=
| Flush (batch : SquashBatch) (breakpoint_plan : BreakpointPlan)
    (predicted_bust predicted_saving : Cost)
| Hold (reason : HoldReason)
| RideFreeBust (batch : SquashBatch) (trigger : FreeBustTrigger).

Record Controller := mkController {
  ctl_econ : ModelEconomics;
  ctl_cache : CacheState;
  ctl_remaining_turns : f64;
  ctl_npv_floor : f64;
  ctl_policy : PolicyConfig;
  ctl_token_scale : TokenScale;
}.

Definition post_squash_below_floor (self : Controller) (prompt : PromptState) (pending : SquashBatch) : bool :=
  let prefix := i64_sum ((fun s => TokenScale_apply (ctl_token_scale self) (token_estimate s))
                           <$> prompt_segments prompt) in
  i64_wrap (prefix - total_removed pending) <? min_cache_floor (ctl_econ self).

(** [None] is the index panic inside [plan_breakpoints]. *)
Definition decide_squash (self : Controller) (prompt : PromptState) (pending : SquashBatch) (now : f64)
    : option SquashDecision :=
  if is_empty (candidates pending) then Some (Hold WarmDeep)
  else
    let status := mkStatus
      (is_cold (ctl_cache self) now)
      (post_squash_below_floor self prompt pending)
      (f64_ltb (ctl_npv_floor self)
         (npv pending (ctl_cache self) (ctl_econ self) (ctl_remaining_turns self) now))
      (match free_bust prompt with Some _ => true | None => false end) in
    match status, free_bust prompt with
    | mkStatus _ true _ _, _ => Some (Hold SubFloor)
    | mkStatus true _ _ _, _ => Some (RideFreeBust pending Trigger_Cold)
    | mkStatus _ _ _ true, Some trigger => Some (RideFreeBust pending trigger)
    | mkStatus _ _ true _, _ =>
        plan ← plan_breakpoints (prompt_segments prompt) (min_cache_floor (ctl_econ self)) (ctl_policy self);
        Some (Flush pending plan
                (bust_cost pending (ctl_cache self) (ctl_econ self) now)
                (recurring_saving pending (ctl_econ self) (ctl_remaining_turns self)))
    | _, _ => Some (Hold WarmDeep)
    end.

(** ** Properties *)

(** The decision table: rules in priority order. *)
Lemma decide_squash_cases self prompt pending now :
  candidates pending <> [] ->
  decide_squash self prompt pending now =
    if post_squash_below_floor self prompt pending then Some (Hold SubFloor)
    else if is_cold (ctl_cache self) now then Some (RideFreeBust pending Trigger_Cold)
    else match free_bust prompt with
         | Some trigger => Some (RideFreeBust pending trigger)
         | None =>
             if f64_ltb (ctl_npv_floor self)
                  (npv pending (ctl_cache self) (ctl_econ self) (ctl_remaining_turns self) now)
             then
               plan ← plan_breakpoints (prompt_segments prompt) (min_cache_floor (ctl_econ self)) (ctl_policy self);
               Some (Flush pending plan (bust_cost pending (ctl_cache self) (ctl_econ self) now)
                       (recurring_saving pending (ctl_econ self) (ctl_remaining_turns self)))
             else Some (Hold WarmDeep)
         end.
Proof.
  intros N. unfold decide_squash. destruct (candidates pending) eqn:E; [done|]. cbn [is_empty].
  set (w := f64_ltb _ _). clearbody w.
  destruct (is_cold _ _), (post_squash_below_floor _ _ _), (free_bust prompt), w; done.
Qed.

(** C13. The controller never pays for nothing and never disengages the cache:
    on positional segments it always decides; whatever it releases ([Flush] or
    [RideFreeBust]) is the pending batch itself, non-empty, with the calibrated
    post-squash prefix at or above the model's cache floor; a free bust is
    ridden only when the cache is cold or one is imminent, and a paid [Flush]
    happens only on a warm cache with no free bust in sight and an NPV above
    the floor, with a plan of at most [cache_hint_cap] breakpoints. *)
Theorem decide_squash_sound (self : Controller) (prompt : PromptState) (pending : SquashBatch) (now : f64) :
  (forall k s, prompt_segments prompt !! k = Some s -> seg_index s = k) ->
  exists d, decide_squash self prompt pending now = Some d /\
    match d with
    | Hold r => r = SubFloor \/ r = WarmDeep
    | RideFreeBust batch trigger =>
        batch = pending /\ candidates pending <> [] /\
        post_squash_below_floor self prompt pending = false /\
        ((trigger = Trigger_Cold /\ is_cold (ctl_cache self) now = true) \/
         (is_cold (ctl_cache self) now = false /\ free_bust prompt = Some trigger))
    | Flush batch plan bust saving =>
        batch = pending /\ candidates pending <> [] /\
        post_squash_below_floor self prompt pending = false /\
        is_cold (ctl_cache self) now = false /\ free_bust prompt = None /\
        f64_ltb (ctl_npv_floor self)
          (npv pending (ctl_cache self) (ctl_econ self) (ctl_remaining_turns self) now) = true /\
        (length (positions plan) <= cache_hint_cap (ctl_policy self))%nat /\
        bust = bust_cost pending (ctl_cache self) (ctl_econ self) now
    end.
Proof.
  intros Hidx. destruct (candidates pending) eqn:E.
  { exists (Hold WarmDeep). split; [|by right]. unfold decide_squash. by rewrite E. }
  rewrite decide_squash_cases by congruence.
  destruct (post_squash_below_floor _ _ _); [eexists; split; [done|]; by left|].
  destruct (is_cold _ _); [eexists; split; [done|]; by split_and!; auto|].
  destruct (free_bust prompt); [eexists; split; [done|]; by split_and!; auto|].
  destruct (f64_ltb _ _); [|eexists; split; [done|]; by right].
  destruct (plan_breakpoints_total (prompt_segments prompt) (min_cache_floor (ctl_econ self)) (ctl_policy self) Hidx)
    as (plan & -> & L). eexists. split; [done|]. by split_and!.
Qed.

Definition sample_segments : list Segment :=
  (fun k => mkSegment k ToolPair 0 2000 1 false false false []) <$> seq 0 6.
Definition sample_prompt : PromptState := mkPromptState sample_segments 200000 8192 None.
Definition sample_pending : SquashBatch :=
  mkSquashBatch [mkSquashCandidate 0 4000 1500 (f64_of_Z 1) (RefId_mk []) Keep].
Definition sample_controller : Controller :=
  mkController opus test_cache (f64_of_Z 4) f64_zero PolicyConfig_default TokenScale_default.

Lemma decide_squash_sound_witness :
  exists d, decide_squash sample_controller sample_prompt sample_pending (f64_of_Z 1100) = Some d /\
    match d with Flush batch plan _ _ => batch = sample_pending /\ positions plan = [0; 1; 2]%nat | _ => False end.
Proof.
  destruct (decide_squash_sound sample_controller sample_prompt sample_pending (f64_of_Z 1100)) as (d & E & D).
  - intros k s. cbn [sample_prompt prompt_segments]. unfold sample_segments. rewrite list_lookup_fmap.
    intros (j & Hj & ->)%fmap_Some. by apply lookup_seq in Hj as [-> _].
  - exists d. split; [exact E|]. vm_compute in E. injection E as <-. split; [exact (proj1 D) | reflexivity].
Defined.
