(* ===== verification/Text.v ===== *)
(** * The pure text transforms

    Models the string functions behind the deterministic passes
    ([crates/ccs-policy/src/pipeline/passes]): [strip_ansi] ([ansi_strip.rs]),
    [normalize_ws] ([whitespace.rs]), [kept_ranges] and [head_tail]
    ([head_tail.rs]), [longest_blob] and [extract_blob] ([blob_extract.rs]).
    Offsets into a string are character offsets here; the sources slice at
    ASCII characters, where the byte and character views cut the same text. *)
From S2P Require Import Prelude RStr Core.

Local Open Scope Z_scope.

(** ** [strip_ansi] *)

Definition ESC : char := 27.
Definition TAB : char := 9.

(** Skip a CSI body through its final byte. *)
Fixpoint skip_csi (s : rstr) : rstr :=
  match s with
  | [] => []
  | c :: s => if in_range 64 126 c then s else skip_csi s
  end.

(** The characters left after an escape sequence whose ESC was consumed. *)
Definition skip_escape (s : rstr) : rstr :=
  match s with
  | [] => []
  | c :: s => if c =? 91 then skip_csi s else s
  end.

Fixpoint strip_ansi_loop (fuel : nat) (s : rstr) : rstr :=
  match fuel, s with
  | O, _ | _, [] => []
  | S fuel, c :: s =>
      if c =? ESC then strip_ansi_loop fuel (skip_escape s)
      else if c =? CR then strip_ansi_loop fuel s
      else if (c =? LF) || (c =? TAB) then c :: strip_ansi_loop fuel s
      else if is_control c then strip_ansi_loop fuel s
      else c :: strip_ansi_loop fuel s
  end.

Definition strip_ansi (input : rstr) : rstr := strip_ansi_loop (length input) input.

(** A character the pass keeps. *)
Definition is_printable (c : char) : bool := (c =? LF) || (c =? TAB) || negb (is_control c).

(** ** [normalize_ws] *)

(** The trimmed lines that survive, given the blank run so far. *)
Fixpoint keep_lines (blank_run : Z) (ls : list rstr) : list rstr :=
  match ls with
  | [] => []
  | line :: ls =>
      let trimmed := trim_end line in
      let blank_run := match trimmed with [] => u32_add blank_run 1 | _ => 0 end in
      if 1 <? blank_run then keep_lines blank_run ls
      else trimmed :: keep_lines blank_run ls
  end.

Definition with_newlines (ls : list rstr) : rstr := concat ((fun l => l ++ [LF]) <$> ls).

Definition trim_end_newlines (s : rstr) : rstr := trim_end_by (fun c => c =? LF) s.

Definition normalize_ws (input : rstr) : rstr :=
  let out := with_newlines (keep_lines 0 (lines (replace_char CR [LF] (replace_crlf input)))) in
  if ends_with [LF] input then out else trim_end_newlines out.

(** ** [head_tail] *)

Definition HEAD_LINES : nat := 40.
Definition TAIL_LINES : nat := 20.

Definition kept_ranges (total : nat) : option (list LineRange) :=
  if (HEAD_LINES + TAIL_LINES <? total)%nat then
    Some [mkLineRange 1 HEAD_LINES; mkLineRange (total - TAIL_LINES + 1) total]
  else None.

Definition elision_marker (elided : nat) : rstr := str "[… " ++ dec_of_nat elided ++ str " lines elided …]".

Definition head_tail (input : rstr) : option rstr :=
  let ls := lines input in
  let total := length ls in
  if (total <=? HEAD_LINES + TAIL_LINES)%nat then None
  else
    let elided := (total - HEAD_LINES - TAIL_LINES)%nat in
    Some (join [LF] (take HEAD_LINES ls) ++ [LF] ++ elision_marker elided ++ [LF]
          ++ join [LF] (drop (total - TAIL_LINES) ls)).

(** ** [extract_blob] *)

Definition MIN_BLOB_CHARS : nat := 512.

Definition is_b64 (c : char) : bool :=
  is_ascii_alphanumeric c || (c =? 43) || (c =? 47) || (c =? 45) || (c =? 95) || (c =? 61).

Definition wider (best : option (nat * nat)) (run : nat * nat) : option (nat * nat) :=
  match best with
  | Some (s, e) => if (run.2 - run.1 <=? e - s)%nat then Some (s, e) else Some run
  | None => Some run
  end.

(** The scan; [run_start] is [Some] while inside a run. *)
Fixpoint scan_blob (i : nat) (s : rstr) (run_start : option nat) (best : option (nat * nat))
    : option (nat * nat) :=
  match s with
  | [] => match run_start with Some st => wider best (st, i) | None => best end
  | c :: s =>
      if is_b64 c then
        scan_blob (S i) s (match run_start with None => Some i | some => some end) best
      else
        match run_start with
        | Some st => scan_blob (S i) s None (wider best (st, i))
        | None => scan_blob (S i) s None best
        end
  end.

Definition longest_blob (input : rstr) : option (nat * nat) :=
  match scan_blob 0 input None None with
  | Some (s, e) => if (MIN_BLOB_CHARS <=? e - s)%nat then Some (s, e) else None
  | None => None
  end.

Definition blob_marker (n : nat) : rstr := str "[base64 blob · " ++ dec_of_nat n ++ str " bytes elided]".

Definition extract_blob (input : rstr) : option rstr :=
  '(start, end_) ← longest_blob input;
  Some (take start input ++ blob_marker (end_ - start) ++ drop end_ input).

Example strip_ansi_examples :
  strip_ansi (ESC :: str "[31mred" ++ ESC :: str "[0m" ++ [CR; LF; TAB] ++ str "x") = str "red" ++ [LF; TAB] ++ str "x" /\
  strip_ansi (str "a" ++ [7; ESC]) = str "a" /\ strip_ansi (ESC :: str "[12") = [].
Proof. by_compute. Qed.

Example normalize_ws_examples :
  normalize_ws (str "a  " ++ [CR; LF; LF; LF; LF] ++ str "b" ++ [LF]) = str "a" ++ [LF; LF] ++ str "b" ++ [LF] /\
  normalize_ws (str "a" ++ [LF; LF; 32]) = str "a" /\ normalize_ws [LF; LF] = [LF].
Proof. by_compute. Qed.

(** ** [strip_ansi]: what is kept *)

Lemma skip_csi_suffix s : exists p, s = p ++ skip_csi s.
Proof.
  induction s as [|c s [p IH]]; [by exists []|]. cbn [skip_csi]. destruct (in_range 64 126 c).
  - by exists [c].
  - exists (c :: p). cbn. by rewrite <- IH.
Qed.

Lemma skip_escape_suffix s : exists p, s = p ++ skip_escape s.
Proof.
  destruct s as [|c s]; [by exists []|]. cbn [skip_escape]. destruct (c =? 91); [|by exists [c]].
  destruct (skip_csi_suffix s) as [p Hp]. exists (c :: p). cbn. by rewrite <- Hp.
Qed.

Lemma strip_ansi_loop_facts fuel : forall s,
  (length s <= fuel)%nat ->
  sublist (strip_ansi_loop fuel s) s /\ Forall (fun c => is_printable c = true) (strip_ansi_loop fuel s) /\
  (Forall (fun c => is_printable c = true) s -> strip_ansi_loop fuel s = s).
Proof.
  induction fuel as [|fuel IH]; intros s Hf.
  { destruct s; [|cbn in Hf; lia]. by repeat constructor. }
  destruct s as [|c s]; cbn [strip_ansi_loop]; [by repeat constructor|]. cbn in Hf.
  destruct (IH s) as (S1 & F1 & E1); [lia|].
  assert (Skip : is_printable c = false ->
    sublist (strip_ansi_loop fuel s) (c :: s) /\
    Forall (fun c => is_printable c = true) (strip_ansi_loop fuel s) /\
    (Forall (fun c => is_printable c = true) (c :: s) -> strip_ansi_loop fuel s = c :: s)).
  { intros P. split_and!; [by constructor | done | intros [Q _]%Forall_cons; congruence]. }
  assert (Take : is_printable c = true ->
    sublist (c :: strip_ansi_loop fuel s) (c :: s) /\
    Forall (fun c => is_printable c = true) (c :: strip_ansi_loop fuel s) /\
    (Forall (fun c => is_printable c = true) (c :: s) -> c :: strip_ansi_loop fuel s = c :: s)).
  { intros P. split_and!; [by constructor | by constructor | intros [_ Q]%Forall_cons; f_equal; auto]. }
  destruct (Z.eqb_spec c ESC) as [->|N1].
  - destruct (skip_escape_suffix s) as [p Hp].
    destruct (IH (skip_escape s)) as (S2 & F2 & _).
    { apply (f_equal length) in Hp. rewrite length_app in Hp. lia. }
    split_and!; [|done|by intros [Q _]%Forall_cons].
    apply sublist_cons. rewrite Hp at 2. by apply sublist_inserts_l.
  - destruct (Z.eqb_spec c CR) as [->|N2]; [by apply Skip|].
    unfold is_printable in Skip, Take. destruct ((c =? LF) || (c =? TAB)); [by apply Take|].
    destruct (is_control c); [by apply Skip | by apply Take].
Qed.

Lemma strip_ansi_sublist s : sublist (strip_ansi s) s.
Proof. by apply (strip_ansi_loop_facts (length s)). Qed.

Lemma strip_ansi_printable s : Forall (fun c => is_printable c = true) (strip_ansi s).
Proof. by apply (strip_ansi_loop_facts (length s)). Qed.

Lemma strip_ansi_id s : Forall (fun c => is_printable c = true) s -> strip_ansi s = s.
Proof. by apply (strip_ansi_loop_facts (length s)). Qed.

Lemma str_len_sublist s t : sublist s t -> str_len s <= str_len t.
Proof.
  induction 1 as [|c s t S IH|c s t S IH]; [done|..]; unfold str_len in *;
    rewrite ?fmap_cons, ?sumZ_cons; pose proof (utf8_len_pos c); lia.
Qed.

(** A sublist of the same size is the whole list: a filter that does not shrink
    is the identity. *)
Lemma sublist_str_len_eq s t : sublist s t -> str_len t <= str_len s -> s = t.
Proof.
  induction 1 as [|c s t S IH|c s t S IH]; [done|..]; unfold str_len in *;
    rewrite ?fmap_cons, ?sumZ_cons; intros L; pose proof (utf8_len_pos c).
  - f_equal. apply IH. lia.
  - pose proof (str_len_sublist _ _ S). unfold str_len in *. lia.
Qed.

(** ** [normalize_ws]: lines, trimming and blank runs *)

Lemma strip_suffix_Some p s t : strip_suffix p s = Some t <-> s = t ++ p.
Proof.
  unfold strip_suffix. rewrite fmap_Some. split.
  - intros (r & Hr & ->). apply strip_prefix_Some in Hr.
    apply (f_equal reverse) in Hr. by rewrite reverse_app, !reverse_involutive in Hr.
  - intros ->. exists (reverse t). split; [|by rewrite reverse_involutive].
    apply strip_prefix_Some. by rewrite reverse_app.
Qed.

Lemma ends_with_spec p s : ends_with p s = true <-> exists t, s = t ++ p.
Proof.
  unfold ends_with. destruct (strip_suffix p s) as [t|] eqn:E.
  - apply strip_suffix_Some in E. split; eauto.
  - split; [done|]. intros [t Ht]. apply strip_suffix_Some in Ht. congruence.
Qed.

Lemma trim_start_by_suffix f s : exists p, s = p ++ trim_start_by f s /\ Forall (fun c => f c = true) p.
Proof.
  induction s as [|c s (p & Hp & F)]; [by exists []|]. cbn [trim_start_by]. destruct (f c) eqn:E.
  - exists (c :: p). split; [cbn; by rewrite <- Hp | by constructor].
  - by exists [].
Qed.

Lemma trim_end_by_prefix f s : exists p, s = trim_end_by f s ++ p /\ Forall (fun c => f c = true) p.
Proof.
  unfold trim_end_by. destruct (trim_start_by_suffix f (reverse s)) as (p & Hp & F).
  exists (reverse p). split; [|by apply Forall_reverse].
  rewrite <- reverse_app, <- Hp. by rewrite reverse_involutive.
Qed.

Lemma trim_end_by_snoc f s c :
  trim_end_by f (s ++ [c]) = if f c then trim_end_by f s else s ++ [c].
Proof.
  unfold trim_end_by. rewrite reverse_snoc. cbn [trim_start_by]. destruct (f c); [done|].
  by rewrite reverse_cons, reverse_involutive.
Qed.

Lemma trim_end_by_idemp f s : trim_end_by f (trim_end_by f s) = trim_end_by f s.
Proof.
  induction s as [|c s IH] using rev_ind; [done|]. rewrite trim_end_by_snoc.
  destruct (f c) eqn:E; [done|]. by rewrite trim_end_by_snoc, E.
Qed.

(** A line: no terminator inside. *)
Definition is_line (l : rstr) : Prop := LF ∉ l /\ CR ∉ l.

Lemma trim_end_line l : is_line l -> is_line (trim_end l).
Proof.
  unfold is_line, trim_end. destruct (trim_end_by_prefix is_whitespace l) as (p & Hp & _).
  rewrite Hp at 1 2. rewrite !not_elem_of_app. tauto.
Qed.

Lemma split_inclusive_line c l s : c ∉ l -> split_inclusive c (l ++ c :: s) = (l ++ [c]) :: split_inclusive c s.
Proof.
  induction l as [|d l IH]; intros N; cbn [app split_inclusive]; [by rewrite Z.eqb_refl|].
  apply not_elem_of_cons in N as [Nd N]. rewrite (proj2 (Z.eqb_neq d c)) by done. by rewrite IH.
Qed.

Lemma split_inclusive_last c l : c ∉ l -> l <> [] -> split_inclusive c l = [l].
Proof.
  induction l as [|d l IH]; intros N Nl; [done|]. cbn [split_inclusive].
  apply not_elem_of_cons in N as [Nd N]. rewrite (proj2 (Z.eqb_neq d c)) by done.
  destruct l as [|e l]; [done|]. by rewrite IH.
Qed.

Lemma line_of_terminated l : CR ∉ l -> line_of (l ++ [LF]) = l.
Proof.
  intros N. unfold line_of. rewrite (proj2 (strip_suffix_Some [LF] _ l) eq_refl).
  destruct (strip_suffix [CR] l) as [t|] eqn:E; [|done]. apply strip_suffix_Some in E.
  exfalso. apply N. rewrite E. set_solver.
Qed.

Lemma line_of_last l : LF ∉ l -> line_of l = l.
Proof.
  intros N. unfold line_of. destruct (strip_suffix [LF] l) as [t|] eqn:E; [|done].
  apply strip_suffix_Some in E. exfalso. apply N. rewrite E. set_solver.
Qed.

(** [lines] undoes [with_newlines], with or without a last partial line. *)
Lemma lines_with_newlines ls l :
  Forall is_line ls -> is_line l ->
  lines (with_newlines ls ++ l) = ls ++ (match l with [] => [] | _ => [l] end).
Proof.
  intros F [Nl Cl]. unfold lines. induction F as [|x ls [Nx Cx] _ IH].
  - cbn. destruct l as [|c l']; [done|]. rewrite split_inclusive_last by done.
    cbn [fmap list_fmap]. by rewrite line_of_last.
  - unfold with_newlines. rewrite fmap_cons. cbn [concat]. fold (with_newlines ls).
    rewrite <- !app_assoc. cbn [app]. rewrite split_inclusive_line by done. cbn [fmap list_fmap].
    rewrite line_of_terminated by done. cbn [app]. f_equal. exact IH.
Qed.

Lemma split_lines s : CR ∉ s ->
  exists ls l, s = with_newlines ls ++ l /\ Forall is_line ls /\ is_line l.
Proof.
  induction s as [|c s IH]; intros N; [by exists [], []; repeat split; set_solver|].
  apply not_elem_of_cons in N as [Nc N]. destruct (IH N) as (ls & l & -> & F & L).
  destruct (Z.eq_dec c LF) as [->|Nl].
  - exists ([] :: ls), l. split; [done|]. split; [|done]. constructor; [|done]. split; set_solver.
  - destruct F as [|x ls X F].
    + exists [], (c :: l). split; [done|]. split; [constructor|]. unfold is_line in *. set_solver.
    + exists ((c :: x) :: ls), l. split; [done|]. split; [|done]. constructor; [|done].
      unfold is_line in *. set_solver.
Qed.

Lemma with_newlines_snoc ls l : with_newlines (ls ++ [l]) = with_newlines ls ++ l ++ [LF].
Proof. unfold with_newlines. rewrite fmap_app, concat_app. cbn. by rewrite app_nil_r. Qed.

Lemma with_newlines_cons l ls : with_newlines (l :: ls) = l ++ LF :: with_newlines ls.
Proof. unfold with_newlines. cbn. by rewrite <- app_assoc. Qed.

Lemma ends_with_newlines ls l :
  LF ∉ l -> ends_with [LF] (with_newlines ls ++ l) = match l, ls with [], _ :: _ => true | _, _ => false end.
Proof.
  intros N. apply eq_true_iff_eq. rewrite ends_with_spec. split.
  - intros [t Ht]. destruct l as [|c l] using rev_ind.
    + rewrite app_nil_r in Ht. destruct ls; [by destruct t | done].
    + rewrite app_assoc in Ht. apply app_inj_tail in Ht as [_ ->]. set_solver.
  - destruct l; [|done]. destruct ls as [|x ls _] using rev_ind; [done|]. intros _.
    exists (with_newlines ls ++ x). rewrite app_nil_r, with_newlines_snoc. by rewrite app_assoc.
Qed.

(** The surviving lines without the counter: [b] says whether the previous line
    was blank.  It agrees with [keep_lines] below [2^32] lines. *)
Fixpoint collapse (b : bool) (ls : list rstr) : list rstr :=
  match ls with
  | [] => []
  | line :: ls =>
      match trim_end line with
      | [] => if b then collapse true ls else [] :: collapse true ls
      | t => t :: collapse false ls
      end
  end.

Lemma keep_lines_collapse ls : forall r,
  0 <= r -> r + Z.of_nat (length ls) < 2 ^ 32 -> keep_lines r ls = collapse (1 <=? r) ls.
Proof.
  induction ls as [|l ls IH]; intros r H0 H; [done|]. cbn [keep_lines collapse length] in *.
  destruct (trim_end l) as [|c t].
  - unfold u32_add. rewrite u32_wrap_id by (unfold is_u32; lia).
    destruct (Z.leb_spec 1 r) as [R|R].
    + rewrite (proj2 (Z.ltb_lt 1 (r + 1))) by lia. rewrite IH by lia.
      by rewrite (proj2 (Z.leb_le 1 (r + 1))) by lia.
    + rewrite (proj2 (Z.ltb_ge 1 (r + 1))) by lia. rewrite IH by lia.
      by rewrite (proj2 (Z.leb_le 1 (r + 1))) by lia.
  - change (1 <? 0) with false. cbn. rewrite IH by lia. done.
Qed.

Lemma collapse_length b ls : (length (collapse b ls) <= length ls)%nat.
Proof.
  revert b. induction ls as [|l ls IH]; intros b; [done|]. cbn [collapse].
  destruct (trim_end l); [destruct b|]; cbn; specialize (IH true) as I1; specialize (IH false) as I2; lia.
Qed.

Lemma collapse_lines b ls : Forall is_line ls -> Forall is_line (collapse b ls).
Proof.
  intros F. revert b. induction F as [|l ls L F IH]; intros b; [constructor|]. cbn [collapse].
  pose proof (trim_end_line l L) as T. destruct (trim_end l) as [|c t]; [destruct b|]; try constructor; auto.
Qed.

Lemma collapse_idemp b ls : collapse b (collapse b ls) = collapse b ls.
Proof.
  revert b. induction ls as [|l ls IH]; intros b; [done|]. cbn [collapse].
  destruct (trim_end l) as [|c t] eqn:E.
  - destruct b; [apply IH|]. cbn [collapse]. by rewrite IH.
  - cbn [collapse]. rewrite <- E. unfold trim_end. rewrite trim_end_by_idemp. fold (trim_end l).
    by rewrite E, IH.
Qed.

(** A prefix of a collapsed list is collapsed. *)
Lemma collapse_prefix b l1 l2 : collapse b (l1 ++ l2) = l1 ++ l2 -> collapse b l1 = l1.
Proof.
  revert b. induction l1 as [|l l1 IH]; intros b; [done|]. cbn [app collapse].
  destruct (trim_end l) as [|c t] eqn:E.
  - destruct b.
    + intros H. pose proof (collapse_length true (l1 ++ l2)) as L. rewrite H in L. cbn in L. lia.
    + intros H. injection H as <- H. by rewrite (IH true H).
  - intros H. injection H as <- H. by rewrite (IH false H).
Qed.

Lemma collapse_sublist b ls : sublist (with_newlines (collapse b ls)) (with_newlines ls).
Proof.
  revert b. induction ls as [|l ls IH]; intros b; [constructor|]. cbn [collapse].
  destruct (trim_end_by_prefix is_whitespace l) as (p & Hp & _). fold (trim_end l) in Hp.
  rewrite (with_newlines_cons l ls). destruct (trim_end l) as [|c t] eqn:E.
  - destruct b.
    + apply sublist_inserts_l, sublist_cons, IH.
    + rewrite with_newlines_cons. cbn. apply sublist_inserts_l, sublist_skip, IH.
  - rewrite with_newlines_cons, Hp, <- app_assoc. apply sublist_app; [done|].
    apply sublist_inserts_l, sublist_skip, IH.
Qed.

(** Trimming the newlines of whole lines drops the blank ones at the end. *)
Lemma trim_newlines_lines ls :
  Forall is_line ls ->
  (trim_end_newlines (with_newlines ls) = [] /\ Forall (eq []) ls) \/
  exists k l r, ls = k ++ [l] ++ r /\ l <> [] /\ Forall (eq []) r /\
    trim_end_newlines (with_newlines ls) = with_newlines k ++ l.
Proof.
  induction ls as [|l ls IH] using rev_ind; intros F; [left; by split|].
  apply Forall_app in F as [F [L _]%Forall_cons].
  assert (E : trim_end_newlines (with_newlines (ls ++ [l])) = trim_end_newlines (with_newlines ls ++ l)).
  { rewrite with_newlines_snoc, app_assoc. unfold trim_end_newlines. by rewrite trim_end_by_snoc. }
  destruct l as [|c l0 _] using rev_ind.
  - rewrite E, app_nil_r. destruct (IH F) as [[-> B]|(k & l & r & -> & Nl & R & ->)].
    + left. split; [done|]. apply Forall_app. split; [done | by constructor].
    + right. exists k, l, (r ++ [[]]). split; [by rewrite <- !app_assoc|]. split; [done|].
      split; [apply Forall_app; split; [done | by constructor] | done].
  - right. exists ls, (l0 ++ [c]), []. split; [done|]. split; [by destruct l0|]. split; [constructor|].
    rewrite E, app_assoc. unfold trim_end_newlines. rewrite trim_end_by_snoc.
    rewrite (proj2 (Z.eqb_neq c LF)); [done|]. destruct L as [NL _]. set_solver.
Qed.

(** End-of-line normalisation leaves no CR, and does nothing without one. *)
Lemma replace_crlf_id s : CR ∉ s -> replace_crlf s = s.
Proof.
  induction s as [|c s IH]; intros N; [done|]. apply not_elem_of_cons in N as [Nc N].
  cbn [replace_crlf]. destruct s as [|d s]; [done|].
  rewrite (proj2 (Z.eqb_neq c CR)) by done. cbn [andb]. by rewrite IH.
Qed.

Lemma replace_char_CR s : CR ∉ replace_char CR [LF] s.
Proof.
  unfold replace_char. intros H. apply list_elem_of_bind in H as (c & H & _).
  destruct (Z.eqb_spec c CR); [|set_solver]. apply list_elem_of_singleton in H. discriminate.
Qed.

Lemma replace_char_id s : CR ∉ s -> replace_char CR [LF] s = s.
Proof.
  induction s as [|c s IH]; intros N; [done|]. apply not_elem_of_cons in N as [Nc N].
  unfold replace_char in *. cbn. rewrite (proj2 (Z.eqb_neq c CR)) by done. by rewrite IH.
Qed.

Lemma normalize_ws_no_CR s :
  CR ∉ s ->
  normalize_ws s =
    (if ends_with [LF] s then with_newlines (keep_lines 0 (lines s))
     else trim_end_newlines (with_newlines (keep_lines 0 (lines s)))).
Proof. intros N. unfold normalize_ws. by rewrite replace_crlf_id, replace_char_id. Qed.

Lemma replace_crlf_cons c d s :
  replace_crlf (c :: d :: s) =
    (if (c =? CR) && (d =? LF) then LF :: replace_crlf s else c :: replace_crlf (d :: s)).
Proof. done. Qed.

Lemma replace_crlf_length n : forall s, (length s <= n)%nat -> (length (replace_crlf s) <= length s)%nat.
Proof.
  induction n as [|n IH]; intros s H; destruct s as [|c [|d s]]; try done; [cbn in H; lia|].
  rewrite replace_crlf_cons. cbn [length] in H. destruct ((c =? CR) && (d =? LF)); cbn [length].
  - specialize (IH s). lia.
  - specialize (IH (d :: s)). cbn [length] in IH. lia.
Qed.

Lemma replace_char_length s : length (replace_char CR [LF] s) = length s.
Proof.
  unfold replace_char. induction s as [|c s IH]; [done|]. cbn. rewrite length_app, IH.
  by destruct (c =? CR).
Qed.

Lemma lines_length s : (length (lines s) <= length s)%nat.
Proof.
  unfold lines. rewrite length_fmap. induction s as [|c s IH]; [done|]. cbn [split_inclusive].
  destruct (c =? LF); [cbn; lia|]. destruct (split_inclusive LF s); cbn in *; lia.
Qed.

(** The text after end-of-line normalisation, and the normal form of it. *)
Definition eol (s : rstr) : rstr := replace_char CR [LF] (replace_crlf s).

Lemma eol_lines_bound s : chars_count s < 2 ^ 32 -> 0 + Z.of_nat (length (lines (eol s))) < 2 ^ 32.
Proof.
  unfold chars_count, eol. intros H. pose proof (lines_length (replace_char CR [LF] (replace_crlf s))) as L.
  rewrite replace_char_length in L. pose proof (replace_crlf_length _ s (le_n _)). lia.
Qed.

Lemma eol_nonempty s : s <> [] -> eol s <> [].
Proof.
  unfold eol. intros N E. apply (f_equal length) in E. rewrite replace_char_length in E.
  destruct s as [|c [|d s]]; [done..|]. rewrite replace_crlf_cons in E.
  by destruct ((c =? CR) && (d =? LF)).
Qed.

Lemma collapse_nonempty ls : ls <> [] -> collapse false ls <> [].
Proof. destruct ls as [|l ls]; [done|]. intros _. cbn [collapse]. by destruct (trim_end l). Qed.

(** The output always decomposes into collapsed lines. *)
Lemma normalize_ws_form s :
  chars_count s < 2 ^ 32 ->
  exists ls, Forall is_line ls /\ collapse false ls = ls /\ (length ls <= length s)%nat /\
    ((ends_with [LF] s = true /\ ls <> [] /\ normalize_ws s = with_newlines ls) \/
     (ends_with [LF] s = false /\
      ((normalize_ws s = [] /\ ls = []) \/
       exists k l, ls = k ++ [l] /\ l <> [] /\ normalize_ws s = with_newlines k ++ l))).
Proof.
  intros H. destruct (split_lines (eol s)) as (xs & x & Ex & F & L); [apply replace_char_CR|].
  assert (Fl : Forall is_line (lines (eol s))).
  { rewrite Ex, lines_with_newlines by done. apply Forall_app. split; [done|].
    destruct x; [constructor | by constructor]. }
  unfold normalize_ws. fold (eol s). rewrite keep_lines_collapse by (done || by apply eol_lines_bound).
  change (1 <=? 0) with false. set (ks := collapse false (lines (eol s))).
  assert (Fk : Forall is_line ks) by by apply collapse_lines.
  assert (Ik : collapse false ks = ks) by apply collapse_idemp.
  assert (Bk : (length ks <= length s)%nat).
  { pose proof (collapse_length false (lines (eol s))). pose proof (lines_length (eol s)) as Ll.
    unfold eol in Ll at 2. rewrite replace_char_length in Ll. pose proof (replace_crlf_length _ s (le_n _)).
    fold ks in H0. lia. }
  destruct (ends_with [LF] s) eqn:En; [exists ks; split_and!; auto; left; split_and!; try done|].
  { apply ends_with_spec in En as [t Et]. unfold ks. rewrite Ex, lines_with_newlines by done.
    apply collapse_nonempty. destruct xs as [|y xs]; [|done]. destruct x; [|done]. exfalso.
    apply (eol_nonempty s); [by rewrite Et; destruct t | by rewrite Ex]. }
  destruct (trim_newlines_lines ks Fk) as [[-> _]|(k & l & r & E & Nl & _ & ->)].
  - exists []. split_and!; [constructor | done | cbn; lia |]. right. split; [done|]. by left.
  - rewrite E, app_assoc in Ik. apply collapse_prefix in Ik. rewrite E, app_assoc in Fk.
    apply Forall_app in Fk as [Fk _]. rewrite E, app_assoc, length_app in Bk.
    exists (k ++ [l]). split_and!; try done; [lia|].
    right. split; [done|]. right. eauto.
Qed.

Lemma with_newlines_no_CR ls : Forall is_line ls -> CR ∉ with_newlines ls.
Proof.
  induction 1 as [|l ls [_ C] _ IH]; [cbn; set_solver|]. rewrite with_newlines_cons.
  rewrite not_elem_of_app, not_elem_of_cons. done.
Qed.

Lemma normalize_ws_lines ls l :
  Forall is_line ls -> is_line l -> collapse false (ls ++ match l with [] => [] | _ => [l] end) =
    ls ++ match l with [] => [] | _ => [l] end ->
  Z.of_nat (length ls) + 1 < 2 ^ 32 ->
  (l = [] -> ls <> []) ->
  normalize_ws (with_newlines ls ++ l) = with_newlines ls ++ l.
Proof.
  intros F [Nl Cl] C B D.
  rewrite normalize_ws_no_CR by (rewrite not_elem_of_app; split; [by apply with_newlines_no_CR | done]).
  rewrite lines_with_newlines, keep_lines_collapse by (done || (rewrite length_app; destruct l; cbn; lia)).
  change (1 <=? 0) with false. rewrite C, ends_with_newlines by done.
  destruct l as [|c l].
  - destruct ls; [by destruct D|]. by rewrite !app_nil_r.
  - destruct (trim_newlines_lines (ls ++ [c :: l])) as [[_ B']|(k & l' & r & E & Nl' & R & ->)].
    + apply Forall_app. split; [done|]. by repeat constructor.
    + apply Forall_app in B' as [_ [B' _]%Forall_cons]. done.
    + destruct r as [|y r _] using rev_ind.
      * rewrite app_nil_r in E. by apply app_inj_tail in E as [-> ->].
      * rewrite !app_assoc in E. apply app_inj_tail in E as [_ <-].
        apply Forall_app in R as [_ [R _]%Forall_cons]. done.
Qed.

Lemma normalize_ws_sublist s : CR ∉ s -> chars_count s < 2 ^ 32 -> sublist (normalize_ws s) s.
Proof.
  intros N H. destruct (split_lines s N) as (ls & l & E & F & L).
  assert (B : 0 + Z.of_nat (length (lines s)) < 2 ^ 32).
  { pose proof (lines_length s). unfold chars_count in H. lia. }
  rewrite normalize_ws_no_CR, keep_lines_collapse by done. change (1 <=? 0) with false.
  rewrite E, lines_with_newlines, ends_with_newlines by (done || apply L).
  set (ks := ls ++ _). pose proof (collapse_sublist false ks) as S.
  destruct l as [|c l].
  - unfold ks in *. rewrite app_nil_r in *. destruct ls; [change (sublist (A := char) [] []); done | by rewrite app_nil_r].
  - unfold ks in S at 2. rewrite with_newlines_snoc, app_assoc in S.
    destruct (collapse false ks) as [|o os _] using rev_ind; [apply sublist_nil_l|].
    rewrite with_newlines_snoc, app_assoc in S |- *. unfold trim_end_newlines.
    rewrite trim_end_by_snoc. change (LF =? LF) with true. cbv iota.
    apply sublist_app_inv_r in S. etransitivity; [|exact S].
    destruct (trim_end_by_prefix (fun c => c =? LF) (with_newlines os ++ o)) as (p & Hp & _).
    rewrite Hp at 2. by apply sublist_inserts_r.
Qed.

(** ** Properties *)

(** [strip_ansi] is a lossless filter of visible text: its output is a
    subsequence of the input, holds no control character but newline and tab
    (so no escape sequence), leaves clean text alone, and is idempotent. *)
Theorem strip_ansi_filter (s : rstr) :
  sublist (strip_ansi s) s /\
  (forall c, c ∈ strip_ansi s -> c = LF \/ c = TAB \/ is_control c = false) /\
  ((forall c, c ∈ s -> is_printable c = true) -> strip_ansi s = s) /\
  strip_ansi (strip_ansi s) = strip_ansi s.
Proof.
  pose proof (strip_ansi_printable s) as P. split; [apply strip_ansi_sublist|]. split; [|split].
  - intros c Hc. rewrite Forall_forall in P. specialize (P c Hc). unfold is_printable in P.
    apply orb_true_iff in P as [P|P]; [|right; right; by apply negb_true_iff].
    apply orb_true_iff in P as [P|P]; apply Z.eqb_eq in P; auto.
  - intros H. by apply strip_ansi_id, Forall_forall.
  - by apply strip_ansi_id.
Qed.

Lemma strip_ansi_filter_witness : strip_ansi (str "plain text") = str "plain text".
Proof.
  destruct (strip_ansi_filter (str "plain text")) as (_ & _ & H & _).
  apply H, Forall_forall. vm_compute. repeat constructor.
Defined.

(** Whitespace normalisation is idempotent below [2^32 - 1] characters: the
    result has no CR, every line is right-trimmed, no two blank lines follow
    each other, a trailing newline is there exactly when the input had one, and
    a second run changes nothing. *)
Theorem normalize_ws_normal_form (s : rstr) :
  chars_count s < 2 ^ 32 - 1 ->
  normalize_ws (normalize_ws s) = normalize_ws s /\ CR ∉ normalize_ws s /\
  ends_with [LF] (normalize_ws s) = ends_with [LF] s /\
  (forall l, l ∈ lines (normalize_ws s) -> trim_end l = l) /\
  (forall i, lines (normalize_ws s) !! i = Some [] -> lines (normalize_ws s) !! S i <> Some []).
Proof.
  intros H. destruct (normalize_ws_form s) as (ls & F & C & B & K); [lia|]. unfold chars_count in H.
  assert (Tr : forall l, l ∈ ls -> trim_end l = l).
  { clear -C. intros l. revert C. generalize false. induction ls as [|x ls IH]; intros b C Hl; [set_solver|].
    cbn [collapse] in C. destruct (trim_end x) as [|c t] eqn:E.
    - destruct b.
      + pose proof (collapse_length true ls) as Ln. rewrite C in Ln. cbn in Ln. lia.
      + injection C as <- C. apply elem_of_cons in Hl as [->|Hl]; [done | by eapply IH].
    - injection C as <- C. apply elem_of_cons in Hl as [->|Hl]; [done | by eapply IH]. }
  assert (Bl : forall i, ls !! i = Some [] -> ls !! S i <> Some []).
  { clear -C. revert C. generalize false. induction ls as [|x ls IH]; intros b C i Hi Hj; [done|].
    cbn [collapse] in C. assert (Hnil : trim_end [] = []) by done.
    destruct (trim_end x) as [|c t] eqn:E.
    - destruct b.
      + pose proof (collapse_length true ls) as Ln. rewrite C in Ln. cbn in Ln. lia.
      + injection C as <- C. destruct i as [|i]; [|by eapply IH].
        destruct ls as [|y ls]; [done|]. cbn in Hj. injection Hj as ->. cbn [collapse] in C.
        rewrite Hnil in C. pose proof (collapse_length true ls) as Ln. rewrite C in Ln. cbn in Ln. lia.
    - injection C as <- C. destruct i as [|i]; [done | by eapply IH]. }
  destruct K as [(E & Nl & ->)|(E & [[-> ->]|(k & l & -> & Nl & ->)])].
  - assert (L0 : is_line []) by (split; set_solver).
    assert (Ln : lines (with_newlines ls) = ls).
    { pose proof (lines_with_newlines ls [] F L0) as Ln. by rewrite !app_nil_r in Ln. }
    assert (Ne : normalize_ws (with_newlines ls) = with_newlines ls).
    { pose proof (normalize_ws_lines ls [] F L0) as Ne. rewrite !app_nil_r in Ne. apply Ne; [done | lia | done]. }
    assert (En : ends_with [LF] (with_newlines ls) = true).
    { pose proof (ends_with_newlines ls []) as En. rewrite app_nil_r in En. rewrite En by set_solver. by destruct ls. }
    rewrite Ln, En, E. split_and!; try done. by apply with_newlines_no_CR.
  - rewrite E. split_and!; try done; set_solver.
  - rewrite length_app in B. cbn in B. apply Forall_app in F as [F [L _]%Forall_cons].
    destruct l as [|c l]; [done|]. rewrite lines_with_newlines by done. split_and!; try done.
    + apply normalize_ws_lines; try done. lia.
    + rewrite not_elem_of_app. split; [by apply with_newlines_no_CR | apply L].
    + rewrite E, ends_with_newlines by apply L. done.
Qed.

Lemma normalize_ws_normal_form_witness :
  normalize_ws (normalize_ws (str "a  " ++ [CR; LF; LF; LF] ++ str "b")) =
  normalize_ws (str "a  " ++ [CR; LF; LF; LF] ++ str "b").
Proof. apply (normalize_ws_normal_form (str "a  " ++ [CR; LF; LF; LF] ++ str "b")). vm_compute. reflexivity. Defined.

(** ** [head_tail] *)

Lemma join_app sep l k : l <> [] -> k <> [] -> join sep (l ++ k) = join sep l ++ sep ++ join sep k.
Proof.
  induction l as [|x l IH]; intros Nl Nk; [done|]. destruct l as [|y l].
  - cbn [app join]. by destruct k.
  - change (join sep ((x :: y :: l) ++ k)) with (x ++ sep ++ join sep ((y :: l) ++ k)).
    change (join sep (x :: y :: l)) with (x ++ sep ++ join sep (y :: l)).
    rewrite IH by done. by rewrite <- !app_assoc.
Qed.

(** Head/tail truncation keeps exactly the ranges it names: a leaf of at
    most 60 lines is left alone; a longer one becomes its first 40 lines, one
    marker line with the exact number of elided lines, and its last 20 lines,
    joined by newlines, and [kept_ranges] are those two line spans (1-based,
    inclusive). *)
Theorem head_tail_spec (input : rstr) :
  match head_tail input with
  | None => (length (lines input) <= HEAD_LINES + TAIL_LINES)%nat /\ kept_ranges (length (lines input)) = None
  | Some out =>
      exists head mid tail, lines input = head ++ mid ++ tail /\
        length head = HEAD_LINES /\ length tail = TAIL_LINES /\ mid <> [] /\
        out = join [LF] (head ++ [elision_marker (length mid)] ++ tail) /\
        kept_ranges (length (lines input)) =
          Some [mkLineRange 1 (length head);
                mkLineRange (length head + length mid + 1) (length (lines input))]
  end.
Proof.
  unfold head_tail, kept_ranges. set (ls := lines input). set (n := length ls).
  destruct (Nat.leb_spec n (HEAD_LINES + TAIL_LINES)) as [L|L].
  { split; [done|]. by rewrite (proj2 (Nat.ltb_ge _ _) L). }
  rewrite (proj2 (Nat.ltb_lt _ _) L). unfold HEAD_LINES, TAIL_LINES in *.
  set (head := take 40 ls). set (tail := drop (n - 20) ls).
  set (mid := drop 40 (take (n - 20) ls)).
  assert (Lh : length head = 40%nat) by (unfold head; rewrite length_take; lia).
  assert (Lt : length tail = 20%nat) by (unfold tail; rewrite length_drop; lia).
  assert (Lm : length mid = (n - 40 - 20)%nat) by (unfold mid; rewrite length_drop, length_take; lia).
  exists head, mid, tail. split_and!; try done.
  - unfold head, mid, tail. rewrite app_assoc. rewrite <- (take_drop (n - 20) ls) at 1. f_equal.
    rewrite <- (take_drop 40 (take (n - 20) ls)) at 1. f_equal. rewrite take_take. f_equal. lia.
  - destruct mid; [cbn in Lm; lia | done].
  - rewrite Lm. rewrite !join_app; [done | done | destruct tail; [cbn in Lt; lia | done] |
      destruct head; [cbn in Lh; lia | done] | done].
  - rewrite Lh, Lm. do 4 f_equal. lia.
Qed.

(** ** [extract_blob] *)

(** Positions [a..b) of the input hold base64 characters. *)
Definition b64_run (input : rstr) (a b : nat) : Prop :=
  (a <= b <= length input)%nat /\
  forall k, (a <= k < b)%nat -> exists c, input !! k = Some c /\ is_b64 c = true.

Definition span_len (r : option (nat * nat)) : nat :=
  match r with Some (s, e) => e - s | None => 0 end.

Lemma wider_len best run : span_len (wider best run) = Nat.max (span_len best) (run.2 - run.1).
Proof.
  destruct best as [[s e]|], run as [a b]; cbn; [|done].
  destruct (Nat.leb_spec (b - a) (e - s)); cbn; lia.
Qed.

Lemma wider_elem best run : wider best run = best \/ wider best run = Some run.
Proof. destruct best as [[s e]|]; cbn; [|by right]. destruct (_ <=? _)%nat; auto. Qed.

Section Scan.
Context (input : rstr).

Definition scan_inv (i : nat) (run_start : option nat) (best : option (nat * nat)) : Prop :=
  match run_start with
  | Some st => b64_run input st i /\ forall a, b64_run input a i -> (st <= a)%nat
  | None => forall a, b64_run input a i -> a = i
  end /\
  (forall a b, b64_run input a b -> (b <= i)%nat ->
     (b - a <= Nat.max (span_len best) (match run_start with Some st => i - st | None => 0 end))%nat) /\
  (forall s e, best = Some (s, e) -> b64_run input s e).

Lemma b64_run_shrink a b c : b64_run input a b -> (a <= c <= b)%nat -> b64_run input a c.
Proof. intros [? H] ?. split; [lia|]. intros k Hk. apply H. lia. Qed.

Lemma scan_blob_spec rest : forall i run_start best,
  drop i input = rest -> (i <= length input)%nat -> scan_inv i run_start best ->
  let r := scan_blob i rest run_start best in
  (forall s e, r = Some (s, e) -> b64_run input s e) /\
  forall a b, b64_run input a b -> (b - a <= span_len r)%nat.
Proof.
  induction rest as [|c rest IH]; intros i rs best E Li (I1 & I2 & I3); cbn [scan_blob].
  - assert (i = length input) as -> by (apply (f_equal length) in E; rewrite length_drop in E; cbn in E; lia).
    destruct rs as [st|].
    + split.
      * intros s e Hw. destruct (wider_elem best (st, length input)) as [W|W]; rewrite W in Hw; simplify_eq; [by apply I3 | apply I1].
      * intros a b Hab. rewrite wider_len. apply I2; [done|]. apply Hab.
    + split; [exact I3|]. intros a b Hab. specialize (I2 a b Hab). rewrite Nat.max_0_r in I2. apply I2, Hab.
  - assert (Hc : input !! i = Some c).
    { rewrite <- (Nat.add_0_r i), <- lookup_drop, E. done. }
    assert (Ed : drop (S i) input = rest) by (apply (drop_S) in Hc; congruence).
    apply lookup_lt_Some in Hc as Lc.
    destruct (is_b64 c) eqn:B.
    + apply IH; [done | lia |]. set (st := match rs with Some st => st | None => i end).
      assert (Hst : b64_run input st (S i) /\ forall a, b64_run input a (S i) -> (st <= a)%nat).
      { split.
        - destruct rs as [st'|]; unfold st.
          + destruct I1 as [[R1 R2] _]. split; [lia|]. intros k Hk.
            destruct (decide (k = i)) as [->|]; [eauto|]. apply R2. lia.
          + split; [lia|]. intros k Hk. replace k with i by lia. eauto.
        - intros a Ha. destruct (decide (a = S i)) as [->|Na].
          + unfold st. destruct rs as [st'|]; [|lia]. destruct I1 as [[R1 _] _]. lia.
          + assert (Ha' : b64_run input a i) by (eapply b64_run_shrink; [exact Ha | destruct Ha; lia]).
            unfold st. destruct rs as [st'|]; [by apply I1 | rewrite (I1 a Ha'); lia]. }
      replace (match rs with Some _ => rs | None => Some i end) with (Some st) by (by destruct rs).
      split; [exact Hst|]. split; [|done]. intros a b Hab Hb.
      destruct (decide (b = S i)) as [->|Nb].
      * destruct Hst as [_ Hst]. specialize (Hst a Hab). lia.
      * specialize (I2 a b Hab ltac:(lia)). unfold st. destruct rs; lia.
    + assert (Non : forall a, b64_run input a (S i) -> a = S i).
      { intros a [Ha1 Ha2]. destruct (decide (a = S i)) as [|Na]; [done|].
        destruct (Ha2 i) as (c' & Hc' & B'); [lia|]. congruence. }
      destruct rs as [st|].
      * apply IH; [done | lia |]. split; [exact Non|]. split.
        -- intros a b Hab Hb. rewrite wider_len. cbn [fst snd].
           destruct (decide (b = S i)) as [->|Nb]; [rewrite (Non a Hab); lia|].
           specialize (I2 a b Hab ltac:(lia)). lia.
        -- intros s e Hw. destruct (wider_elem best (st, i)) as [W|W]; rewrite W in Hw; simplify_eq; [by apply I3 | apply I1].
      * apply IH; [done | lia |]. split; [exact Non|]. split; [|done]. intros a b Hab Hb.
        destruct (decide (b = S i)) as [->|Nb]; [rewrite (Non a Hab); lia|].
        specialize (I2 a b Hab ltac:(lia)). lia.
Qed.
End Scan.

(** Blob extraction replaces a longest base64 run and nothing else: when it
    fires, a run of at least 512 base64 characters, no shorter than any other
    run in the text, is replaced by a marker carrying its exact length, between
    the untouched text before and after it; when it does not, no run reaches
    512 characters. *)
Theorem extract_blob_spec (input : rstr) :
  match extract_blob input with
  | Some out =>
      exists pre blob post, input = pre ++ blob ++ post /\
        out = pre ++ blob_marker (length blob) ++ post /\
        Forall (fun c => is_b64 c = true) blob /\ (MIN_BLOB_CHARS <= length blob)%nat /\
        forall a b, b64_run input a b -> (b - a <= length blob)%nat
  | None => forall a b, b64_run input a b -> (b - a < MIN_BLOB_CHARS)%nat
  end.
Proof.
  destruct (scan_blob_spec input input 0 None None eq_refl ltac:(lia)) as [R1 R2].
  { split; [|split; [|done]].
    - intros a [H _]. lia.
    - intros a b [H _] Hb. lia. }
  unfold extract_blob, longest_blob. destruct (scan_blob 0 input None None) as [[s e]|] eqn:E; cbn [span_len] in R2.
  - destruct (R1 s e eq_refl) as [Hse Hb]. destruct (Nat.leb_spec MIN_BLOB_CHARS (e - s)) as [L|L]; cbn [mbind option_bind].
    + set (blob := drop s (take e input)).
      assert (Lb : length blob = (e - s)%nat) by (unfold blob; rewrite length_drop, length_take; lia).
      exists (take s input), blob, (drop e input). rewrite Lb.
      split; [|split; [done|split; [|split; [done | exact R2]]]].
      * unfold blob. rewrite app_assoc. rewrite <- (take_drop e input) at 1. f_equal.
        rewrite <- (take_drop s (take e input)) at 1. f_equal. rewrite take_take. f_equal. lia.
      * apply Forall_lookup. intros i c Hc. unfold blob in Hc. rewrite lookup_drop in Hc.
        apply lookup_take_Some in Hc as [Hc Li]. destruct (Hb (s + i)%nat) as (c' & Hc' & B); [lia|]. congruence.
    + intros a b Hab. specialize (R2 a b Hab). lia.
  - cbn [mbind option_bind]. intros a b Hab. specialize (R2 a b Hab). unfold MIN_BLOB_CHARS. lia.
Qed.
