(* ===== verification/Targets.v ===== *)
(** * Which blocks a rewrite may touch

    Models [crates/ccs-policy/src/targets.rs]: the map from a segment to the
    content blocks the splice may overwrite. *)
From S2P Require Import Prelude RStr Core Config Wire Segment Policy.

Local Open Scope Z_scope.

Definition MIN_BLOCK_SPAN : Z := 256.

(** The splice's address of a block ([rewrite.rs]): a message and, inside it, a
    block or the whole content slot. *)
Record SegmentTarget := mkSegmentTarget { target_message : nat; target_block : option nat }.
#[export] Instance SegmentTarget_eq_dec : EqDecision SegmentTarget.
Proof. solve_decision. Defined.

Inductive ReplacementKind :=
| StringContent
| ToolResult (result_tool_use_id : rstr) (is_error : bool)
| TextBlock.
#[export] Instance ReplacementKind_eq_dec : EqDecision ReplacementKind.
Proof. solve_decision. Defined.

Record BlockTarget := mkBlockTarget {
  bt_target : SegmentTarget;
  original_len : Z;
  original_tokens : TokenCount;
  bt_kind : ReplacementKind;
}.

Definition ToolResultContent_rendered (c : ToolResultContent) : rstr :=
  match c with
  | Result_Text text => text
  | Result_Blocks bs => concat bs
  | Result_Empty => []
  end.

Definition is_user_message (body : WireBody) (m : nat) : bool :=
  match messages body !! m with Some w => bool_decide (role w = Role_User) | None => false end.

Definition single_message (body : WireBody) (seg : Segment) : option (nat * MessageContent) :=
  match source_uuids seg with
  | [uuid] => m ← message_index uuid; w ← messages body !! m; Some (m, content w)
  | _ => None
  end.

Definition string_target (message : nat) (raw : RawValue) (text : rstr) : list BlockTarget :=
  let len := str_len raw in
  if MIN_BLOCK_SPAN <? len then
    [mkBlockTarget (mkSegmentTarget message None) len (estimate_chars_proxy text) StringContent]
  else [].

Section Targets.
Context `{SerdeJson}.

Definition tool_result_target (message block_index : nat) (block : ContentBlock) : option BlockTarget :=
  id ← tool_use_id block;
  let raw := block_raw block in
  let len := str_len raw in
  fields ← json_result_fields raw;
  if MIN_BLOCK_SPAN <? len then
    Some (mkBlockTarget (mkSegmentTarget message (Some block_index)) len
            (estimate_chars_proxy (ToolResultContent_rendered (result_content fields)))
            (ToolResult id (default false (result_is_error fields))))
  else None.

Definition block_target (message block_index : nat) (block : ContentBlock) : option BlockTarget :=
  match block with
  | Block_ToolResult _ => tool_result_target message block_index block
  | Block_Text raw =>
      let len := str_len raw in
      if MIN_BLOCK_SPAN <? len then
        Some (mkBlockTarget (mkSegmentTarget message (Some block_index)) len
                (estimate_chars_proxy (default [] (json_text_field raw))) TextBlock)
      else None
  | _ => None
  end.

Definition block_targets (body : WireBody) (message : nat) : list BlockTarget :=
  match messages body !! message with
  | None => []
  | Some w => omap (fun '(b, block) => block_target message b block) (enumerate (blocks (content w)))
  end.

Definition tool_result_targets (body : WireBody) (message : nat) : list BlockTarget :=
  match messages body !! message with
  | None => []
  | Some w =>
      omap (fun '(b, block) =>
              match block with
              | Block_ToolResult _ => tool_result_target message b block
              | _ => None
              end) (enumerate (blocks (content w)))
  end.

Definition squash_targets (body : WireBody) (seg : Segment) : list BlockTarget :=
  match kind seg with
  | ToolPair =>
      concat (tool_result_targets body <$>
        filterb (is_user_message body) (omap message_index (source_uuids seg)))
  | AssistantTurn | UserTurn =>
      match single_message body seg with
      | Some (m, Content_Text raw text) => string_target m raw text
      | Some (m, Content_Blocks _) => block_targets body m
      | None => []
      end
  | System | Tools =>
      match single_message body seg with
      | Some (m, Content_Text raw text) => string_target m raw text
      | _ => []
      end
  end.

(** ** What a target addresses *)

(** The target names an existing span of the body, of the length it says, that
    is a string content slot, a [text] block or a [tool_result] block. *)
Definition target_addresses (body : WireBody) (t : BlockTarget) : Prop :=
  exists w, messages body !! target_message (bt_target t) = Some w /\
  match target_block (bt_target t), bt_kind t with
  | None, StringContent => exists raw text, content w = Content_Text raw text /\ original_len t = str_len raw
  | Some b, TextBlock => exists raw, blocks (content w) !! b = Some (Block_Text raw) /\ original_len t = str_len raw
  | Some b, ToolResult id _ =>
      exists raw, blocks (content w) !! b = Some (Block_ToolResult raw) /\
        original_len t = str_len raw /\ tool_use_id (Block_ToolResult raw) = Some id
  | _, _ => False
  end.

Lemma tool_result_target_ok body m w b raw t :
  messages body !! m = Some w -> blocks (content w) !! b = Some (Block_ToolResult raw) ->
  tool_result_target m b (Block_ToolResult raw) = Some t ->
  target_addresses body t /\ target_message (bt_target t) = m /\ MIN_BLOCK_SPAN < original_len t /\
  exists id e, bt_kind t = ToolResult id e.
Proof.
  unfold tool_result_target. intros Hm Hb E. destruct (tool_use_id _) as [id|] eqn:I; [|done]. cbn [mbind option_bind] in E.
  destruct (json_result_fields _); [|done]. cbn [mbind option_bind] in E.
  cbn [block_raw] in E. destruct (Z.ltb_spec MIN_BLOCK_SPAN (str_len raw)); [|done]. injection E as <-.
  split; [|cbn; eauto]. exists w. cbn. eauto 10.
Qed.

Lemma block_target_ok body m w b block t :
  messages body !! m = Some w -> blocks (content w) !! b = Some block ->
  block_target m b block = Some t ->
  target_addresses body t /\ target_message (bt_target t) = m /\ MIN_BLOCK_SPAN < original_len t.
Proof.
  intros Hm Hb. destruct block; cbn [block_target]; try done.
  - destruct (Z.ltb_spec MIN_BLOCK_SPAN (str_len raw)); [|done]. intros [= <-].
    split; [|done]. exists w. cbn. eauto.
  - intros E. destruct (tool_result_target_ok _ _ _ _ _ _ Hm Hb E) as (? & ? & ? & _). done.
Qed.

Lemma single_message_Some body seg m c :
  single_message body seg = Some (m, c) ->
  exists u w, source_uuids seg = [u] /\ message_index u = Some m /\ messages body !! m = Some w /\ content w = c.
Proof.
  unfold single_message. destruct (source_uuids seg) as [|u [|]]; try done.
  destruct (message_index u) as [i|] eqn:I; [|done]. cbn. destruct (messages body !! i) as [w|] eqn:W; [|done].
  cbn. intros [= <- <-]. eauto 10.
Qed.

Lemma elem_of_enumerate {A} (l : list A) i x : (i, x) ∈ enumerate l -> l !! i = Some x.
Proof.
  intros [k Hk]%list_elem_of_lookup. rewrite enumerate_lookup in Hk.
  apply fmap_Some in Hk as (y & Hy & [= -> ->]). done.
Qed.

Lemma block_targets_ok body m t :
  t ∈ block_targets body m ->
  target_addresses body t /\ target_message (bt_target t) = m /\ MIN_BLOCK_SPAN < original_len t.
Proof.
  unfold block_targets. destruct (messages body !! m) as [w|] eqn:Hm; [|by intros ?%not_elem_of_nil].
  intros ((b & block) & Hb & E)%list_elem_of_omap. eapply block_target_ok; [done | | exact E].
  by apply elem_of_enumerate.
Qed.

Lemma tool_result_targets_ok body m t :
  t ∈ tool_result_targets body m ->
  target_addresses body t /\ target_message (bt_target t) = m /\ MIN_BLOCK_SPAN < original_len t /\
  exists id e, bt_kind t = ToolResult id e.
Proof.
  unfold tool_result_targets. destruct (messages body !! m) as [w|] eqn:Hm; [|by intros ?%not_elem_of_nil].
  intros ((b & block) & Hb & E)%list_elem_of_omap. apply elem_of_enumerate in Hb.
  destruct block; try done. by eapply tool_result_target_ok.
Qed.

Lemma string_target_ok body m w raw text t :
  messages body !! m = Some w -> content w = Content_Text raw text -> t ∈ string_target m raw text ->
  target_addresses body t /\ target_message (bt_target t) = m /\ MIN_BLOCK_SPAN < original_len t.
Proof.
  intros Hm Hc. unfold string_target.
  destruct (Z.ltb_spec MIN_BLOCK_SPAN (str_len raw)); [|by intros ?%not_elem_of_nil].
  intros ->%list_elem_of_singleton. cbn. split; [|done]. exists w. cbn. eauto.
Qed.
End Targets.

(** ** Property *)

(** C32. Every target of a squash is safe: it names an existing span of one of
    the segment's own messages, longer than [MIN_BLOCK_SPAN], and that span is
    a whole string content, a [text] block or a [tool_result] block with its
    own pairing id; thinking, tool calls and server blocks are never targets,
    and a tool pair is only ever rewritten in its user message. *)
Theorem squash_targets_safe `{SerdeJson} (body : WireBody) (seg : Segment) (t : BlockTarget) :
  t ∈ squash_targets body seg ->
  target_addresses body t /\ MIN_BLOCK_SPAN < original_len t /\
  target_message (bt_target t) ∈ omap message_index (source_uuids seg) /\
  (kind seg = ToolPair ->
     (exists id e, bt_kind t = ToolResult id e) /\
     exists w, messages body !! target_message (bt_target t) = Some w /\ role w = Role_User).
Proof.
  assert (Single : forall m c, single_message body seg = Some (m, c) ->
    m ∈ omap message_index (source_uuids seg) /\ exists w, messages body !! m = Some w /\ content w = c).
  { intros m c (u & w & -> & I & W & C)%single_message_Some. cbn. rewrite I. split; [set_solver | eauto]. }
  unfold squash_targets. destruct (kind seg) eqn:K.
  3:{ intros (l & Hl & Ht)%list_elem_of_In%List.in_concat. apply list_elem_of_In in Hl, Ht.
      apply list_elem_of_fmap in Hl as (m & -> & [Hm U]%elem_of_filterb).
      destruct (tool_result_targets_ok _ _ _ Ht) as (A & <- & L & E). split_and!; try done.
      unfold is_user_message in U. destruct (messages body !! _) as [w|]; [|done].
      apply bool_decide_eq_true in U. eauto. }
  all: intros Ht; destruct (single_message body seg) as [[m [raw text|bs]]|] eqn:S;
    try (by apply not_elem_of_nil in Ht);
    destruct (Single _ _ eq_refl) as (Hm & w & W & C).
  all: first [ destruct (string_target_ok _ _ _ _ _ _ W C Ht) as (A & <- & L)
             | destruct (block_targets_ok _ _ _ Ht) as (A & <- & L) ]; done.
Qed.

(** A prompt whose first tool pair has a result of 300 characters and more. *)
Definition log_body (out : rstr) : WireBody :=
  mkWireBody (ModelId_new (str "claude-opus-4-8")) None None
    [human (str "build");
     assistant [tool_use_block (str "tu_1") (str "Bash")];
     user [tool_result_block (str "tu_1") out];
     assistant [text_block (str "done")];
     human (str "thanks")]
    4096.

Definition log_segment : Segment :=
  mkSegment 1 ToolPair 0 100 1 false false false [message_id 1; message_id 2].

Lemma squash_targets_safe_witness :
  let _ := scan_json in
  exists t, squash_targets (log_body (replicate 300 97)) log_segment = [t] /\
    target_addresses (log_body (replicate 300 97)) t /\ bt_target t = mkSegmentTarget 2 (Some 0%nat).
Proof.
  intros J. destruct (squash_targets (log_body (replicate 300 97)) log_segment) as [|t ts] eqn:E.
  - vm_compute in E. discriminate.
  - exists t. assert (Ht : t ∈ squash_targets (log_body (replicate 300 97)) log_segment) by (rewrite E; by left).
    destruct (squash_targets_safe (log_body (replicate 300 97)) log_segment t Ht) as (A & _).
    vm_compute in E. injection E as <- <-. split; [reflexivity|]. split; [exact A | reflexivity].
Defined.
