(* ===== verification/Markup.v ===== *)
(** * HTML stripping

    Models [crates/ccs-policy/src/pipeline/passes/markup_strip.rs]: the HTML
    detector, the tag scanner and the renderer.  The sources scan UTF-8 bytes;
    every delimiter is ASCII, so the scan is modelled over characters, and the
    one place that counts bytes ([UNQUOTED_TAG_WINDOW]) counts each
    character's UTF-8 length.  A position is the suffix of the text at it. *)
From S2P Require Import Prelude RStr.

Local Open Scope Z_scope.

Definition MIN_TAG_HITS : nat := 8.
Definition MIN_DISTINCT_TAGS : nat := 3.
Definition UNQUOTED_TAG_WINDOW : Z := 256.

Definition HTML_TAGS : list rstr :=
  [str "div"; str "p"; str "a"; str "span"; str "li"; str "ul"; str "ol"; str "table"; str "tr"; str "td";
   str "br"; str "head"; str "body"; str "title"; str "h1"; str "h2"; str "h3"; str "h4"; str "h5"; str "h6";
   str "script"; str "style"].

Definition BLOCK_TAGS : list rstr :=
  [str "p"; str "div"; str "li"; str "tr"; str "table"; str "ul"; str "ol"; str "h1"; str "h2"; str "h3";
   str "h4"; str "h5"; str "h6"; str "br"; str "section"; str "article"; str "header"; str "footer";
   str "pre"; str "blockquote"].

Definition CELL_TAGS : list rstr := [str "td"; str "th"].

Definition LANGLE : char := 60.
Definition RANGLE : char := 62.
Definition SLASH : char := 47.
Definition BANG : char := 33.
Definition AMP : char := 38.
Definition SPACE : char := 32.

(** ** Recognising tags *)

Definition eq_ignore_ascii_case (a b : rstr) : bool :=
  bool_decide (to_ascii_lower <$> a = to_ascii_lower <$> b).

Definition starts_ascii_case_insensitive (input prefix : rstr) : bool :=
  (length prefix <=? length input)%nat && eq_ignore_ascii_case (take (length prefix) input) prefix.

Definition is_tag_boundary (c : char) : bool := is_ascii_whitespace c || (c =? SLASH) || (c =? RANGLE).

Definition named_tag_with_prefix_at (s name prefix : rstr) : bool :=
  match strip_prefix prefix s with
  | None => false
  | Some rest =>
      (length name <=? length rest)%nat && eq_ignore_ascii_case (take (length name) rest) name
      && match rest !! length name with Some c => is_tag_boundary c | None => true end
  end.

Definition named_opening_tag_at (s name : rstr) : bool := named_tag_with_prefix_at s name [LANGLE].
Definition named_closing_tag_at (s name : rstr) : bool := named_tag_with_prefix_at s name [LANGLE; SLASH].
Definition named_tag_at (s name : rstr) : bool := named_opening_tag_at s name || named_closing_tag_at s name.

Definition starts_tag (c : char) : bool := is_ascii_alphabetic c || (c =? SLASH) || (c =? BANG).

(** [u32::count_ones]. *)
Definition count_ones (z : Z) : nat := length (filterb (fun i => Z.testbit z (Z.of_nat i)) (seq 0 32)).

(** The density scan: [hits] and the bitmask [seen] of distinct tags. *)
Fixpoint tag_density (s : rstr) (hits : nat) (seen : Z) : bool :=
  match s with
  | [] => false
  | c :: rest =>
      match (if c =? LANGLE then position (fun tag => named_tag_at s tag) HTML_TAGS else None) with
      | Some tag =>
          let hits := S hits in
          let seen := Z.lor seen (Z.shiftl 1 (Z.of_nat tag)) in
          if (MIN_TAG_HITS <=? hits)%nat && (MIN_DISTINCT_TAGS <=? count_ones seen)%nat then true
          else tag_density rest hits seen
      | None => tag_density rest hits seen
      end
  end.

Definition looks_like_html (input : rstr) : bool :=
  let trimmed := trim input in
  if starts_ascii_case_insensitive trimmed (str "<?xml") then false
  else if starts_ascii_case_insensitive trimmed (str "<!doctype html")
          || starts_ascii_case_insensitive trimmed (str "<html") then true
  else if negb (starts_with [LANGLE] trimmed) then false
  else tag_density trimmed 0 0.

(** ** The end of a tag *)

Definition is_quote (c : char) : bool := (c =? 34) || (c =? 39).

(** The offset of the closing [>] from the text after [<]; quoted spans are
    skipped whole and reset the unquoted run. *)
Fixpoint find_tag_end (fuel : nat) (s : rstr) (unquoted_run : Z) : option nat :=
  match fuel, s with
  | O, _ | _, [] => None
  | S fuel, c :: rest =>
      if c =? RANGLE then Some 0%nat
      else if is_quote c then
        close ← position (fun d => d =? c) rest;
        e ← find_tag_end fuel (drop (S close) rest) 0;
        Some (S (S close) + e)%nat
      else
        let run := unquoted_run + utf8_len c in
        if UNQUOTED_TAG_WINDOW <? run then None
        else S <$> find_tag_end fuel rest run
  end.

(** The text of the tag opened at [<], and what follows its [>]. *)
Definition tag_span (s : rstr) : option (rstr * rstr) :=
  match s with
  | [] => None
  | _ :: rest => e ← find_tag_end (length rest) rest 0; Some (take e rest, drop (S e) rest)
  end.

(** The text from the next closing tag of the given name. *)
Fixpoint find_closing_tag (s name : rstr) : option rstr :=
  match s with
  | [] => None
  | c :: rest => if (c =? LANGLE) && named_closing_tag_at s name then Some s else find_closing_tag rest name
  end.

Definition entities : list (rstr * char) :=
  [(str "&amp;", 38); (str "&lt;", 60); (str "&gt;", 62); (str "&quot;", 34); (str "&#39;", 39); (str "&nbsp;", 32)].

Fixpoint find_entity (es : list (rstr * char)) (s : rstr) : option (char * nat) :=
  match es with
  | [] => None
  | (entity, decoded) :: es => if starts_with entity s then Some (decoded, length entity) else find_entity es s
  end.
Definition decoded_entity (s : rstr) : option (char * nat) := find_entity entities s.

(** ** Tags and the renderer *)

Inductive Separator := Sep_Space | Sep_Newline.

Definition Separator_max (a b : Separator) : Separator :=
  match a, b with Sep_Space, Sep_Space => Sep_Space | _, _ => Sep_Newline end.

Record Tag := mkTag { tag_name : rstr; closing : bool; self_closing : bool }.

Fixpoint take_while (f : char -> bool) (s : rstr) : rstr :=
  match s with [] => [] | c :: s => if f c then c :: take_while f s else [] end.

(** [Tag::parse] on the text between [<] and [>]. *)
Definition Tag_parse (body : rstr) : Tag :=
  let closing := match body with c :: _ => c =? SLASH | [] => false end in
  let name_text := if closing then drop 1 body else body in
  mkTag (take_while is_ascii_alphanumeric name_text) closing
    (match last body with Some c => c =? SLASH | None => false end).

Definition tag_is (t : Tag) (name : rstr) : bool := eq_ignore_ascii_case (tag_name t) name.

Definition separator (t : Tag) : option Separator :=
  if tag_is t (str "br") then Some Sep_Newline
  else if negb (closing t) && negb (self_closing t) then None
  else if anyb (tag_is t) CELL_TAGS then Some Sep_Space
  else if anyb (tag_is t) BLOCK_TAGS then Some Sep_Newline
  else None.

Record Renderer := mkRenderer {
  out : rstr;
  trailing_newlines : nat;
  pending : option Separator;
  pre_depth : nat;
}.

Definition Renderer_new : Renderer := mkRenderer [] 0 None 0.

Definition raw_push (r : Renderer) (ch : char) : Renderer :=
  mkRenderer (out r ++ [ch]) (if ch =? LF then S (trailing_newlines r) else 0%nat) (pending r) (pre_depth r).

Definition newline_capped (r : Renderer) : Renderer :=
  if (trailing_newlines r <? 2)%nat then raw_push r LF else r.

Definition clear_pending (r : Renderer) : Renderer :=
  mkRenderer (out r) (trailing_newlines r) None (pre_depth r).

Definition flush_pending (r : Renderer) : Renderer :=
  match pending r with
  | Some Sep_Newline => newline_capped (clear_pending r)
  | Some Sep_Space => raw_push (clear_pending r) SPACE
  | None => r
  end.

Definition Renderer_tag (r : Renderer) (t : Tag) : Renderer :=
  let depth :=
    if tag_is t (str "pre") || tag_is t (str "code") then
      match closing t, self_closing t with
      | true, _ => (pre_depth r - 1)%nat
      | false, false => S (pre_depth r)
      | false, true => pre_depth r
      end
    else pre_depth r in
  let r := mkRenderer (out r) (trailing_newlines r) (pending r) depth in
  match separator t with
  | Some sep =>
      if (pre_depth r =? 0)%nat && negb (match out r with [] => true | _ => false end) then
        mkRenderer (out r) (trailing_newlines r)
          (Some (match pending r with Some prior => Separator_max prior sep | None => sep end)) (pre_depth r)
      else r
  | None => r
  end.

Definition Renderer_push (r : Renderer) (ch : char) : Renderer :=
  if (0 <? pre_depth r)%nat then raw_push (flush_pending r) ch
  else
    let finish r := if ch =? LF then newline_capped r else raw_push r ch in
    match pending r with
    | Some Sep_Newline =>
        if ch =? LF then finish (clear_pending r)
        else if (ch =? SPACE) || (ch =? 9) then r
        else finish (flush_pending r)
    | Some Sep_Space =>
        if is_whitespace ch then finish (clear_pending r) else finish (flush_pending r)
    | None => finish r
    end.

(** ** The scan *)

Fixpoint strip_html_loop (fuel : nat) (s : rstr) (r : Renderer) : option Renderer :=
  match s with
  | [] => Some r
  | c :: rest =>
      match fuel with
      | O => None
      | S fuel =>
          if c =? LANGLE then
            if starts_with (str "<!--") s then
              i ← find_sub (str "-->") (drop 4 s);
              strip_html_loop fuel (drop (i + 3) (drop 4 s)) r
            else
              next ← head rest;
              if starts_tag next then
                '(body, after) ← tag_span s;
                if named_opening_tag_at s (str "script") then
                  close ← find_closing_tag after (str "script");
                  '(_, after) ← tag_span close;
                  strip_html_loop fuel after r
                else if named_opening_tag_at s (str "style") then
                  close ← find_closing_tag after (str "style");
                  '(_, after) ← tag_span close;
                  strip_html_loop fuel after r
                else strip_html_loop fuel after (Renderer_tag r (Tag_parse body))
              else strip_html_loop fuel rest (Renderer_push r LANGLE)
          else if c =? AMP then
            match decoded_entity s with
            | Some (decoded, width) => strip_html_loop fuel (drop width s) (Renderer_push r decoded)
            | None => strip_html_loop fuel rest (Renderer_push r AMP)
            end
          else strip_html_loop fuel rest (Renderer_push r c)
      end
  end.

Definition strip_html (input : rstr) : option rstr :=
  r ← strip_html_loop (length input) input Renderer_new;
  if str_len (out r) <? str_len input then Some (out r) else None.

Example strip_html_examples :
  strip_html (str "<p>a &amp; b</p><p>c</p>") = Some (str "a & b" ++ [LF] ++ str "c") /\
  strip_html (str "<td>x</td><td>y</td>") = Some (str "x y") /\
  strip_html (str "<script>if (a<b) {}</script>k") = Some (str "k") /\
  strip_html (str "a < b") = None /\ strip_html (str "x <p") = None.
Proof. by_compute. Qed.
