(* ===== verification/Recode.v ===== *)
(** * The deterministic recode passes

    Models [crates/ccs-policy/src/pipeline/passes]: the shared leaf plumbing
    ([recode.rs]), the nine passes of [Presets::deterministic] and the on-path
    fast lane ([fast_lane.rs]).  Three libraries are parameters: [format-core]
    (JSON re-encoding), [similar] (line diffs) and [serde_json] (typed parses);
    [FormatCore] and [Similar] list the calls. *)
From S2P Require Import Prelude RStr F64 Core Economics Config Wire Segment Policy Scorer Pipeline Text Targets Markup.

Local Open Scope Z_scope.

(** [format_core::decode_ir], [compact_json] and [select_encoding] under the
    pass's options; [similar]'s unified diff with a context of three lines. *)
Class FormatCore := {
  IR : Type;
  decode_ir : rstr -> option IR;
  compact_json : IR -> rstr;
  select_encoding : rstr -> option rstr;
}.
Class Similar := { unified_diff : rstr -> rstr -> rstr }.

Definition MIN_RECODE_SPAN : Z := 256.
Definition DEDUPE_MIN_CHARS : Z := 1024.
Definition G_MIN_BYTES : Z := 1024.
Definition G_MAX_BYTES : Z := 512 * 1024.
Definition G_MAX_LINES : nat := Z.to_nat 10000.

Record RecodeLeaf := mkRecodeLeaf {
  leaf_content : rstr;
  leaf_original_tokens : Z;
  carried_ref : option (list byte);
}.

(** ** Leaves ([recode.rs]) *)

Section Leaves.
Context `{SerdeJson}.

Definition tool_result_text (raw : RawValue) : option rstr := mjoin (json_result_text raw).

Definition text_block_string (block : ContentBlock) : option rstr :=
  match block with Block_Text raw => json_text_field raw | _ => None end.

Definition tool_result_strings (body : WireBody) (message : nat) : list rstr :=
  match messages body !! message with
  | None => []
  | Some w =>
      omap (fun block => match block with Block_ToolResult raw => tool_result_text raw | _ => None end)
        (blocks (content w))
  end.

Definition single_content (body : WireBody) (seg : Segment) : option MessageContent :=
  match source_uuids seg with
  | [uuid] => m ← message_index uuid; w ← messages body !! m; Some (content w)
  | _ => None
  end.

Definition leaf_strings (body : WireBody) (seg : Segment) : list rstr :=
  match kind seg with
  | ToolPair =>
      concat (tool_result_strings body <$>
        filterb (is_user_message body) (omap message_index (source_uuids seg)))
  | AssistantTurn | UserTurn =>
      match single_content body seg with
      | Some (Content_Text _ text) => [text]
      | Some (Content_Blocks bs) => omap text_block_string bs
      | None => []
      end
  | System | Tools =>
      match single_content body seg with
      | Some (Content_Text _ text) => [text]
      | _ => []
      end
  end.

(** The blocks of the segment's user messages. *)
Definition user_blocks (body : WireBody) (seg : Segment) : list ContentBlock :=
  concat ((fun m => match messages body !! m with Some w => blocks (content w) | None => [] end) <$>
    filterb (is_user_message body) (omap message_index (source_uuids seg))).

Definition sole_squash_target (body : WireBody) (seg : Segment) : bool :=
  match kind seg with
  | ToolPair =>
      (length (filterb (fun b => is_tool_result b && (MIN_BLOCK_SPAN <? str_len (block_raw b))%Z)
         (user_blocks body seg)) =? 1)%nat
  | _ => true
  end.

Definition raw_leaf (body : WireBody) (seg : Segment) : option RecodeLeaf :=
  match leaf_strings body seg with
  | [one] =>
      if (MIN_RECODE_SPAN <? str_len one) && sole_squash_target body seg then
        Some (mkRecodeLeaf one (estimate_chars_proxy one) None)
      else None
  | _ => None
  end.

Definition raw_recode_leaf (body : WireBody) (seg : Segment) : option RecodeLeaf :=
  if pinned seg || seg_is_true_human seg then None else raw_leaf body seg.

Definition recode_leaf (body : WireBody) (seg : Segment) (ledger : PlanLedger) : option RecodeLeaf :=
  if pinned seg || seg_is_true_human seg then None
  else
    match proposal_for ledger (seg_index seg) with
    | Some p =>
        match prop_strategy p with
        | Recode content _ => Some (mkRecodeLeaf content (estimate_chars_proxy content) (needs_ref p))
        | _ => None
        end
    | None => raw_leaf body seg
    end.
End Leaves.

Definition recode_proposal (seg : Segment) (leaf : RecodeLeaf) (transformed : rstr)
    (needs : option (list byte)) (by_ : PassId) : Proposal :=
  mkProposal (seg_index seg) (Recode transformed None) None needs
    (leaf_original_tokens leaf - estimate_chars_proxy transformed) f64_zero by_.

Definition inline_recode (seg : Segment) (leaf : RecodeLeaf) (transformed : rstr) (by_ : PassId) : option Proposal :=
  if str_len transformed <? str_len (leaf_content leaf) then
    Some (recode_proposal seg leaf transformed (carried_ref leaf) by_)
  else None.

Definition ref_recode (seg : Segment) (leaf : RecodeLeaf) (transformed : rstr) (original : list byte)
    (by_ : PassId) : option Proposal :=
  if str_len transformed <? str_len (leaf_content leaf) then
    Some (recode_proposal seg leaf transformed (Some (default original (carried_ref leaf))) by_)
  else None.

(** ** The leaf passes *)

Definition BLOB_EXTRACT : PassId := mkPassId (str "blob_extract").
Definition ANSI_STRIP : PassId := mkPassId (str "ansi_strip").
Definition WHITESPACE : PassId := mkPassId (str "whitespace").
Definition MARKUP_STRIP : PassId := mkPassId (str "markup_strip").
Definition JSON_MINIFY : PassId := mkPassId (str "json_minify").
Definition JSON_TOON : PassId := mkPassId (str "json_toon").
Definition DEDUP_BACKREF : PassId := mkPassId (str "dedup_backref").
Definition HEAD_TAIL : PassId := mkPassId (str "head_tail").
Definition SEQ_DIFF : PassId := mkPassId (str "seq_diff").

Section Passes.
Context `{SerdeJson, FormatCore, Similar}.

(** [format_core] behind the two JSON passes. *)
Definition minify_json (input : rstr) : option rstr := compact_json <$> decode_ir input.
Definition select_leaner (input : rstr) : option rstr := select_encoding input.

(** The loop every leaf pass shares: each segment's leaf, transformed, proposed
    when [propose] accepts it. *)
Definition leaf_step (ctx : PassCtx) (transform : rstr -> option rstr)
    (propose : Segment -> RecodeLeaf -> rstr -> option Proposal)
    (ledger : PlanLedger) (seg : Segment) : PlanLedger :=
  match recode_leaf (ctx_body ctx) seg ledger with
  | None => ledger
  | Some leaf =>
      match transform (leaf_content leaf) with
      | None => ledger
      | Some transformed =>
          match propose seg leaf transformed with
          | Some p => upsert_proposal ledger p
          | None => ledger
          end
      end
  end.

Definition leaf_pass (id : PassId) (transform : rstr -> option rstr)
    (propose : Segment -> RecodeLeaf -> rstr -> option Proposal) : Pass :=
  mkPass id OffPath (fun ctx ledger =>
    Some (foldl (leaf_step ctx transform propose) ledger (ctx_segments ctx), Continue)).

Definition propose_inline (id : PassId) (seg : Segment) (leaf : RecodeLeaf) (t : rstr) : option Proposal :=
  inline_recode seg leaf t id.
Definition propose_ref (id : PassId) (seg : Segment) (leaf : RecodeLeaf) (t : rstr) : option Proposal :=
  ref_recode seg leaf t (as_bytes (leaf_content leaf)) id.

Definition BlobExtractPass : Pass := leaf_pass BLOB_EXTRACT extract_blob (propose_ref BLOB_EXTRACT).
Definition AnsiStripPass : Pass := leaf_pass ANSI_STRIP (fun s => Some (strip_ansi s)) (propose_inline ANSI_STRIP).
Definition WhitespacePass : Pass := leaf_pass WHITESPACE (fun s => Some (normalize_ws s)) (propose_inline WHITESPACE).
Definition MarkupStripPass : Pass :=
  leaf_pass MARKUP_STRIP (fun s => if looks_like_html s then strip_html s else None) (propose_ref MARKUP_STRIP).
Definition JsonMinifyPass : Pass := leaf_pass JSON_MINIFY minify_json (propose_inline JSON_MINIFY).
Definition JsonToonPass : Pass := leaf_pass JSON_TOON select_leaner (propose_ref JSON_TOON).
Definition HeadTailPass : Pass := leaf_pass HEAD_TAIL head_tail (propose_ref HEAD_TAIL).

(** *** [DedupBackrefPass]: keyed on the raw leaf, threading the seen set *)

Definition dedup_step (ctx : PassCtx) (st : list rstr * PlanLedger) (seg : Segment) : list rstr * PlanLedger :=
  let '(seen, ledger) := st in
  match raw_recode_leaf (ctx_body ctx) seg with
  | None => (seen, ledger)
  | Some leaf =>
      if str_len (leaf_content leaf) <? DEDUPE_MIN_CHARS then (seen, ledger)
      else if contains (leaf_content leaf) seen then
        match ref_recode seg leaf [] (as_bytes (leaf_content leaf)) DEDUP_BACKREF with
        | Some p => (seen, upsert_proposal ledger p)
        | None => (seen, ledger)
        end
      else (leaf_content leaf :: seen, ledger)
  end.

Definition DedupBackrefPass : Pass :=
  mkPass DEDUP_BACKREF OffPath (fun ctx ledger =>
    Some ((foldl (dedup_step ctx) ([], ledger) (ctx_segments ctx)).2, Continue)).

(** *** [SeqDiffPass] *)

Definition message_at (body : WireBody) (id : MessageId) : option WireMessage :=
  i ← message_index id; messages body !! i.

Definition resolve_tool (body : WireBody) (seg : Segment) : option (rstr * rstr) :=
  let msgs := omap (message_at body) (source_uuids seg) in
  let blocks_of r := concat ((fun w => blocks (content w)) <$> filterb (fun w => bool_decide (role w = r)) msgs) in
  id ← head (omap (fun b =>
                match b with
                | Block_ToolResult raw =>
                    match tool_result_text raw with Some _ => tool_use_id b | None => None end
                | _ => None
                end) (blocks_of Role_User));
  name ← head (omap tool_name
                (filterb (fun b => is_client_tool_use b && bool_decide (tool_use_id b = Some id))
                  (blocks_of Role_Assistant)));
  Some (name, id).

Definition seq_diff_header (name base_id : rstr) : rstr :=
  str "[cc-squash: near-duplicate of the earlier " ++ name ++ str " result (tool_use_id=" ++ base_id
  ++ str ") — unified diff vs that result]".

Definition diff_proposal (ctx : PassCtx) (seg : Segment) (leaf : RecodeLeaf) (base_idx : nat)
    (base name : rstr) : option Proposal :=
  let target := leaf_content leaf in
  if (str_len base <? G_MIN_BYTES) || (str_len target <? G_MIN_BYTES) then None
  else if (G_MAX_BYTES <=? str_len base) || (G_MAX_BYTES <=? str_len target) then None
  else if (G_MAX_LINES <? length (lines base))%nat || (G_MAX_LINES <? length (lines target))%nat then None
  else
    base_seg ← ctx_segments ctx !! base_idx;
    '(_, base_id) ← resolve_tool (ctx_body ctx) base_seg;
    let rendered := seq_diff_header name base_id ++ [LF] ++ unified_diff base target in
    if str_len target <? str_len rendered * 2 then None
    else ref_recode seg leaf rendered (as_bytes target) SEQ_DIFF.

(** [last_by_tool]: the last bare leaf per tool name. *)
Definition seq_diff_step (ctx : PassCtx) (st : gmap rstr (nat * rstr) * PlanLedger) (seg : Segment)
    : gmap rstr (nat * rstr) * PlanLedger :=
  let '(last_by_tool, ledger) := st in
  if match proposal_for ledger (seg_index seg) with Some p => bool_decide (prop_by p = SEQ_DIFF) | None => false end
  then (last_by_tool, ledger)
  else
    match recode_leaf (ctx_body ctx) seg ledger with
    | None => (last_by_tool, ledger)
    | Some leaf =>
        match resolve_tool (ctx_body ctx) seg with
        | None => (last_by_tool, ledger)
        | Some (name, _) =>
            let proposal :=
              '(base_idx, base) ← last_by_tool !! name;
              diff_proposal ctx seg leaf base_idx base name in
            match proposal with
            | Some p => (last_by_tool, upsert_proposal ledger p)
            | None =>
                if is_none (carried_ref leaf) && (G_MIN_BYTES <=? str_len (leaf_content leaf))
                then (<[name := (seg_index seg, leaf_content leaf)]> last_by_tool, ledger)
                else (last_by_tool, ledger)
            end
        end
    end.

Definition SeqDiffPass : Pass :=
  mkPass SEQ_DIFF OffPath (fun ctx ledger =>
    Some ((foldl (seq_diff_step ctx) (∅, ledger) (ctx_segments ctx)).2, Continue)).

(** [Presets::deterministic]: F, D, E, I, A, B, C, J, G. *)
Definition deterministic : Pipeline :=
  shr (shr (shr (shr (shr (shr (shr (shr (Pipeline_of [Stage_Pass BlobExtractPass])
    (Stage_Pass AnsiStripPass)) (Stage_Pass WhitespacePass)) (Stage_Pass MarkupStripPass))
    (Stage_Pass JsonMinifyPass)) (Stage_Pass JsonToonPass)) (Stage_Pass DedupBackrefPass))
    (Stage_Pass HeadTailPass)) (Stage_Pass SeqDiffPass).

(** *** The fast lane ([fast_lane.rs]) *)

Definition fast_lane_leaf (body : WireBody) (seg : Segment) : option RecodeLeaf :=
  match kind seg with ToolPair => raw_recode_leaf body seg | _ => None end.

Definition fast_lane_clean (content : rstr) : option rstr :=
  let cleaned := normalize_ws (strip_ansi content) in
  let cleaned :=
    match minify_json cleaned with
    | Some minified => if str_len minified <? str_len cleaned then minified else cleaned
    | None => cleaned
    end in
  if str_len cleaned <? str_len content then Some cleaned else None.
End Passes.

(** ** What the chain guarantees *)

Section Chain.
Context `{SerdeJson, FormatCore, Similar}.

(** The strings the inline passes alone can turn a leaf into. *)
Inductive InlineDerives (raw : rstr) : rstr -> Prop :=
| Derives_raw : InlineDerives raw raw
| Derives_ansi s : InlineDerives raw s -> InlineDerives raw (strip_ansi s)
| Derives_ws s : InlineDerives raw s -> InlineDerives raw (normalize_ws s)
| Derives_json s t : InlineDerives raw s -> minify_json s = Some t -> InlineDerives raw t.

(** The bytes a proposal asks to store; the text itself when it asks for none. *)
Definition recoverable (raw : rstr) (needs : option (list byte)) (content : rstr) : Prop :=
  match needs with
  | None => InlineDerives raw content
  | Some bytes => exists o, bytes = as_bytes o /\ InlineDerives raw o
  end.

Definition recode_ok (ctx : PassCtx) (p : Proposal) : Prop :=
  exists seg leaf content,
    ctx_segments ctx !! prop_seg_index p = Some seg /\ pinned seg = false /\
    seg_is_true_human seg = false /\ raw_leaf (ctx_body ctx) seg = Some leaf /\
    prop_strategy p = Recode content None /\ prop_ref_id p = None /\
    str_len content < str_len (leaf_content leaf) /\
    recoverable (leaf_content leaf) (needs_ref p) content.

Definition chain_inv (ctx : PassCtx) (l : PlanLedger) : Prop :=
  ledger_ok l /\ Forall (recode_ok ctx) (proposals l).

(** A segment list indexes its own segments, as [segment_prompt] builds it. *)
Definition indexed (segments : list Segment) : Prop :=
  forall k s, segments !! k = Some s -> seg_index s = k.

Lemma elem_of_upsert q l p : p ∈ upsert q l -> p = q \/ p ∈ l.
Proof.
  induction l as [|x l IH]; cbn [upsert]; [set_solver|].
  destruct (for_segment _ x); rewrite !elem_of_cons; naive_solver.
Qed.

Lemma chain_inv_upsert ctx l q : chain_inv ctx l -> recode_ok ctx q -> chain_inv ctx (upsert_proposal l q).
Proof.
  intros [N F] Hq. split; [by apply upsert_ledger_ok|]. rewrite Forall_forall in F |- *.
  intros p [->|Hp]%elem_of_upsert; auto.
Qed.

(** A leaf the chain reads: the raw leaf, or the text an earlier pass left. *)
Lemma recode_leaf_ok ctx seg l leaf :
  chain_inv ctx l -> ctx_segments ctx !! seg_index seg = Some seg ->
  recode_leaf (ctx_body ctx) seg l = Some leaf ->
  pinned seg = false /\ seg_is_true_human seg = false /\
  exists raw, raw_leaf (ctx_body ctx) seg = Some raw /\
    str_len (leaf_content leaf) <= str_len (leaf_content raw) /\
    recoverable (leaf_content raw) (carried_ref leaf) (leaf_content leaf).
Proof.
  intros [N F] Hs R. unfold recode_leaf in R. destruct (pinned seg || _) eqn:G; [done|]. bool_hyps.
  split; [done|]. split; [done|]. destruct (proposal_for l (seg_index seg)) as [p|] eqn:P.
  - apply proposal_for_Some in P as [Hp E]. rewrite Forall_forall in F.
    destruct (F p Hp) as (s & raw & c & Hseg & _ & _ & R' & S & _ & Lt & D).
    rewrite E in Hseg. rewrite S in R. simplify_eq/=. exists raw. split; [done|]. split; [lia|done].
  - exists leaf. split; [done|]. split; [done|]. unfold raw_leaf in R.
    destruct (leaf_strings _ _) as [|? [|]]; try done. case_match; simplify_eq/=. constructor.
Qed.

Lemma inline_recode_ok ctx seg l leaf t by_ p :
  chain_inv ctx l -> ctx_segments ctx !! seg_index seg = Some seg ->
  recode_leaf (ctx_body ctx) seg l = Some leaf ->
  (forall raw, InlineDerives raw (leaf_content leaf) -> InlineDerives raw t) ->
  inline_recode seg leaf t by_ = Some p -> recode_ok ctx p.
Proof.
  intros I Hs R D E. destruct (recode_leaf_ok _ _ _ _ I Hs R) as (P & T & raw & Rr & Le & Rec).
  unfold inline_recode in E. destruct (_ <? _) eqn:L; simplify_eq. bool_hyps.
  exists seg, raw, t. cbn. repeat (split; [done || lia|]). unfold recoverable in *.
  by case_match; [|apply D].
Qed.

Lemma ref_recode_ok ctx seg l leaf t by_ p :
  chain_inv ctx l -> ctx_segments ctx !! seg_index seg = Some seg ->
  recode_leaf (ctx_body ctx) seg l = Some leaf ->
  ref_recode seg leaf t (as_bytes (leaf_content leaf)) by_ = Some p -> recode_ok ctx p.
Proof.
  intros I Hs R E. destruct (recode_leaf_ok _ _ _ _ I Hs R) as (P & T & raw & Rr & Le & Rec).
  unfold ref_recode in E. destruct (_ <? _) eqn:L; simplify_eq. bool_hyps.
  exists seg, raw, t. cbn. repeat (split; [done || lia|]). unfold recoverable in Rec.
  destruct (carried_ref leaf); cbn; [done | by eexists].
Qed.

Lemma raw_recode_leaf_recode body seg leaf :
  raw_recode_leaf body seg = Some leaf -> recode_leaf body seg (PlanLedger_sized 0) = Some leaf.
Proof. unfold raw_recode_leaf, recode_leaf. by case_match. Qed.

Lemma chain_inv_empty ctx n : chain_inv ctx (PlanLedger_sized n).
Proof. split; constructor. Qed.

(** A fold over a context's segments keeps what each step keeps. *)
Lemma segments_fold {S} (Inv : S -> Prop) (f : S -> Segment -> S) segments (s0 : S) :
  indexed segments -> Inv s0 ->
  (forall s seg, segments !! seg_index seg = Some seg -> Inv s -> Inv (f s seg)) ->
  Inv (foldl f s0 segments).
Proof.
  intros Hx Hi St.
  assert (F : Forall (fun seg => segments !! seg_index seg = Some seg) segments).
  { apply Forall_lookup. intros k s Hk. by rewrite (Hx k s Hk). }
  assert (G : forall xs s, Forall (fun seg => segments !! seg_index seg = Some seg) xs -> Inv s -> Inv (foldl f s xs)).
  { induction xs as [|x xs IH]; intros s Fx Is; [done|]. inversion Fx; subst. by apply IH, St. }
  by apply G.
Qed.

Lemma leaf_step_inv ctx transform propose l seg :
  (forall leaf t p, recode_leaf (ctx_body ctx) seg l = Some leaf -> transform (leaf_content leaf) = Some t ->
     propose seg leaf t = Some p -> recode_ok ctx p) ->
  chain_inv ctx l -> chain_inv ctx (leaf_step ctx transform propose l seg).
Proof.
  intros St I. unfold leaf_step.
  destruct (recode_leaf _ _ _) as [leaf|] eqn:R; [|done]. destruct (transform _) as [t|] eqn:Tr; [|done].
  destruct (propose _ _ _) as [p|] eqn:P; [|done]. apply chain_inv_upsert; [done | by eapply St].
Qed.

(** A pass keeps the chain invariant, never reverts and never panics. *)
Definition keeps_chain (p : Pass) : Prop :=
  forall ctx l, indexed (ctx_segments ctx) -> chain_inv ctx l ->
    exists l', apply p ctx l = Some (l', Continue) /\ chain_inv ctx l'.

Lemma inline_pass_keeps id transform :
  (forall raw s t, transform s = Some t -> InlineDerives raw s -> InlineDerives raw t) ->
  keeps_chain (leaf_pass id transform (propose_inline id)).
Proof.
  intros D ctx l Hx I. eexists. split; [reflexivity|]. apply segments_fold; [done | done |].
  intros l' seg Hs I'. apply leaf_step_inv; [|done]. intros leaf t p R Tr P.
  eapply (inline_recode_ok _ _ _ _ _ _ _ I' Hs R); [|exact P]. intros raw Hr. by eapply D.
Qed.

Lemma ref_pass_keeps id transform : keeps_chain (leaf_pass id transform (propose_ref id)).
Proof.
  intros ctx l Hx I. eexists. split; [reflexivity|]. apply segments_fold; [done | done |].
  intros l' seg Hs I'. apply leaf_step_inv; [|done]. intros leaf t p R _ P. by eapply ref_recode_ok.
Qed.

Lemma dedup_keeps : keeps_chain DedupBackrefPass.
Proof.
  intros ctx l Hx I. eexists. split; [reflexivity|].
  apply (segments_fold (fun st => chain_inv ctx st.2)); [done | done |].
  intros [seen l'] seg Hs I'. unfold dedup_step.
  destruct (raw_recode_leaf _ _) as [leaf|] eqn:R; [|done].
  destruct (_ <? _); [done|]. destruct (contains _ _); [|done].
  destruct (ref_recode _ _ _ _ _) as [p|] eqn:P; [|done].
  apply chain_inv_upsert; [done|]. apply raw_recode_leaf_recode in R.
  by eapply (ref_recode_ok _ _ _ _ _ _ _ (chain_inv_empty ctx 0)).
Qed.

Lemma seq_diff_keeps : keeps_chain SeqDiffPass.
Proof.
  intros ctx l Hx I. eexists. split; [reflexivity|].
  apply (segments_fold (fun st => chain_inv ctx st.2)); [done | done |].
  intros [last l'] seg Hs I'. unfold seq_diff_step.
  destruct (match proposal_for l' _ with Some _ => _ | None => false end); [done|].
  destruct (recode_leaf _ _ _) as [leaf|] eqn:R; [|done].
  destruct (resolve_tool _ seg) as [[name id]|]; [|done].
  destruct (mbind _ _) as [p|] eqn:P; [|by destruct (_ && _)].
  apply chain_inv_upsert; [done|].
  apply bind_Some in P as ([bi base] & _ & P). unfold diff_proposal in P.
  do 3 (destruct (_ || _); [done|]).
  apply bind_Some in P as (bs & _ & P). apply bind_Some in P as ([? bid] & _ & P).
  destruct (_ <? _); [done|]. by eapply ref_recode_ok.
Qed.
End Chain.

(** ** One segment's run through a leaf pass *)

Section Threading.
Context `{SerdeJson, FormatCore, Similar}.

Lemma recode_leaf_ext body seg l1 l2 :
  proposal_for l1 (seg_index seg) = proposal_for l2 (seg_index seg) ->
  recode_leaf body seg l1 = recode_leaf body seg l2.
Proof. unfold recode_leaf. by intros ->. Qed.

Lemma inline_leaf_step_other ctx tr id l seg k :
  seg_index seg <> k -> proposal_for (leaf_step ctx tr (propose_inline id) l seg) k = proposal_for l k.
Proof.
  intros Ne. unfold leaf_step, propose_inline, inline_recode. repeat case_match; simplify_eq; try done.
  rewrite proposal_for_upsert. cbn. by rewrite decide_False.
Qed.

Lemma inline_fold_other ctx tr id k xs : forall l,
  Forall (fun s => seg_index s <> k) xs ->
  proposal_for (foldl (leaf_step ctx tr (propose_inline id)) l xs) k = proposal_for l k.
Proof.
  induction xs as [|x xs IH]; intros l F; [done|]. inversion F; subst. cbn [foldl].
  rewrite IH by done. by apply inline_leaf_step_other.
Qed.

(** Only its own step changes a segment's proposal. *)
Lemma inline_fold_at ctx tr id l segments k seg :
  indexed segments -> segments !! k = Some seg ->
  exists l0, proposal_for l0 k = proposal_for l k /\
    proposal_for (foldl (leaf_step ctx tr (propose_inline id)) l segments) k =
    proposal_for (leaf_step ctx tr (propose_inline id) l0 seg) k.
Proof.
  intros Hx Hk. exists (foldl (leaf_step ctx tr (propose_inline id)) l (take k segments)).
  rewrite <- (take_drop_middle _ _ _ Hk) at 2. rewrite foldl_app. cbn [foldl].
  split; [|apply inline_fold_other].
  - apply inline_fold_other, Forall_lookup. intros i s [Hi Hs]%lookup_take_Some. apply Hx in Hi. lia.
  - apply Forall_lookup. intros i s Hi. rewrite lookup_drop in Hi. apply Hx in Hi. lia.
Qed.

(** The text a segment's proposal carries, if it has one. *)
Definition recoded_text (l : PlanLedger) (k : nat) : option rstr :=
  p ← proposal_for l k;
  match prop_strategy p with Recode content _ => Some content | _ => None end.

(** A pass's strict-shrink rule on one string. *)
Definition shrink (tr : rstr -> option rstr) (s : rstr) : rstr :=
  match tr s with Some t => if str_len t <? str_len s then t else s | None => s end.

Lemma shrink_le tr s : str_len (shrink tr s) <= str_len s.
Proof. unfold shrink. repeat case_match; bool_hyps; lia. Qed.

Lemma shrink_lt_or_id tr s : shrink tr s = s \/ str_len (shrink tr s) < str_len s.
Proof. unfold shrink. repeat case_match; bool_hyps; auto. Qed.

(** A segment's text while inline passes thread it: the raw leaf until one of
    them shrinks it, a proposal from then on. *)
Definition threaded (ctx : PassCtx) (seg : Segment) (l : PlanLedger) (raw text : rstr) : Prop :=
  leaf_content <$> recode_leaf (ctx_body ctx) seg l = Some text /\
  recoded_text l (seg_index seg) = (if str_len text <? str_len raw then Some text else None) /\
  (text = raw \/ str_len text < str_len raw).

Lemma threaded_step ctx seg l raw text tr id :
  threaded ctx seg l raw text ->
  threaded ctx seg (leaf_step ctx tr (propose_inline id) l seg) raw (shrink tr text).
Proof.
  intros (R & T & D). unfold leaf_step, shrink. apply fmap_Some in R as (leaf & R & ->). rewrite R.
  assert (Id : threaded ctx seg l raw (leaf_content leaf)) by (split; [by rewrite R | done]).
  destruct (tr _) as [t|]; [|done]. unfold propose_inline, inline_recode.
  destruct (str_len t <? _) eqn:L; [|done]. bool_hyps.
  assert (Lt : str_len t < str_len raw) by (destruct D as [<-|]; lia).
  unfold threaded, recoded_text, recode_leaf in *. rewrite proposal_for_upsert. cbn.
  rewrite decide_True by done. cbn. destruct (pinned seg || _); [done|]. cbn.
  rewrite (proj2 (Z.ltb_lt _ _) Lt). auto.
Qed.

Lemma threaded_ext ctx seg l1 l2 raw text :
  proposal_for l1 (seg_index seg) = proposal_for l2 (seg_index seg) ->
  threaded ctx seg l1 raw text -> threaded ctx seg l2 raw text.
Proof.
  intros E (R & T & D). split; [by rewrite <- (recode_leaf_ext _ _ _ _ E)|]. split; [|done].
  unfold recoded_text in *. by rewrite <- E.
Qed.

(** A whole inline pass threads each segment's text through its transform. *)
Lemma inline_pass_threads ctx k seg l l' raw text tr id c :
  indexed (ctx_segments ctx) -> ctx_segments ctx !! k = Some seg ->
  threaded ctx seg l raw text ->
  apply (leaf_pass id tr (propose_inline id)) ctx l = Some (l', c) ->
  threaded ctx seg l' raw (shrink tr text).
Proof.
  intros Hx Hk T [= <- _]. destruct (inline_fold_at ctx tr id l _ _ _ Hx Hk) as (l0 & E0 & E).
  rewrite <- (Hx _ _ Hk) in E, E0. eapply threaded_ext; [by symmetry|].
  apply threaded_step. by eapply threaded_ext; [symmetry|].
Qed.

Lemma strip_ansi_no_CR s : CR ∉ strip_ansi s.
Proof. intros H'. pose proof (strip_ansi_printable s) as F. rewrite Forall_forall in F. by apply F in H'. Qed.

(** The two filters either shrink a string or leave it alone. *)
Lemma shrink_ansi s : shrink (fun s => Some (strip_ansi s)) s = strip_ansi s.
Proof.
  unfold shrink. destruct (Z.ltb_spec (str_len (strip_ansi s)) (str_len s)) as [|L]; [done|].
  symmetry. apply sublist_str_len_eq; [apply strip_ansi_sublist | done].
Qed.

Lemma shrink_ws s :
  CR ∉ s -> chars_count s < 2 ^ 32 -> shrink (fun s => Some (normalize_ws s)) s = normalize_ws s.
Proof.
  intros N B. unfold shrink. destruct (Z.ltb_spec (str_len (normalize_ws s)) (str_len s)) as [|L]; [done|].
  symmetry. apply sublist_str_len_eq; [by apply normalize_ws_sublist | done].
Qed.

(** The three inline passes of the fast lane, in the preset's order. *)
Definition inline_chain : Pipeline :=
  Pipeline_of [Stage_Pass AnsiStripPass; Stage_Pass WhitespacePass; Stage_Pass JsonMinifyPass].

Lemma inline_chain_run ctx l :
  exists l1 l2 l3, apply AnsiStripPass ctx l = Some (l1, Continue) /\
    apply WhitespacePass ctx l1 = Some (l2, Continue) /\
    apply JsonMinifyPass ctx l2 = Some (l3, Continue) /\
    Runner_run Runner_default inline_chain ctx l = Ok l3.
Proof.
  do 3 eexists. repeat (split; [reflexivity|]). rewrite Runner_run_straight; [reflexivity|].
  repeat constructor; cbn; congruence.
Qed.

(** C8. The fast lane applies the bytes the off-path chain would stage: for a
    tool pair's leaf (shorter than 2^32 characters), [fast_lane_clean] of its
    text is exactly what running ANSI-strip, whitespace-normalise and
    JSON-minify as ledger-threading passes over the whole segment list leaves
    proposed for that segment, and it is nothing exactly when they propose
    nothing. *)
Theorem fast_lane_parity (ctx : PassCtx) (k : nat) (seg : Segment) (leaf : RecodeLeaf) (n : nat) :
  indexed (ctx_segments ctx) -> ctx_segments ctx !! k = Some seg ->
  fast_lane_leaf (ctx_body ctx) seg = Some leaf -> chars_count (leaf_content leaf) < 2 ^ 32 ->
  exists l, Runner_run Runner_default inline_chain ctx (PlanLedger_sized n) = Ok l /\
    recoded_text l k = fast_lane_clean (leaf_content leaf).
Proof.
  intros Hx Hk Hl B. destruct (inline_chain_run ctx (PlanLedger_sized n)) as (l1 & l2 & l3 & A1 & A2 & A3 & R).
  exists l3. split; [exact R|].
  assert (Rl : raw_recode_leaf (ctx_body ctx) seg = Some leaf)
    by (unfold fast_lane_leaf in Hl; by destruct (kind seg)).
  apply raw_recode_leaf_recode in Rl.
  assert (T0 : threaded ctx seg (PlanLedger_sized n) (leaf_content leaf) (leaf_content leaf)).
  { split; [by rewrite (recode_leaf_ext _ _ _ (PlanLedger_sized 0)), Rl|].
    rewrite Z.ltb_irrefl. auto. }
  eapply inline_pass_threads in A1, A2, A3; eauto. rewrite shrink_ansi, shrink_ws in A3.
  - destruct A3 as (_ & A3 & _). rewrite (Hx _ _ Hk) in A3. exact A3.
  - apply strip_ansi_no_CR.
  - unfold chars_count in *. pose proof (sublist_length _ _ (strip_ansi_sublist (leaf_content leaf))). lia.
Qed.
End Threading.

(** ** Structural dedup *)

Section Dedup.
Context `{SerdeJson, FormatCore, Similar}.

(** The text a segment is deduplicated on: its raw leaf, when long enough. *)
Definition dedup_key (body : WireBody) (seg : Segment) : option rstr :=
  leaf ← raw_recode_leaf body seg;
  if str_len (leaf_content leaf) <? DEDUPE_MIN_CHARS then None else Some (leaf_content leaf).

Definition backref_proposal (k : nat) (content : rstr) : Proposal :=
  mkProposal k (Recode [] None) None (Some (as_bytes content))
    (estimate_chars_proxy content - estimate_chars_proxy []) f64_zero DEDUP_BACKREF.

Lemma raw_recode_leaf_fields body seg leaf :
  raw_recode_leaf body seg = Some leaf ->
  leaf_original_tokens leaf = estimate_chars_proxy (leaf_content leaf) /\ carried_ref leaf = None.
Proof.
  unfold raw_recode_leaf, raw_leaf. intros E. destruct (_ || _); [done|].
  destruct (leaf_strings _ _) as [|? [|]]; try done. by case_match; simplify_eq.
Qed.

Lemma dedup_step_spec ctx seen l seg :
  dedup_step ctx (seen, l) seg =
    match dedup_key (ctx_body ctx) seg with
    | None => (seen, l)
    | Some c =>
        if contains c seen then (seen, upsert_proposal l (backref_proposal (seg_index seg) c))
        else (c :: seen, l)
    end.
Proof.
  unfold dedup_step, dedup_key. destruct (raw_recode_leaf _ _) as [leaf|] eqn:R; [|done]. cbn [mbind option_bind].
  destruct (raw_recode_leaf_fields _ _ _ R) as [E C].
  destruct (Z.ltb_spec (str_len (leaf_content leaf)) DEDUPE_MIN_CHARS) as [|L]; [done|].
  unfold DEDUPE_MIN_CHARS in L. destruct (contains _ _); [|done]. unfold ref_recode, recode_proposal.
  change (str_len []) with 0. rewrite (proj2 (Z.ltb_lt 0 _)) by lia. by rewrite E, C.
Qed.

(** The fold over a prefix: what was seen, and which proposals it left alone. *)
Lemma dedup_fold_spec ctx xs : forall seen l,
  let st := foldl (dedup_step ctx) (seen, l) xs in
  (forall c, c ∈ st.1 <-> c ∈ seen \/ c ∈ omap (dedup_key (ctx_body ctx)) xs) /\
  (forall k, Forall (fun s => seg_index s <> k) xs -> proposal_for st.2 k = proposal_for l k).
Proof.
  induction xs as [|x xs IH]; intros seen l; [cbn; set_solver|]. cbn [foldl]. rewrite dedup_step_spec.
  cbn [omap list_omap]. destruct (dedup_key _ x) as [c|].
  - destruct (contains c seen) eqn:C.
    + apply contains_true in C. destruct (IH seen (upsert_proposal l (backref_proposal (seg_index x) c))) as [I1 I2].
      split; [set_solver|]. intros k F. inversion F; subst. rewrite I2, proposal_for_upsert by done.
      cbn. by rewrite decide_False.
    + destruct (IH (c :: seen) l) as [I1 I2]. split; [set_solver|]. intros k F. inversion F; subst. by rewrite I2.
  - destruct (IH seen l) as [I1 I2]. split; [set_solver|]. intros k F. inversion F; subst. by rewrite I2.
Qed.

(** A leaf becomes a backref exactly when an earlier segment carries the
    byte-identical leaf: the pass replaces the segment's proposal by an empty
    body that stores the leaf's own bytes in that case (both leaves unpinned,
    not the user's prose, at least 1024 bytes long), and leaves every other
    segment's proposal as it was, the first occurrence's included. *)
Theorem dedup_backref_spec (ctx : PassCtx) (l : PlanLedger) (k : nat) (seg : Segment) :
  indexed (ctx_segments ctx) -> ctx_segments ctx !! k = Some seg ->
  exists l', apply DedupBackrefPass ctx l = Some (l', Continue) /\
    proposal_for l' k =
      match dedup_key (ctx_body ctx) seg with
      | Some c =>
          if contains c (omap (dedup_key (ctx_body ctx)) (take k (ctx_segments ctx)))
          then Some (backref_proposal k c) else proposal_for l k
      | None => proposal_for l k
      end.
Proof.
  intros Hx Hk. eexists. split; [reflexivity|].
  rewrite <- (take_drop_middle _ _ _ Hk) at 1. rewrite foldl_app. cbn [foldl].
  destruct (dedup_fold_spec ctx (take k (ctx_segments ctx)) [] l) as [Sn P].
  destruct (foldl _ _ (take k _)) as [seen l1]. cbn [fst snd] in Sn, P. rewrite dedup_step_spec.
  assert (P1 : proposal_for l1 k = proposal_for l k).
  { apply P, Forall_lookup. intros i s [Hi Hs]%lookup_take_Some. apply Hx in Hi. lia. }
  assert (F : Forall (fun s => seg_index s <> k) (drop (S k) (ctx_segments ctx))).
  { apply Forall_lookup. intros i s Hi. rewrite lookup_drop in Hi. apply Hx in Hi. lia. }
  destruct (dedup_key _ seg) as [c|].
  - assert (contains c seen = contains c (omap (dedup_key (ctx_body ctx)) (take k (ctx_segments ctx)))) as ->
      by (apply bool_decide_ext; set_solver).
    destruct (contains c _).
    + rewrite (proj2 (dedup_fold_spec _ _ _ _) k F), proposal_for_upsert, (Hx _ _ Hk). cbn. by rewrite decide_True.
    + by rewrite (proj2 (dedup_fold_spec _ _ _ _) k F).
  - by rewrite (proj2 (dedup_fold_spec _ _ _ _) k F).
Qed.
End Dedup.

(** ** The preset *)

Section Preset.
Context `{SerdeJson, FormatCore, Similar}.

Lemma deterministic_keeps : Forall (fun s => match s with Stage_Pass p => keeps_chain p | _ => True end) (stages deterministic).
Proof.
  repeat constructor; try apply ref_pass_keeps; try apply dedup_keeps; try apply seq_diff_keeps;
    apply inline_pass_keeps; intros raw s t E D; simplify_eq; by econstructor.
Qed.

Lemma run_straight_keeps ctx ss : forall l,
  Forall (fun s => match s with Stage_Pass p => keeps_chain p | _ => True end) ss ->
  indexed (ctx_segments ctx) -> chain_inv ctx l ->
  exists l', run_straight ss ctx l = Some l' /\ chain_inv ctx l'.
Proof.
  induction ss as [|s ss IH]; intros l F Hx I; [by exists l|]. inversion F as [|? ? Fs F']; subst.
  destruct s as [p|]; [|by apply IH]. destruct (Fs ctx l Hx I) as (l1 & A & I1).
  cbn [run_straight]. rewrite A. cbn. by apply IH.
Qed.

Lemma deterministic_never_reverts : Forall never_reverts (stages deterministic).
Proof. repeat constructor; intros ctx l l' c E; cbn in E; simplify_eq; done. Qed.

(** C22. The deterministic chain never loses content: over any indexed segment
    list it runs to an end without a panic, and every proposal it leaves
    recodes a leaf that is neither pinned nor the user's own prose, into a
    strictly shorter text; a proposal that stores nothing carries a text the
    inline passes alone derive from the raw leaf, and one that stores bytes
    stores such a text, whatever the passes after the first lossy one did. *)
Theorem deterministic_recoverable (ctx : PassCtx) (n : nat) :
  indexed (ctx_segments ctx) ->
  exists l, Runner_run Runner_default deterministic ctx (PlanLedger_sized n) = Ok l /\
    ledger_ok l /\
    forall p, p ∈ proposals l ->
      exists seg leaf content,
        ctx_segments ctx !! prop_seg_index p = Some seg /\ pinned seg = false /\
        seg_is_true_human seg = false /\ raw_leaf (ctx_body ctx) seg = Some leaf /\
        prop_strategy p = Recode content None /\ str_len content < str_len (leaf_content leaf) /\
        recoverable (leaf_content leaf) (needs_ref p) content.
Proof.
  intros Hx. destruct (run_straight_keeps ctx _ _ deterministic_keeps Hx (chain_inv_empty ctx n)) as (l & R & N & F).
  exists l. rewrite Runner_run_straight, R by apply deterministic_never_reverts.
  split; [done|]. split; [done|]. intros p Hp. rewrite Forall_forall in F.
  destruct (F p Hp) as (seg & leaf & c & ? & ? & ? & ? & ? & _ & ? & ?). by exists seg, leaf, c.
Qed.
End Preset.

(** ** A concrete run *)

Definition no_format : FormatCore :=
  {| IR := unit; decode_ir := fun _ => None; compact_json := fun _ => []; select_encoding := fun _ => None |}.
Definition no_diff : Similar := {| unified_diff := fun _ t => t |}.

(** Two identical tool results, every line ending in blanks. *)
Definition noisy_log : rstr := concat (repeat (str "step done      " ++ [LF]) 80).
Definition recode_body : WireBody :=
  mkWireBody (ModelId_new (str "claude-opus-4-8")) None None
    [human (str "build");
     assistant [tool_use_block (str "tu_1") (str "Bash")];
     user [tool_result_block (str "tu_1") noisy_log];
     assistant [tool_use_block (str "tu_2") (str "Bash")];
     user [tool_result_block (str "tu_2") noisy_log];
     assistant [text_block (str "done")];
     human (str "thanks")]
    4096.

Definition recode_ctx : PassCtx :=
  let _ := scan_json in
  let ctx := sample_ctx in
  mkPassCtx recode_body (segment_prompt recode_body) (ctx_working ctx) (ctx_econ ctx) (ctx_cache ctx)
    (ctx_knobs ctx) (ctx_staged ctx) (ctx_remaining_turns ctx) (ctx_now ctx).

Lemma segment_prompt_indexed `{SerdeJson} body : indexed (segment_prompt body).
Proof.
  intros k s Hk. destruct (segment_prompt_built body) as (bs & _ & E).
  by destruct (segment_prompt_lookup _ _ _ _ E Hk) as (b & _ & ? & _).
Qed.

Lemma fast_lane_parity_witness :
  let _ := scan_json in let _ := no_format in let _ := no_diff in
  exists l c, Runner_run Runner_default inline_chain recode_ctx (PlanLedger_sized 0) = Ok l /\
    recoded_text l 1 = Some c /\ str_len c = 800.
Proof.
  intros J F D.
  destruct (segment_prompt recode_body !! 1%nat) as [seg|] eqn:E; [|vm_compute in E; discriminate].
  destruct (fast_lane_leaf recode_body seg) as [leaf|] eqn:L.
  - destruct (fast_lane_parity recode_ctx 1 seg leaf 0 (segment_prompt_indexed recode_body) E L) as (l & R & P).
    + vm_compute in E. injection E as <-. vm_compute in L. injection L as <-. vm_compute. reflexivity.
    + exists l. vm_compute in E. injection E as <-. vm_compute in L. injection L as <-.
      eexists. split; [exact R|]. rewrite P. split; vm_compute; reflexivity.
  - vm_compute in E. injection E as <-. vm_compute in L. discriminate.
Defined.

Lemma dedup_backref_spec_witness :
  let _ := scan_json in let _ := no_format in let _ := no_diff in
  exists l', apply DedupBackrefPass recode_ctx (PlanLedger_sized 0) = Some (l', Continue) /\
    proposal_for l' 2 = Some (backref_proposal 2 noisy_log).
Proof.
  intros J F D.
  destruct (segment_prompt recode_body !! 2%nat) as [seg|] eqn:E; [|vm_compute in E; discriminate].
  destruct (dedup_backref_spec recode_ctx (PlanLedger_sized 0) 2 seg (segment_prompt_indexed recode_body) E)
    as (l' & A & P).
  exists l'. split; [exact A|]. rewrite P. clear A P. vm_compute in E. injection E as <-.
  vm_compute. reflexivity.
Defined.

Lemma deterministic_recoverable_witness :
  let _ := scan_json in let _ := no_format in let _ := no_diff in
  exists l, Runner_run Runner_default deterministic recode_ctx (PlanLedger_sized 0) = Ok l /\
    ledger_ok l /\ length (proposals l) = 2%nat.
Proof.
  intros J F D.
  destruct (deterministic_recoverable recode_ctx 0 (segment_prompt_indexed recode_body)) as (l & R & N & _).
  exists l. split; [exact R|]. split; [exact N|]. vm_compute in R. injection R as <-. reflexivity.
Defined.
