(* ===== verification/Rewrite.v ===== *)
(** * The owned-bytes splice and the gate behind it

    Models [crates/ccs-policy/src/rewrite.rs] (editing the original request
    bytes in place) and [rewrite_gate.rs] (the post-rewrite validity check).
    [serde_json]'s typed reads and writes of whole values are the parameter
    class [SerdeValue]; a JSON object is its map of fields ([serde_json] is
    built without [preserve_order]), printed by the library. *)
From S2P Require Import Prelude RStr Core Economics Config Wire Segment Policy Targets.

Local Open Scope Z_scope.

(** [serde_json::Value], with the scalars kept apart as their text. *)
Inductive Value :=
| Value_Scalar (lexeme : rstr)
| Value_String (s : rstr)
| Value_Array (vs : list Value)
| Value_Object (fields : gmap rstr Value).

(** The reads and writes of values: [from_str::<Value>], [from_str::<Map>],
    [to_string], [Value]'s [Display], and the raw-preserving maps and arrays
    of the envelope. *)
Class SerdeValue := {
  json_value : rstr -> option Value;
  json_object_fields : rstr -> option (gmap rstr Value);
  value_to_string : Value -> option RawValue;
  value_display : Value -> rstr;
  raw_map : list byte -> option (gmap rstr RawValue);
  raw_map_to_vec : gmap rstr RawValue -> option (list byte);
  raw_array_to_string : list RawValue -> option RawValue;
}.

Record RenderedSegment := mkRenderedSegment { rs_target : SegmentTarget; block_json : rstr }.

Inductive RewriteError := ParseEnvelope | TargetOutOfRange | Serialize.
#[export] Instance RewriteError_eq_dec : EqDecision RewriteError.
Proof. solve_decision. Defined.

Record Spliced := mkSpliced { spliced_bytes : list byte; suppressed_breakpoints : nat }.

Definition HINT : rstr := quoted (str "cache_control").
Definition CACHE_CONTROL : rstr := str "cache_control".
Definition MESSAGES : rstr := str "messages".
Definition CONTENT : rstr := str "content".

(** [json!({"type": "ephemeral"})] *)
Definition ephemeral : Value := Value_Object {[ str "type" := Value_String (str "ephemeral") ]}.

(** ** The splice ([rewrite.rs]) *)

Definition has_hint_raw (raw : RawValue) : bool := bool_decide (is_Some (find_sub HINT raw)).

Definition count_hints_raw (raw : option RawValue) : nat :=
  match raw with Some r => count_sub HINT r | None => 0 end.

Definition add_hint_block (block : Value) : Value :=
  match block with Value_Object m => Value_Object (<[CACHE_CONTROL := ephemeral]> m) | _ => block end.

Definition strip_hint_block (block : Value) : Value :=
  match block with Value_Object m => Value_Object (delete CACHE_CONTROL m) | _ => block end.

Definition set_hint (content : Value) (wants_hint : bool) : result RewriteError Value :=
  match content with
  | Value_Array bs =>
      let bs := strip_hint_block <$> bs in
      if wants_hint then
        match rev bs with
        | [] => Err TargetOutOfRange
        | lastb :: init => Ok (Value_Array (rev init ++ [add_hint_block lastb]))
        end
      else Ok (Value_Array bs)
  | Value_String text =>
      if wants_hint then
        Ok (Value_Array [Value_Object (<[str "type" := Value_String (str "text")]>
              (<[str "text" := Value_String text]> {[ CACHE_CONTROL := ephemeral ]}))])
      else Ok content
  | _ => Ok content
  end.

Section Splice.
Context `{SerdeJson, SerdeValue}.

(** One target written over the message's content. *)
Definition write_target (content : Value) (seg : RenderedSegment) : result RewriteError Value :=
  block ← ok_or Serialize (json_value (block_json seg));
  match target_block (rs_target seg), content with
  | None, _ => Ok block
  | Some b, Value_Array bs =>
      match bs !! b with
      | Some _ => Ok (Value_Array (<[b := block]> bs))
      | None => Err TargetOutOfRange
      end
  | Some _, _ => Err TargetOutOfRange
  end.

Fixpoint write_targets (content : Value) (segs : list RenderedSegment) : result RewriteError Value :=
  match segs with
  | [] => Ok content
  | seg :: segs => content ← write_target content seg; write_targets content segs
  end.

Definition targets_of (index : nat) (segments : list RenderedSegment) : list RenderedSegment :=
  filterb (fun s => (target_message (rs_target s) =? index)%nat) segments.

Definition edit_message (index : nat) (raw : RawValue) (segments : list RenderedSegment) (wants_hint : bool)
    : result RewriteError RawValue :=
  let targets := targets_of index segments in
  if is_empty targets && negb wants_hint && negb (has_hint_raw raw) then Ok raw
  else
    msg ← ok_or ParseEnvelope (json_object_fields raw);
    content ← ok_or ParseEnvelope (msg !! CONTENT);
    content ← write_targets content targets;
    content ← set_hint content wants_hint;
    ok_or Serialize (value_to_string (Value_Object (<[CONTENT := content]> msg))).

(** [enumerate().map(..).collect::<Result<..>>()] *)
Fixpoint edit_messages (index : nat) (raws : list RawValue) (segments : list RenderedSegment) (kept : list nat)
    : result RewriteError (list RawValue) :=
  match raws with
  | [] => Ok []
  | raw :: raws =>
      raw ← edit_message index raw segments (contains index kept);
      raws ← edit_messages (S index) raws segments kept;
      Ok (raw :: raws)
  end.

Definition prefix_hints (body : WireBody) : nat :=
  (count_hints_raw (body_system body) + count_hints_raw (body_tools body))%nat.

Definition effective_cap (body : WireBody) : nat := (CACHE_HINT_CAP - prefix_hints body)%nat.

Definition wanted_positions (plan : BreakpointPlan) (count : nat) : list nat :=
  filterb (fun p => (p <? count)%nat) (positions plan).

Definition splice (original : list byte) (body : WireBody) (segments : list RenderedSegment)
    (plan : BreakpointPlan) : result RewriteError Spliced :=
  envelope ← ok_or ParseEnvelope (raw_map original);
  m ← ok_or ParseEnvelope (envelope !! MESSAGES);
  raw_messages ← ok_or ParseEnvelope (json_array m);
  let wanted := wanted_positions plan (length raw_messages) in
  let kept := cap_cache_hints_to wanted (effective_cap body) in
  let suppressed := (length wanted - length kept)%nat in
  msgs ← edit_messages 0 raw_messages segments kept;
  text ← ok_or Serialize (raw_array_to_string msgs);
  bytes ← ok_or Serialize (raw_map_to_vec (<[MESSAGES := text]> envelope));
  Ok (mkSpliced bytes suppressed).
End Splice.

(** ** The gate ([rewrite_gate.rs]) *)

Inductive GateError :=
| Reparse
| ToolPairBroken
| RoleDropped
| TooManyBreakpoints (count : nat)
| GrewInsteadOfShrank
| ThinkingMutated
| EnvelopeKeyDropped.
#[export] Instance GateError_eq_dec : EqDecision GateError.
Proof. solve_decision. Defined.

Section Gate.
Context `{SerdeJson, SerdeValue}.

Definition check (b : bool) (e : GateError) : result GateError unit := if b then Ok tt else Err e.

Definition all_blocks (body : WireBody) : list ContentBlock :=
  concat ((fun m => blocks (content m)) <$> messages body).

Definition use_ids (body : WireBody) : gset rstr :=
  list_to_set (omap tool_use_id (filterb is_client_tool_use (all_blocks body))).
Definition result_ids (body : WireBody) : gset rstr :=
  list_to_set (omap tool_use_id (filterb is_tool_result (all_blocks body))).

Definition check_tool_pairs (body : WireBody) : result GateError unit :=
  check (bool_decide (use_ids body = result_ids body)) ToolPairBroken.

Definition check_roles (original new : WireBody) : result GateError unit :=
  check (bool_decide (role <$> messages original = role <$> messages new)) RoleDropped.

Definition check_hint_cap (rewritten : list byte) : result GateError unit :=
  let count := count_sub (as_bytes HINT) rewritten in
  check (count <=? CACHE_HINT_CAP)%nat (TooManyBreakpoints count).

Definition msg_spans (body : WireBody) : list RawValue :=
  concat ((fun m => raws (content m)) <$> messages body).

Definition span_pairs_shrink (original new : list RawValue) : bool :=
  allb (fun p => str_len p.2 <=? str_len p.1) (zip original new).

Definition check_shrink (original new : WireBody) : result GateError unit :=
  if raws_len (msg_spans original) <=? raws_len (msg_spans new) then Err GrewInsteadOfShrank
  else check (span_pairs_shrink (msg_spans original) (msg_spans new)) GrewInsteadOfShrank.

Definition is_thinking (b : ContentBlock) : bool :=
  match b with Block_Thinking _ | Block_RedactedThinking _ => true | _ => false end.

Definition latest_assistant_thinking (body : WireBody) : list RawValue :=
  match List.find (fun m => bool_decide (role m = Role_Assistant)) (rev (messages body)) with
  | Some m => block_raw <$> filterb is_thinking (blocks (content m))
  | None => []
  end.

Definition check_thinking (rewritten : list byte) (original : WireBody) : result GateError unit :=
  check (allb (fun span => bool_decide (is_Some (find_sub (as_bytes span) rewritten)))
           (latest_assistant_thinking original)) ThinkingMutated.

Definition required_keys (original : WireBody) : list rstr :=
  [str "model"; str "max_tokens"; str "messages"]
  ++ match body_system original with Some _ => [str "system"] | None => [] end
  ++ match body_tools original with Some _ => [str "tools"] | None => [] end.

Definition check_envelope_keys (rewritten : list byte) (original : WireBody) : result GateError unit :=
  keys ← ok_or Reparse (raw_map rewritten);
  check (allb (fun k => bool_decide (is_Some (keys !! k))) (required_keys original)) EnvelopeKeyDropped.

Definition validate (rewritten : list byte) (original : WireBody) : result GateError unit :=
  new ← ok_or Reparse (parse_body rewritten);
  _ ← check_tool_pairs new;
  _ ← check_roles original new;
  _ ← check_hint_cap rewritten;
  _ ← check_shrink original new;
  _ ← check_thinking rewritten original;
  check_envelope_keys rewritten original.
End Gate.

(** ** A concrete instance for the examples

    A scanner that splits an object or array at its top-level commas; printing
    succeeds when the scanner reads the print back. *)

Fixpoint split_top (depth : nat) (in_str : bool) (cur : rstr) (s : rstr) : list rstr :=
  match s with
  | [] => match cur with [] => [] | _ => [rev cur] end
  | c :: s =>
      if c =? DQUOTE then split_top depth (negb in_str) (c :: cur) s
      else if in_str then split_top depth in_str (c :: cur) s
      else if (c =? 91) || (c =? 123) then split_top (S depth) in_str (c :: cur) s
      else if (c =? 93) || (c =? 125) then split_top (pred depth) in_str (c :: cur) s
      else if (c =? 44) && (depth =? 0)%nat then rev cur :: split_top depth in_str [] s
      else split_top depth in_str (c :: cur) s
  end.

Definition scan_array (s : rstr) : option (list rstr) :=
  inner ← strip_prefix (str "[") s ≫= strip_suffix (str "]");
  Some (split_top 0 false [] inner).

Definition scan_field (item : rstr) : option (rstr * rstr) :=
  rest ← strip_prefix [DQUOTE] item;
  '(key, rest) ← split_once DQUOTE rest;
  v ← strip_prefix (str ":") rest;
  Some (key, v).

Definition scan_fields (s : rstr) : option (gmap rstr rstr) :=
  inner ← strip_prefix (str "{") s ≫= strip_suffix (str "}");
  fields ← mapM scan_field (split_top 0 false [] inner);
  Some (list_to_map fields).

Definition print_fields (fields : list (rstr * rstr)) : rstr :=
  str "{" ++ join (str ",") ((fun f => quoted f.1 ++ str ":" ++ f.2) <$> fields) ++ str "}".
Definition print_array (items : list rstr) : rstr := str "[" ++ join (str ",") items ++ str "]".

Fixpoint scan_value (depth : nat) (s : rstr) : Value :=
  match depth with
  | O => Value_Scalar s
  | S depth =>
      match scan_fields s, scan_array s with
      | Some m, _ => Value_Object (scan_value depth <$> m)
      | None, Some items => Value_Array (scan_value depth <$> items)
      | None, None =>
          match strip_prefix [DQUOTE] s ≫= strip_suffix [DQUOTE] with
          | Some t => Value_String t
          | None => Value_Scalar s
          end
      end
  end.

(** The scanner knows no escapes: an apostrophe stands for a quote. *)
Definition unquote (s : rstr) : rstr := (fun c => if c =? DQUOTE then 39 else c) <$> s.

Fixpoint print_value (depth : nat) (v : Value) : rstr :=
  match depth with
  | O => []
  | S depth =>
      match v with
      | Value_Scalar s => s
      | Value_String s => quoted (unquote s)
      | Value_Array vs => print_array (print_value depth <$> vs)
      | Value_Object m => print_fields (map_to_list (print_value depth <$> m))
      end
  end.

Definition scan_depth : nat := 6.

Definition scan_envelope (bytes : list byte) : option EnvelopeFields :=
  m ← scan_fields (utf8_decode bytes);
  model ← m !! str "model"; model ← strip_prefix [DQUOTE] model; model ← strip_suffix [DQUOTE] model;
  max ← m !! str "max_tokens" ≫= parse_usize;
  raws ← m !! str "messages" ≫= scan_array;
  msgs ← mapM (fun raw => f ← scan_fields raw; r ← f !! str "role"; c ← f !! CONTENT;
                 r ← strip_prefix [DQUOTE] r ≫= strip_suffix [DQUOTE]; Some (r, c)) raws;
  Some (mkEnvelopeFields model (m !! str "system") (m !! str "tools") msgs (Z.of_nat max)).

Definition scan_serde : SerdeJson := {|
  json_envelope := scan_envelope;
  json_string := @json_string scan_json;
  json_array := scan_array;
  json_type_tag := @json_type_tag scan_json;
  json_id_fields := @json_id_fields scan_json;
  json_text_field := @json_text_field scan_json;
  json_result_text := @json_result_text scan_json;
  json_result_fields := @json_result_fields scan_json;
|}.

Definition scan_values : SerdeValue := {|
  json_value := fun s => Some (scan_value scan_depth s);
  json_object_fields := fun s =>
    match scan_fields s with Some m => Some (fmap (M:=gmap rstr) (scan_value scan_depth) m) | None => None end;
  value_to_string := fun v => Some (print_value scan_depth v);
  value_display := print_value scan_depth;
  raw_map := fun bytes => scan_fields (utf8_decode bytes);
  raw_map_to_vec := fun m =>
    let bytes := as_bytes (print_fields (map_to_list m)) in
    if decide (scan_fields (utf8_decode bytes) = Some m) then Some bytes else None;
  raw_array_to_string := fun rs =>
    let text := print_array rs in if decide (scan_array text = Some rs) then Some text else None;
|}.

(** ** The library laws the splice relies on *)

Section Laws.
Context `{SerdeJson, SerdeValue}.

(** What is printed raw is read back raw. *)
Definition raw_map_law : Prop := forall m bytes, raw_map_to_vec m = Some bytes -> raw_map bytes = Some m.
Definition raw_array_law : Prop := forall rs text, raw_array_to_string rs = Some text -> json_array text = Some rs.
End Laws.

Lemma scan_raw_map_law : @raw_map_law scan_values.
Proof. intros m bytes E. cbn in E. case_decide; simplify_eq. done. Qed.
Lemma scan_raw_array_law : @raw_array_law scan_serde scan_values.
Proof. intros rs text E. cbn in E. case_decide; simplify_eq. done. Qed.

(** ** What the splice changes *)

Section SpliceSpec.
Context `{SerdeJson, SerdeValue}.

Lemma ok_or_Ok {E A} (e : E) (o : option A) a : ok_or e o = Ok a <-> o = Some a.
Proof. destruct o; cbn; split; congruence. Qed.

Lemma result_bind_Ok {E A B} (r : result E A) (f : A -> result E B) b :
  r ≫= f = Ok b <-> exists a, r = Ok a /\ f a = Ok b.
Proof. destruct r; cbn; split; [eauto | naive_solver | done | naive_solver]. Qed.

Lemma edit_messages_spec segments kept raws : forall index out,
  edit_messages index raws segments kept = Ok out ->
  length out = length raws /\
  forall i raw, raws !! i = Some raw ->
    exists raw', out !! i = Some raw' /\
      edit_message (index + i) raw segments (contains (index + i)%nat kept) = Ok raw'.
Proof.
  induction raws as [|raw raws IH]; intros index out E; cbn [edit_messages] in E; [by simplify_eq|].
  apply result_bind_Ok in E as (raw' & E1 & E). apply result_bind_Ok in E as (out' & E2 & E). simplify_eq.
  destruct (IH _ _ E2) as [L P]. split; [cbn; by rewrite L|].
  intros [|i] r Hr; simplify_eq/=; [rewrite Nat.add_0_r; eauto|].
  destruct (P i r Hr) as (r' & ? & ?). exists r'. by rewrite Nat.add_succ_r.
Qed.

Lemma edit_message_untouched i raw segments :
  targets_of i segments = [] -> has_hint_raw raw = false -> edit_message i raw segments false = Ok raw.
Proof. unfold edit_message. intros -> ->. done. Qed.

Lemma cap_cache_hints_to_suffix ps cap :
  exists dropped, ps = dropped ++ cap_cache_hints_to ps cap /\
    length (cap_cache_hints_to ps cap) = Nat.min (length ps) cap.
Proof.
  unfold cap_cache_hints_to. destruct (Nat.leb_spec (length ps) cap); [exists []; split; [done | lia]|].
  exists (take (length ps - cap) ps). rewrite take_drop, length_drop. split; [done | lia].
Qed.

Lemma targets_of_none i segs :
  Forall (fun s => target_message (rs_target s) <> i) segs -> targets_of i segs = [].
Proof.
  unfold targets_of. induction 1 as [|s segs N _ IH]; [done|]. cbn [filterb].
  apply Nat.eqb_neq in N. by rewrite N.
Qed.

(** C5. The splice edits only what it must: when it succeeds, the rewritten
    request is the original envelope with only [messages] replaced; the message
    list has the same length, each message is its edit, and a message with no
    target, no hint to carry and no hint to shed is its verbatim span.  The
    hints it keeps are the last of the wanted positions, with the prefix's own
    hints never more than the cap allows, and every other wanted position is
    counted as suppressed. *)
Theorem splice_edits_in_place (original : list byte) (body : WireBody) (segments : list RenderedSegment)
    (plan : BreakpointPlan) (s : Spliced) :
  raw_map_law -> raw_array_law ->
  splice original body segments plan = Ok s ->
  exists env env' m m' raws raws' kept dropped,
    raw_map original = Some env /\ raw_map (spliced_bytes s) = Some env' /\
    delete MESSAGES env' = delete MESSAGES env /\
    env !! MESSAGES = Some m /\ env' !! MESSAGES = Some m' /\
    json_array m = Some raws /\ json_array m' = Some raws' /\ length raws' = length raws /\
    wanted_positions plan (length raws) = dropped ++ kept /\
    (length kept <= CACHE_HINT_CAP - prefix_hints body)%nat /\
    suppressed_breakpoints s = length dropped /\
    (forall i raw, raws !! i = Some raw ->
       exists raw', raws' !! i = Some raw' /\ edit_message i raw segments (contains i kept) = Ok raw' /\
         (Forall (fun s => target_message (rs_target s) <> i) segments -> i ∉ kept -> has_hint_raw raw = false ->
          raw' = raw)).
Proof.
  intros Lm La E. unfold splice in E.
  apply result_bind_Ok in E as (env & E1%ok_or_Ok & E). apply result_bind_Ok in E as (m & E2%ok_or_Ok & E).
  apply result_bind_Ok in E as (raws & E3%ok_or_Ok & E). apply result_bind_Ok in E as (raws' & E4 & E).
  apply result_bind_Ok in E as (m' & E5%ok_or_Ok & E). apply result_bind_Ok in E as (bytes & E6%ok_or_Ok & E).
  destruct (edit_messages_spec _ _ _ _ _ E4) as [L P].
  destruct (cap_cache_hints_to_suffix (wanted_positions plan (length raws)) (effective_cap body)) as (dr & Ed & Lk).
  set (kept := cap_cache_hints_to _ _) in *. injection E as <-.
  exists env, (<[MESSAGES := m']> env), m, m', raws, raws', kept, dr.
  split; [done|]. split; [by apply Lm|]. split; [by rewrite delete_insert_eq|]. split; [done|].
  split; [by rewrite lookup_insert_eq|]. split; [done|]. split; [by apply La|]. split; [done|].
  split; [exact Ed|]. split; [rewrite Lk; unfold effective_cap; lia|].
  split; [cbn [suppressed_breakpoints]; apply (f_equal length) in Ed; rewrite length_app in Ed; lia|].
  intros i raw Hi. destruct (P i raw Hi) as (raw' & Hr & He). exists raw'. split; [done|]. split; [done|].
  intros T%targets_of_none K Nh. apply contains_false in K. change (0 + i)%nat with i in He.
  rewrite K, (edit_message_untouched _ _ _ T Nh) in He. by injection He.
Qed.

(** The blocks of an array that carry a cache hint. *)
Definition hinted (v : Value) : bool :=
  match v with Value_Object m => bool_decide (is_Some (m !! CACHE_CONTROL)) | _ => false end.

Lemma strip_hint_hinted v : hinted (strip_hint_block v) = false.
Proof.
  destruct v; try done. apply bool_decide_eq_false_2. rewrite lookup_delete_eq.
  by intros [? ?].
Qed.

Lemma set_hint_array bs wants content' :
  set_hint (Value_Array bs) wants = Ok content' ->
  exists bs', content' = Value_Array bs' /\ length bs' = length bs /\
    forall j b, bs !! j = Some b ->
      bs' !! j = Some (if wants && (S j =? length bs)%nat then add_hint_block (strip_hint_block b)
                       else strip_hint_block b).
Proof.
  cbn [set_hint]. destruct wants; intros E.
  - destruct (rev (strip_hint_block <$> bs)) as [|lb ini] eqn:R; simplify_eq.
    apply (f_equal (@rev Value)) in R. rewrite rev_involutive in R. cbn [rev] in R.
    exists (rev ini ++ [add_hint_block lb]). split; [done|].
    pose proof (f_equal length R) as L. rewrite length_fmap, length_app in L. cbn in L.
    split; [rewrite length_app; cbn; lia|]. intros j b Hb. cbn [andb].
    assert (Hs : (rev ini ++ [lb]) !! j = Some (strip_hint_block b)) by by rewrite <- R, list_lookup_fmap, Hb.
    destruct (Nat.eqb_spec (S j) (length bs)) as [Ej|Nj].
    + assert (j = length (rev ini)) as -> by lia.
      rewrite lookup_app_r, Nat.sub_diag in Hs |- * by lia. cbn in Hs |- *. by simplify_eq.
    + apply lookup_lt_Some in Hb. rewrite lookup_app_l in Hs |- * by lia. done.
  - simplify_eq. eexists. split; [done|]. split; [by rewrite length_fmap|].
    intros j b Hb. by rewrite list_lookup_fmap, Hb.
Qed.

Definition targets_block (j : nat) (seg : RenderedSegment) : bool :=
  bool_decide (target_block (rs_target seg) = Some j).

(** A block after its targets: its own value, or the value of one of them. *)
Definition written (segs : list RenderedSegment) (j : nat) (b b' : Value) : Prop :=
  (b' = b /\ anyb (targets_block j) segs = false) \/
  exists seg, seg ∈ segs /\ targets_block j seg = true /\ json_value (block_json seg) = Some b'.

Lemma write_targets_array segs : forall bs content',
  Forall (fun s => is_Some (target_block (rs_target s))) segs ->
  write_targets (Value_Array bs) segs = Ok content' ->
  exists bs', content' = Value_Array bs' /\ length bs' = length bs /\
    forall j b, bs !! j = Some b -> exists b', bs' !! j = Some b' /\ written segs j b b'.
Proof.
  induction segs as [|seg segs IH]; intros bs content' F E; cbn [write_targets] in E.
  { simplify_eq. exists bs. split; [done|]. split; [done|]. intros j b Hb. exists b. split; [done|]. by left. }
  inversion F as [|? ? [t Ht] F']; subst. apply result_bind_Ok in E as (c & E1 & E).
  unfold write_target in E1. apply result_bind_Ok in E1 as (v & Ev%ok_or_Ok & E1). rewrite Ht in E1.
  destruct (bs !! t) as [old|] eqn:Eo; simplify_eq.
  destruct (IH _ _ F' E) as (bs' & -> & L & P). rewrite length_insert in L.
  exists bs'. split; [done|]. split; [done|]. intros j b Hb. destruct (decide (t = j)) as [->|N].
  - destruct (P j v) as (b' & Hb' & W); [apply list_lookup_insert_eq; by eapply lookup_lt_Some|].
    exists b'. split; [done|]. right. destruct W as [[-> _]|(s' & Hs & T & V)].
    + exists seg. split; [by left|]. split; [by apply bool_decide_eq_true|done].
    + exists s'. split; [by right|]. done.
  - destruct (P j b) as (b' & Hb' & W); [by rewrite list_lookup_insert_ne|].
    exists b'. split; [done|]. destruct W as [[-> A]|(s' & Hs & T & V)].
    + left. split; [done|]. cbn. rewrite A, orb_false_r. unfold targets_block.
      apply bool_decide_eq_false. rewrite Ht. congruence.
    + right. exists s'. split; [by right|]. done.
Qed.

(** C30. Editing a message with an array of blocks keeps everything but the
    blocks it targets: the rewritten message has the original's fields with
    only [content] replaced, as many blocks in the same order, every untargeted
    block as it was but for its cache hint, every targeted block with a value
    one of its targets rendered, and no cache hint anywhere but on the last
    block of a message that was asked to carry one. *)
Theorem edit_message_frame (i : nat) (raw : RawValue) (segs : list RenderedSegment) (wants : bool)
    (msg : gmap rstr Value) (bs : list Value) (raw' : RawValue) :
  json_object_fields raw = Some msg -> msg !! CONTENT = Some (Value_Array bs) ->
  targets_of i segs <> [] \/ wants = true \/ has_hint_raw raw = true ->
  Forall (fun s => is_Some (target_block (rs_target s))) (targets_of i segs) ->
  edit_message i raw segs wants = Ok raw' ->
  exists bs', value_to_string (Value_Object (<[CONTENT := Value_Array bs']> msg)) = Some raw' /\
    length bs' = length bs /\
    (forall j b', bs' !! j = Some b' -> hinted b' = true -> wants = true /\ S j = length bs) /\
    (forall j b, bs !! j = Some b ->
       exists b1, written (targets_of i segs) j b b1 /\
         bs' !! j = Some (if wants && (S j =? length bs)%nat then add_hint_block (strip_hint_block b1)
                          else strip_hint_block b1)).
Proof.
  intros Hm Hc T F E. unfold edit_message in E.
  assert (is_empty (targets_of i segs) && negb wants && negb (has_hint_raw raw) = false) as G
    by (destruct T as [T|[->| ->]]; [by destruct (targets_of i segs) | |]; by rewrite ?andb_false_r).
  rewrite G, Hm in E. cbn [ok_or mbind result_bind] in E. rewrite Hc in E. cbn [ok_or mbind result_bind] in E.
  apply result_bind_Ok in E as (c1 & E1 & E). apply result_bind_Ok in E as (c2 & E2 & E%ok_or_Ok).
  destruct (write_targets_array _ _ _ F E1) as (bs1 & -> & L1 & P1).
  destruct (set_hint_array _ _ _ E2) as (bs2 & -> & L2 & P2). rewrite L1 in L2, P2.
  exists bs2. split; [done|]. split; [done|]. split.
  - intros j b' Hb' Hh. destruct (bs1 !! j) as [b1|] eqn:Eb.
    + rewrite (P2 j b1 Eb) in Hb'. destruct (wants && (S j =? length bs)%nat) eqn:W; [by bool_hyps|].
      simplify_eq. by rewrite strip_hint_hinted in Hh.
    + apply lookup_ge_None in Eb. apply lookup_lt_Some in Hb'. lia.
  - intros j b Hb. destruct (P1 j b Hb) as (b1 & Hb1 & W). exists b1. split; [done | by apply P2].
Qed.
End SpliceSpec.

(** ** What the gate lets through *)

Section GateSpec.
Context `{SerdeJson, SerdeValue}.

Lemma check_Ok b e : check b e = Ok tt <-> b = true.
Proof. unfold check. destruct b; split; congruence. Qed.

Lemma result_seq_Ok {E A} (r : result E unit) (k : result E A) a :
  (r ≫= fun _ => k) = Ok a <-> r = Ok tt /\ k = Ok a.
Proof. destruct r as [[]|]; cbn; naive_solver. Qed.

(** Everything a body must have to be sent in place of [original]. *)
Record safe_rewrite (rewritten : list byte) (original new : WireBody) : Prop := {
  safe_pairs : use_ids new = result_ids new;
  safe_roles : role <$> messages new = role <$> messages original;
  safe_hints : (count_sub (as_bytes HINT) rewritten <= CACHE_HINT_CAP)%nat;
  safe_total : raws_len (msg_spans new) < raws_len (msg_spans original);
  safe_spans : forall i o n, msg_spans original !! i = Some o -> msg_spans new !! i = Some n -> str_len n <= str_len o;
  safe_thinking : forall span, span ∈ latest_assistant_thinking original ->
    exists a b, rewritten = a ++ as_bytes span ++ b;
  safe_keys : exists keys, raw_map rewritten = Some keys /\
    forall k, k ∈ required_keys original -> is_Some (keys !! k);
}.

Lemma find_sub_spec p s : is_Some (find_sub p s) <-> exists a b, s = a ++ p ++ b.
Proof.
  split.
  - intros [n E]. revert n E. induction s as [|c s IH]; intros n E; cbn [find_sub] in E.
    + destruct (starts_with p []) eqn:W; [|done]. apply starts_with_spec in W as (t & ->). by exists [], t.
    + destruct (starts_with p (c :: s)) eqn:W.
      * apply starts_with_spec in W as (t & ->). by exists [], t.
      * destruct (find_sub p s) as [k|] eqn:F; [|done]. destruct (IH k eq_refl) as (a & b & ->). by exists (c :: a), b.
  - intros (a & b & ->). induction a as [|c a IH]; cbn [app].
    + assert (W : starts_with p (p ++ b) = true) by (apply starts_with_spec; eauto).
      destruct (p ++ b) eqn:E; cbn [find_sub]; rewrite W; eauto.
    + cbn [find_sub]. destruct (starts_with p _); [eauto|]. destruct IH as [k ->]. eauto.
Qed.

Lemma span_pairs_shrink_spec os ns :
  span_pairs_shrink os ns = true <->
  forall i o n, os !! i = Some o -> ns !! i = Some n -> str_len n <= str_len o.
Proof.
  unfold span_pairs_shrink. rewrite allb_spec. split.
  - intros A i o n Ho Hn. apply Z.leb_le, (A (o, n)), (list_elem_of_lookup_2 _ i).
    rewrite lookup_zip_with, Ho, Hn. done.
  - intros A [o n] Hx. apply list_elem_of_lookup in Hx as (i & Hx).
    rewrite lookup_zip_with in Hx. destruct (os !! i) eqn:Ho; [|done]. destruct (ns !! i) eqn:Hn; [|done].
    simplify_eq/=. apply Z.leb_le. by eapply A.
Qed.

Lemma check_shrink_Ok original new :
  check_shrink original new = Ok tt <->
  raws_len (msg_spans new) < raws_len (msg_spans original) /\
  forall i o n, msg_spans original !! i = Some o -> msg_spans new !! i = Some n -> str_len n <= str_len o.
Proof.
  unfold check_shrink. rewrite <- span_pairs_shrink_spec.
  destruct (Z.leb_spec (raws_len (msg_spans original)) (raws_len (msg_spans new))) as [L|L].
  - split; [done|]. intros [? _]. lia.
  - rewrite check_Ok. naive_solver.
Qed.

Lemma check_thinking_Ok rewritten original :
  check_thinking rewritten original = Ok tt <->
  forall span, span ∈ latest_assistant_thinking original -> exists a b, rewritten = a ++ as_bytes span ++ b.
Proof.
  unfold check_thinking. rewrite check_Ok, allb_spec.
  split; intros A span Hs; specialize (A span Hs); [apply bool_decide_eq_true in A | apply bool_decide_eq_true];
    by apply find_sub_spec.
Qed.

Lemma check_envelope_keys_Ok rewritten original :
  check_envelope_keys rewritten original = Ok tt <->
  exists keys, raw_map rewritten = Some keys /\ forall k, k ∈ required_keys original -> is_Some (keys !! k).
Proof.
  unfold check_envelope_keys. destruct (raw_map rewritten) as [keys|]; cbn [ok_or mbind result_bind].
  - rewrite check_Ok, allb_spec. split.
    + intros A. exists keys. split; [done|]. intros k Hk. by apply (bool_decide_eq_true _), A.
    + intros (? & [= <-] & A) k Hk. by apply bool_decide_eq_true, A.
  - split; [done|]. by intros (? & ? & _).
Qed.

Lemma validate_iff rewritten original :
  validate rewritten original = Ok tt <->
  exists new, parse_body rewritten = Some new /\ safe_rewrite rewritten original new.
Proof.
  unfold validate. rewrite result_bind_Ok. setoid_rewrite ok_or_Ok.
  apply exist_proper. intros new. apply and_iff_compat_l.
  rewrite !result_seq_Ok, check_shrink_Ok, check_thinking_Ok, check_envelope_keys_Ok.
  unfold check_tool_pairs, check_roles, check_hint_cap.
  rewrite !check_Ok, !bool_decide_eq_true, Nat.leb_le.
  split; [intros (? & ? & ? & [? ?] & ? & ?); by split | intros []; auto 10].
Qed.

End GateSpec.

(** ** A concrete splice *)

Definition wire_message (r c : rstr) : rstr :=
  print_fields [(str "role", quoted r); (CONTENT, c)].
Definition result_json (out : rstr) : rstr :=
  block_raw (tool_result_block (str "tu_1") out).
Definition splice_request (out : rstr) : list byte :=
  as_bytes (print_fields
    [(str "max_tokens", str "4096");
     (MESSAGES, print_array
        [wire_message (str "user") (quoted (str "build"));
         wire_message (str "assistant") (print_array [block_raw (tool_use_block (str "tu_1") (str "Bash"))]);
         wire_message (str "user") (print_array [result_json out])]);
     (str "model", quoted (str "claude-opus-4-8"))]).

Definition splice_targets : list RenderedSegment :=
  [mkRenderedSegment (mkSegmentTarget 2 (Some 0%nat)) (result_json (str "squashed"))].
Definition long_output : rstr := replicate 60 97.

Example splice_then_validate :
  let _ := scan_serde in let _ := scan_values in
  (body ← parse_body (splice_request long_output);
   s ← ok (splice (splice_request long_output) body splice_targets (mkBreakpointPlan []));
   Some (validate (spliced_bytes s) body, validate (splice_request long_output) body)) =
  Some (Ok tt, Err GrewInsteadOfShrank).
Proof. vm_compute. reflexivity. Qed.

Lemma splice_edits_in_place_witness :
  let _ := scan_serde in let _ := scan_values in
  exists s env' m' raws', raw_map (spliced_bytes s) = Some env' /\ env' !! MESSAGES = Some m' /\
    json_array m' = Some raws' /\ length raws' = 3%nat /\
    raws' !! 0%nat = Some (wire_message (str "user") (quoted (str "build"))).
Proof.
  intros J V. destruct (parse_body (splice_request long_output)) as [body|] eqn:P.
  2:{ vm_compute in P. discriminate. }
  destruct (splice (splice_request long_output) body splice_targets (mkBreakpointPlan [])) as [s|e] eqn:E.
  - destruct (splice_edits_in_place _ body splice_targets (mkBreakpointPlan []) s
      scan_raw_map_law scan_raw_array_law E)
      as (env & env' & m & m' & raws & raws' & kept & dropped & Em & Em' & _ & Hm & Hm' & Ha & Ha' & L & W & _ & _ & F).
    exists s, env', m', raws'. split; [exact Em'|]. split; [exact Hm'|]. split; [exact Ha'|].
    assert (X : (env ← @raw_map scan_values (splice_request long_output); m ← env !! MESSAGES; @json_array scan_serde m) = Some raws)
      by (rewrite Em; cbn [mbind option_bind]; rewrite Hm; exact Ha).
    vm_compute in X. injection X as <-.
    split; [exact L|]. destruct (F 0%nat _ eq_refl) as (raw' & Hr & _ & U). rewrite Hr, U; [reflexivity | | | reflexivity].
    { unfold splice_targets. repeat constructor; discriminate. }
    symmetry in W. apply app_eq_nil in W as [_ ->]. apply not_elem_of_nil.
  - vm_compute in P. injection P as <-. vm_compute in E. discriminate.
Defined.

Definition edited_message : RawValue := wire_message (str "user") (print_array [result_json long_output]).
Definition array_items (v : option Value) : list Value :=
  match v with Some (Value_Array bs) => bs | _ => [] end.

Lemma edit_message_frame_witness :
  let _ := scan_serde in let _ := scan_values in
  exists raw' (bs' : list Value), edit_message 2 edited_message splice_targets true = Ok raw' /\
    length bs' = 1%nat.
Proof.
  intros J V. set (msg := default ∅ (json_object_fields edited_message)).
  set (bs := array_items (msg !! CONTENT)).
  destruct (edit_message 2 edited_message splice_targets true) as [raw'|] eqn:E; [|vm_compute in E; discriminate].
  destruct (edit_message_frame 2 edited_message splice_targets true msg bs raw') as (bs' & _ & L & _);
    [vm_compute; reflexivity | vm_compute; reflexivity | auto | | exact E |].
  - repeat constructor. eexists. reflexivity.
  - exists raw', bs'. split; [reflexivity|]. rewrite L. vm_compute. reflexivity.
Defined.

