(* ===== verification/Utf8.v ===== *)
(** * [String::from_utf8_lossy]

    The standard library's lossy decoding, as the reference store and the
    usage tap use it: a maximal ill-formed prefix of a sequence becomes one
    U+FFFD.  On the UTF-8 bytes of a string it is the identity. *)
From S2P Require Import Prelude RStr.

Local Open Scope Z_scope.

Definition REPLACEMENT : char := 65533.
Definition is_cont (b : byte) : bool := in_range 128 191 b.

(** The range of a second byte depends on the first: no overlong forms, no
    surrogates, nothing past U+10FFFF. *)
Definition second_ok (b0 b1 : byte) : bool :=
  if b0 =? 224 then in_range 160 191 b1
  else if b0 =? 237 then in_range 128 159 b1
  else if b0 =? 240 then in_range 144 191 b1
  else if b0 =? 244 then in_range 128 143 b1
  else is_cont b1.

Definition cont_bits (b : byte) : Z := Z.land b 63.

Fixpoint from_utf8_lossy (l : list byte) : rstr :=
  match l with
  | [] => []
  | b0 :: l1 =>
      if b0 <? 128 then b0 :: from_utf8_lossy l1
      else if in_range 194 223 b0 then
        match l1 with
        | b1 :: l2 =>
            if is_cont b1 then (Z.land b0 31 * 64 + cont_bits b1) :: from_utf8_lossy l2
            else REPLACEMENT :: from_utf8_lossy l1
        | [] => [REPLACEMENT]
        end
      else if in_range 224 239 b0 then
        match l1 with
        | b1 :: l2 =>
            if second_ok b0 b1 then
              match l2 with
              | b2 :: l3 =>
                  if is_cont b2
                  then (Z.land b0 15 * 4096 + cont_bits b1 * 64 + cont_bits b2) :: from_utf8_lossy l3
                  else REPLACEMENT :: from_utf8_lossy l2
              | [] => [REPLACEMENT]
              end
            else REPLACEMENT :: from_utf8_lossy l1
        | [] => [REPLACEMENT]
        end
      else if in_range 240 244 b0 then
        match l1 with
        | b1 :: l2 =>
            if second_ok b0 b1 then
              match l2 with
              | b2 :: l3 =>
                  if is_cont b2 then
                    match l3 with
                    | b3 :: l4 =>
                        if is_cont b3
                        then (Z.land b0 7 * 262144 + cont_bits b1 * 4096 + cont_bits b2 * 64 + cont_bits b3)
                               :: from_utf8_lossy l4
                        else REPLACEMENT :: from_utf8_lossy l3
                    | [] => [REPLACEMENT]
                    end
                  else REPLACEMENT :: from_utf8_lossy l2
              | [] => [REPLACEMENT]
              end
            else REPLACEMENT :: from_utf8_lossy l1
        | [] => [REPLACEMENT]
        end
      else REPLACEMENT :: from_utf8_lossy l1
  end.

(** Unicode scalar values, the [char]s a string is made of. *)
Definition is_scalar (c : char) : Prop := 0 <= c < 1114112 /\ ~ (55296 <= c <= 57343).
Definition valid_str (s : rstr) : Prop := Forall is_scalar s.

Lemma land_63 z : Z.land z 63 = z mod 64.
Proof. exact (Z.land_ones z 6 ltac:(lia)). Qed.
Lemma land_31 z : Z.land z 31 = z mod 32.
Proof. exact (Z.land_ones z 5 ltac:(lia)). Qed.
Lemma land_15 z : Z.land z 15 = z mod 16.
Proof. exact (Z.land_ones z 4 ltac:(lia)). Qed.
Lemma land_7 z : Z.land z 7 = z mod 8.
Proof. exact (Z.land_ones z 3 ltac:(lia)). Qed.

Lemma utf8_cont_mod c : utf8_cont c = 128 + c mod 64.
Proof. unfold utf8_cont. by rewrite land_63. Qed.

Lemma utf8_cont_is_cont c : is_cont (utf8_cont c) = true.
Proof.
  rewrite utf8_cont_mod. pose proof (Z.mod_pos_bound c 64 ltac:(lia)).
  unfold is_cont, in_range. apply andb_true_iff. rewrite !Z.leb_le. lia.
Qed.

Lemma cont_bits_cont c : cont_bits (utf8_cont c) = c mod 64.
Proof.
  unfold cont_bits. rewrite utf8_cont_mod, land_63.
  pose proof (Z.mod_pos_bound c 64 ltac:(lia)). symmetry. apply (Z.mod_unique _ _ 2); lia.
Qed.

Lemma in_range_true lo hi c : lo <= c <= hi -> in_range lo hi c = true.
Proof. intros. unfold in_range. apply andb_true_iff. rewrite !Z.leb_le. lia. Qed.
Lemma in_range_false lo hi c : c < lo \/ hi < c -> in_range lo hi c = false.
Proof. intros. unfold in_range. apply andb_false_iff. rewrite !Z.leb_gt. lia. Qed.

Lemma lossy_char c s : is_scalar c -> from_utf8_lossy (utf8_bytes c ++ s) = c :: from_utf8_lossy s.
Proof.
  intros [H0 Hs]. unfold utf8_bytes. rewrite !Z.shiftr_div_pow2 by lia.
  change (2 ^ 6) with 64. change (2 ^ 12) with 4096. change (2 ^ 18) with 262144.
  destruct (Z.ltb_spec c 128) as [L|L].
  { cbn [app from_utf8_lossy]. by rewrite (proj2 (Z.ltb_lt c 128) L). }
  destruct (Z.ltb_spec c 2048) as [L2|L2]; [|destruct (Z.ltb_spec c 65536) as [L3|L3]].
  - cbn [app from_utf8_lossy].
    rewrite (proj2 (Z.ltb_ge _ 128)), in_range_true by (Z.to_euclidean_division_equations; lia).
    rewrite utf8_cont_is_cont, cont_bits_cont, land_31. f_equal. Z.to_euclidean_division_equations; lia.
  - cbn [app from_utf8_lossy].
    rewrite (proj2 (Z.ltb_ge _ 128)), (in_range_false 194), (in_range_true 224)
      by (Z.to_euclidean_division_equations; lia).
    assert (second_ok (224 + c / 4096) (utf8_cont (c / 64)) = true) as ->.
    { unfold second_ok. rewrite utf8_cont_is_cont, utf8_cont_mod.
      repeat match goal with |- context [?a =? ?b] => destruct (Z.eqb_spec a b) end; try done;
        apply in_range_true; Z.to_euclidean_division_equations; lia. }
    rewrite utf8_cont_is_cont, !cont_bits_cont, land_15. f_equal. Z.to_euclidean_division_equations; lia.
  - cbn [app from_utf8_lossy].
    rewrite (proj2 (Z.ltb_ge _ 128)), (in_range_false 194), (in_range_false 224), (in_range_true 240)
      by (Z.to_euclidean_division_equations; lia).
    assert (second_ok (240 + c / 262144) (utf8_cont (c / 4096)) = true) as ->.
    { unfold second_ok. rewrite utf8_cont_is_cont, utf8_cont_mod.
      repeat match goal with |- context [?a =? ?b] => destruct (Z.eqb_spec a b) end; try done;
        apply in_range_true; Z.to_euclidean_division_equations; lia. }
    rewrite !utf8_cont_is_cont, !cont_bits_cont, land_7. f_equal. Z.to_euclidean_division_equations; lia.
Qed.

(** Decoding what was encoded gives the string back. *)
Lemma from_utf8_lossy_as_bytes s : valid_str s -> from_utf8_lossy (as_bytes s) = s.
Proof.
  induction 1 as [|c s Hc _ IH]; [done|]. rewrite as_bytes_cons, lossy_char by done. by rewrite IH.
Qed.

Example lossy_examples :
  from_utf8_lossy [226; 130; 65; 255; 195; 169] = [REPLACEMENT; 65; REPLACEMENT; 233].
Proof. vm_compute. reflexivity. Qed.
