(* ===== verification/Marker.v ===== *)
(** * Content addresses, dedup gates and the [ref=] markers

    Models [crates/ccs-refs/src]: the content address ([hash.rs]), the dedup
    gates ([dedup.rs]), the identity record ([record.rs]) and the wire markers
    with the scan that finds them again ([marker.rs]).  SHA-256 is the
    parameter [Sha256]. *)
From S2P Require Import Prelude RStr Core.

Local Open Scope Z_scope.

(** ** [hash.rs] *)

(** The digest printed with [{:x}]. *)
Class Sha256 := { sha256_hex : list byte -> rstr }.

(** A SHA-256 digest prints as 64 lower-case hexadecimal digits. *)
Definition sha256_law `{Sha256} : Prop :=
  forall bytes, length (sha256_hex bytes) = 64%nat /\ Forall (fun c => is_lower_hex c = true) (sha256_hex bytes).

(** [None] is the [unreachable!]. *)
Definition content_address `{Sha256} (bytes : list byte) : option RefId :=
  match RefId_parse (REF_PREFIX ++ sha256_hex bytes) with
  | Ok ref_id => Some ref_id
  | Err _ => None
  end.

(** ** [dedup.rs] *)

Definition REFS_DEDUPE_MIN_CHARS : Z := 1024.
Definition dedupe_key `{Sha256} (payload : list byte) : option RefId := content_address payload.
Definition should_dedupe (role : rstr) (len : Z) (forced allow_assistant : bool) : bool :=
  negb forced && (REFS_DEDUPE_MIN_CHARS <=? len)
  && (negb (bool_decide (role = str "assistant")) || allow_assistant).
Definition can_dedupe_from (prev cur : rstr) : bool :=
  bool_decide (prev = cur) || (bool_decide (prev = str "assistant") && bool_decide (cur = str "user")).

(** ** [record.rs] *)

Record RefRecord := mkRefRecord {
  rec_ref_id : RefId;
  byte_len : Z;
  rec_token_estimate : TokenCount;
  rec_source_uuid : MessageId;
  rec_session_id : SessionId;
  rec_kind : SegmentKind;
  rec_created_at : F64.f64;
}.

(** ** [marker.rs] *)

Definition RECOVERY_HINT : rstr :=
  str "original no longer stored — if it was a file Read, re-read the file; if it was command output, re-run it.".

Definition PLACEHOLDER_HEAD : rstr := str "[cc-squash: squashed segment · ref=".
Definition BACKREF_HEAD : rstr := str "[same as earlier message · ref=".
Definition TOKENS_SEP : rstr := str " · ~".
Definition BYTES_SEP : rstr := str " tokens · ".
Definition PLACEHOLDER_TAIL : rstr := str " bytes]".
Definition BACKREF_TAIL : rstr := str "]".
#[global] Opaque PLACEHOLDER_HEAD BACKREF_HEAD TOKENS_SEP BYTES_SEP PLACEHOLDER_TAIL BACKREF_TAIL REF_PREFIX.

(** [sha256:[0-9a-f]{64}], and what follows it. *)
Definition match_ref (s : rstr) : option (rstr * rstr) :=
  rest ← strip_prefix REF_PREFIX s;
  if (length (take 64 rest) =? 64)%nat && allb is_lower_hex (take 64 rest)
  then Some (REF_PREFIX ++ take 64 rest, drop 64 rest) else None.

(** [[0-9]+], greedy. *)
Fixpoint skip_digits (s : rstr) : rstr :=
  match s with c :: s' => if is_ascii_digit c then skip_digits s' else s | [] => [] end.
Definition match_digits (s : rstr) : option rstr :=
  match s with c :: s' => if is_ascii_digit c then Some (skip_digits s') else None | [] => None end.

(** The two alternatives of [REF_MARKER]. *)
Definition match_placeholder (s : rstr) : option (rstr * rstr) :=
  s ← strip_prefix PLACEHOLDER_HEAD s;
  '(r, s) ← match_ref s;
  s ← strip_prefix TOKENS_SEP s;
  s ← match_digits s;
  s ← strip_prefix BYTES_SEP s;
  s ← match_digits s;
  s ← strip_prefix PLACEHOLDER_TAIL s;
  Some (r, s).

Definition match_backref (s : rstr) : option (rstr * rstr) :=
  s ← strip_prefix BACKREF_HEAD s;
  '(r, s) ← match_ref s;
  s ← strip_prefix BACKREF_TAIL s;
  Some (r, s).

Definition match_marker (s : rstr) : option (rstr * rstr) :=
  match match_placeholder s with Some m => Some m | None => match_backref s end.

(** [captures_iter]: leftmost matches that do not overlap. *)
Fixpoint captures (fuel : nat) (s : rstr) : list rstr :=
  match fuel, s with
  | S fuel, c :: s' =>
      match match_marker s with
      | Some (r, rest) => r :: captures fuel rest
      | None => captures fuel s'
      end
  | _, _ => []
  end.

Definition extract_refs (text : rstr) : list RefId :=
  omap (fun r => ok (RefId_parse r)) (captures (length text) text).

Definition fuse_filename (ref_id : RefId) : rstr :=
  replace_char 58 (str "-") (RefId_as_str ref_id) ++ str ".txt".

Definition placeholder_header (rec : RefRecord) : rstr :=
  PLACEHOLDER_HEAD ++ RefId_as_str (rec_ref_id rec) ++ TOKENS_SEP ++ dec_of_Z (rec_token_estimate rec)
  ++ BYTES_SEP ++ dec_of_Z (byte_len rec) ++ PLACEHOLDER_TAIL.

Definition placeholder_body (rec : RefRecord) (summary : rstr) (fuse_up : bool) : rstr :=
  [LF] ++ summary ++ [LF] ++ str "Pull the full original if you need it:" ++ [LF]
  ++ str "  • retrieve(" ++ [34] ++ RefId_as_str (rec_ref_id rec) ++ [34] ++ str ")"
  ++ (if fuse_up
      then [LF] ++ str "  • Read(" ++ [34] ++ str ".cc-squash/refs/" ++ fuse_filename (rec_ref_id rec) ++ [34] ++ str ")"
      else []).

Definition render_placeholder (rec : RefRecord) (summary : rstr) (fuse_up : bool) : rstr :=
  placeholder_header rec ++ placeholder_body rec summary fuse_up.

Definition render_backref (ref_id : RefId) : rstr :=
  BACKREF_HEAD ++ RefId_as_str ref_id ++ BACKREF_TAIL.

(** ** The content address never panics *)

Lemma str_len_ascii s : Forall (fun c => 0 <= c < 128) s -> str_len s = Z.of_nat (length s) /\ as_bytes s = s.
Proof.
  induction 1 as [|c s Hc _ [IH1 IH2]]; [done|]. unfold str_len in *. rewrite fmap_cons, sumZ_cons, IH1, as_bytes_cons, IH2.
  unfold utf8_len, utf8_bytes. rewrite (proj2 (Z.ltb_lt c 128)) by lia. cbn [length app]. split; [lia | done].
Qed.

Lemma lower_hex_ascii s : Forall (fun c => is_lower_hex c = true) s -> Forall (fun c => 0 <= c < 128) s.
Proof.
  intros F. eapply Forall_impl; [exact F|]. unfold is_lower_hex, is_ascii_digit, in_range. intros c Hc%orb_true_iff.
  destruct Hc as [Hc|Hc]; bool_hyps; lia.
Qed.

Lemma RefId_parse_digest d :
  length d = 64%nat -> Forall (fun c => is_lower_hex c = true) d ->
  RefId_parse (REF_PREFIX ++ d) = Ok (RefId_mk (REF_PREFIX ++ d)).
Proof.
  intros L F. destruct (str_len_ascii d (lower_hex_ascii d F)) as [E B].
  apply RefId_parse_Ok. split; [done|]. exists d. rewrite E, B, L. auto.
Qed.

Lemma content_address_total `{Sha256} bytes :
  sha256_law -> content_address bytes = Some (RefId_mk (REF_PREFIX ++ sha256_hex bytes)).
Proof. intros L. unfold content_address. destruct (L bytes) as [E F]. by rewrite RefId_parse_digest. Qed.

(** A reference as [RefId_parse] brands it. *)
Definition ref_ok (r : RefId) : Prop :=
  exists d, RefId_as_str r = REF_PREFIX ++ d /\ length d = 64%nat /\ Forall (fun c => is_lower_hex c = true) d.

Lemma ref_ok_parse r : ref_ok r -> RefId_parse (RefId_as_str r) = Ok r.
Proof. intros (d & E & L & F). rewrite E, RefId_parse_digest by done. rewrite <- E. by destruct r. Qed.
Lemma ref_ok_deserialize {E} (custom : rstr -> E) r :
  ref_ok r -> RefId_deserialize custom (Ok (RefId_as_str r)) = Ok r.
Proof. intros R. unfold RefId_deserialize. cbn. by rewrite ref_ok_parse. Qed.

(** ** Scanning *)

Lemma strip_prefix_app p s : strip_prefix p (p ++ s) = Some s.
Proof. by apply strip_prefix_Some. Qed.

Lemma match_ref_Some s r rest :
  match_ref s = Some (r, rest) ->
  s = r ++ rest /\ ref_ok (RefId_mk r).
Proof.
  unfold match_ref. intros E. apply bind_Some in E as (t & E1%strip_prefix_Some & E).
  destruct (_ && _) eqn:C; simplify_eq. apply andb_true_iff in C as [C1 C2].
  apply Nat.eqb_eq in C1. rewrite <- app_assoc, take_drop. split; [done|].
  exists (take 64 t). split; [done|]. split; [done|]. apply Forall_forall. by apply allb_spec.
Qed.

Lemma match_ref_app r s : ref_ok r -> match_ref (RefId_as_str r ++ s) = Some (RefId_as_str r, s).
Proof.
  intros (d & E & L & F). unfold match_ref. rewrite E, <- app_assoc, strip_prefix_app. cbn [mbind option_bind].
  assert (take 64 (d ++ s) = d) as -> by (by rewrite take_app_length').
  assert (drop 64 (d ++ s) = s) as -> by (by rewrite drop_app_length').
  rewrite L. cbn [Nat.eqb andb]. rewrite (proj2 (allb_spec is_lower_hex d)); [done | by apply Forall_forall].
Qed.

Lemma skip_digits_app ds s :
  Forall (fun c => is_ascii_digit c = true) ds ->
  match s with c :: _ => is_ascii_digit c = false | [] => True end ->
  skip_digits (ds ++ s) = s.
Proof.
  induction 1 as [|c ds Hc _ IH]; intros Hs; cbn [app skip_digits]; [|rewrite Hc; by apply IH].
  destruct s as [|c s]; [done|]. cbn [skip_digits]. by rewrite Hs.
Qed.

Lemma match_digits_dec z s :
  match s with c :: _ => is_ascii_digit c = false | [] => True end ->
  match_digits (dec_of_Z z ++ s) = Some s.
Proof.
  intros Hs. destruct (dec_of_Z_cons z) as (d & ds & E). pose proof (dec_of_Z_digits z) as F.
  rewrite E in F |- *. inversion F as [|? ? Hd Fd]; subst. cbn [app match_digits]. rewrite Hd.
  by rewrite skip_digits_app.
Qed.

Lemma match_digits_Some s t :
  match_digits s = Some t -> exists ds, s = ds ++ t /\ ds <> [] /\ Forall (fun c => is_ascii_digit c = true) ds.
Proof.
  destruct s as [|c s]; [done|]. cbn [match_digits]. destruct (is_ascii_digit c) eqn:C; [|done]. intros [= <-].
  enough (exists ds, s = ds ++ skip_digits s /\ Forall (fun c => is_ascii_digit c = true) ds) as (ds & E & F)
    by (exists (c :: ds); cbn; rewrite <- E; auto).
  clear C c. induction s as [|c s (ds & E & F)]; [by exists []|]. cbn [skip_digits].
  destruct (is_ascii_digit c) eqn:C; [|by exists []]. exists (c :: ds). cbn. rewrite <- E. auto.
Qed.

(** A complete marker for [r], in one of its two shapes. *)
Definition marker_shape (r m : rstr) : Prop :=
  m = BACKREF_HEAD ++ r ++ BACKREF_TAIL \/
  exists a b, m = PLACEHOLDER_HEAD ++ r ++ TOKENS_SEP ++ a ++ BYTES_SEP ++ b ++ PLACEHOLDER_TAIL /\
    a <> [] /\ b <> [] /\ Forall (fun c => is_ascii_digit c = true) a /\ Forall (fun c => is_ascii_digit c = true) b.

Lemma match_marker_Some s r rest :
  match_marker s = Some (r, rest) -> ref_ok (RefId_mk r) /\ exists m, s = m ++ rest /\ marker_shape r m.
Proof.
  unfold match_marker. destruct (match_placeholder s) as [[r1 rest1]|] eqn:P.
  - intros [= <- <-]. unfold match_placeholder in P.
    apply bind_Some in P as (s1 & ->%strip_prefix_Some & P). apply bind_Some in P as ([r2 s2] & M & P).
    apply match_ref_Some in M as [-> R]. apply bind_Some in P as (s3 & ->%strip_prefix_Some & P).
    apply bind_Some in P as (s4 & (a & -> & Na & Fa)%match_digits_Some & P).
    apply bind_Some in P as (s5 & ->%strip_prefix_Some & P).
    apply bind_Some in P as (s6 & (b & -> & Nb & Fb)%match_digits_Some & P).
    apply bind_Some in P as (s7 & ->%strip_prefix_Some & P). injection P as -> ->. split; [exact R|].
    exists (PLACEHOLDER_HEAD ++ r1 ++ TOKENS_SEP ++ a ++ BYTES_SEP ++ b ++ PLACEHOLDER_TAIL).
    split; [by rewrite <- !app_assoc|]. right. exists a, b. auto.
  - intros P'. unfold match_backref in P'.
    apply bind_Some in P' as (s1 & ->%strip_prefix_Some & P'). apply bind_Some in P' as ([r2 s2] & M & P').
    apply match_ref_Some in M as [-> R]. apply bind_Some in P' as (s3 & ->%strip_prefix_Some & P').
    injection P' as -> ->. split; [exact R|]. exists (BACKREF_HEAD ++ r ++ BACKREF_TAIL).
    split; [by rewrite <- !app_assoc|]. by left.
Qed.

Lemma marker_nonempty r m : marker_shape r m -> m <> [].
Proof. intros [->|(a & b & -> & _)] E; apply (f_equal length) in E; rewrite length_app in E; vm_compute in E; lia. Qed.

Lemma captures_cons f c s :
  captures (S f) (c :: s) =
    match match_marker (c :: s) with Some (r, rest) => r :: captures f rest | None => captures f s end.
Proof. reflexivity. Qed.

Lemma captures_fuel f1 : forall f2 s,
  (length s <= f1)%nat -> (length s <= f2)%nat -> captures f1 s = captures f2 s.
Proof.
  induction f1 as [|f1 IH]; intros f2 s H1 H2.
  { destruct s; [by destruct f2 | cbn [length] in H1; lia]. }
  destruct s as [|c s]; [by destruct f2|]. cbn [length] in H1, H2. destruct f2 as [|f2]; [lia|].
  rewrite !captures_cons.
  destruct (match_marker (c :: s)) as [[r rest]|] eqn:M; [|apply IH; lia].
  apply match_marker_Some in M as (_ & m & E & Sh). apply (f_equal length) in E. rewrite length_app in E.
  pose proof (marker_nonempty _ _ Sh). destruct m; [done|]. cbn [length] in E. f_equal. apply IH; lia.
Qed.

Lemma heads_cons : (exists t, PLACEHOLDER_HEAD = 91 :: 99 :: t) /\ exists t, BACKREF_HEAD = 91 :: 115 :: t.
Proof. split; eexists; vm_compute; reflexivity. Qed.

Lemma match_marker_head c s m : match_marker (c :: s) = Some m -> c = 91.
Proof.
  destruct m as [r rest]. intros (_ & m & E & Sh)%match_marker_Some.
  destruct heads_cons as [[t1 E1] [t2 E2]]. destruct Sh as [->|(a & b & -> & _)].
  - rewrite E2 in E. cbn [app] in E. congruence.
  - rewrite E1 in E. cbn [app] in E. congruence.
Qed.

Lemma captures_skip pre : forall f s,
  91 ∉ pre -> (length pre + length s <= f)%nat -> captures f (pre ++ s) = captures (length s) s.
Proof.
  induction pre as [|c pre IH]; intros f s N L; [by apply captures_fuel|].
  apply not_elem_of_cons in N as [Nc N]. cbn [length] in L. destruct f as [|f]; [lia|].
  cbn [app]. rewrite captures_cons. destruct (match_marker _) eqn:M.
  - by apply match_marker_head in M.
  - apply IH; [done | lia].
Qed.

Lemma match_marker_backref r s :
  ref_ok r -> match_marker (render_backref r ++ s) = Some (RefId_as_str r, s).
Proof.
  intros R. unfold match_marker, render_backref. rewrite <- !app_assoc.
  assert (match_placeholder (BACKREF_HEAD ++ RefId_as_str r ++ BACKREF_TAIL ++ s) = None) as ->.
  { unfold match_placeholder. destruct (strip_prefix PLACEHOLDER_HEAD _) as [t|] eqn:E; [|done].
    apply strip_prefix_Some in E. destruct heads_cons as [[t1 E1] [t2 E2]]. rewrite E1, E2 in E. done. }
  unfold match_backref. rewrite strip_prefix_app. cbn [mbind option_bind].
  rewrite match_ref_app by done. cbn [mbind option_bind]. by rewrite strip_prefix_app.
Qed.

Lemma separators_not_digits :
  (exists c t, BYTES_SEP = c :: t /\ is_ascii_digit c = false) /\
  exists c t, PLACEHOLDER_TAIL = c :: t /\ is_ascii_digit c = false.
Proof. split; do 2 eexists; (split; [vm_compute; reflexivity | reflexivity]). Qed.

Lemma match_marker_placeholder rec s :
  ref_ok (rec_ref_id rec) ->
  match_marker (placeholder_header rec ++ s) = Some (RefId_as_str (rec_ref_id rec), s).
Proof.
  intros R. unfold match_marker, placeholder_header, match_placeholder. rewrite <- !app_assoc.
  rewrite strip_prefix_app. cbn [mbind option_bind]. rewrite match_ref_app by done. cbn [mbind option_bind].
  rewrite strip_prefix_app. cbn [mbind option_bind].
  destruct separators_not_digits as [(c1 & t1 & E1 & D1) (c2 & t2 & E2 & D2)].
  rewrite match_digits_dec by (rewrite E1; done). cbn [mbind option_bind].
  rewrite strip_prefix_app. cbn [mbind option_bind].
  rewrite match_digits_dec by (rewrite E2; done). cbn [mbind option_bind].
  by rewrite strip_prefix_app.
Qed.

Lemma captures_marker m r s :
  match_marker (m ++ s) = Some (r, s) -> captures (length (m ++ s)) (m ++ s) = r :: captures (length s) s.
Proof.
  intros M. destruct (match_marker_Some _ _ _ M) as (_ & m' & E & Sh).
  apply app_inv_tail in E. subst m'. pose proof (marker_nonempty _ _ Sh). destruct m as [|c m]; [done|].
  cbn [app length] in *. rewrite captures_cons, M. f_equal. apply captures_fuel; rewrite ?length_app; lia.
Qed.

Lemma captures_sound f : forall s r,
  r ∈ captures f s -> ref_ok (RefId_mk r) /\ exists pre m post, s = pre ++ m ++ post /\ marker_shape r m.
Proof.
  induction f as [|f IH]; intros s r Hr; [by apply not_elem_of_nil in Hr|].
  destruct s as [|c s]; [by apply not_elem_of_nil in Hr|]. rewrite captures_cons in Hr.
  destruct (match_marker (c :: s)) as [[r1 rest]|] eqn:M.
  - apply match_marker_Some in M as (R & m & E & Sh). apply elem_of_cons in Hr as [->|Hr].
    + split; [done|]. by exists [], m, rest.
    + destruct (IH _ _ Hr) as (R' & pre & m' & post & -> & Sh'). split; [done|].
      exists (m ++ pre), m', post. by rewrite E, <- app_assoc.
  - destruct (IH _ _ Hr) as (R' & pre & m' & post & -> & Sh'). split; [done|]. by exists (c :: pre), m', post.
Qed.

(** A marker holds no line break, so no match crosses one. *)
Lemma no_lf l : contains LF l = false -> LF ∉ l.
Proof. apply contains_false. Qed.
Lemma no_lf_app a b : LF ∉ a -> LF ∉ b -> LF ∉ a ++ b.
Proof. rewrite not_elem_of_app. by split. Qed.
Lemma literals_no_lf :
  (LF ∉ PLACEHOLDER_HEAD) /\ (LF ∉ BACKREF_HEAD) /\ (LF ∉ TOKENS_SEP) /\ (LF ∉ BYTES_SEP) /\
  (LF ∉ PLACEHOLDER_TAIL) /\ (LF ∉ BACKREF_TAIL) /\ (LF ∉ REF_PREFIX).
Proof.
  do 6 (refine (conj (no_lf _ _) _); [vm_compute; reflexivity|]). apply no_lf. vm_compute. reflexivity.
Qed.

Lemma digits_no_lf (f : Z -> bool) l : f LF = false -> Forall (fun c => f c = true) l -> LF ∉ l.
Proof. intros N F I. rewrite Forall_forall in F. apply F in I. congruence. Qed.

Lemma marker_no_lf r m : ref_ok (RefId_mk r) -> marker_shape r m -> LF ∉ m.
Proof.
  intros (d & E & _ & F) Sh. cbn [RefId_as_str] in E. subst r.
  destruct literals_no_lf as (? & ? & ? & ? & ? & ? & ?). pose proof (digits_no_lf is_lower_hex d eq_refl F).
  pose proof (no_lf_app REF_PREFIX d ltac:(assumption) ltac:(assumption)).
  destruct Sh as [->|(a & b & -> & _ & _ & Fa & Fb)]; [repeat (apply no_lf_app; [assumption|]); assumption|].
  pose proof (digits_no_lf _ a eq_refl Fa). pose proof (digits_no_lf _ b eq_refl Fb).
  repeat (apply no_lf_app; [assumption|]); assumption.
Qed.

Lemma captures_line f : forall a b r,
  (length a + length b < f)%nat -> r ∈ captures (length b) b -> r ∈ captures f (a ++ LF :: b).
Proof.
  induction f as [|f IH]; intros a b r L I; [lia|]. destruct a as [|c a]; cbn [app length] in *; rewrite captures_cons.
  - destruct (match_marker (LF :: b)) as [p|] eqn:M; [by apply match_marker_head in M|]. by rewrite (captures_fuel f (length b)) by lia.
  - destruct (match_marker _) as [[r' rest]|] eqn:M; [|apply IH; [lia | done]].
    apply match_marker_Some in M as (R & m & E & Sh). pose proof (marker_no_lf _ _ R Sh) as N. apply list_elem_of_further.
    pose proof (marker_nonempty _ _ Sh) as Ne. change (c :: a ++ LF :: b) with ((c :: a) ++ LF :: b) in E.
    assert (X : exists a2, c :: a = m ++ a2 /\ rest = a2 ++ LF :: b).
    { apply app_eq_app in E as (l & [[E1 E2]|[E1 E2]]); [by exists l|]. destruct l as [|x l].
      - rewrite app_nil_r in E1. exists []. rewrite app_nil_r. by split.
      - injection E2 as <- _. destruct N. rewrite E1. set_solver. }
    destruct X as (a2 & Ea & ->). apply IH; [|done]. apply (f_equal length) in Ea. rewrite length_app in Ea. cbn [length] in Ea.
    destruct m; [done|]. cbn [length] in Ea. lia.
Qed.

(** A marker at the start of a text, or of a line of it, is found. *)
Lemma extract_refs_line pre m t r :
  ref_ok r -> match_marker (m ++ t) = Some (RefId_as_str r, t) ->
  r ∈ extract_refs (m ++ t) /\ r ∈ extract_refs (pre ++ [LF] ++ m ++ t).
Proof.
  intros R M. assert (I : RefId_as_str r ∈ captures (length (m ++ t)) (m ++ t)) by (rewrite (captures_marker _ _ _ M); apply list_elem_of_here).
  split; apply list_elem_of_omap; exists (RefId_as_str r); (split; [|by rewrite ref_ok_parse]); [exact I|].
  apply captures_line; [|exact I]. rewrite !length_app. cbn [length]. lia.
Qed.

(** C29. The egress scan finds exactly the markers the renderers emit: after a
    prefix without an opening bracket, a backref or a placeholder yields its
    reference and the scan goes on with what follows the marker; and every
    reference the scan returns is well formed and stands in the text inside a
    complete marker of one of the two shapes, so prose or a truncated or
    over-long digest never names one. *)
Theorem extract_refs_exact (pre post : rstr) (r : RefId) (rec : RefRecord) (summary : rstr) (fuse_up : bool) :
  ref_ok r -> rec_ref_id rec = r -> 91 ∉ pre ->
  extract_refs (pre ++ render_backref r ++ post) = r :: extract_refs post /\
  extract_refs (pre ++ render_placeholder rec summary fuse_up ++ post) =
    r :: extract_refs (placeholder_body rec summary fuse_up ++ post) /\
  (forall text q, q ∈ extract_refs text ->
     ref_ok q /\ exists a m b, text = a ++ m ++ b /\ marker_shape (RefId_as_str q) m).
Proof.
  intros R <- N.
  assert (X : forall m t, match_marker (m ++ t) = Some (RefId_as_str (rec_ref_id rec), t) ->
    extract_refs (pre ++ m ++ t) = rec_ref_id rec :: extract_refs t).
  { intros m t M. unfold extract_refs. rewrite captures_skip by (done || rewrite !length_app; lia).
    rewrite (captures_marker _ _ _ M). cbn [omap list_omap]. by rewrite ref_ok_parse. }
  split; [by apply X, match_marker_backref|]. split.
  - unfold render_placeholder. rewrite <- app_assoc. by apply X, match_marker_placeholder.
  - intros text q (s & Hs & E)%list_elem_of_omap. destruct (captures_sound _ _ _ Hs) as (Rs & Sh).
    apply ref_ok_parse in Rs as P. cbn [RefId_as_str] in P. rewrite P in E. by simplify_eq/=.
Qed.

Definition sample_digest : rstr := concat (replicate 32 (str "a7")).
Definition sample_ref : RefId := RefId_mk (REF_PREFIX ++ sample_digest).

Lemma sample_ref_ok : ref_ok sample_ref.
Proof. exists sample_digest. split; [reflexivity|]. split; [reflexivity|]. vm_compute. repeat constructor. Qed.

Definition sample_record : RefRecord :=
  mkRefRecord sample_ref 8210 2050 (MessageId_new (str "uuid-1")) (SessionId_new (str "sess-1")) ToolPair F64.f64_zero.

Lemma no_bracket_before : 91 ∉ str "noise ".
Proof. by apply contains_false. Qed.

Lemma extract_refs_exact_witness :
  extract_refs (str "noise " ++ render_backref sample_ref ++ str " more") = sample_ref :: extract_refs (str " more").
Proof.
  exact (proj1 (extract_refs_exact (str "noise ") (str " more") sample_ref sample_record [] true sample_ref_ok
    eq_refl no_bracket_before)).
Defined.

Example extract_refs_rejects :
  extract_refs (str "ref=" ++ RefId_as_str sample_ref) = [] /\
  extract_refs (BACKREF_HEAD ++ RefId_as_str sample_ref ++ str "0]") = [] /\
  extract_refs (PLACEHOLDER_HEAD ++ RefId_as_str sample_ref ++ BACKREF_TAIL) = [].
Proof. vm_compute. auto. Qed.
