(* ===== verification/Bm25.v ===== *)
(** * Search within a stored original

    Models [crates/ccs-refs/src/bm25.rs]: passages, tokens, the BM25 score in
    [f64] and the top passages in document order.  [ln] is [Libm]; the Unicode
    tables behind [char::is_alphanumeric] and [str::to_lowercase] are the
    parameter [Unicode]. *)
From S2P Require Import Prelude RStr F64 Core Economics Config Segment Policy Scorer Text.
From Stdlib Require Import QArith.

Local Open Scope Z_scope.

Class Unicode := { char_is_alphanumeric : char -> bool; str_to_lowercase : rstr -> rstr }.

Definition BM25_K1 : f64 := f64_lit 12 10.
Definition BM25_B : f64 := f64_lit 3 4.
Definition DEFAULT_TOP_N : nat := 5.
Definition WINDOW_WORDS : nat := 40.

(** [split] by a predicate. *)
Fixpoint split_by (f : char -> bool) (cur : rstr) (s : rstr) : list rstr :=
  match s with
  | [] => [rev cur]
  | c :: s => if f c then rev cur :: split_by f [] s else split_by f (c :: cur) s
  end.

Definition nonempty {A} (l : list A) : bool := negb (is_empty l).

Definition split_whitespace (s : rstr) : list rstr := filterb nonempty (split_by is_whitespace [] s).

(** [chunks(n)], by fuel on the number of items. *)
Fixpoint chunks {A} (fuel n : nat) (l : list A) : list (list A) :=
  match fuel, l with
  | S fuel, _ :: _ => take n l :: chunks fuel n (drop n l)
  | _, _ => []
  end.

Definition window_words (doc : rstr) : list rstr :=
  let words := split_whitespace doc in
  if (WINDOW_WORDS <? length words)%nat
  then join (str " ") <$> chunks (length words) WINDOW_WORDS words
  else [doc].

Definition passages (doc : rstr) : list rstr :=
  let ls := filterb (fun l => nonempty (trim l)) (lines doc) in
  if (1 <? length ls)%nat then ls else window_words doc.

(** *** The passages hold the document's words *)

Lemma split_by_app f c s1 s2 cur : f c = true -> split_by f cur (s1 ++ c :: s2) = split_by f cur s1 ++ split_by f [] s2.
Proof.
  intros F. revert cur. induction s1 as [|d s1 IH]; intros cur; cbn [app split_by]; [by rewrite F|].
  destruct (f d); [|apply IH]. by rewrite IH.
Qed.

Lemma words_app c s1 s2 : is_whitespace c = true -> split_whitespace (s1 ++ c :: s2) = split_whitespace s1 ++ split_whitespace s2.
Proof. intros W. unfold split_whitespace. by rewrite split_by_app, filterb_app by done. Qed.

Lemma words_snoc c s : is_whitespace c = true -> split_whitespace (s ++ [c]) = split_whitespace s.
Proof. intros W. rewrite words_app by done. by rewrite app_nil_r. Qed.

Lemma words_line_of l : split_whitespace (line_of l) = split_whitespace l.
Proof.
  unfold line_of. destruct (strip_suffix [LF] l) as [l1|] eqn:E1; [|done]. apply strip_suffix_Some in E1 as ->.
  rewrite words_snoc by done. destruct (strip_suffix [CR] l1) as [l2|] eqn:E2; cbn [default]; [|done].
  apply strip_suffix_Some in E2 as ->. by rewrite words_snoc.
Qed.

Lemma split_inclusive_concat c s : concat (split_inclusive c s) = s.
Proof.
  induction s as [|d s IH]; [done|]. cbn [split_inclusive]. destruct (d =? c); [cbn; by rewrite IH|].
  destruct (split_inclusive c s); cbn in *; by rewrite IH.
Qed.

Lemma words_split_inclusive s : concat (split_whitespace <$> split_inclusive LF s) = split_whitespace s.
Proof.
  remember (length s) as n eqn:Ln. revert s Ln. induction n as [n IH] using lt_wf_ind. intros s ->.
  destruct (split_once LF s) as [[l s']|] eqn:E.
  - apply split_once_Some in E as [-> N]. rewrite split_inclusive_line by done. cbn [fmap list_fmap concat].
    rewrite words_snoc, words_app by done. f_equal. apply (IH (length s')); [|done]. rewrite length_app. cbn. lia.
  - apply split_once_None in E. destruct s as [|c s]; [done|]. rewrite split_inclusive_last by done. apply app_nil_r.
Qed.

Lemma split_by_none f s : Forall (fun c => f c = false) s -> forall cur, split_by f cur s = [rev cur ++ s].
Proof.
  induction 1 as [|c s Hc _ IH]; intros cur; cbn [split_by]; [by rewrite app_nil_r|]. rewrite Hc, IH. cbn. by rewrite <- app_assoc.
Qed.

Lemma words_word w : w <> [] -> Forall (fun c => is_whitespace c = false) w -> split_whitespace w = [w].
Proof. intros N F. unfold split_whitespace. rewrite split_by_none by done. by destruct w. Qed.

Lemma words_all_space s : Forall (fun c => is_whitespace c = true) s -> split_whitespace s = [].
Proof. induction 1 as [|c s Hc _ IH]; [done|]. exact (eq_trans (words_app c [] s Hc) IH). Qed.

Lemma split_by_pieces f s : forall cur w, Forall (fun c => f c = false) cur -> w ∈ split_by f cur s -> Forall (fun c => f c = false) w.
Proof.
  induction s as [|c s IH]; intros cur w F I; cbn [split_by] in I.
  - apply list_elem_of_singleton in I as ->. by apply Forall_rev.
  - destruct (f c) eqn:E; [|by eapply IH; [|exact I]; constructor].
    apply elem_of_cons in I as [->|I]; [by apply Forall_rev | by eapply IH; [constructor|]].
Qed.

Lemma words_spec s w : w ∈ split_whitespace s -> w <> [] /\ Forall (fun c => is_whitespace c = false) w.
Proof.
  intros [I N]%elem_of_filterb. split; [by intros -> |]. eapply split_by_pieces; [constructor | exact I].
Qed.

Lemma words_join ws :
  Forall (fun w => w <> [] /\ Forall (fun c => is_whitespace c = false) w) ws -> split_whitespace (join (str " ") ws) = ws.
Proof.
  induction ws as [|w ws IH]; intros F; [done|]. apply Forall_cons in F as [[N W] F]. destruct ws as [|w' ws].
  - by apply words_word.
  - change (join (str " ") (w :: w' :: ws)) with (w ++ 32 :: join (str " ") (w' :: ws)).
    rewrite words_app, words_word, IH by done. done.
Qed.

Lemma trim_start_nil s : trim_start_by is_whitespace s = [] -> Forall (fun c => is_whitespace c = true) s.
Proof. induction s as [|c s IH]; cbn; [constructor|]. destruct (is_whitespace c) eqn:E; [|done]. intros T. constructor; auto. Qed.

Lemma trim_start_split s : exists a, s = a ++ trim_start_by is_whitespace s /\ Forall (fun c => is_whitespace c = true) a.
Proof.
  induction s as [|c s (a & E & F)]; [by exists []|]. cbn. destruct (is_whitespace c) eqn:W; [|by exists []].
  exists (c :: a). split; [by rewrite E at 1 | by constructor].
Qed.

Lemma trim_nil_words s : trim s = [] -> split_whitespace s = [].
Proof.
  unfold trim, trim_start, trim_end, trim_end_by. intros T%trim_start_nil. apply words_all_space.
  destruct (trim_start_split (reverse s)) as (a & E & F). apply (f_equal reverse) in E. rewrite reverse_involutive, reverse_app in E.
  rewrite E. apply Forall_app_2; [done | by apply Forall_reverse].
Qed.

Lemma words_lines s : concat (split_whitespace <$> lines s) = split_whitespace s.
Proof.
  rewrite <- (words_split_inclusive s). unfold lines. rewrite <- list_fmap_compose. f_equal. apply list_fmap_ext.
  intros i l _. apply words_line_of.
Qed.

Lemma concat_words_nonblank ls :
  concat (split_whitespace <$> filterb (fun l => nonempty (trim l)) ls) = concat (split_whitespace <$> ls).
Proof.
  induction ls as [|l ls IH]; [done|]. cbn [filterb]. destruct (trim l) eqn:T; cbn [nonempty is_empty negb].
  - cbn [fmap list_fmap concat]. by rewrite IH, trim_nil_words.
  - cbn [fmap list_fmap concat]. by rewrite IH.
Qed.

Lemma chunks_spec {A} n fuel : forall l : list A, (0 < n)%nat -> (length l <= fuel)%nat ->
  concat (chunks fuel n l) = l /\ forall c, c ∈ chunks fuel n l -> (1 <= length c <= n)%nat /\ c ⊆ l.
Proof.
  induction fuel as [|fuel IH]; intros [|x l] N L; cbn [chunks] in *; try (split; [done|]; intros c I; by apply not_elem_of_nil in I); [cbn in L; lia|].
  destruct (IH (drop n (x :: l)) N) as [E S]; [rewrite length_drop; cbn in *; lia|].
  split; [cbn [concat]; by rewrite E, take_drop|]. intros c [->|I]%elem_of_cons.
  - split; [rewrite length_take; cbn [length]; lia | intros y Iy; rewrite <- (take_drop n (x :: l)); apply elem_of_app; by left].
  - destruct (S c I) as [Lc Sc]. split; [done|]. intros y Iy. rewrite <- (take_drop n (x :: l)). apply elem_of_app. right. by apply Sc.
Qed.

Definition nonblank_lines (doc : rstr) : list rstr := filterb (fun l => nonempty (trim l)) (lines doc).

Lemma window_words_spec doc :
  concat (split_whitespace <$> window_words doc) = split_whitespace doc /\
  (window_words doc = [doc] \/
   forall p, p ∈ window_words doc -> p = join (str " ") (split_whitespace p) /\ (1 <= length (split_whitespace p) <= WINDOW_WORDS)%nat).
Proof.
  unfold window_words. destruct (_ <? _)%nat; [|split; [apply app_nil_r | by left]].
  set (ws := split_whitespace doc). destruct (chunks_spec WINDOW_WORDS (length ws) ws) as [E S]; [unfold WINDOW_WORDS; lia | done|].
  assert (W : forall c, c ∈ chunks (length ws) WINDOW_WORDS ws -> split_whitespace (join (str " ") c) = c).
  { intros c I. apply words_join, Forall_forall. intros w Iw. eapply (words_spec doc). by apply (S c I). }
  split.
  - rewrite <- list_fmap_compose. transitivity (concat (chunks (length ws) WINDOW_WORDS ws)); [|exact E]. f_equal.
    apply list_eq. intros i. rewrite list_lookup_fmap. destruct (chunks _ _ _ !! i) as [c|] eqn:L; [|done].
    cbn. f_equal. apply W. by eapply list_elem_of_lookup_2.
  - right. intros p (c & -> & I)%list_elem_of_fmap. rewrite (W c I). split; [done | by apply S].
Qed.

Lemma line_infix doc l : l ∈ lines doc -> exists pre post, doc = pre ++ l ++ post.
Proof.
  intros (r & -> & I)%list_elem_of_fmap.
  assert (X : exists pre post, doc = pre ++ r ++ post).
  { apply list_elem_of_split in I as (a & b & E). exists (concat a), (concat b).
    rewrite <- (split_inclusive_concat LF doc), E, concat_app. done. }
  destruct X as (pre & post & ->). assert (Y : exists tail, r = line_of r ++ tail).
  { unfold line_of. destruct (strip_suffix [LF] r) as [r1|] eqn:E1; [|exists []; by rewrite app_nil_r].
    apply strip_suffix_Some in E1 as ->. destruct (strip_suffix [CR] r1) as [r2|] eqn:E2; cbn [default]; [|eauto].
    apply strip_suffix_Some in E2 as ->. rewrite <- app_assoc. eauto. }
  destruct Y as [tail Y]. exists pre, (tail ++ post). rewrite Y at 1. by rewrite <- !app_assoc.
Qed.

(** What the passages of a document are. *)
Lemma passages_spec doc :
  concat (split_whitespace <$> passages doc) = split_whitespace doc /\
  ((2 <= length (nonblank_lines doc))%nat /\ passages doc = nonblank_lines doc \/
   (length (nonblank_lines doc) < 2)%nat /\
   (passages doc = [doc] \/
    forall p, p ∈ passages doc ->
      p = join (str " ") (split_whitespace p) /\ (1 <= length (split_whitespace p) <= WINDOW_WORDS)%nat)).
Proof.
  unfold passages. fold (nonblank_lines doc). destruct (Nat.ltb_spec 1 (length (nonblank_lines doc))) as [L|L].
  - split; [|by left]. unfold nonblank_lines. by rewrite concat_words_nonblank, words_lines.
  - destruct (window_words_spec doc) as [E W]. split; [done|]. right. split; [lia | done].
Qed.

Section Search.
Context `{Libm, Unicode}.

Definition tokenize (text : rstr) : list rstr :=
  str_to_lowercase <$> filterb nonempty (split_by (fun c => negb (char_is_alphanumeric c)) [] text).

Definition f64_of_nat (n : nat) : f64 := f64_of_Z (Z.of_nat n).

Definition bm25_term (terms : list rstr) (corpus : list (list rstr)) (avg_len n : f64) (q : rstr) : f64 :=
  let len := f64_of_nat (length terms) in
  let tf := f64_of_nat (length (filterb (fun t => bool_decide (t = q)) terms)) in
  if f64_eqb tf f64_zero then f64_zero
  else
    let df := f64_of_nat (length (filterb (contains q) corpus)) in
    let half := f64_lit 1 2 in
    let idf := f64_ln (f64_add (f64_div (f64_add (f64_sub n df) half) (f64_add df half)) f64_one) in
    f64_div (f64_mul idf (f64_mul tf (f64_add BM25_K1 f64_one)))
      (f64_add tf
         (f64_mul BM25_K1
            (f64_add (f64_sub f64_one BM25_B) (f64_div (f64_mul BM25_B len) avg_len)))).

Definition bm25_score (terms query_terms : list rstr) (corpus : list (list rstr)) (avg_len n : f64) : f64 :=
  f64_sum (bm25_term terms corpus avg_len n <$> query_terms).

Definition hit_order (a b : nat * f64) : comparison :=
  match f64_total_cmp b.2 a.2 with Eq => Nat.compare a.1 b.1 | c => c end.

(** [collect::<BTreeSet<_>>()], iterated in order. *)
Definition btree_set (l : list nat) : list nat := dedup (sort_by Nat.compare l).

Definition take_default (ps : list rstr) (n : nat) : rstr := join [LF] (take n ps).

Definition scored_hits (query_terms : list rstr) (tokenized : list (list rstr)) (avg_len n : f64) : list (nat * f64) :=
  filterb (fun p => f64_ltb f64_zero p.2)
    ((fun p => (p.1, bm25_score p.2 query_terms tokenized avg_len n)) <$> enumerate tokenized).

(** [None] is an index panic. *)
Definition search_within (doc query : rstr) : option rstr :=
  let ps := passages doc in
  let query_terms := tokenize query in
  if is_empty query_terms then Some (take_default ps DEFAULT_TOP_N)
  else
    let tokenized := tokenize <$> ps in
    let total := foldl Nat.add 0%nat (length <$> tokenized) in
    if (total =? 0)%nat then Some (take_default ps DEFAULT_TOP_N)
    else
      let n := f64_of_nat (length tokenized) in
      let avg_len := f64_div (f64_of_nat total) n in
      match scored_hits query_terms tokenized avg_len n with
      | [] => Some (take_default ps DEFAULT_TOP_N)
      | hits =>
          let top := btree_set ((fun p => p.1) <$> take DEFAULT_TOP_N (sort_by hit_order hits)) in
          texts ← mapM (fun i => ps !! i) top;
          Some (join [LF] texts)
      end.

(** ** The result is the best of the document's passages *)

Lemma nat_compare_sorted l : StronglySorted le (sort_by Nat.compare l).
Proof.
  assert (St : StronglySorted (fun a b => Nat.compare a b <> Gt) (sort_by Nat.compare l)).
  { apply sort_by_sorted.
    - intros x y E%Nat.compare_gt_iff. intros E'%Nat.compare_gt_iff. lia.
    - intros x y z. rewrite !Nat.compare_gt_iff. lia. }
  induction St as [|x xs St IH F]; constructor; [exact IH|].
  eapply Forall_impl; [exact F|]. intros y. cbn. rewrite Nat.compare_gt_iff. lia.
Qed.

Lemma dedup_from_strict x l :
  StronglySorted le (x :: l) -> StronglySorted lt (dedup_from x l) /\
  (forall y, y ∈ dedup_from x l <-> y ∈ x :: l) /\ (length (dedup_from x l) <= length (x :: l))%nat /\
  exists r, dedup_from x l = x :: r.
Proof.
  revert x. induction l as [|y l IH]; intros x S.
  { cbn. split; [repeat constructor|]. split; [set_solver|]. split; [lia | by eexists]. }
  inversion S as [|? ? S1 F]; subst. inversion F as [|? ? Le F1]; subst. cbn [dedup_from]. case_decide as C.
  - subst y. destruct (IH x S1) as (A & B & L & r & E). split; [done|]. split; [set_solver|].
    split; [cbn [length] in *; lia | eauto].
  - destruct (IH y S1) as (A & B & L & r & E). split; [|split; [set_solver|split; [cbn [length] in *; lia | eauto]]].
    constructor; [done|]. apply Forall_forall. intros z Hz. apply B in Hz.
    apply elem_of_cons in Hz as [->|Hz]; [lia|]. inversion S1 as [|? ? _ Fy]; subst.
    rewrite Forall_forall in Fy. specialize (Fy z Hz). lia.
Qed.

Lemma btree_set_spec l :
  StronglySorted lt (btree_set l) /\ (forall y, y ∈ btree_set l <-> y ∈ l) /\
  (length (btree_set l) <= length l)%nat.
Proof.
  unfold btree_set. pose proof (nat_compare_sorted l) as St. pose proof (sort_by_perm Nat.compare l) as P.
  assert (Q : forall y, y ∈ sort_by Nat.compare l <-> y ∈ l) by (intros y; by rewrite P).
  rewrite <- (Permutation_length P). clear P.
  destruct (sort_by Nat.compare l) as [|x xs]; cbn [dedup]; [split; [constructor | split; [done | cbn; lia]]|].
  destruct (dedup_from_strict x xs St) as (A & B & L & _). split; [done|]. split; [|done].
  intros y. by rewrite B, Q.
Qed.

Lemma seq_strict n k : StronglySorted lt (seq k n).
Proof.
  revert k. induction n as [|n IH]; intros k; cbn [seq]; constructor; [done|].
  apply Forall_forall. intros i Hi%elem_of_seq. lia.
Qed.

(** *** The ranking *)

Lemma hit_order_le (x y : nat * f64) :
  hit_order x y <> Gt <-> f64_total_cmp y.2 x.2 = Lt \/ f64_total_cmp y.2 x.2 = Eq /\ (x.1 <= y.1)%nat.
Proof.
  unfold hit_order. destruct (f64_total_cmp y.2 x.2); split; intros N; try (destruct N as [N|[N ?]]); try done; auto.
  - right. split; [done|]. by apply Nat.compare_le_iff.
  - by apply Nat.compare_le_iff.
Qed.

Lemma hit_order_total x y : hit_order x y = Gt -> hit_order y x <> Gt.
Proof.
  unfold hit_order. rewrite (f64_total_cmp_sym y.2 x.2). destruct (f64_total_cmp y.2 x.2); cbn; try done.
  intros E%Nat.compare_gt_iff. rewrite Nat.compare_gt_iff. lia.
Qed.

Lemma hit_order_trans x y z : hit_order x y <> Gt -> hit_order y z <> Gt -> hit_order x z <> Gt.
Proof.
  rewrite !hit_order_le. intros A B.
  assert (A1 : f64_total_cmp y.2 x.2 <> Gt) by (destruct A as [-> |[-> _]]; done).
  assert (B1 : f64_total_cmp z.2 y.2 <> Gt) by (destruct B as [-> |[-> _]]; done).
  pose proof (f64_total_cmp_trans _ _ _ B1 A1) as C. destruct (f64_total_cmp z.2 x.2) eqn:E; [right|by left|done].
  split; [done|]. assert (E' : f64_total_cmp x.2 z.2 = Eq) by (by rewrite f64_total_cmp_sym, E).
  assert (X : f64_total_cmp x.2 y.2 <> Gt) by (apply (f64_total_cmp_trans _ z.2); congruence).
  assert (Y : f64_total_cmp y.2 z.2 <> Gt) by (apply (f64_total_cmp_trans _ x.2); congruence).
  rewrite f64_total_cmp_sym in X. rewrite f64_total_cmp_sym in Y.
  destruct A as [A|[_ A]]; [by rewrite A in X|]. destruct B as [B|[_ B]]; [by rewrite B in Y|]. lia.
Qed.

(** On positive scores [total_cmp] is the numeric order. *)
Lemma f64_pos_sign x : f64_wf x -> f64_ltb f64_zero x = true -> f64_neg_sign x = false.
Proof.
  destruct x as [|[]|[] m e]; try done. intros W P. apply f64_ltb_val in P; [|done..]. exfalso. revert P. apply Qle_not_lt.
  cbn [f_val f64_zero]. unfold f64_signed. cbn in W. pose proof (pow2_pos e) as Pe.
  assert (M : Qle (inject_Z (- m)) 0) by (change 0%Q with (inject_Z 0); rewrite <- Zle_Qle; lia).
  rewrite Qmult_0_l. eapply Qle_trans; [apply Qmult_le_compat_r; [exact M | by apply Qlt_le_weak]|].
  rewrite Qmult_0_l. apply Qle_refl.
Qed.

Lemma total_cmp_pos x y :
  f64_wf x -> f64_wf y -> f64_ltb f64_zero x = true -> f64_ltb f64_zero y = true ->
  (f64_total_cmp x y = Lt -> f64_ltb x y = true) /\ (f64_total_cmp x y = Eq -> f64_eqb x y = true).
Proof.
  intros Wx Wy X Y. unfold f64_ltb, f64_eqb, f64_total_cmp. rewrite (f64_pos_sign x Wx X), (f64_pos_sign y Wy Y).
  destruct (f64_compare x y) as [[]|] eqn:C; try done.
  destruct x as [|[]|], y as [|[]|]; cbn in *; done.
Qed.

Lemma bm25_score_wf terms qs corpus a n : f64_wf (bm25_score terms qs corpus a n).
Proof.
  unfold bm25_score, f64_sum. assert (T : Forall f64_wf (bm25_term terms corpus a n <$> qs)).
  { apply Forall_fmap, Forall_true. intros q. cbn. unfold bm25_term. case_match; [done|].
    apply f64_div_wf, f64_add_wf; [apply f64_of_Z_wf | apply f64_mul_wf]. }
  assert (S : f64_wf (f64_opp f64_zero)) by (apply f64_opp_wf; by cbn). revert S. generalize (f64_opp f64_zero).
  induction T as [|x l Wx _ IH]; intros s Ws; [done|]. cbn [foldl]. apply IH. by apply f64_add_wf.
Qed.

(** The score of the [i]-th passage, over this document's passages. *)
Definition passage_score (ps : list rstr) (query : rstr) (i : nat) : f64 :=
  let tokenized := tokenize <$> ps in
  let n := f64_of_nat (length ps) in
  bm25_score (default [] (tokenized !! i)) (tokenize query) tokenized
    (f64_div (f64_of_nat (foldl Nat.add 0%nat (length <$> tokenized))) n) n.

Definition is_hit (ps : list rstr) (query : rstr) (i : nat) : Prop :=
  (i < length ps)%nat /\ f64_ltb f64_zero (passage_score ps query i) = true.

(** A higher score, or the same one and earlier in the document. *)
Definition outranks (ps : list rstr) (query : rstr) (i j : nat) : Prop :=
  f64_ltb (passage_score ps query j) (passage_score ps query i) = true \/
  f64_eqb (passage_score ps query j) (passage_score ps query i) = true /\ (i < j)%nat.

(** The passages to return: the first five, when none scores; else the five
    best, all of them when there are fewer. *)
Definition best (ps : list rstr) (query : rstr) (idxs : list nat) : Prop :=
  (tokenize query = [] \/ (forall p, p ∈ ps -> tokenize p = []) \/ forall i, ~ is_hit ps query i) /\
    idxs = seq 0 (Nat.min DEFAULT_TOP_N (length ps)) \/
  idxs <> [] /\ (length idxs <= DEFAULT_TOP_N)%nat /\ (forall i, i ∈ idxs -> is_hit ps query i) /\
    forall j, is_hit ps query j -> j ∉ idxs -> length idxs = DEFAULT_TOP_N /\ forall i, i ∈ idxs -> outranks ps query i j.

Lemma scored_hits_spec ps query i s :
  let tokenized := tokenize <$> ps in
  let n := f64_of_nat (length tokenized) in
  (i, s) ∈ scored_hits (tokenize query) tokenized (f64_div (f64_of_nat (foldl Nat.add 0%nat (length <$> tokenized))) n) n <->
  is_hit ps query i /\ s = passage_score ps query i.
Proof.
  cbv zeta. unfold scored_hits, is_hit, passage_score. rewrite elem_of_filterb, list_elem_of_fmap. cbn [snd].
  rewrite (length_fmap tokenize ps). split.
  - intros [([k ts] & E & I) P]. cbn [fst snd] in E. injection E as -> ->.
    apply list_elem_of_lookup in I as (j & I). rewrite enumerate_lookup in I.
    destruct ((tokenize <$> ps) !! j) as [ts'|] eqn:L; [|done]. cbn in I. injection I as <- <-. rewrite L.
    split; [|done]. split; [|exact P]. apply lookup_lt_Some in L. by rewrite length_fmap in L.
  - intros [[L P] ->]. split; [|exact P]. destruct (lookup_lt_is_Some_2 ps i L) as [p Hp].
    exists (i, tokenize p). rewrite list_lookup_fmap, Hp. split; [done|].
    apply list_elem_of_lookup. exists i. by rewrite enumerate_lookup, list_lookup_fmap, Hp.
Qed.

Lemma enumerate_fst {A} (l : list A) : (enumerate l).*1 = seq 0 (length l).
Proof.
  apply list_eq. intros i. rewrite list_lookup_fmap, enumerate_lookup. destruct (l !! i) as [x|] eqn:E; cbn.
  - symmetry. apply lookup_seq. split; [lia|]. by eapply lookup_lt_Some.
  - symmetry. apply lookup_ge_None. rewrite length_seq. by apply lookup_ge_None.
Qed.

Lemma scored_hits_NoDup q tokenized a n : NoDup (scored_hits q tokenized a n).*1.
Proof.
  eapply sublist_NoDup; [|apply fmap_sublist, filterb_sublist]. rewrite <- list_fmap_compose.
  rewrite (list_fmap_ext _ fst) by done. rewrite enumerate_fst. apply NoDup_seq.
Qed.

Lemma StronglySorted_lt_NoDup l : StronglySorted lt l -> NoDup l.
Proof.
  induction 1 as [|x l S IH F]; constructor; [|done]. intros I. rewrite Forall_forall in F. specialize (F x I). lia.
Qed.

(** The five best of the sorted hits. *)
Lemma best_take ps query hits :
  hits <> [] -> NoDup hits.*1 -> (forall i s, (i, s) ∈ hits <-> is_hit ps query i /\ s = passage_score ps query i) ->
  best ps query (btree_set (take DEFAULT_TOP_N (sort_by hit_order hits)).*1).
Proof.
  intros Ne Nd Hs. right. set (sorted := sort_by hit_order hits). pose proof (sort_by_perm hit_order hits) as P. fold sorted in P.
  assert (So : StronglySorted (fun x y => hit_order x y <> Gt) sorted) by (apply sort_by_sorted; [apply hit_order_total | apply hit_order_trans]).
  assert (Nds : NoDup sorted.*1) by (by rewrite P).
  rewrite <- (take_drop DEFAULT_TOP_N sorted), fmap_app in Nds. apply NoDup_app in Nds as (Nt & Dis & _).
  destruct (btree_set_spec (take DEFAULT_TOP_N sorted).*1) as (St & El & _).
  assert (Ln : length (btree_set (take DEFAULT_TOP_N sorted).*1) = Nat.min DEFAULT_TOP_N (length hits)).
  { rewrite (Permutation_length (list.NoDup_Permutation _ _ (StronglySorted_lt_NoDup _ St) Nt El)), length_fmap, length_take. by rewrite P. }
  assert (Hit : forall i s, (i, s) ∈ sorted <-> is_hit ps query i /\ s = passage_score ps query i) by (intros i s; rewrite <- Hs, P; done).
  split; [|split; [|split]].
  - intros E. rewrite E in Ln. destruct hits; [done|]. cbn in Ln. lia.
  - rewrite Ln. lia.
  - intros i ((k & s) & -> & I)%El%list_elem_of_fmap. cbn [fst]. apply elem_of_take in I as (m & I & _).
    apply list_elem_of_lookup_2, Hit in I. by destruct I.
  - intros j Hj Nj. assert (Ij : (j, passage_score ps query j) ∈ sorted) by (by apply Hit).
    rewrite <- (take_drop DEFAULT_TOP_N sorted) in Ij, So. apply elem_of_app in Ij as [Ij|Ij].
    { exfalso. apply Nj, El. by apply (list_elem_of_fmap_2 fst) in Ij. }
    split.
    { rewrite Ln, <- P. assert (drop DEFAULT_TOP_N sorted <> []) by (intros E; rewrite E in Ij; by apply not_elem_of_nil in Ij).
      assert (length (drop DEFAULT_TOP_N sorted) <> 0%nat) by (by intros ?%nil_length_inv). rewrite length_drop in *. lia. }
    intros i Ii. apply El, list_elem_of_fmap in Ii as ((k & s) & -> & Ii). cbn [fst].
    assert (Hi : is_hit ps query k /\ s = passage_score ps query k)
      by (apply Hit; apply elem_of_take in Ii as (m & Ii & _); by eapply list_elem_of_lookup_2).
    destruct Hi as [Hi ->]. pose proof (StronglySorted_app_1_elem_of _ _ _ _ _ So Ii Ij) as O.
    apply hit_order_le in O. cbn [fst snd] in O. destruct (total_cmp_pos _ _ (bm25_score_wf _ _ _ _ _) (bm25_score_wf _ _ _ _ _) (proj2 Hj) (proj2 Hi)) as [Lt Eq].
    destruct O as [O|[O Le]]; [left; by apply Lt | right]. split; [by apply Eq|].
    assert (k <> j) by (intros ->; apply Nj, El; exact (list_elem_of_fmap_2 fst _ _ Ii)). lia.
Qed.

Lemma lookup_indexes {A} (l : list A) idxs : (forall i, i ∈ idxs -> (i < length l)%nat) -> exists xs, mapM (fun i => l !! i) idxs = Some xs.
Proof.
  intros F. destruct (mapM _ idxs) as [xs|] eqn:M; [eauto|]. exfalso. apply mapM_None_1, Exists_exists in M as (i & Hi & Hn).
  apply lookup_ge_None in Hn. specialize (F i Hi). lia.
Qed.

Lemma take_default_texts ps :
  mapM (fun i => (ps : list rstr) !! i) (seq 0 (Nat.min DEFAULT_TOP_N (length ps))) = Some (take DEFAULT_TOP_N ps).
Proof.
  apply mapM_Some_2. apply Forall2_same_length_lookup. split; [rewrite length_seq, length_take; lia|].
  intros i x y Hx Hy. apply lookup_seq in Hx as [-> Hx]. by apply lookup_take_Some in Hy as [? _].
Qed.

End Search.

(** ASCII letters and digits. *)
Definition ascii_unicode : Unicode :=
  {| char_is_alphanumeric := is_ascii_alphanumeric; str_to_lowercase := fun s => to_ascii_lower <$> s |}.

Example search_examples :
  let _ := flat_libm in let _ := ascii_unicode in
  search_within (str "one" ++ [LF] ++ str "two" ++ [LF] ++ str "three") [] =
    Some (str "one" ++ [LF] ++ str "two" ++ [LF] ++ str "three") /\
  length (window_words (join (str " ") (replicate 90 (str "w")))) = 3%nat.
Proof. vm_compute. auto. Qed.
