(* ===== verification/Store.v ===== *)
(** * The reference store

    Models [crates/ccs-refs/src/store.rs]: the table [refs] as a map from the
    primary key to its row, and each SQL statement as the change it makes to
    that map.  A statement that the database rejects or that fails on I/O is
    outside the model. *)
From S2P Require Import Prelude RStr F64 Utf8 Core Scorer Marker Bm25.

Local Open Scope Z_scope.

Record Row := mkRow {
  row_original : list byte;
  row_byte_len : Z;
  row_token_estimate : Z;
  row_source_uuid : rstr;
  row_session_id : rstr;
  row_kind : rstr;
  row_created_at : f64;
  row_last_access_at : f64;
  row_access_count : Z;
  row_pinned : Z;
}.

(** [refs], by [ref_id]. *)
Abbreviation RefStore := (gmap rstr Row).

Record Materialized := mkMaterialized {
  mat_ref_id : RefId;
  mat_text : rstr;
  mat_token_estimate : Z;
  mat_access_count : Z;
}.

Inductive RetrieveResult := Hit (text : rstr) (access_count : Z) | Miss.

(** ** [put], [materialize], [retrieve] *)

(** [INSERT .. ON CONFLICT(ref_id) DO NOTHING] *)
Definition insert_row (st : RefStore) (id : rstr) (row : Row) : RefStore :=
  match st !! id with Some _ => st | None => <[id := row]> st end.

Definition put `{Sha256} (st : RefStore) (original : list byte) (source_uuid : MessageId)
    (session_id : SessionId) (kind : SegmentKind) (now : f64) : option (RefStore * RefRecord) :=
  ref_id ← content_address original;
  let record :=
    mkRefRecord ref_id (Z.of_nat (length original)) (estimate_chars_proxy (from_utf8_lossy original))
      source_uuid session_id kind now in
  let row :=
    mkRow original (byte_len record) (rec_token_estimate record) (MessageId_as_str (rec_source_uuid record))
      (SessionId_as_str (rec_session_id record)) (SegmentKind_to_string (rec_kind record))
      (rec_created_at record) (rec_created_at record) 0 0 in
  Some (insert_row st (RefId_as_str ref_id) row, record).

(** [SET access_count = access_count + 1, last_access_at = now] *)
Definition bump (row : Row) (now : f64) : Row :=
  mkRow (row_original row) (row_byte_len row) (row_token_estimate row) (row_source_uuid row)
    (row_session_id row) (row_kind row) (row_created_at row) now (row_access_count row + 1) (row_pinned row).

Definition materialize (st : RefStore) (ref_id : RefId) (now : f64) : RefStore * option Materialized :=
  match st !! RefId_as_str ref_id with
  | None => (st, None)
  | Some row =>
      let row := bump row now in
      (<[RefId_as_str ref_id := row]> st,
       Some (mkMaterialized ref_id (from_utf8_lossy (row_original row)) (row_token_estimate row)
               (row_access_count row)))
  end.

(** [None] is a panic of [search_within]. *)
Definition retrieve `{Libm, Unicode} (st : RefStore) (ref_id : RefId) (session_id : SessionId)
    (query : option rstr) (now : f64) : RefStore * option RetrieveResult :=
  match st !! RefId_as_str ref_id with
  | None => (st, Some Miss)
  | Some row =>
      if bool_decide (row_session_id row = SessionId_as_str session_id) then
        let row := bump row now in
        let text := from_utf8_lossy (row_original row) in
        (<[RefId_as_str ref_id := row]> st,
         text ← match query with Some q => search_within text q | None => Some text end;
         Some (Hit text (row_access_count row)))
      else (st, Some Miss)
  end.

(** ** [gc] *)

(** Byte-lexicographic order of strings. *)
Fixpoint bytes_cmp (a b : list byte) : comparison :=
  match a, b with
  | [], [] => Eq
  | [], _ => Lt
  | _, [] => Gt
  | x :: a, y :: b => match x ?= y with Eq => bytes_cmp a b | c => c end
  end.

Record Candidate := mkCandidate {
  gc_id : rstr;
  gc_byte_len : Z;
  gc_created_at : f64;
  gc_last_access_at : f64;
}.

(** [SELECT .. FROM refs WHERE pinned = 0] *)
Definition gc_candidates (st : RefStore) : list Candidate :=
  (fun p => mkCandidate p.1 (row_byte_len p.2) (row_created_at p.2) (row_last_access_at p.2)) <$>
    filterb (fun p => row_pinned p.2 =? 0) (map_to_list st).

Definition gc_order (a b : Candidate) : comparison :=
  match f64_total_cmp (gc_last_access_at a) (gc_last_access_at b) with
  | Eq => bytes_cmp (as_bytes (gc_id a)) (as_bytes (gc_id b))
  | c => c
  end.

(** [scan]: evict while more than [max_bytes] remain. *)
Fixpoint gc_victims (remaining max_bytes : Z) (eligible : list Candidate) : list rstr :=
  match eligible with
  | [] => []
  | c :: eligible =>
      if max_bytes <? remaining
      then gc_id c :: gc_victims (u64_wrap (remaining - gc_byte_len c)) max_bytes eligible
      else []
  end.

Definition is_reachable (reachable : list RefId) (c : Candidate) : bool :=
  contains (gc_id c) (RefId_as_str <$> reachable).

Definition live_bytes (reachable : list RefId) (candidates : list Candidate) : Z :=
  u64_sum (gc_byte_len <$> filterb (fun c => negb (is_reachable reachable c)) candidates).

Definition gc_eligible (reachable : list RefId) (grace_seconds now : f64) (candidates : list Candidate)
    : list Candidate :=
  sort_by gc_order
    (filterb (fun c => negb (is_reachable reachable c)
                       && f64_ltb grace_seconds (f64_sub now (gc_created_at c))) candidates).

Definition gc (st : RefStore) (reachable : list RefId) (grace_seconds : f64) (max_bytes : Z) (now : f64)
    : RefStore * nat :=
  let candidates := gc_candidates st in
  let victims := gc_victims (live_bytes reachable candidates) max_bytes
                   (gc_eligible reachable grace_seconds now candidates) in
  (foldl (fun st id => delete id st) st victims, length victims).

(** ** What the store holds *)

Section Spec.
Context `{Sha256, Libm, Unicode}.

(** Every row is filed under the address of its own bytes. *)
Definition row_ok (id : rstr) (row : Row) : Prop :=
  content_address (row_original row) = Some (RefId_mk id) /\
  row_byte_len row = Z.of_nat (length (row_original row)).
Definition store_ok (st : RefStore) : Prop := map_Forall row_ok st.

Lemma content_address_str bytes r : content_address bytes = Some r -> content_address bytes = Some (RefId_mk (RefId_as_str r)).
Proof. by destruct r. Qed.

Lemma bump_ok id row now : row_ok id row -> row_ok id (bump row now).
Proof. done. Qed.

Lemma insert_row_ok st id row : store_ok st -> row_ok id row -> store_ok (insert_row st id row).
Proof. unfold insert_row. intros S R. destruct (st !! id); [done | by apply map_Forall_insert_2]. Qed.

Lemma put_ok st original uuid session kind now st' rec :
  put st original uuid session kind now = Some (st', rec) -> store_ok st -> store_ok st'.
Proof.
  unfold put. intros E S. destruct (content_address original) as [[id]|] eqn:A; [|done].
  cbn [mbind option_bind] in E. injection E as <- _. by apply insert_row_ok.
Qed.

(** *** Garbage collection *)

Definition sum_len (l : list Candidate) : Z := sumZ (gc_byte_len <$> l).

Lemma gc_victims_prefix eligible : forall remaining max_bytes,
  Forall (fun c => 0 <= gc_byte_len c) eligible ->
  sum_len eligible <= remaining < 2 ^ 64 ->
  exists dead kept, eligible = dead ++ kept /\ gc_victims remaining max_bytes eligible = gc_id <$> dead /\
    (kept = [] \/ remaining - sum_len dead <= max_bytes) /\
    (forall k, (k < length dead)%nat -> max_bytes < remaining - sum_len (take k dead)).
Proof.
  induction eligible as [|c el IH]; intros remaining max_bytes F B.
  { exists [], []. split; [done|]. split; [done|]. split; [by left|]. intros k Hk. cbn in Hk. lia. }
  inversion F as [|? ? Hc Fe]; subst. unfold sum_len in *. rewrite fmap_cons, sumZ_cons in B.
  pose proof (sumZ_nonneg (gc_byte_len <$> el)) as N. rewrite Forall_fmap in N. specialize (N Fe).
  cbn [gc_victims]. destruct (Z.ltb_spec max_bytes remaining) as [L|L].
  - assert (u64_wrap (remaining - gc_byte_len c) = remaining - gc_byte_len c) as ->
      by (apply Z.mod_small; lia).
    destruct (IH (remaining - gc_byte_len c) max_bytes Fe ltac:(lia)) as (dead & kept & -> & V & K & T).
    exists (c :: dead), kept. split; [done|]. split; [by rewrite V|]. rewrite fmap_cons, sumZ_cons.
    split; [destruct K; [by left | right; lia]|]. intros [|k] Hk; cbn [length take] in *.
    + cbn. lia.
    + rewrite fmap_cons, sumZ_cons. specialize (T k ltac:(lia)). lia.
  - exists [], (c :: el). split; [done|]. split; [done|]. split; [right; cbn; lia|].
    intros k Hk. cbn in Hk. lia.
Qed.

Lemma foldl_delete_lookup ids : forall (st : RefStore) id,
  foldl (fun st id => delete id st) st ids !! id = if decide (id ∈ ids) then None else st !! id.
Proof.
  induction ids as [|x ids IH]; intros st id; cbn [foldl]; [by rewrite decide_False by set_solver|].
  rewrite IH. destruct (decide (id = x)) as [->|N].
  - rewrite lookup_delete_eq. case_decide; by rewrite ?decide_True by set_solver.
  - rewrite lookup_delete_ne by done. repeat case_decide; set_solver.
Qed.

Lemma gc_candidates_row st c :
  c ∈ gc_candidates st ->
  exists row, st !! gc_id c = Some row /\ row_pinned row = 0 /\ gc_byte_len c = row_byte_len row /\
    gc_created_at c = row_created_at row /\ gc_last_access_at c = row_last_access_at row.
Proof.
  unfold gc_candidates. intros ([id row] & -> & Hp)%list_elem_of_fmap.
  apply elem_of_filterb in Hp as [Hp P]. apply elem_of_map_to_list in Hp. apply Z.eqb_eq in P. by exists row.
Qed.

Lemma sum_len_filter_le f g l :
  Forall (fun c => 0 <= gc_byte_len c) l -> (forall c, f c = true -> g c = true) ->
  sum_len (filterb f l) <= sum_len (filterb g l).
Proof.
  intros F Hfg. unfold sum_len. induction F as [|c l Hc _ IH]; [done|]. cbn [List.filter].
  destruct (f c) eqn:E; [rewrite (Hfg c E), !fmap_cons, !sumZ_cons; lia|].
  destruct (g c); [rewrite fmap_cons, sumZ_cons; lia | done].
Qed.

Lemma sum_len_filter f l : Forall (fun c => 0 <= gc_byte_len c) l -> sum_len (filterb f l) <= sum_len l.
Proof.
  intros F. replace l with (filterb (fun _ => true) l) at 2 by (clear; induction l; cbn; congruence).
  by apply sum_len_filter_le.
Qed.

(** The total the sweep starts from, and the list it walks. *)
Lemma gc_bounds st reachable grace now :
  store_ok st -> sum_len (gc_candidates st) < 2 ^ 64 ->
  let cs := gc_candidates st in
  Forall (fun c => 0 <= gc_byte_len c) (gc_eligible reachable grace now cs) /\
  sum_len (gc_eligible reachable grace now cs) <= live_bytes reachable cs < 2 ^ 64 /\
  live_bytes reachable cs = sum_len (filterb (fun c => negb (is_reachable reachable c)) cs).
Proof.
  intros S B cs. assert (F : Forall (fun c => 0 <= gc_byte_len c) cs).
  { apply Forall_forall. intros c (row & Hr & _ & E & _)%gc_candidates_row. apply S in Hr as [_ L]. rewrite E, L. lia. }
  set (live := filterb (fun c => negb (is_reachable reachable c)) cs).
  assert (Lv : live_bytes reachable cs = sum_len live).
  { unfold live_bytes. rewrite u64_sum_wrap. apply Z.mod_small. fold live. change (0 <= sum_len live < 2 ^ 64). split.
    - apply sumZ_nonneg, Forall_fmap, Forall_forall. intros c [Hc _]%elem_of_filterb. rewrite Forall_forall in F. by apply F.
    - eapply Z.le_lt_trans; [|exact B]. by apply sum_len_filter. }
  pose proof (sort_by_perm gc_order (filterb (fun c => negb (is_reachable reachable c)
    && f64_ltb grace (f64_sub now (gc_created_at c))) cs)) as P. split; [|split; [|done]].
  - unfold gc_eligible. rewrite P. apply Forall_forall. intros c [Hc _]%elem_of_filterb. rewrite Forall_forall in F. by apply F.
  - split.
    + rewrite Lv. unfold gc_eligible, sum_len. rewrite (sumZ_Permutation _ _ (fmap_Permutation _ _ _ P)).
      apply sum_len_filter_le; [done|]. by intros c [? _]%andb_true_iff.
    + rewrite Lv. eapply Z.le_lt_trans; [|exact B]. by apply sum_len_filter.
Qed.

(** The sweep only deletes, and never a reachable row, whatever the totals. *)
Lemma gc_lookup st reachable grace cap now id :
  (gc st reachable grace cap now).1 !! id = st !! id \/
  ((gc st reachable grace cap now).1 !! id = None /\ id ∉ RefId_as_str <$> reachable /\
   exists row, st !! id = Some row /\ row_pinned row = 0 /\ f64_ltb grace (f64_sub now (row_created_at row)) = true).
Proof.
  unfold gc. cbn [fst]. rewrite foldl_delete_lookup. case_decide as C; [right; split; [done|] | by left].
  assert (V : forall el r, id ∈ gc_victims r cap el -> exists c, c ∈ el /\ gc_id c = id).
  { induction el as [|c el IH]; intros r; cbn [gc_victims]; [set_solver|].
    destruct (cap <? r); [|set_solver]. intros [->|I]%elem_of_cons; [exists c; set_solver|].
    destruct (IH _ I) as (c' & ? & ?). exists c'. set_solver. }
  apply V in C as (c & I & <-). clear V. unfold gc_eligible in I. rewrite (sort_by_perm gc_order) in I.
  apply elem_of_filterb in I as [I [R O]%andb_true_iff]. split; [by apply negb_true_iff, contains_false in R|].
  apply gc_candidates_row in I as (row & L & P & _ & Cr & _). rewrite Cr in O. by exists row.
Qed.

Lemma gc_ok st reachable grace cap now : store_ok st -> store_ok (gc st reachable grace cap now).1.
Proof.
  intros S id row L. destruct (gc_lookup st reachable grace cap now id) as [E|[E _]]; rewrite E in L; [by apply S | done].
Qed.

(** A repeated [put] leaves the row's creation time as it was: the grace period
    is counted from the first one. *)
Lemma put_keeps_created_at st original uuid session kind now st' rec row :
  put st original uuid session kind now = Some (st', rec) -> st !! RefId_as_str (rec_ref_id rec) = Some row ->
  st' = st /\ rec_created_at rec = now /\ st' !! RefId_as_str (rec_ref_id rec) = Some row.
Proof.
  unfold put. intros E L. apply bind_Some in E as (id & _ & E). injection E as <- <-. cbn [rec_ref_id] in L |- *.
  unfold insert_row. by rewrite L.
Qed.

(** A retrieval keeps every row's bytes. *)
Lemma retrieve_rows st ref_id session query now id row :
  st !! id = Some row ->
  exists row', (retrieve st ref_id session query now).1 !! id = Some row' /\ row_original row' = row_original row /\
    row_byte_len row' = row_byte_len row.
Proof.
  intros L. unfold retrieve. destruct (st !! RefId_as_str ref_id) as [r|] eqn:E; [|by exists row].
  case_bool_decide; [|by exists row]. cbn [fst]. destruct (decide (RefId_as_str ref_id = id)) as [<-|N].
  - rewrite lookup_insert_eq. exists (bump r now). split; [done|]. rewrite E in L. by injection L as ->.
  - rewrite lookup_insert_ne by done. by exists row.
Qed.

Lemma retrieve_ok st ref_id session query now :
  store_ok st -> store_ok (retrieve st ref_id session query now).1.
Proof.
  intros S. unfold retrieve. destruct (st !! RefId_as_str ref_id) as [r|] eqn:E; [|done].
  case_bool_decide; [|done]. cbn [fst]. apply map_Forall_insert_2; [|done]. apply bump_ok. exact (S _ _ E).
Qed.
End Spec.

(** *** The theorems *)

Section Theorems.
Context `{Sha256, Libm, Unicode}.

(** [gc_order] is total, so the sweep's list is sorted by it. *)
Definition oldest_first (a b : Candidate) : Prop := gc_order a b <> Gt.



(** The row of the first session keeps the ref: a second session that stores
    the same bytes is told its reference and cannot retrieve it. *)
Lemma put_foreign_session_lost (st : RefStore) (text : rstr) (uuid uuid' : MessageId) (s s' : SessionId)
    (kind kind' : SegmentKind) (now now' later : f64) :
  sha256_law -> store_ok st -> s' <> s ->
  st !! (REF_PREFIX ++ sha256_hex (as_bytes text)) = None ->
  exists st1 r1 st2 r2,
    put st (as_bytes text) uuid s kind now = Some (st1, r1) /\
    put st1 (as_bytes text) uuid' s' kind' now' = Some (st2, r2) /\
    rec_session_id r2 = s' /\ retrieve st2 (rec_ref_id r2) s' None later = (st2, Some Miss).
Proof.
  intros L S N E. pose proof (content_address_total (as_bytes text) L) as A.
  unfold put at 1. rewrite A. cbn [mbind option_bind RefId_as_str]. unfold insert_row at 1. rewrite E.
  do 4 eexists. split; [reflexivity|]. unfold put. rewrite A. cbn [mbind option_bind RefId_as_str].
  split; [reflexivity|]. split; [reflexivity|]. unfold insert_row, retrieve.
  cbn [rec_ref_id RefId_as_str]. rewrite lookup_insert_eq. cbv iota. rewrite lookup_insert_eq. cbv iota.
  case_bool_decide as C; [|done]. cbn [row_session_id rec_session_id] in C.
  destruct s, s'. cbn in C. congruence.
Qed.
End Theorems.

(** ** A concrete store *)

(** A digest that tells apart payloads of different lengths. *)
Definition length_digest : Sha256 :=
  {| sha256_hex := fun bytes => replicate 64 (48 + Z.of_nat (length bytes) mod 10) |}.

Lemma length_digest_law : @sha256_law length_digest.
Proof.
  intros bytes. cbn [sha256_hex length_digest]. split; [by rewrite length_replicate|].
  apply Forall_replicate. pose proof (Z.mod_pos_bound (Z.of_nat (length bytes)) 10 ltac:(lia)).
  unfold is_lower_hex, is_ascii_digit, in_range. apply orb_true_iff. left. apply andb_true_iff. rewrite !Z.leb_le. lia.
Qed.

Definition sample_store : RefStore :=
  let _ := length_digest in
  let st0 : RefStore := ∅ in
  match put st0 (as_bytes (str "old log")) (MessageId_new (str "1")) (SessionId_new (str "s")) ToolPair f64_zero with
  | Some (st, _) =>
      match put st (as_bytes (str "fresh")) (MessageId_new (str "2")) (SessionId_new (str "s")) ToolPair f64_one with
      | Some (st, _) => st
      | None => st
      end
  | None => st0
  end.

Lemma sample_store_ok : @store_ok length_digest sample_store.
Proof.
  unfold sample_store. set (st0 := ∅). assert (S0 : @store_ok length_digest st0) by apply map_Forall_empty.
  destruct (put st0 _ _ _ _ _) as [[st r]|] eqn:E; [|exact S0].
  apply put_ok in E; [|exact S0].
  destruct (put st _ _ _ _ _) as [[st' r']|] eqn:E'; [|exact E]. by apply put_ok in E'.
Qed.

(** Stored at 0 and put again at 700, past a grace of 600: the second put does
    not protect the row from a sweep at the same instant. *)
Lemma reput_row_evicted :
  let _ := length_digest in
  let session := SessionId_new (str "s") in
  let put_old st := put st (as_bytes (str "old log")) (MessageId_new (str "1")) session ToolPair in
  ('(st, rec) ← put_old ∅ f64_zero;
   '(st, rec') ← put_old st (f64_of_Z 700);
   let swept := (gc st [] (f64_of_Z 600) 5 (f64_of_Z 700)).1 in
   let id := RefId_as_str (rec_ref_id rec') in
   Some (f64_eqb (rec_created_at rec') (f64_of_Z 700), bool_decide (is_Some (st !! id)), bool_decide (is_Some (swept !! id))))
  = Some (true, true, false).
Proof. vm_compute. reflexivity. Qed.


Definition hello : rstr := [104; 101; 108; 108; 111].

Lemma hello_valid : valid_str hello.
Proof. unfold hello. repeat (apply Forall_cons; split; [unfold is_scalar; lia|]). by apply Forall_nil. Qed.

