(* ===== verification/Archive.v ===== *)
(** * What the store promises

    The reference store ([store.rs]) seen from outside: an archive of texts,
    each under the address of its bytes, owned by the session that first stored
    it, with a count of the reads.  [archive_refines] shows that every run of
    the store's operations is a run of the archive with the same answers, and
    [owner_reads_back] is proved of the archive and carried over. *)
From S2P Require Import Prelude RStr F64 Utf8 Core Scorer Marker Bm25 Store.

Local Open Scope Z_scope.

(** ** Operations and answers *)

Inductive Op :=
| Op_Put (original : list byte) (source_uuid : MessageId) (session_id : SessionId) (kind : SegmentKind) (now : f64)
| Op_Materialize (ref_id : RefId) (now : f64)
| Op_Retrieve (ref_id : RefId) (session_id : SessionId) (query : option rstr) (now : f64)
| Op_Gc (reachable : list RefId) (grace_seconds : f64) (max_bytes : Z) (now : f64).

(** [None] within an answer is a panic. *)
Inductive Answer :=
| Ans_Put (record : option RefRecord)
| Ans_Materialized (m : option Materialized)
| Ans_Retrieved (r : option RetrieveResult)
| Ans_Swept (evicted : nat).

Section Exec.
Context `{Sha256, Libm, Unicode}.

(** One call on the store. *)
Definition exec (st : RefStore) (op : Op) : RefStore * Answer :=
  match op with
  | Op_Put original uuid session kind now =>
      match put st original uuid session kind now with
      | Some (st', rec) => (st', Ans_Put (Some rec))
      | None => (st, Ans_Put None)
      end
  | Op_Materialize ref_id now => let '(st', m) := materialize st ref_id now in (st', Ans_Materialized m)
  | Op_Retrieve ref_id session query now =>
      let '(st', r) := retrieve st ref_id session query now in (st', Ans_Retrieved r)
  | Op_Gc reachable grace cap now => let '(st', n) := gc st reachable grace cap now in (st', Ans_Swept n)
  end.

Fixpoint exec_all (st : RefStore) (ops : list Op) : RefStore * list Answer :=
  match ops with
  | [] => (st, [])
  | op :: ops =>
      let '(st', a) := exec st op in
      let '(st'', answers) := exec_all st' ops in
      (st'', a :: answers)
  end.

(** ** The archive *)

Record Entry := mkEntry { owner : rstr; text_bytes : list byte; reads : Z }.
Abbreviation Archive := (gmap rstr Entry).

Definition read_once (e : Entry) : Entry := mkEntry (owner e) (text_bytes e) (reads e + 1).
Definition text_of (e : Entry) : rstr := from_utf8_lossy (text_bytes e).
Definition found (query : option rstr) (e : Entry) : option RetrieveResult :=
  text ← match query with Some q => search_within (text_of e) q | None => Some (text_of e) end;
  Some (Hit text (reads e + 1)).

(** What an operation may do to the archive, and answer. *)
Inductive archive_step (a : Archive) : Op -> Answer -> Archive -> Prop :=
| archive_put original uuid session kind now id :
    content_address original = Some id ->
    archive_step a (Op_Put original uuid session kind now)
      (Ans_Put (Some (mkRefRecord id (Z.of_nat (length original))
                        (estimate_chars_proxy (from_utf8_lossy original)) uuid session kind now)))
      (match a !! RefId_as_str id with
       | Some _ => a
       | None => <[RefId_as_str id := mkEntry (SessionId_as_str session) original 0]> a
       end)
| archive_materialize ref_id now e :
    a !! RefId_as_str ref_id = Some e ->
    archive_step a (Op_Materialize ref_id now)
      (Ans_Materialized (Some (mkMaterialized ref_id (text_of e) (estimate_chars_proxy (text_of e)) (reads e + 1))))
      (<[RefId_as_str ref_id := read_once e]> a)
| archive_materialize_miss ref_id now :
    a !! RefId_as_str ref_id = None -> archive_step a (Op_Materialize ref_id now) (Ans_Materialized None) a
| archive_retrieve ref_id session query now e :
    a !! RefId_as_str ref_id = Some e -> owner e = SessionId_as_str session ->
    archive_step a (Op_Retrieve ref_id session query now) (Ans_Retrieved (found query e))
      (<[RefId_as_str ref_id := read_once e]> a)
| archive_retrieve_miss ref_id session query now :
    (forall e, a !! RefId_as_str ref_id = Some e -> owner e <> SessionId_as_str session) ->
    archive_step a (Op_Retrieve ref_id session query now) (Ans_Retrieved (Some Miss)) a
| archive_gc reachable grace cap now dead :
    NoDup dead -> (forall id, id ∈ dead -> is_Some (a !! id) /\ id ∉ RefId_as_str <$> reachable) ->
    archive_step a (Op_Gc reachable grace cap now) (Ans_Swept (length dead))
      (foldl (fun a id => delete id a) a dead).

Inductive archive_run : Archive -> list Op -> list Answer -> Archive -> Prop :=
| run_done a : archive_run a [] [] a
| run_more a op ans a1 ops answers a2 :
    archive_step a op ans a1 -> archive_run a1 ops answers a2 -> archive_run a (op :: ops) (ans :: answers) a2.

(** ** The abstraction *)

Definition entry_of (row : Row) : Entry := mkEntry (row_session_id row) (row_original row) (row_access_count row).
Definition abstract (st : RefStore) : Archive := entry_of <$> st.

Definition row_wf (id : rstr) (row : Row) : Prop :=
  row_ok id row /\ row_token_estimate row = estimate_chars_proxy (from_utf8_lossy (row_original row)).
Definition store_wf (st : RefStore) : Prop := map_Forall row_wf st.

Lemma lookup_abstract st id : abstract st !! id = entry_of <$> st !! id.
Proof. apply lookup_fmap. Qed.

Lemma abstract_insert st id row : abstract (<[id := row]> st) = <[id := entry_of row]> (abstract st).
Proof. apply fmap_insert. Qed.

Lemma abstract_deletes ids : forall st,
  abstract (foldl (fun st id => delete id st) st ids) = foldl (fun a id => delete id a) (abstract st) ids.
Proof.
  induction ids as [|id ids IH]; intros st; [done|]. cbn [foldl]. rewrite IH. f_equal. apply fmap_delete.
Qed.

Lemma deletes_wf ids : forall st, store_wf st -> store_wf (foldl (fun st id => delete id st) st ids).
Proof. induction ids as [|id ids IH]; intros st S; [done|]. by apply IH, map_Forall_delete. Qed.

Lemma store_wf_ok st : store_wf st -> store_ok st.
Proof. intros S id row L. apply (S id row L). Qed.

(** ** Each operation is a step *)

Lemma put_step st original uuid session kind now :
  sha256_law -> store_wf st ->
  let '(st', a) := exec st (Op_Put original uuid session kind now) in
  archive_step (abstract st) (Op_Put original uuid session kind now) a (abstract st') /\ store_wf st'.
Proof.
  intros L S. cbn [exec]. unfold put. pose proof (content_address_total original L) as A. rewrite A. cbn [mbind option_bind].
  pose proof (archive_put (abstract st) original uuid session kind now _ A) as T. rewrite lookup_abstract in T.
  cbn [RefId_as_str] in *. unfold insert_row. destruct (st !! (REF_PREFIX ++ sha256_hex original)) eqn:E; [by split|].
  split; [by rewrite abstract_insert|]. by apply map_Forall_insert_2.
Qed.

Lemma materialize_step st ref_id now :
  store_wf st ->
  let '(st', a) := exec st (Op_Materialize ref_id now) in
  archive_step (abstract st) (Op_Materialize ref_id now) a (abstract st') /\ store_wf st'.
Proof.
  intros S. cbn [exec]. unfold materialize. destruct (st !! RefId_as_str ref_id) as [row|] eqn:E.
  - destruct (S _ _ E) as [O T]. rewrite abstract_insert. split; [|by apply map_Forall_insert_2].
    cbn [bump row_original row_token_estimate row_access_count]. rewrite T.
    apply (archive_materialize _ ref_id now (entry_of row)). by rewrite lookup_abstract, E.
  - split; [|done]. apply archive_materialize_miss. by rewrite lookup_abstract, E.
Qed.

Lemma retrieve_step st ref_id session query now :
  store_wf st ->
  let '(st', a) := exec st (Op_Retrieve ref_id session query now) in
  archive_step (abstract st) (Op_Retrieve ref_id session query now) a (abstract st') /\ store_wf st'.
Proof.
  intros S. cbn [exec]. unfold retrieve. destruct (st !! RefId_as_str ref_id) as [row|] eqn:E; [case_bool_decide as C|].
  - rewrite abstract_insert. split; [|by apply map_Forall_insert_2; [apply (S _ _ E)|]].
    apply (archive_retrieve _ ref_id session query now (entry_of row)); [by rewrite lookup_abstract, E | done].
  - split; [|done]. apply archive_retrieve_miss. rewrite lookup_abstract, E. intros e [= <-]. exact C.
  - split; [|done]. apply archive_retrieve_miss. by rewrite lookup_abstract, E.
Qed.

Lemma gc_victims_prefix_ids cap eligible : forall remaining,
  exists k, gc_victims remaining cap eligible = take k (gc_id <$> eligible).
Proof.
  induction eligible as [|c el IH]; intros r; cbn [gc_victims]; [by exists 0%nat|].
  destruct (cap <? r); [|by exists 0%nat]. destruct (IH (u64_wrap (r - gc_byte_len c))) as [k ->]. by exists (S k).
Qed.

Lemma gc_candidates_NoDup st : NoDup (gc_id <$> gc_candidates st).
Proof.
  unfold gc_candidates. rewrite <- list_fmap_compose.
  change (gc_id ∘ _) with (fst : rstr * Row -> rstr).
  eapply (sublist_NoDup _ (map_to_list st).*1); [apply NoDup_fst_map_to_list|].
  apply fmap_sublist, filterb_sublist.
Qed.

Lemma filterb_NoDup_fmap {A B} (f : A -> B) (p : A -> bool) l : NoDup (f <$> l) -> NoDup (f <$> filterb p l).
Proof.
  intros N. eapply sublist_NoDup; [exact N|]. apply fmap_sublist, filterb_sublist.
Qed.

Lemma gc_step st reachable grace cap now :
  store_wf st ->
  let '(st', a) := exec st (Op_Gc reachable grace cap now) in
  archive_step (abstract st) (Op_Gc reachable grace cap now) a (abstract st') /\ store_wf st'.
Proof.
  intros S. cbn [exec]. unfold gc. set (eligible := gc_eligible _ _ _ _).
  destruct (gc_victims_prefix_ids cap eligible (live_bytes reachable (gc_candidates st))) as [k ->].
  split; [|by apply deletes_wf]. rewrite abstract_deletes.
  assert (P : gc_id <$> eligible ≡ₚ gc_id <$> filterb (fun c => negb (is_reachable reachable c)
                && f64_ltb grace (f64_sub now (gc_created_at c))) (gc_candidates st))
    by (apply fmap_Permutation, sort_by_perm).
  apply archive_gc.
  - eapply sublist_NoDup; [|apply sublist_take]. rewrite P. apply filterb_NoDup_fmap, gc_candidates_NoDup.
  - intros id I. pose proof (elem_of_sublist _ _ _ I (sublist_take _ _)) as J. rewrite P in J.
    apply list_elem_of_fmap in J as (c & -> & [J [R _]%andb_true_iff]%elem_of_filterb).
    apply negb_true_iff, contains_false in R. split; [|exact R].
    apply gc_candidates_row in J as (row & L & _). rewrite lookup_abstract, L. by eexists.
Qed.

Lemma exec_step st op :
  sha256_law -> store_wf st ->
  let '(st', a) := exec st op in archive_step (abstract st) op a (abstract st') /\ store_wf st'.
Proof.
  intros L S. destruct op; [by apply put_step | by apply materialize_step | by apply retrieve_step | by apply gc_step].
Qed.

Lemma exec_all_run ops : forall st,
  sha256_law -> store_wf st ->
  let '(st', answers) := exec_all st ops in archive_run (abstract st) ops answers (abstract st') /\ store_wf st'.
Proof.
  induction ops as [|op ops IH]; intros st L S; cbn [exec_all]; [by split; [constructor|]|].
  pose proof (exec_step st op L S) as E. destruct (exec st op) as [st1 a]. destruct E as [E S1].
  specialize (IH st1 L S1). destruct (exec_all st1 ops) as [st2 answers]. destruct IH as [R S2].
  split; [by econstructor | exact S2].
Qed.

(** ** The archive keeps what it is told to keep *)

(** A sweep is told to keep [id]. *)
Definition spares (id : rstr) (op : Op) : Prop :=
  match op with Op_Gc reachable _ _ _ => id ∈ RefId_as_str <$> reachable | _ => True end.

(** The reads of [id] an answer reports. *)
Definition reads_of (id : rstr) (op : Op) (ans : Answer) : Z :=
  match op, ans with
  | Op_Materialize ref_id _, Ans_Materialized (Some _) => if bool_decide (RefId_as_str ref_id = id) then 1 else 0
  | Op_Retrieve _ _ _ _, Ans_Retrieved (Some Miss) => 0
  | Op_Retrieve ref_id _ _ _, Ans_Retrieved _ => if bool_decide (RefId_as_str ref_id = id) then 1 else 0
  | _, _ => 0
  end.

Fixpoint reads_in (id : rstr) (ops : list Op) (answers : list Answer) : Z :=
  match ops, answers with
  | op :: ops, a :: answers => reads_of id op a + reads_in id ops answers
  | _, _ => 0
  end.

Definition add_reads (e : Entry) (n : Z) : Entry := mkEntry (owner e) (text_bytes e) (reads e + n).

Lemma add_reads_0 e : add_reads e 0 = e.
Proof. destruct e. unfold add_reads. cbn. by rewrite Z.add_0_r. Qed.

Lemma read_lookup (a : Archive) id id' e e' :
  a !! id = Some e -> a !! id' = Some e' ->
  <[id' := read_once e']> a !! id = Some (add_reads e (if bool_decide (id' = id) then 1 else 0)).
Proof.
  intros L L'. case_bool_decide as C; [subst id'; rewrite L in L'; injection L' as <-; by rewrite lookup_insert_eq|].
  by rewrite lookup_insert_ne, add_reads_0.
Qed.

Lemma archive_step_keeps a op ans a' id e :
  archive_step a op ans a' -> a !! id = Some e -> spares id op -> a' !! id = Some (add_reads e (reads_of id op ans)).
Proof.
  intros T L K. destruct T as [? ? ? ? ? id0| | | | |? ? ? ? dead _ D]; cbn [reads_of].
  - rewrite add_reads_0. destruct (a !! RefId_as_str id0) eqn:E; [done|]. rewrite lookup_insert_ne; [done|].
    intros <-. by rewrite L in E.
  - by apply read_lookup.
  - by rewrite add_reads_0.
  - unfold found. destruct query as [q|]; [destruct (search_within _ q)|]; by apply read_lookup.
  - by rewrite add_reads_0.
  - rewrite add_reads_0. cbn [spares] in K. assert (N : id ∉ dead) by (intros I; by destruct (D _ I)).
    clear D. revert a L. induction dead as [|x dead IH]; intros a L; [done|]. cbn [foldl].
    apply not_elem_of_cons in N as [Nx N]. apply (IH N). by rewrite lookup_delete_ne.
Qed.

Lemma archive_run_keeps a ops answers a' id e :
  archive_run a ops answers a' -> a !! id = Some e -> Forall (spares id) ops ->
  a' !! id = Some (add_reads e (reads_in id ops answers)).
Proof.
  intros R. revert e. induction R as [a|a op ans a1 ops answers a2 T R IH]; intros e L K; cbn [reads_in]; [by rewrite add_reads_0|].
  inversion K as [|? ? K1 K2]; subst. rewrite (IH _ (archive_step_keeps _ _ _ _ _ _ T L K1) K2).
  unfold add_reads. cbn. by rewrite Z.add_assoc.
Qed.
End Exec.

Section Theorems.
Context `{Sha256, Libm, Unicode}.

(** C14. The store is an archive: whatever sequence of puts, materializations,
    retrievals and sweeps is made on a well-formed table, the answers are those
    an archive gives, which knows of each text its address, its owner and how
    often it was read, and nothing else (no lengths, estimates, times or
    pins): the first put of a text decides its owner, only the owner is
    answered, every length and estimate reported is that of the text, and a
    sweep takes some texts outside its reachable set and reports how many. *)
Theorem archive_refines st ops :
  sha256_law -> store_wf st ->
  let '(st', answers) := exec_all st ops in archive_run (abstract st) ops answers (abstract st') /\ store_wf st'.
Proof. apply exec_all_run. Qed.

(** C25. A text once put is never lost to its owner while the sweeps are told to
    keep it: after any further sequence of operations, by any sessions, the
    session that put it retrieves exactly that text with a count of one more
    than the reads answered so far, and every other session gets a miss that
    leaves the table as it is. *)
Theorem owner_reads_back st text key uuid session kind now ops later :
  sha256_law -> store_wf st -> valid_str text -> content_address (as_bytes text) = Some key ->
  st !! RefId_as_str key = None -> Forall (spares (RefId_as_str key)) ops ->
  let '(st1, answers) := exec_all st (Op_Put (as_bytes text) uuid session kind now :: ops) in
  (exec st1 (Op_Retrieve key session None later)).2 =
    Ans_Retrieved (Some (Hit text (reads_in (RefId_as_str key) ops (tail answers) + 1))) /\
  forall other, other <> session -> exec st1 (Op_Retrieve key other None later) = (st1, Ans_Retrieved (Some Miss)).
Proof.
  intros L S V A N K. cbn [exec_all exec]. unfold put. rewrite A. cbn [mbind option_bind].
  set (row := mkRow _ _ _ _ _ _ _ _ _ _). unfold insert_row. rewrite N.
  assert (S1 : store_wf (<[RefId_as_str key := row]> st)).
  { apply map_Forall_insert_2; [|exact S]. split; [split; [|done] | done]. by apply content_address_str. }
  pose proof (exec_all_run ops _ L S1) as R. destruct (exec_all _ ops) as [st1 answers]. cbn [tail].
  destruct R as [R _].
  assert (X := archive_run_keeps _ _ _ _ (RefId_as_str key) (entry_of row) R
    ltac:(by rewrite lookup_abstract, lookup_insert_eq) K).
  rewrite lookup_abstract in X. destruct (st1 !! RefId_as_str key) as [r|] eqn:E; [|done]. injection X as Xo Xb Xr.
  cbn [exec]. unfold retrieve. rewrite E. split.
  - rewrite Xo, bool_decide_eq_true_2 by done. cbn [snd mbind option_bind bump row_original row_access_count].
    rewrite Xb, Xr, from_utf8_lossy_as_bytes by done. by rewrite Z.add_0_l.
  - intros other D. rewrite Xo. rewrite bool_decide_eq_false_2; [done|]. destruct other, session; cbn. congruence.
Qed.
End Theorems.

(** ** A concrete run *)

Section Run.
#[local] Existing Instances length_digest flat_libm ascii_unicode.

Definition sample_key : RefId := default (RefId_mk []) (content_address (as_bytes hello)).
Definition reader : SessionId := SessionId_new (str "s").

Definition sample_ops : list Op :=
  [Op_Retrieve sample_key reader None f64_one; Op_Retrieve sample_key (SessionId_new (str "t")) None f64_one;
   Op_Put (as_bytes hello) (MessageId_new (str "2")) (SessionId_new (str "t")) ToolPair f64_one;
   Op_Materialize sample_key f64_one; Op_Gc [sample_key] f64_zero 0 (f64_of_Z 700)].

Lemma empty_store_wf : store_wf ∅.
Proof. apply map_Forall_empty. Qed.

Lemma archive_refines_witness :
  length (exec_all ∅ sample_ops).2 = 5%nat /\
  archive_run ∅ sample_ops (exec_all ∅ sample_ops).2 (abstract (exec_all ∅ sample_ops).1).
Proof.
  pose proof (archive_refines ∅ sample_ops length_digest_law empty_store_wf) as R.
  assert (X : length (exec_all ∅ sample_ops).2 = 5%nat) by (vm_compute; reflexivity).
  destruct (exec_all ∅ sample_ops) as [st answers]. split; [exact X|]. destruct R as [R _]. exact R.
Defined.

(** Two reads were answered: the third is counted three. *)
Lemma owner_reads_back_witness :
  let '(st1, answers) := exec_all ∅ (Op_Put (as_bytes hello) (MessageId_new (str "1")) reader ToolPair f64_zero :: sample_ops) in
  reads_in (RefId_as_str sample_key) sample_ops (tail answers) = 2 /\
  exec st1 (Op_Retrieve sample_key (SessionId_new (str "t")) None f64_one) = (st1, Ans_Retrieved (Some Miss)).
Proof.
  pose proof (owner_reads_back ∅ hello sample_key (MessageId_new (str "1")) reader ToolPair f64_zero sample_ops f64_one
    length_digest_law empty_store_wf hello_valid eq_refl eq_refl) as R.
  assert (K : Forall (spares (RefId_as_str sample_key)) sample_ops).
  { repeat (apply Forall_cons; split; [exact I|]). apply Forall_cons. split; [apply list_elem_of_here | apply Forall_nil; exact I]. }
  specialize (R K).
  assert (X : reads_in (RefId_as_str sample_key) sample_ops
    (tail (exec_all ∅ (Op_Put (as_bytes hello) (MessageId_new (str "1")) reader ToolPair f64_zero :: sample_ops)).2) = 2)
    by (vm_compute; reflexivity).
  destruct (exec_all ∅ _) as [st1 answers]. split; [exact X|]. destruct R as [_ R]. apply R. discriminate.
Defined.
End Run.
