(* ===== verification/Open.v ===== *)
(** * Opening the reference store

    Models [RefStore::open] of [crates/ccs-refs/src/store.rs] and the path the
    proxy opens ([main.rs]): the database as the objects of its schema table,
    its [user_version] and its rows, and the statements of the handshake as
    what they read and change.  Failures of the file system and of SQLite itself
    are outside the model. *)
From S2P Require Import Prelude RStr F64 Utf8 Core Scorer Marker Bm25 Store.

Local Open Scope Z_scope.

Definition SCHEMA_VERSION : Z := 1.

Definition SCHEMA : rstr := str "CREATE TABLE refs (
  ref_id TEXT PRIMARY KEY, original BLOB NOT NULL, byte_len INTEGER NOT NULL,
  token_estimate INTEGER NOT NULL, source_uuid TEXT NOT NULL, session_id TEXT NOT NULL,
  kind TEXT NOT NULL, created_at REAL NOT NULL, last_access_at REAL NOT NULL,
  access_count INTEGER NOT NULL DEFAULT 0, pinned INTEGER NOT NULL DEFAULT 0)".

(** A row of [sqlite_schema]; an automatic index has no text. *)
Record DbObject := mkDbObject { obj_type : rstr; obj_name : rstr; obj_sql : option rstr }.
#[export] Instance DbObject_eq_dec : EqDecision DbObject.
Proof. solve_decision. Defined.

Record Db := mkDb { db_objects : list DbObject; user_version : Z; db_rows : RefStore }.

Inductive RefError := RefError_Schema (message : rstr) | RefError_Db.

(** [name LIKE 'sqlite_%']: the prefix in any ASCII case, then at least one
    character. *)
Definition like_sqlite (name : rstr) : bool :=
  bool_decide (to_ascii_lower <$> take 6 name = str "sqlite") && (6 <? length name)%nat.

Definition object_count (db : Db) : nat := length (filterb (fun o => negb (like_sqlite (obj_name o))) (db_objects db)).

(** The first row of [SELECT sql .. WHERE type='table' AND name='refs']. *)
Definition stored_schema (db : Db) : option (option rstr) :=
  obj_sql <$> List.find (fun o => bool_decide (obj_type o = str "table") && bool_decide (obj_name o = str "refs"))
                (db_objects db).

(** The transaction of a fresh database: the table, the index of its text key,
    and the version. *)
Definition author (db : Db) : Db :=
  mkDb (db_objects db ++ [mkDbObject (str "table") (str "refs") (Some SCHEMA);
                          mkDbObject (str "index") (str "sqlite_autoindex_refs_1") None])
    SCHEMA_VERSION (db_rows db).

Definition open (db : Db) : Db * result RefError unit :=
  let version := user_version db in
  if (object_count db =? 0)%nat && (version =? 0) then (author db, Ok tt)
  else if negb (version =? SCHEMA_VERSION) then
    (db, Err (RefError_Schema (str "user_version=" ++ dec_of_Z version ++ str ", want " ++ dec_of_Z SCHEMA_VERSION)))
  else
    match stored_schema db with
    | Some None => (db, Err RefError_Db)
    | stored =>
        if negb (object_count db =? 1)%nat || negb (bool_decide (stored = Some (Some SCHEMA)))
        then (db, Err (RefError_Schema (str "objects differ from the exact epoch-1 schema")))
        else (db, Ok tt)
    end.

(** [main.rs]: the path given, else one of this process. *)
Definition path_join (dir name : rstr) : rstr := if ends_with [47] dir then dir ++ name else dir ++ [47] ++ name.
Definition refs_db_path (temp_dir : rstr) (pid : Z) (path : option rstr) : rstr :=
  match path with
  | Some path => path
  | None => path_join temp_dir (str "ccs-refs-v1-" ++ dec_of_Z pid ++ str ".db")
  end.

(** ** What [open] accepts *)

(** No object of the user's, and no rows, for want of a table. *)
Definition fresh_db (db : Db) : Prop :=
  Forall (fun o => like_sqlite (obj_name o) = true) (db_objects db) /\ user_version db = 0.

(** The table [refs] with this exact text is the only object of the user's. *)
Definition epoch1 (db : Db) : Prop :=
  user_version db = SCHEMA_VERSION /\
  exists before after,
    db_objects db = before ++ mkDbObject (str "table") (str "refs") (Some SCHEMA) :: after /\
    Forall (fun o => like_sqlite (obj_name o) = true) (before ++ after).

Lemma object_count_app db l1 l2 :
  db_objects db = l1 ++ l2 ->
  object_count db = (length (filterb (fun o => negb (like_sqlite (obj_name o))) l1)
                     + length (filterb (fun o => negb (like_sqlite (obj_name o))) l2))%nat.
Proof. intros E. unfold object_count. by rewrite E, List.filter_app, length_app. Qed.

Lemma no_user_objects l :
  length (filterb (fun o => negb (like_sqlite (obj_name o))) l) = 0%nat <-> Forall (fun o => like_sqlite (obj_name o) = true) l.
Proof.
  induction l as [|o l IH]; cbn; [by split|]. rewrite Forall_cons. destruct (like_sqlite (obj_name o)); cbn; [|by split; [|intros []]].
  rewrite IH. tauto.
Qed.

Lemma fresh_db_spec db : ((object_count db =? 0)%nat && (user_version db =? 0) = true) <-> fresh_db db.
Proof. unfold fresh_db. by rewrite andb_true_iff, Nat.eqb_eq, Z.eqb_eq, <- no_user_objects. Qed.

Lemma like_sqlite_refs : like_sqlite (str "refs") = false.
Proof. reflexivity. Qed.

(** The table counts as one of the user's objects, so no other is. *)
Lemma epoch1_spec db :
  user_version db = SCHEMA_VERSION -> epoch1 db <-> object_count db = 1%nat /\ stored_schema db = Some (Some SCHEMA).
Proof.
  intros V. set (table := mkDbObject (str "table") (str "refs") (Some SCHEMA)). split.
  - intros (_ & before & after & E & F). apply Forall_app in F as [Fb Fa].
    rewrite (object_count_app _ _ _ E), (proj2 (no_user_objects before) Fb).
    cbn [filterb List.filter obj_name]. rewrite like_sqlite_refs. cbn [negb length Nat.add].
    rewrite (proj2 (no_user_objects after) Fa). split; [done|]. unfold stored_schema. rewrite E.
    clear E. induction Fb as [|o before Ho _ IH]; [reflexivity|]. cbn [app List.find].
    destruct (bool_decide (obj_name o = str "refs")) eqn:N; [|by rewrite andb_false_r].
    apply bool_decide_eq_true in N. by rewrite N, like_sqlite_refs in Ho.
  - intros [C S]. unfold stored_schema in S. destruct (List.find _ _) as [o|] eqn:Fo; [|done]. injection S as S.
    apply List.find_some in Fo as [I [T N]%andb_true_iff]. apply bool_decide_eq_true in T, N.
    assert (o = table) as -> by (destruct o; cbn in *; by subst). split; [exact V|].
    apply List.in_split in I as (before & after & E). exists before, after. split; [exact E|].
    apply Forall_app. rewrite (object_count_app _ _ _ E) in C. cbn [filterb List.filter table obj_name] in C.
    rewrite like_sqlite_refs in C. cbn [negb length] in C. rewrite <- !no_user_objects. lia.
Qed.

Lemma author_epoch1 db : fresh_db db -> epoch1 (author db) /\ db_rows (author db) = db_rows db.
Proof.
  intros [F _]. split; [|done]. split; [done|].
  exists (db_objects db), [mkDbObject (str "index") (str "sqlite_autoindex_refs_1") None].
  split; [done|]. apply Forall_app. split; [exact F|]. by repeat constructor.
Qed.

Lemma open_epoch1 db : epoch1 db -> open db = (db, Ok tt).
Proof.
  intros E. unfold open. pose proof E as [V _]. rewrite V.
  apply (epoch1_spec _ V) in E as [C S]. rewrite C, S. cbn. by rewrite bool_decide_true.
Qed.

Lemma open_refused db : ~ fresh_db db -> ~ epoch1 db -> exists e, open db = (db, Err e).
Proof.
  intros F E. unfold open. rewrite <- fresh_db_spec in F. apply not_true_is_false in F. rewrite F.
  destruct (Z.eqb_spec (user_version db) SCHEMA_VERSION) as [V|]; cbn [negb]; [|eauto].
  rewrite (epoch1_spec _ V) in E. destruct (stored_schema db) as [[sql|]|]; [|by eauto|];
    (case_bool_decide as S; [|rewrite orb_true_r; eauto]; destruct (Nat.eqb_spec (object_count db) 1); cbn; [|eauto]);
    [by destruct E | done].
Qed.

Lemma open_fresh db : fresh_db db -> open db = (author db, Ok tt).
Proof. intros F. unfold open. by rewrite (proj2 (fresh_db_spec db) F). Qed.

(** The three outcomes. *)
Lemma open_cases db :
  (fresh_db db /\ open db = (author db, Ok tt)) \/
  (~ fresh_db db /\ epoch1 db /\ open db = (db, Ok tt)) \/
  (~ fresh_db db /\ ~ epoch1 db /\ exists e, open db = (db, Err e)).
Proof.
  destruct (decide (fresh_db db)) as [F|F]; [left; by split; [|apply open_fresh]|right].
  destruct (decide (object_count db = 1%nat /\ stored_schema db = Some (Some SCHEMA) /\ user_version db = SCHEMA_VERSION))
    as [(C & S & V)|N].
  - left. assert (E : epoch1 db) by (apply (epoch1_spec _ V); done). by rewrite (open_epoch1 _ E).
  - right. assert (E : ~ epoch1 db) by (intros E; pose proof E as [V _]; apply (epoch1_spec _ V) in E as [C S]; tauto).
    split; [done|]. split; [done|]. by apply open_refused.
Qed.

Lemma open_facts db : ((open db).2 = Ok tt -> epoch1 (open db).1) /\ db_rows (open db).1 = db_rows db.
Proof.
  destruct (open_cases db) as [(F & ->)|[(_ & E & ->)|(_ & _ & e & ->)]]; cbn [fst snd]; [|done|done].
  by destruct (author_epoch1 db F).
Qed.

(** C33. A database is opened or refused, never repaired.  Opening authors the
    epoch-1 schema in a database with nothing of the user's in it, accepts an
    exact epoch-1 database as it is, and refuses every other with a typed error,
    having changed nothing; in no case is a row touched.  What was opened is an
    exact epoch-1 database, so opening it again, after a restart, succeeds and
    changes nothing. *)
Theorem open_exact (db : Db) :
  (fresh_db db \/ epoch1 db <-> (open db).2 = Ok tt) /\
  ((open db).2 = Ok tt -> epoch1 (open db).1 /\ open (open db).1 = ((open db).1, Ok tt)) /\
  (~ fresh_db db -> (open db).1 = db) /\ db_rows (open db).1 = db_rows db.
Proof.
  destruct (open_facts db) as [O R]. split; [|split; [|split; [|exact R]]].
  - destruct (open_cases db) as [(F & ->)|[(_ & E & ->)|(F & E & e & ->)]]; cbn [snd]; [tauto|tauto|]. split; [tauto|done].
  - intros H. split; [by apply O|]. by apply open_epoch1, O.
  - intros N. by destruct (open_cases db) as [(F & _)|[(_ & _ & ->)|(_ & _ & e & ->)]].
Qed.

(** A new file, opened twice; and one of a later epoch, refused untouched. *)
Lemma open_exact_witness :
  let new := mkDb [] 0 ∅ in
  let later := mkDb (db_objects (author new)) 2 ∅ in
  epoch1 (open new).1 /\ open (open new).1 = ((open new).1, Ok tt) /\ (open later).1 = later /\ (open later).2 <> Ok tt.
Proof.
  cbv zeta. destruct (open_exact (mkDb [] 0 ∅)) as (_ & A & _). destruct A as [E O]; [reflexivity|].
  destruct (open_exact (mkDb (db_objects (author (mkDb [] 0 ∅))) 2 ∅)) as (_ & _ & N & _).
  split; [exact E|]. split; [exact O|]. split; [|discriminate]. apply N. intros [_ V]. discriminate V.
Defined.

Example db_path_default : refs_db_path (str "/tmp") 4242 None = str "/tmp/ccs-refs-v1-4242.db".
Proof. reflexivity. Qed.
