(* ===== verification/Session.v ===== *)
(** * Per-session state

    Models [crates/ccs-proxy/src/session.rs] (the economics state folded from
    the usage tap, with its realized-bust breaker), the staged-plan data of
    [staging.rs], and [pipeline/presets.rs]'s dispatch.  The circuit breaker is
    the [failsafe] crate's, the parameter [Breaker]. *)
From S2P Require Import Prelude RStr F64 Core Economics Config Wire Segment Policy Scorer Pipeline Ladder Fallback Text Targets Markup Recode Marker.

Local Open Scope Z_scope.

(** ** The staged plan ([staging.rs]) *)

Record StagedRecode := mkStagedRecode {
  sr_content : rstr;
  sr_ref_id : option RefId;
  sr_marker : option rstr;
}.

Record StagedEntry := mkStagedEntry {
  se_rec : RefRecord;
  se_decision : ContentDecision;
  se_recode : option StagedRecode;
}.

Record StagedPlan := mkStagedPlan { by_content : gmap RefId StagedEntry }.

(** ** The preset for a request ([presets.rs]) *)

Definition for_request `{Libm, SerdeJson} (staged_present : bool) (pressure : Pressure) : Pipeline :=
  match staged_present, pressure with
  | true, _ => continuous
  | false, OverBudget => budget_fallback
  | false, Nominal => Pipeline_of []
  end.

Section Presets.
Context `{Libm, SerdeJson, FormatCore, Similar}.

(** The on-path filter keeps the whole spine and nothing of the other presets. *)
Lemma on_path_presets :
  on_path continuous = continuous /\ on_path budget_fallback = Pipeline_of [] /\
  on_path deterministic = Pipeline_of [].
Proof. split; [reflexivity|]. split; reflexivity. Qed.
End Presets.

(** ** [SessionEcon] ([session.rs]) *)

Definition WARMUP_TURNS : Z := 2.
Definition INITIAL_REMAINING_TURNS : f64 := f64_of_Z 4.
Definition REMAINING_TURNS_ALPHA : f64 := f64_lit 3 10.
Definition BUST_OVERRUN_FACTOR : f64 := f64_of_Z 4.

(** [failsafe]'s state machine with one consecutive failure and a constant
    backoff: a call's outcome at an instant, and whether calls are permitted. *)
Class Breaker := {
  breaker : Type;
  breaker_new : breaker;
  breaker_call : breaker -> bool -> f64 -> breaker;
  is_call_permitted : breaker -> f64 -> bool;
}.

(** The credentials the summarizer replays. *)
Record SessionAuthContext := mkSessionAuthContext {
  auth_headers : list (rstr * rstr);
  auth_upstream : rstr;
}.

Section Session.
Context `{Breaker}.

Record SessionEcon := mkSessionEcon {
  s_cache : CacheState;
  s_turn : Z;
  s_auth : SessionAuthContext;
  s_working : WorkingState;
  s_staged : option StagedPlan;
  s_staging : bool;
  s_intercept_enabled : bool;
  s_econ : option ModelEconomics;
  s_npv_floor : f64;
  s_policy : PolicyConfig;
  s_remaining_turns : f64;
  s_hot_refs : gset RefId;
  s_fast_lane : gset RefId;
  s_last_message_count : nat;
  s_window_closed : bool;
  s_last_predicted_bust : option Cost;
  s_token_scale : TokenScale;
  s_last_estimated_prefix : option TokenCount;
  s_breaker : breaker;
}.

Definition SessionEcon_new (cache : CacheState) (auth : SessionAuthContext) (npv_floor : f64) (policy : PolicyConfig)
    : SessionEcon :=
  mkSessionEcon cache 0 auth WorkingState_default None false true (economics_for (cache_model cache)) npv_floor
    policy INITIAL_REMAINING_TURNS ∅ ∅ 0 true None TokenScale_default None breaker_new.

(** One field replaced. *)
Definition set_staging (s : SessionEcon) (v : bool) : SessionEcon :=
  mkSessionEcon (s_cache s) (s_turn s) (s_auth s) (s_working s) (s_staged s) v (s_intercept_enabled s) (s_econ s)
    (s_npv_floor s) (s_policy s) (s_remaining_turns s) (s_hot_refs s) (s_fast_lane s) (s_last_message_count s)
    (s_window_closed s) (s_last_predicted_bust s) (s_token_scale s) (s_last_estimated_prefix s) (s_breaker s).
Definition set_staged (s : SessionEcon) (v : option StagedPlan) : SessionEcon :=
  mkSessionEcon (s_cache s) (s_turn s) (s_auth s) (s_working s) v (s_staging s) (s_intercept_enabled s) (s_econ s)
    (s_npv_floor s) (s_policy s) (s_remaining_turns s) (s_hot_refs s) (s_fast_lane s) (s_last_message_count s)
    (s_window_closed s) (s_last_predicted_bust s) (s_token_scale s) (s_last_estimated_prefix s) (s_breaker s).
Definition set_working (s : SessionEcon) (v : WorkingState) : SessionEcon :=
  mkSessionEcon (s_cache s) (s_turn s) (s_auth s) v (s_staged s) (s_staging s) (s_intercept_enabled s) (s_econ s)
    (s_npv_floor s) (s_policy s) (s_remaining_turns s) (s_hot_refs s) (s_fast_lane s) (s_last_message_count s)
    (s_window_closed s) (s_last_predicted_bust s) (s_token_scale s) (s_last_estimated_prefix s) (s_breaker s).
Definition set_fast_lane (s : SessionEcon) (v : gset RefId) : SessionEcon :=
  mkSessionEcon (s_cache s) (s_turn s) (s_auth s) (s_working s) (s_staged s) (s_staging s) (s_intercept_enabled s) (s_econ s)
    (s_npv_floor s) (s_policy s) (s_remaining_turns s) (s_hot_refs s) v (s_last_message_count s)
    (s_window_closed s) (s_last_predicted_bust s) (s_token_scale s) (s_last_estimated_prefix s) (s_breaker s).
Definition set_window (s : SessionEcon) (count : nat) (closed : bool) : SessionEcon :=
  mkSessionEcon (s_cache s) (s_turn s) (s_auth s) (s_working s) (s_staged s) (s_staging s) (s_intercept_enabled s) (s_econ s)
    (s_npv_floor s) (s_policy s) (s_remaining_turns s) (s_hot_refs s) (s_fast_lane s) count
    closed (s_last_predicted_bust s) (s_token_scale s) (s_last_estimated_prefix s) (s_breaker s).
Definition set_predicted (s : SessionEcon) (v : option Cost) : SessionEcon :=
  mkSessionEcon (s_cache s) (s_turn s) (s_auth s) (s_working s) (s_staged s) (s_staging s) (s_intercept_enabled s) (s_econ s)
    (s_npv_floor s) (s_policy s) (s_remaining_turns s) (s_hot_refs s) (s_fast_lane s) (s_last_message_count s)
    (s_window_closed s) v (s_token_scale s) (s_last_estimated_prefix s) (s_breaker s).
Definition set_estimate (s : SessionEcon) (scale : TokenScale) (v : option TokenCount) : SessionEcon :=
  mkSessionEcon (s_cache s) (s_turn s) (s_auth s) (s_working s) (s_staged s) (s_staging s) (s_intercept_enabled s) (s_econ s)
    (s_npv_floor s) (s_policy s) (s_remaining_turns s) (s_hot_refs s) (s_fast_lane s) (s_last_message_count s)
    (s_window_closed s) (s_last_predicted_bust s) scale v (s_breaker s).
Definition set_breaker (s : SessionEcon) (enabled : bool) (b : breaker) : SessionEcon :=
  mkSessionEcon (s_cache s) (s_turn s) (s_auth s) (s_working s) (s_staged s) (s_staging s) enabled (s_econ s)
    (s_npv_floor s) (s_policy s) (s_remaining_turns s) (s_hot_refs s) (s_fast_lane s) (s_last_message_count s)
    (s_window_closed s) (s_last_predicted_bust s) (s_token_scale s) (s_last_estimated_prefix s) b.
Definition set_turn (s : SessionEcon) (cache : CacheState) (turn : Z) (remaining : f64) : SessionEcon :=
  mkSessionEcon cache turn (s_auth s) (s_working s) (s_staged s) (s_staging s) (s_intercept_enabled s) (s_econ s)
    (s_npv_floor s) (s_policy s) remaining (s_hot_refs s) (s_fast_lane s) (s_last_message_count s)
    (s_window_closed s) (s_last_predicted_bust s) (s_token_scale s) (s_last_estimated_prefix s) (s_breaker s).

Definition calibrate (self : SessionEcon) (usage : CacheUsage) : SessionEcon :=
  match s_last_estimated_prefix self with
  | Some estimated =>
      let observed := f64_of_Z (u32_add (u32_add (cache_read_input_tokens usage)
                                           (cache_creation_input_tokens usage)) (input_tokens usage)) in
      set_estimate self (TokenScale_fold (s_token_scale self) observed (f64_of_Z estimated)) None
  | None => self
  end.

(** [clock] is the instant the breaker itself reads. *)
Definition run_breaker (self : SessionEcon) (usage : CacheUsage) (clock : f64) : SessionEcon :=
  let realized := f64_of_Z (cache_creation_input_tokens usage) in
  let overran_prediction :=
    match s_last_predicted_bust self with
    | Some pred => f64_ltb (f64_mul BUST_OVERRUN_FACTOR (f64_of_Z (cost_tokens pred))) realized
    | None => false
    end in
  let self := set_predicted self None in
  let cold := (cache_creation_input_tokens usage =? 0) && (cache_read_input_tokens usage =? 0) in
  let failed := (WARMUP_TURNS <=? s_turn self) && (cold || overran_prediction) in
  let b := breaker_call (s_breaker self) (negb failed) clock in
  set_breaker self (is_call_permitted b clock) b.

Definition observe (self : SessionEcon) (usage : CacheUsage) (now clock : f64) : SessionEcon :=
  let cache := CacheState_observe (s_cache self) usage now in
  let turn := u64_wrap (s_turn self + 1) in
  let remaining :=
    f64_add (f64_mul REMAINING_TURNS_ALPHA (f64_of_Z turn))
      (f64_mul (f64_sub f64_one REMAINING_TURNS_ALPHA) (s_remaining_turns self)) in
  run_breaker (calibrate (set_turn self cache turn remaining) usage) usage clock.
End Session.

(** ** The breaker across a session *)

Definition COOLDOWN : f64 := f64_of_Z 60.

(** What [observe] is told of one turn. *)
Record Observation := mkObservation { obs_usage : CacheUsage; obs_now : f64; obs_clock : f64 }.

Section Engagement.
Context `{Breaker}.

(** [failsafe] with one consecutive failure and a constant backoff: the instant
    until which the breaker is open, if it is; a call that is not permitted is
    rejected and leaves the state alone. *)
Record failsafe_laws (open_until : breaker -> option f64) : Prop := {
  law_new : open_until breaker_new = None;
  law_permitted : forall b t,
    is_call_permitted b t = match open_until b with Some until => f64_ltb until t | None => true end;
  law_call : forall b succeeded t,
    open_until (breaker_call b succeeded t) =
      if is_call_permitted b t then (if succeeded then None else Some (f64_add t COOLDOWN)) else open_until b;
}.

Definition observe_one (s : SessionEcon) (o : Observation) : SessionEcon :=
  observe s (obs_usage o) (obs_now o) (obs_clock o).
Definition observe_all (s : SessionEcon) (os : list Observation) : SessionEcon := foldl observe_one s os.

(** The turn counted as a failure: past the warm-up, nothing read from or
    written to the cache, or four times the predicted bust written. *)
Definition failing (s : SessionEcon) (usage : CacheUsage) : bool :=
  (WARMUP_TURNS <=? u64_wrap (s_turn s + 1)) &&
  (((cache_creation_input_tokens usage =? 0) && (cache_read_input_tokens usage =? 0)) ||
   match s_last_predicted_bust s with
   | Some pred => f64_ltb (f64_mul BUST_OVERRUN_FACTOR (f64_of_Z (cost_tokens pred))) (f64_of_Z (cache_creation_input_tokens usage))
   | None => false
   end).

Lemma calibrate_fields s usage :
  s_breaker (calibrate s usage) = s_breaker s /\ s_turn (calibrate s usage) = s_turn s /\
  s_last_predicted_bust (calibrate s usage) = s_last_predicted_bust s /\ s_last_estimated_prefix (calibrate s usage) = None.
Proof. unfold calibrate. by destruct (s_last_estimated_prefix s) eqn:E. Qed.

(** One observation on the breaker. *)
Lemma observe_breaker s o :
  let b := breaker_call (s_breaker s) (negb (failing s (obs_usage o))) (obs_clock o) in
  let s' := observe_one s o in
  s_breaker s' = b /\ s_intercept_enabled s' = is_call_permitted b (obs_clock o) /\
  s_turn s' = u64_wrap (s_turn s + 1) /\ s_last_predicted_bust s' = None /\ s_last_estimated_prefix s' = None.
Proof.
  unfold observe_one, observe, run_breaker. set (s1 := set_turn _ _ _ _).
  destruct (calibrate_fields s1 (obs_usage o)) as (B & T & P & E). cbn. rewrite B, T, P, E. by cbn.
Qed.

Section Laws.
Context (open_until : breaker -> option f64) (L : failsafe_laws open_until).

(** While the breaker is open every observation leaves it open. *)
Lemma observe_all_open until os : forall s,
  open_until (s_breaker s) = Some until -> s_intercept_enabled s = false ->
  Forall (fun o => f64_ltb until (obs_clock o) = false) os ->
  let s' := observe_all s os in open_until (s_breaker s') = Some until /\ s_intercept_enabled s' = false.
Proof.
  induction os as [|o os IH]; intros s O E F; [done|]. inversion F as [|? ? Fo F']; subst.
  destruct (observe_breaker s o) as (B & En & _). cbn [observe_all foldl].
  assert (O' : open_until (s_breaker (observe_one s o)) = Some until)
    by (by rewrite B, (law_call _ L), (law_permitted _ L), O, Fo).
  apply IH; [exact O'| |exact F']. rewrite En, <- B, (law_permitted _ L), O'. exact Fo.
Qed.

(** A closed breaker stays closed while nothing fails. *)
Lemma observe_closed s o :
  open_until (s_breaker s) = None -> failing s (obs_usage o) = false ->
  open_until (s_breaker (observe_one s o)) = None /\ s_intercept_enabled (observe_one s o) = true.
Proof.
  intros O F. destruct (observe_breaker s o) as (B & En & _).
  assert (O' : open_until (s_breaker (observe_one s o)) = None) by (by rewrite B, (law_call _ L), (law_permitted _ L), O, F).
  split; [exact O'|]. by rewrite En, <- B, (law_permitted _ L), O'.
Qed.
End Laws.
End Engagement.

Section Theorems.
Context `{Breaker}.

End Theorems.

(** ** A concrete breaker and a session that overruns its prediction *)

Definition cooldown_breaker : Breaker := {|
  breaker := option f64;
  breaker_new := None;
  breaker_call b succeeded t :=
    if match b with Some until => f64_ltb until t | None => true end
    then (if succeeded then None else Some (f64_add t COOLDOWN)) else b;
  is_call_permitted b t := match b with Some until => f64_ltb until t | None => true end;
|}.

Definition cooldown_until (b : @breaker cooldown_breaker) : option f64 := b.

Lemma cooldown_failsafe : @failsafe_laws cooldown_breaker cooldown_until.
Proof. split; [done|done|]. intros [until|] succeeded t; done. Qed.

Section Run.
#[local] Existing Instances cooldown_breaker.

Definition predicted_session : SessionEcon :=
  set_predicted (set_turn (SessionEcon_new (mkCacheState 0 f64_zero (f64_of_Z 3600) (ModelId_new (str "claude-opus-4-8")) [])
    (mkSessionAuthContext [] []) f64_zero PolicyConfig_default) (mkCacheState 0 f64_zero (f64_of_Z 3600) (ModelId_new (str "claude-opus-4-8")) [])
    5 f64_one) (Some (mkCost f64_zero 100)).
Definition usage_of (read created : Z) : CacheUsage := mkCacheUsage created read 0.

End Run.
