(* ===== verification/Intercept.v ===== *)
(** * The on-path interceptor

    Models [crates/ccs-proxy/src/intercept.rs]: the fast lane, the continuous
    path over a staged plan, the deterministic fallback, the renders and the
    single splice-and-gate codepath.  [None] is a panic, which [run] turns into
    the identity like a timeout or a lost task. *)
From S2P Require Import Prelude RStr F64 Core Economics Config Wire Segment Policy Scorer Pipeline Ladder Fallback Controller Text Targets Markup Recode Rewrite Marker Store Session.

Local Open Scope Z_scope.

Definition MAX_INTERCEPT_BYTES : Z := 4 * 1024 * 1024.
Definition FAST_LANE_MAX_LEAF : Z := 256 * 1024.
Definition FUSE_UP : bool := false.
Definition DROP_PLACEHOLDER : rstr := str "[cc-squash: dropped under budget pressure]".
Definition DEDUPE_ALLOW_ASSISTANT : bool := true.
Definition FALLBACK_ECON : ModelEconomics := mkModelEconomics f64_zero f64_zero f64_zero 0.

Record Intercepted := mkIntercepted {
  out_bytes : list byte;
  out_predicted_bust : option Cost;
  fast_lane_committed : list RefId;
  fast_lane_uncommitted : list RefId;
}.

Record InterceptInputs := mkInterceptInputs {
  in_econ : ModelEconomics;
  in_cache : CacheState;
  in_npv_floor : f64;
  in_policy : PolicyConfig;
  in_remaining_turns : f64;
  in_hot_refs : gset RefId;
  in_fast_lane : gset RefId;
  in_last_message_count : nat;
  in_window_closed : bool;
  in_staged : option StagedPlan;
  in_token_scale : TokenScale;
  in_now : f64;
}.

Definition identity (bytes : list byte) : Intercepted := mkIntercepted bytes None [] [].

Record LaneEntry := mkLaneEntry {
  lane_key : RefId;
  lane_fresh : bool;
  lane_saved : Z;
  lane_rendered : list RenderedSegment;
}.

(** A surviving row: the segment, its staged entry, its candidate. *)
Abbreviation Live := (nat * StagedEntry * SquashCandidate)%type.

(** ** Rendering *)

Definition render_proposal_text (strategy : Strategy) (ref_marker : option rstr) : option rstr :=
  match strategy with
  | Keep => None
  | Drop => Some DROP_PLACEHOLDER
  | Recode content ref_id =>
      Some (match ref_id, ref_marker with
            | Some _, Some marker => content ++ [LF] ++ marker
            | _, _ => content
            end)
  | Truncate _ | Summarize _ | ReversibleRef _ _ => ref_marker
  end.

Definition segment_role (kind : SegmentKind) : rstr :=
  match kind with AssistantTurn => str "assistant" | _ => str "user" end.

Definition backref_allowed (prev cur : rstr) (entry : StagedEntry) (seg : Segment) : bool :=
  should_dedupe cur (byte_len (se_rec entry)) (pinned seg) DEDUPE_ALLOW_ASSISTANT && can_dedupe_from prev cur.

Definition recode_strategy (recode : StagedRecode) : Strategy := Recode (sr_content recode) (sr_ref_id recode).

Definition json_bool (b : bool) : Value := Value_Scalar (if b then str "true" else str "false").
Definition text_value (text : rstr) : Value :=
  Value_Object (<[str "type" := Value_String (str "text")]> {[ str "text" := Value_String text ]}).

Definition replacement_value (kind : ReplacementKind) (text : rstr) : Value :=
  match kind with
  | ToolResult tool_use_id is_error =>
      Value_Object (<[str "type" := Value_String (str "tool_result")]>
        (<[str "tool_use_id" := Value_String tool_use_id]>
          (<[str "is_error" := json_bool is_error]> {[ CONTENT := Value_String text ]})))
  | TextBlock => text_value text
  | StringContent => Value_Array [text_value text]
  end.

Section Render.
Context `{SerdeJson, SerdeValue, Sha256}.

Definition placeholder_block_json (kind : ReplacementKind) (text : rstr) : rstr :=
  value_display (replacement_value kind text).

Definition render_target (t : BlockTarget) (text : rstr) : RenderedSegment :=
  mkRenderedSegment (bt_target t) (placeholder_block_json (bt_kind t) text).

Definition render_recode_segment (body : WireBody) (seg : Segment) (recode : StagedRecode) : list RenderedSegment :=
  omap (fun t => render_target t <$> render_proposal_text (recode_strategy recode) (sr_marker recode))
    (squash_targets body seg).

(** One target of a reversible segment; [first_seen] maps a payload's key to the
    role of its first rendered occurrence. *)
Definition render_reversible_target (seg : Segment) (entry : StagedEntry) (key : RefId)
    (first_seen : gmap RefId rstr) (t : BlockTarget) : option RenderedSegment * gmap RefId rstr :=
  let role := segment_role (kind seg) in
  let summary := default [] (summary_content (se_decision entry)) in
  let placeholder := render_placeholder (se_rec entry) summary FUSE_UP in
  let '(marker, first_seen) :=
    match first_seen !! key with
    | Some prev =>
        if backref_allowed prev role entry seg then (render_backref (rec_ref_id (se_rec entry)), first_seen)
        else (placeholder, first_seen)
    | None => (placeholder, <[key := role]> first_seen)
    end in
  (render_target t <$> render_proposal_text (ReversibleRef (rec_ref_id (se_rec entry)) summary) (Some marker),
   first_seen).

Fixpoint render_reversible_targets (seg : Segment) (entry : StagedEntry) (key : RefId)
    (first_seen : gmap RefId rstr) (ts : list BlockTarget) : list RenderedSegment * gmap RefId rstr :=
  match ts with
  | [] => ([], first_seen)
  | t :: ts =>
      let '(r, first_seen) := render_reversible_target seg entry key first_seen t in
      let '(rs, first_seen) := render_reversible_targets seg entry key first_seen ts in
      (match r with Some r => r :: rs | None => rs end, first_seen)
  end.

Definition render_reversible_segment (body : WireBody) (seg : Segment) (entry : StagedEntry)
    (first_seen : gmap RefId rstr) : option (list RenderedSegment * gmap RefId rstr) :=
  key ← dedupe_key (segment_payload_bytes seg body);
  Some (render_reversible_targets seg entry key first_seen (squash_targets body seg)).

(** The candidates' blocks; the inner [None] is a candidate without a block. *)
Fixpoint render_candidates (body : WireBody) (segments : list Segment) (first_seen : gmap RefId rstr)
    (live : list Live) : option (option (list RenderedSegment)) :=
  match live with
  | [] => Some (Some [])
  | (seg_index, entry, _) :: live =>
      match segments !! seg_index with
      | None => Some None
      | Some seg =>
          '(rendered, first_seen) ←
            match se_recode entry with
            | Some recode => Some (render_recode_segment body seg recode, first_seen)
            | None => render_reversible_segment body seg entry first_seen
            end;
          if is_empty rendered then Some None
          else
            rest ← render_candidates body segments first_seen live;
            Some (match rest with Some rs => Some (rendered ++ rs) | None => None end)
      end
  end.

Definition render_segments (body : WireBody) (segments : list Segment) (live : list Live)
    : option (option (list RenderedSegment)) :=
  render_candidates body segments ∅ live.

Definition safe_breakpoints (plan : BreakpointPlan) (rendered : list RenderedSegment) : BreakpointPlan :=
  mkBreakpointPlan
    (filterb (fun i => contains i ((fun r => target_message (rs_target r)) <$> rendered)) (positions plan)).
End Render.

(** ** The fast lane *)

Definition provably_uncached (seg : Segment) (last_message_count : nat) : bool :=
  negb (is_empty (source_uuids seg))
  && allb (fun u => match message_index u with Some m => (last_message_count <=? m)%nat | None => false end)
       (source_uuids seg).

Section Lane.
Context `{SerdeJson, SerdeValue, Sha256, FormatCore}.

Definition shrinking_target (strategy : Strategy) (t : BlockTarget) : option RenderedSegment :=
  text ← render_proposal_text strategy None;
  let r := render_target t text in
  if str_len (block_json r) <? original_len t then Some r else None.

Definition render_fast_lane (body : WireBody) (seg : Segment) (cleaned : rstr) : option (list RenderedSegment) :=
  rendered ← mapM (shrinking_target (Recode cleaned None)) (squash_targets body seg);
  if is_empty rendered then None else Some rendered.

Definition fast_lane_entry (body : WireBody) (inputs : InterceptInputs) (seg : Segment) (key : RefId) : option LaneEntry :=
  let fresh := negb (bool_decide (key ∈ in_fast_lane inputs)) in
  let staged_covers :=
    match in_staged inputs with Some p => bool_decide (is_Some (by_content p !! key)) | None => false end in
  if fresh && (staged_covers || in_window_closed inputs
               || negb (provably_uncached seg (in_last_message_count inputs)))
  then None
  else
    leaf ← fast_lane_leaf body seg;
    if FAST_LANE_MAX_LEAF <? str_len (leaf_content leaf) then None
    else
      cleaned ← fast_lane_clean (leaf_content leaf);
      let saved := str_len (leaf_content leaf) - str_len cleaned in
      rendered ← render_fast_lane body seg cleaned;
      Some (mkLaneEntry key fresh saved rendered).

Definition fast_lane_entries (body : WireBody) (segments : list Segment) (keys : list RefId)
    (inputs : InterceptInputs) : list LaneEntry :=
  omap (fun p => fast_lane_entry body inputs p.1 p.2) (zip segments keys).
End Lane.

(** ** The splice and its commitments *)

Section Finish.
Context `{SerdeJson, SerdeValue}.

Definition splice_and_gate (bytes : list byte) (body : WireBody) (rendered : list RenderedSegment)
    (plan : BreakpointPlan) : option (list byte) :=
  match splice bytes body rendered plan with
  | Err _ => None
  | Ok s => match validate (spliced_bytes s) body with Ok _ => Some (spliced_bytes s) | Err _ => None end
  end.

(** The lane entries no base block collides with. *)
Definition open_lane (base : list RenderedSegment) (lane : list LaneEntry) : list LaneEntry :=
  filterb (fun e => allb (fun r => negb (contains (rs_target r) (rs_target <$> base))) (lane_rendered e)) lane.

Definition finish (bytes : list byte) (body : WireBody) (base : list RenderedSegment) (uncommit : list RefId)
    (lane : list LaneEntry) (plan : BreakpointPlan) (predicted_bust : option Cost) : Intercepted :=
  let lane := open_lane base lane in
  let rendered := base ++ concat (lane_rendered <$> lane) in
  if is_empty rendered then identity bytes
  else
    match splice_and_gate bytes body rendered plan with
    | Some rewritten =>
        mkIntercepted rewritten predicted_bust (lane_key <$> filterb lane_fresh lane) uncommit
    | None => identity bytes
    end.
End Finish.

(** ** Pricing *)

Section Pricing.
Context `{SerdeJson, Libm}.

Definition segment_quality_gain (seg : Segment) (segments : list Segment) (inputs : InterceptInputs)
    (ref_id : RefId) : f64 :=
  let score := score_segment seg segments WorkingState_default (in_cache inputs) (in_econ inputs)
                 (in_now inputs) (in_policy inputs) in
  let score :=
    if bool_decide (ref_id ∈ in_hot_refs inputs)
    then mkSegmentScore (salience score) (recency score) (freshness score) (economics score)
           (size score) (content_type score) f64_one
    else score in
  score_quality_gain score (weights (in_policy inputs)).

Definition intercept_suffix_tokens (seg : Segment) (segments : list Segment) : TokenCount :=
  u32_sum (token_estimate <$> filterb (fun s => (seg_index seg <? seg_index s)%nat) segments).

(** A candidate whose every target becomes [replacement_tokens] tokens. *)
Definition priced_candidate (seg : Segment) (segments : list Segment) (targets : list BlockTarget)
    (replacement_tokens : Z) (entry : StagedEntry) (token_scale : TokenScale) (quality_gain : f64) : SquashCandidate :=
  let net_removed := i64_sum ((fun t => original_tokens t - replacement_tokens) <$> targets) in
  mkSquashCandidate (byte_offset seg)
    (TokenScale_apply token_scale (intercept_suffix_tokens seg segments))
    (TokenScale_apply_signed token_scale net_removed) quality_gain (rec_ref_id (se_rec entry)) Keep.

Definition live_candidate (seg : Segment) (segments : list Segment) (body : WireBody) (entry : StagedEntry)
    (token_scale : TokenScale) (quality_gain : f64) : option SquashCandidate :=
  let targets := squash_targets body seg in
  if is_empty targets then None
  else
    let placeholder_tokens :=
      estimate_chars_proxy
        (render_placeholder (se_rec entry) (default [] (summary_content (se_decision entry))) FUSE_UP) in
    Some (priced_candidate seg segments targets placeholder_tokens entry token_scale quality_gain).

Definition recode_candidate (seg : Segment) (segments : list Segment) (body : WireBody) (entry : StagedEntry)
    (token_scale : TokenScale) (quality_gain : f64) : option SquashCandidate :=
  let targets := squash_targets body seg in
  if is_empty targets then None
  else
    recode ← se_recode entry;
    replacement ← render_proposal_text (recode_strategy recode) (sr_marker recode);
    Some (priced_candidate seg segments targets (estimate_chars_proxy replacement) entry token_scale quality_gain).

Definition free_bust_of (body : WireBody) (cache : CacheState) : option FreeBustTrigger :=
  if bool_decide (body_model body = cache_model cache) then None else Some Trigger_ModelSwitch.
End Pricing.

(** ** The two paths *)

Section Paths.
Context `{SerdeJson, SerdeValue, Sha256, Libm, FormatCore}.

Definition staged_segment (body : WireBody) (segments : list Segment) (plan : StagedPlan) (inputs : InterceptInputs)
    (seg : Segment) (key : RefId) : option (StagedSegment * StagedEntry) :=
  entry ← by_content plan !! key;
  match se_recode entry with
  | Some _ => None
  | None =>
      let q := segment_quality_gain seg segments inputs (rec_ref_id (se_rec entry)) in
      cand ← live_candidate seg segments body entry (in_token_scale inputs) q;
      Some (mkStagedSegment (seg_index seg) (se_decision entry) cand (in_npv_floor inputs), entry)
  end.

Definition recode_row (body : WireBody) (segments : list Segment) (plan : StagedPlan) (inputs : InterceptInputs)
    (seg : Segment) (key : RefId) : option Live :=
  entry ← by_content plan !! key;
  _ ← se_recode entry;
  let q := segment_quality_gain seg segments inputs (rec_ref_id (se_rec entry)) in
  cand ← recode_candidate seg segments body entry (in_token_scale inputs) q;
  if bool_decide (cand_ref_id cand ∈ in_hot_refs inputs) then None else Some (seg_index seg, entry, cand).

Definition live_order (a b : Live) : comparison := Nat.compare a.1.1 b.1.1.

(** The surviving rows, in segment order. *)
Definition live_rows (staged_segments : list (StagedSegment * StagedEntry)) (recode_live : list Live)
    (ledger : PlanLedger) : list Live :=
  sort_by live_order
    (omap (fun p =>
             '(staged, entry) ←
               List.find (fun s => (staged_seg_index s.1 =? prop_seg_index p)%nat) staged_segments;
             Some (prop_seg_index p, entry, staged_candidate staged)) (proposals ledger)
     ++ recode_live).

Definition staged_decisions (staged_segments : list (StagedSegment * StagedEntry)) (inputs : InterceptInputs)
    : StagedDecisions :=
  mkStagedDecisions true (fst <$> staged_segments) (elements (in_hot_refs inputs)).

Definition no_breakpoints : BreakpointPlan := mkBreakpointPlan [].

Definition apply_live (bytes : list byte) (body : WireBody) (segments : list Segment) (live : list Live)
    (uncommit : list RefId) (breakpoint_plan : BreakpointPlan) (predicted_bust : Cost) (lane : list LaneEntry)
    : option Intercepted :=
  rendered ← render_segments body segments live;
  Some (match rendered with
        | None => identity bytes
        | Some rendered =>
            finish bytes body rendered uncommit lane (safe_breakpoints breakpoint_plan rendered) (Some predicted_bust)
        end).

Definition lane_only (bytes : list byte) (body : WireBody) (lane : list LaneEntry) : Intercepted :=
  finish bytes body [] [] lane no_breakpoints None.

Definition intercept_continuous (bytes : list byte) (body : WireBody) (segments : list Segment) (keys : list RefId)
    (plan : StagedPlan) (inputs : InterceptInputs) (lane : list LaneEntry) : option Intercepted :=
  let staged_segments :=
    omap (fun p => staged_segment body segments plan inputs p.1 p.2) (zip segments keys) in
  let recode_live := omap (fun p => recode_row body segments plan inputs p.1 p.2) (zip segments keys) in
  let ctx :=
    mkPassCtx body segments WorkingState_default (in_econ inputs) (in_cache inputs) (in_policy inputs)
      (staged_decisions staged_segments inputs) (in_remaining_turns inputs) (in_now inputs) in
  ledger ← ok (Runner_run Runner_default (on_path (for_request true Nominal)) ctx (PlanLedger_sized (length segments)));
  let live := live_rows staged_segments recode_live ledger in
  live_keys ← mapM (fun r => keys !! r.1.1) live;
  let uncommit := filterb (fun key => bool_decide (key ∈ in_fast_lane inputs)) live_keys in
  if is_empty live then Some (lane_only bytes body lane)
  else
    let batch := mkSquashBatch (snd <$> live) in
    let prompt := mkPromptState segments (max_tokens body) (max_tokens body) (free_bust_of body (in_cache inputs)) in
    let controller := mkController (in_econ inputs) (in_cache inputs) (in_remaining_turns inputs)
                        (in_npv_floor inputs) (in_policy inputs) (in_token_scale inputs) in
    decision ← decide_squash controller prompt batch (in_now inputs);
    match decision with
    | Flush _ breakpoint_plan predicted_bust _ =>
        apply_live bytes body segments live uncommit breakpoint_plan predicted_bust lane
    | RideFreeBust _ _ =>
        apply_live bytes body segments live uncommit no_breakpoints (mkCost f64_zero 0) lane
    | Hold _ => Some (lane_only bytes body lane)
    end.

Definition fallback_cache (body : WireBody) : CacheState :=
  mkCacheState 0 f64_zero (f64_of_Z 3600) (body_model body) [].

Definition fallback_ctx (body : WireBody) (segments : list Segment) (policy : PolicyConfig) : PassCtx :=
  mkPassCtx body segments WorkingState_default (default FALLBACK_ECON (economics_for (body_model body)))
    (fallback_cache body) policy (mkStagedDecisions false [] []) f64_zero f64_zero.

(** The blocks the ladder's proposals drop. *)
Definition compact_rendered (body : WireBody) (segments : list Segment) (policy : PolicyConfig) (ledger : PlanLedger)
    : list RenderedSegment :=
  omap (shrinking_target Drop)
    (concat (squash_targets body <$>
       filterb (fun seg => negb (pinned seg) && negb (is_recency_protected seg segments policy))
         (omap (fun p => segments !! prop_seg_index p) (proposals ledger)))).

Definition deterministic_compact (bytes : list byte) (body : WireBody) (segments : list Segment)
    (policy : PolicyConfig) (lane : list LaneEntry) : option Intercepted :=
  let just_added := match last segments with Some s => token_estimate s | None => 0 end in
  let pressure := soft_pressure (max_tokens body) just_added in
  match pressure with
  | Nominal => Some (lane_only bytes body lane)
  | OverBudget =>
      ledger ← ok (Runner_run Runner_default (for_request false pressure) (fallback_ctx body segments policy)
                     (PlanLedger_sized (length segments)));
      Some (finish bytes body (compact_rendered body segments policy ledger) [] lane no_breakpoints None)
  end.

Definition intercept (bytes : list byte) (inputs : InterceptInputs) : option Intercepted :=
  if MAX_INTERCEPT_BYTES <? Z.of_nat (length bytes) then Some (identity bytes)
  else
    match parse_body bytes with
    | None => Some (identity bytes)
    | Some body =>
        let segments := segment_prompt body in
        keys ← mapM (fun seg => content_address (segment_payload_bytes seg body)) segments;
        let lane := fast_lane_entries body segments keys inputs in
        match in_staged inputs with
        | Some plan => intercept_continuous bytes body segments keys plan inputs lane
        | None => deterministic_compact bytes body segments (in_policy inputs) lane
        end
    end.

(** What the runtime made of the blocking task within its 50 ms. *)
Inductive TaskOutcome := Finished | JoinError | Elapsed.

Definition run (outcome : TaskOutcome) (bytes : list byte) (inputs : InterceptInputs) : Intercepted :=
  match outcome with
  | Finished => default (identity bytes) (intercept bytes inputs)
  | JoinError | Elapsed => identity bytes
  end.
End Paths.

(** ** The interceptor never panics *)

Lemma omap_sublist {A B C} (f : A -> option B) (g : B -> C) (h : A -> C) l :
  (forall x y, f x = Some y -> g y = h x) -> sublist (g <$> omap f l) (h <$> l).
Proof.
  intros E. induction l as [|x l IH]; [constructor|]. cbn [omap list_omap fmap list_fmap].
  destruct (f x) as [y|] eqn:F; [|by constructor]. cbn [fmap list_fmap]. rewrite (E x y F). by constructor.
Qed.

Lemma indexed_fmap segments : indexed segments -> seg_index <$> segments = seq 0 (length segments).
Proof.
  intros Hx. apply list_eq. intros i. rewrite list_lookup_fmap. destruct (segments !! i) as [s|] eqn:E; cbn.
  - rewrite (Hx _ _ E). symmetry. apply lookup_seq. split; [lia|]. by eapply lookup_lt_Some.
  - symmetry. apply lookup_ge_None. rewrite length_seq. by apply lookup_ge_None.
Qed.

Lemma zip_fst_sublist {A B} (l : list A) (k : list B) : sublist (fst <$> zip l k) l.
Proof. revert k. induction l as [|x l IH]; intros [|y k]; cbn; [constructor | constructor | apply sublist_nil_l | by constructor]. Qed.

Section Total.
Context `{SerdeJson, SerdeValue, Sha256, Libm, FormatCore}.

Lemma content_addresses_total body segments :
  sha256_law ->
  exists keys, mapM (fun seg => content_address (segment_payload_bytes seg body)) segments = Some keys /\
    length keys = length segments.
Proof.
  intros L. destruct (mapM _ segments) as [keys|] eqn:E.
  - exists keys. split; [done|]. by apply length_mapM in E.
  - apply mapM_None_1, Exists_exists in E as (s & _ & E). by rewrite content_address_total in E.
Qed.

Lemma staged_segment_index body segments plan inputs seg key st :
  staged_segment body segments plan inputs seg key = Some st -> staged_seg_index st.1 = seg_index seg.
Proof.
  unfold staged_segment. intros E. apply bind_Some in E as (entry & _ & E).
  destruct (se_recode entry); [done|]. apply bind_Some in E as (cand & _ & E). by simplify_eq.
Qed.

Lemma recode_row_index body segments plan inputs seg key row :
  recode_row body segments plan inputs seg key = Some row -> row.1.1 = seg_index seg.
Proof.
  unfold recode_row. intros E. apply bind_Some in E as (entry & _ & E). apply bind_Some in E as (? & _ & E).
  apply bind_Some in E as (cand & _ & E). by case_bool_decide; simplify_eq.
Qed.

Lemma staged_segments_NoDup body segments keys plan inputs :
  indexed segments ->
  NoDup (staged_seg_index <$> (fst <$> omap (fun p => staged_segment body segments plan inputs p.1 p.2) (zip segments keys))).
Proof.
  intros Hx. rewrite <- list_fmap_compose.
  apply (sublist_NoDup _ (seq 0 (length segments))); [apply NoDup_seq|].
  rewrite <- (indexed_fmap _ Hx).
  trans (seg_index <$> (fst <$> zip segments keys)).
  - rewrite <- list_fmap_compose. apply omap_sublist. intros p st. apply staged_segment_index.
  - apply fmap_sublist, zip_fst_sublist.
Qed.

Lemma spine_spec_index ctx i p : spine_spec ctx i = Some p -> is_Some (ctx_segments ctx !! i).
Proof.
  unfold spine_spec. destruct (StagedDecisions_segment _ _); [|done]. by destruct (ctx_segments ctx !! i).
Qed.

Lemma live_rows_index staged recode ledger segments r :
  (forall p, p ∈ proposals ledger -> is_Some (segments !! prop_seg_index p)) ->
  (forall r, r ∈ recode -> is_Some (segments !! r.1.1)) ->
  r ∈ live_rows staged recode ledger -> is_Some ((segments : list Segment) !! r.1.1).
Proof.
  intros Hp Hr. unfold live_rows. rewrite (sort_by_perm live_order). intros [Hi|Hi]%elem_of_app; [|by apply Hr].
  apply list_elem_of_omap in Hi as (p & Hi & E). apply bind_Some in E as ([st en] & _ & E). simplify_eq/=. by apply Hp.
Qed.

Lemma render_candidates_total body segments : sha256_law -> forall live first_seen,
  exists r, render_candidates body segments first_seen live = Some r.
Proof.
  intros L live. induction live as [|[[i entry] cand] live IH]; intros fs; cbn [render_candidates]; [eauto|].
  destruct (segments !! i) as [seg|]; [|eauto].
  assert (X : exists rendered fs', match se_recode entry with
      | Some recode => Some (render_recode_segment body seg recode, fs)
      | None => render_reversible_segment body seg entry fs end = Some (rendered, fs')).
  { destruct (se_recode entry); [eauto|]. unfold render_reversible_segment, dedupe_key.
    rewrite content_address_total by done. cbn [mbind option_bind]. destruct (render_reversible_targets _ _ _ _ _). eauto. }
  destruct X as (rendered & fs' & ->). cbn [mbind option_bind]. destruct (is_empty rendered); [eauto|].
  destruct (IH fs') as [r ->]. cbn. eauto.
Qed.

Lemma apply_live_total bytes body segments live uncommit plan cost lane :
  sha256_law -> exists out, apply_live bytes body segments live uncommit plan cost lane = Some out.
Proof.
  intros L. unfold apply_live, render_segments. destruct (render_candidates_total body segments L live ∅) as [r ->].
  cbn. eauto.
Qed.

Lemma intercept_continuous_total bytes body segments keys plan inputs lane :
  sha256_law -> indexed segments -> length keys = length segments ->
  exists out, intercept_continuous bytes body segments keys plan inputs lane = Some out.
Proof.
  intros L Hx Lk. unfold intercept_continuous.
  set (staged := omap (fun p => staged_segment body segments plan inputs p.1 p.2) (zip segments keys)).
  set (recode := omap (fun p => recode_row body segments plan inputs p.1 p.2) (zip segments keys)).
  set (ctx := mkPassCtx _ _ _ _ _ _ _ _ _).
  change (on_path (for_request true Nominal)) with continuous.
  destruct (continuous_spine ctx Hx (staged_segments_NoDup body segments keys plan inputs Hx) Runner_default)
    as (l & R & N & Sp). cbn [ctx ctx_segments] in R. rewrite R. cbn [ok mbind option_bind].
  assert (Hp : forall p, p ∈ proposals l -> is_Some (segments !! prop_seg_index p)).
  { intros p Hp. apply (proposal_for_elem l p N) in Hp. rewrite Sp in Hp. by apply spine_spec_index in Hp. }
  assert (Hr : forall r, r ∈ recode -> is_Some (segments !! r.1.1)).
  { intros r Hr. apply list_elem_of_omap in Hr as ([seg key] & Hz & E). apply recode_row_index in E as ->. cbn.
    apply elem_of_zip_l, list_elem_of_lookup in Hz as (k & Hk). rewrite (Hx _ _ Hk). eauto. }
  set (live := live_rows staged recode l).
  destruct (mapM (fun r => keys !! r.1.1) live) as [lk|] eqn:M.
  2:{ exfalso. apply mapM_None_1, Exists_exists in M as (r & Hi & Hn).
      destruct (live_rows_index _ _ _ segments r Hp Hr Hi) as [s Hs]. apply lookup_lt_Some in Hs.
      apply lookup_ge_None in Hn. lia. }
  cbn [mbind option_bind]. destruct (is_empty live) eqn:El; [eauto|].
  rewrite decide_squash_cases by (intros C; apply fmap_nil_inv in C; by rewrite C in El).
  destruct (post_squash_below_floor _ _ _); [cbn; eauto|].
  destruct (is_cold _ _); [cbn; by apply apply_live_total|].
  destruct (free_bust _); [cbn; by apply apply_live_total|].
  destruct (f64_ltb _ _); [|cbn; eauto]. cbn [prompt_segments ctl_econ ctl_policy].
  destruct (plan_breakpoints_total segments (min_cache_floor (in_econ inputs)) (in_policy inputs) Hx) as (bp & -> & _).
  cbn. by apply apply_live_total.
Qed.

Lemma deterministic_compact_total bytes body policy lane :
  exists out, deterministic_compact bytes body (segment_prompt body) policy lane = Some out.
Proof.
  unfold deterministic_compact. destruct (soft_pressure _ _); [eauto|].
  destruct (budget_fallback_run (fallback_ctx body (segment_prompt body) policy) Runner_default eq_refl)
    as (l2 & l & R & _). cbn [fallback_ctx ctx_segments for_request] in *. rewrite R. cbn. eauto.
Qed.

Lemma intercept_total bytes inputs : sha256_law -> exists out, intercept bytes inputs = Some out.
Proof.
  intros L. unfold intercept. destruct (_ <? _); [eauto|]. destruct (parse_body bytes) as [body|]; [|eauto].
  destruct (content_addresses_total body (segment_prompt body) L) as (keys & -> & Lk). cbn [mbind option_bind].
  destruct (in_staged inputs) as [plan|].
  - apply intercept_continuous_total; [done | apply segment_prompt_indexed | done].
  - apply deterministic_compact_total.
Qed.
End Total.

(** ** What reaches the network *)

Section Safety.
Context `{SerdeJson, SerdeValue, Sha256, Libm, FormatCore}.

(** A rewrite that passed the gate, with the commitments it carries: the base's
    blocks and those of some lane entries, none of which writes where the base
    does, are spliced, and the fresh ones of these entries are what is
    committed. *)
Definition gated (bytes : list byte) (body : WireBody) (lane : list LaneEntry) (uncommit : list RefId) (out : Intercepted) : Prop :=
  exists base spliced plan s,
    splice bytes body (base ++ concat (lane_rendered <$> spliced)) plan = Ok s /\ out_bytes out = spliced_bytes s /\
    validate (out_bytes out) body = Ok tt /\
    fast_lane_committed out = lane_key <$> filterb lane_fresh spliced /\
    (forall e, e ∈ spliced -> e ∈ lane /\ forall r, r ∈ lane_rendered e -> rs_target r ∉ rs_target <$> base) /\
    fast_lane_uncommitted out = uncommit.

Lemma finish_cases bytes body base uncommit lane plan bust :
  let out := finish bytes body base uncommit lane plan bust in
  out = identity bytes \/ gated bytes body lane uncommit out.
Proof.
  unfold finish. destruct (is_empty (_ ++ _)); [by left|].
  unfold splice_and_gate. destruct (splice _ _ _ _) as [s|] eqn:Sp; [|by left].
  destruct (validate (spliced_bytes s) body) as [[]|] eqn:V; [|by left]. right.
  exists base, (open_lane base lane), plan, s. split; [done|]. split; [done|]. split; [done|]. split; [done|]. split; [|done].
  intros e [Ie Oe]%elem_of_filterb. split; [done|]. intros r Ir. rewrite allb_spec in Oe.
  specialize (Oe r Ir). by apply negb_true_iff, contains_false in Oe.
Qed.

(** Each path ends in the identity or in one gated splice; what it uncommits is
    nothing, or committed keys of staged rows. *)
Lemma continuous_cases bytes body segments keys plan inputs lane out :
  intercept_continuous bytes body segments keys plan inputs lane = Some out ->
  out = identity bytes \/
  exists uncommit, gated bytes body lane uncommit out /\ forall key, key ∈ uncommit -> key ∈ in_fast_lane inputs.
Proof.
  assert (L : forall lane', lane' = lane -> Some (lane_only bytes body lane') = Some out ->
    out = identity bytes \/ exists u, gated bytes body lane u out /\ forall key, key ∈ u -> key ∈ in_fast_lane inputs).
  { intros lane' -> [= <-]. destruct (finish_cases bytes body [] [] lane no_breakpoints None) as [|G]; [by left|].
    right. exists []. split; [done | set_solver]. }
  unfold intercept_continuous. intros E. apply bind_Some in E as (l & _ & E). apply bind_Some in E as (lk & _ & E).
  set (u := filterb _ lk) in E.
  assert (U : forall key, key ∈ u -> key ∈ in_fast_lane inputs)
    by (intros key [_ K]%elem_of_filterb; by apply bool_decide_eq_true in K).
  assert (A : forall live bp cost, apply_live bytes body segments live u bp cost lane = Some out ->
    out = identity bytes \/ exists u, gated bytes body lane u out /\ forall key, key ∈ u -> key ∈ in_fast_lane inputs).
  { intros live bp cost Ea. unfold apply_live in Ea. apply bind_Some in Ea as ([rendered|] & _ & Ea); injection Ea as <-; [|by left].
    destruct (finish_cases bytes body rendered u lane (safe_breakpoints bp rendered) (Some cost)) as [|G]; [by left|].
    right. by exists u. }
  destruct (is_empty _); [by apply (L lane)|]. apply bind_Some in E as (d & _ & E).
  destruct d as [? bp cost ?|?|? ?]; [by apply A in E | by apply (L lane) | by apply A in E].
Qed.

Lemma compact_cases bytes body segments policy lane out :
  deterministic_compact bytes body segments policy lane = Some out ->
  out = identity bytes \/ gated bytes body lane [] out.
Proof.
  unfold deterministic_compact. destruct (soft_pressure _ _); intros E.
  - injection E as <-. apply finish_cases.
  - apply bind_Some in E as (l & _ & E). injection E as <-. apply finish_cases.
Qed.

Lemma fast_lane_entries_spec body segments keys inputs e :
  e ∈ fast_lane_entries body segments keys inputs ->
  exists seg key, (seg, key) ∈ zip segments keys /\ fast_lane_entry body inputs seg key = Some e.
Proof. intros ([seg key] & Hz & E)%list_elem_of_omap. eauto. Qed.

(** A lane entry in full. *)
Lemma fast_lane_entry_Some body inputs seg key e :
  fast_lane_entry body inputs seg key = Some e ->
  exists leaf cleaned rendered,
    fast_lane_leaf body seg = Some leaf /\ str_len (leaf_content leaf) <= FAST_LANE_MAX_LEAF /\
    fast_lane_clean (leaf_content leaf) = Some cleaned /\ render_fast_lane body seg cleaned = Some rendered /\
    e = mkLaneEntry key (negb (bool_decide (key ∈ in_fast_lane inputs)))
          (str_len (leaf_content leaf) - str_len cleaned) rendered /\
    (key ∈ in_fast_lane inputs \/
     in_window_closed inputs = false /\ provably_uncached seg (in_last_message_count inputs) = true /\
     forall p, in_staged inputs = Some p -> by_content p !! key = None).
Proof.
  unfold fast_lane_entry. destruct (_ && _) eqn:G; [done|]. intros E.
  apply bind_Some in E as (leaf & E1 & E). destruct (Z.ltb_spec FAST_LANE_MAX_LEAF (str_len (leaf_content leaf))) as [|Le]; [done|].
  apply bind_Some in E as (cleaned & E2 & E). apply bind_Some in E as (rendered & E3 & E). injection E as <-.
  exists leaf, cleaned, rendered. repeat (split; [done|]).
  apply andb_false_iff in G as [G|G].
  - left. by apply negb_false_iff, bool_decide_eq_true in G.
  - right. apply orb_false_iff in G as [G1 G3]. apply orb_false_iff in G1 as [G1 G2]. apply negb_false_iff in G3.
    split; [done|]. split; [done|]. intros p Ep. rewrite Ep in G1. apply bool_decide_eq_false in G1. by apply eq_None_not_Some.
Qed.
End Safety.

Section Properties.
Context `{SerdeJson, SerdeValue, Sha256, Libm, FormatCore}.

Lemma fast_lane_leaf_kind body seg leaf :
  fast_lane_leaf body seg = Some leaf -> kind seg = ToolPair /\ pinned seg = false /\ seg_is_true_human seg = false.
Proof.
  unfold fast_lane_leaf, raw_recode_leaf. destruct (kind seg); try done.
  destruct (pinned seg), (seg_is_true_human seg); done.
Qed.

(** What is committed was spliced: the egress is the splice of a base and of
    lane entries of the request that write nowhere the base does, and the
    committed keys are those of these entries that are fresh. *)
Definition lane_spliced (bytes : list byte) (body : WireBody) (inputs : InterceptInputs) (out : Intercepted) : Prop :=
  exists base spliced plan s,
    splice bytes body (base ++ concat (lane_rendered <$> spliced)) plan = Ok s /\ out_bytes out = spliced_bytes s /\
    fast_lane_committed out = lane_key <$> filterb lane_fresh spliced /\
    forall e, e ∈ spliced ->
      (exists seg, seg ∈ segment_prompt body /\ content_address (segment_payload_bytes seg body) = Some (lane_key e) /\
         fast_lane_entry body inputs seg (lane_key e) = Some e) /\
      forall r, r ∈ lane_rendered e -> rs_target r ∉ rs_target <$> base.

Lemma fast_lane_entries_addressed body keys inputs e :
  mapM (fun seg => content_address (segment_payload_bytes seg body)) (segment_prompt body) = Some keys ->
  e ∈ fast_lane_entries body (segment_prompt body) keys inputs ->
  exists seg, seg ∈ segment_prompt body /\ content_address (segment_payload_bytes seg body) = Some (lane_key e) /\
    fast_lane_entry body inputs seg (lane_key e) = Some e.
Proof.
  intros K (seg & key & Hz & He)%fast_lane_entries_spec. exists seg. split; [by eapply elem_of_zip_l|].
  assert (lane_key e = key) as -> by (by apply fast_lane_entry_Some in He as (? & ? & ? & _ & _ & _ & _ & -> & _)). split; [|done].
  apply list_elem_of_lookup in Hz as (k & Hz). apply mapM_Some_1 in K.
  rewrite lookup_zip_with in Hz. destruct (segment_prompt body !! k) as [s'|] eqn:Es; [|done].
  destruct (keys !! k) as [key'|] eqn:Ek; [|done]. cbn in Hz. injection Hz as -> ->.
  by apply (Forall2_lookup_lr _ _ _ _ _ _ K Es Ek).
Qed.

Lemma run_cases (outcome : TaskOutcome) (bytes : list byte) (inputs : InterceptInputs) :
  sha256_law ->
  let out := run outcome bytes inputs in
  out = identity bytes \/
  exists body new, parse_body bytes = Some body /\ parse_body (out_bytes out) = Some new /\
    safe_rewrite (out_bytes out) body new /\ Z.of_nat (length bytes) <= MAX_INTERCEPT_BYTES /\
    (forall key, key ∈ fast_lane_committed out ->
       key ∉ in_fast_lane inputs /\ in_window_closed inputs = false /\
       exists seg, seg ∈ segment_prompt body /\ content_address (segment_payload_bytes seg body) = Some key /\
         kind seg = ToolPair /\ pinned seg = false /\
         provably_uncached seg (in_last_message_count inputs) = true) /\
    (forall key, key ∈ fast_lane_uncommitted out -> key ∈ in_fast_lane inputs) /\ lane_spliced bytes body inputs out.
Proof.
  intros L. destruct (intercept_total bytes inputs L) as [out E]. cbv zeta.
  destruct outcome; [|by left|by left]. cbn [run]. rewrite E. change (default (identity bytes) (Some out)) with out.
  unfold intercept in E. destruct (Z.ltb_spec MAX_INTERCEPT_BYTES (Z.of_nat (length bytes))) as [|Le].
  { left. by injection E. }
  destruct (parse_body bytes) as [body|] eqn:P; [|left; by injection E].
  apply bind_Some in E as (keys & K & E). set (lane := fast_lane_entries _ _ _ _) in E.
  assert (C : out = identity bytes \/ exists u, gated bytes body lane u out /\ forall key, key ∈ u -> key ∈ in_fast_lane inputs).
  { destruct (in_staged inputs); [by apply continuous_cases in E|].
    apply compact_cases in E as [|G]; [by left | right; exists []; split; [done | set_solver]]. }
  destruct C as [|(u & (base & spliced & plan & s & Sp & Eo & V & Co & Ln & Un) & Hu)]; [by left | right].
  apply validate_iff in V as (new & Pn & Sr). exists body, new. repeat (split; [done|]).
  assert (A : forall e, e ∈ spliced -> exists seg, seg ∈ segment_prompt body /\
    content_address (segment_payload_bytes seg body) = Some (lane_key e) /\ fast_lane_entry body inputs seg (lane_key e) = Some e)
    by (intros e Ie; by eapply fast_lane_entries_addressed, Ln).
  split; [|split; [by rewrite Un|]].
  - intros key Hk. rewrite Co in Hk. apply list_elem_of_fmap in Hk as (e & -> & [Ie Fr]%elem_of_filterb).
    destruct (A e Ie) as (seg & Is & Ad & He).
    pose proof He as (leaf & c & r & Hl & _ & _ & _ & Ee & W)%fast_lane_entry_Some. rewrite Ee in Fr. cbn [lane_fresh] in Fr.
    apply negb_true_iff, bool_decide_eq_false in Fr. split; [done|]. destruct W as [|(Wc & Pu & _)]; [done|].
    split; [done|]. exists seg. by destruct (fast_lane_leaf_kind _ _ _ Hl) as (Ks & Ps & _).
  - exists base, spliced, plan, s. split; [done|]. split; [done|]. split; [done|]. intros e Ie. split; [by apply A | by apply Ln].
Qed.


(** C21. A committed leaf renders the same bytes every turn: an entry of the
    fast lane is a tool pair outside the current turn, each of its blocks is
    strictly shorter than the block it replaces, and once its key is committed
    the same segment yields the same blocks under every later session state,
    staged plan, window and hold alike; a key enters uncommitted only when the
    window is open, the segment lies past everything sent before and no staged
    entry covers it. *)
Theorem fast_lane_stable (body : WireBody) (inputs : InterceptInputs) (seg : Segment) (key : RefId) (e : LaneEntry) :
  fast_lane_entry body inputs seg key = Some e ->
  kind seg = ToolPair /\ pinned seg = false /\ lane_key e = key /\ lane_rendered e <> [] /\
  Forall2 (fun t r => rs_target r = bt_target t /\ str_len (block_json r) < original_len t)
    (squash_targets body seg) (lane_rendered e) /\
  (lane_fresh e = true ->
     key ∉ in_fast_lane inputs /\ in_window_closed inputs = false /\
     provably_uncached seg (in_last_message_count inputs) = true /\
     forall p, in_staged inputs = Some p -> by_content p !! key = None) /\
  forall later, key ∈ in_fast_lane later ->
    exists e', fast_lane_entry body later seg key = Some e' /\ lane_rendered e' = lane_rendered e.
Proof.
  intros E. apply fast_lane_entry_Some in E as (leaf & cleaned & rendered & Hl & Le & Hc & Hr & -> & W).
  cbn [lane_key lane_fresh lane_rendered]. destruct (fast_lane_leaf_kind _ _ _ Hl) as (K & P & _).
  split; [done|]. split; [done|]. split; [done|].
  assert (R := Hr). unfold render_fast_lane in Hr. apply bind_Some in Hr as (rs & M & Hr).
  destruct (is_empty rs) eqn:Em; [done|]. injection Hr as ->. split; [by intros ->|]. split; [|split].
  - apply mapM_Some_1 in M. eapply Forall2_impl; [exact M|]. intros t r. unfold shrinking_target. cbn [mbind option_bind render_proposal_text].
    destruct (Z.ltb_spec (str_len (block_json (render_target t cleaned))) (original_len t)); [|done].
    intros [= <-]. done.
  - intros Fr. apply negb_true_iff, bool_decide_eq_false in Fr. split; [done|]. by destruct W.
  - intros later Hk. unfold fast_lane_entry. rewrite (bool_decide_eq_true_2 _ Hk). cbn [negb andb].
    rewrite Hl. cbn [mbind option_bind]. rewrite (proj2 (Z.ltb_ge _ _) Le), Hc. cbn [mbind option_bind].
    rewrite R. cbn [mbind option_bind]. eexists. split; [reflexivity | done].
Qed.
End Properties.

(** ** A concrete turn: one noisy tool result, an open window, nothing staged *)

Definition lane_request : list byte :=
  as_bytes (print_fields
    [(str "max_tokens", str "4096");
     (MESSAGES, print_array
        [wire_message (str "user") (quoted (str "build"));
         wire_message (str "assistant") (print_array [block_raw (tool_use_block (str "tu_1") (str "Bash"))]);
         wire_message (str "user") (print_array [block_raw (tool_result_block (str "tu_1") noisy_log)]);
         wire_message (str "assistant") (print_array [block_raw (text_block (str "done"))])]);
     (str "model", quoted (str "claude-opus-4-8"))]).
Definition sample_lane_inputs : InterceptInputs :=
  mkInterceptInputs opus test_cache f64_zero PolicyConfig_default (f64_of_Z 4) ∅ ∅ 0 false None TokenScale_default
    (f64_of_Z 10).

Section Turn.
#[local] Existing Instances scan_serde scan_values length_digest flat_libm no_format.


Lemma fast_lane_stable_witness :
  exists body seg e, parse_body lane_request = Some body /\
    fast_lane_entry body sample_lane_inputs seg sample_ref = Some e /\ lane_rendered e <> [] /\
    exists e', fast_lane_entry body (mkInterceptInputs opus test_cache f64_zero PolicyConfig_default (f64_of_Z 4) ∅
                 {[ sample_ref ]} 4 true None TokenScale_default (f64_of_Z 10)) seg sample_ref = Some e' /\
      lane_rendered e' = lane_rendered e.
Proof.
  destruct (parse_body lane_request) as [body|] eqn:P; [|vm_compute in P; discriminate].
  destruct (segment_prompt body !! 1%nat) as [seg|] eqn:S.
  2:{ vm_compute in P. injection P as <-. vm_compute in S. discriminate. }
  destruct (fast_lane_entry body sample_lane_inputs seg sample_ref) as [e|] eqn:E.
  - exists body, seg, e. destruct (fast_lane_stable body sample_lane_inputs seg sample_ref e E) as (_ & _ & _ & N & _ & _ & T).
    split; [reflexivity|]. split; [exact E|]. split; [exact N|]. apply T. cbn [in_fast_lane]. by apply elem_of_singleton.
  - vm_compute in P. injection P as <-. vm_compute in S. injection S as <-. vm_compute in E. discriminate.
Defined.
End Turn.
