(* ===== verification/Typing.v ===== *)
(** * Texts stay texts

    A Rust [String] is valid UTF-8 by its type, and slicing one off a character
    boundary panics; here a string is any list of code points, so the type is an
    invariant to prove.  The passes of [pipeline/passes/] turn valid strings
    into valid strings, and what they ask the store to keep is the bytes of one,
    which is what makes the lossy decoding of a retrieval exact. *)
From S2P Require Import Prelude RStr F64 Utf8 Core Economics Config Wire Segment Policy Scorer Pipeline Text Targets Markup Recode Rewrite Marker Session Intercept.

Local Open Scope Z_scope.

(** ** Strings *)

Create HintDb text.

Lemma valid_app s t : valid_str s -> valid_str t -> valid_str (s ++ t).
Proof. intros. by apply Forall_app. Qed.
Lemma valid_take n s : valid_str s -> valid_str (take n s).
Proof. apply Forall_take. Qed.
Lemma valid_drop n s : valid_str s -> valid_str (drop n s).
Proof. apply Forall_drop. Qed.
Lemma valid_cons c s : is_scalar c -> valid_str s -> valid_str (c :: s).
Proof. by constructor. Qed.
Lemma valid_nil : valid_str [].
Proof. constructor. Qed.
Lemma valid_concat ls : Forall valid_str ls -> valid_str (concat ls).
Proof. induction 1; [constructor | by apply valid_app]. Qed.
Lemma valid_sublist s t : sublist s t -> valid_str t -> valid_str s.
Proof. intros S V. apply Forall_forall. intros c I. exact (proj1 (Forall_forall _ _) V c (elem_of_sublist _ _ _ I S)). Qed.
Lemma valid_prefix s p t : s = t ++ p -> valid_str s -> valid_str t.
Proof. intros -> [V _]%Forall_app. exact V. Qed.

(** Decided by evaluation, for the literals. *)
Definition is_scalarb (c : char) : bool :=
  (0 <=? c) && (c <? 1114112) && negb ((55296 <=? c) && (c <=? 57343)).
Lemma valid_literal s : allb is_scalarb s = true -> valid_str s.
Proof.
  rewrite allb_spec. intros A. apply Forall_forall. intros c I. specialize (A c I). unfold is_scalarb in A.
  apply andb_true_iff in A as [[A1 A2]%andb_true_iff A3]. apply Z.leb_le in A1. apply Z.ltb_lt in A2.
  apply negb_true_iff, andb_false_iff in A3. split; [lia|]. rewrite !Z.leb_gt in A3. lia.
Qed.

Lemma valid_LF : valid_str [LF].
Proof. by apply valid_literal. Qed.

#[export] Hint Resolve valid_app valid_take valid_drop valid_cons valid_nil valid_LF : text.

Lemma valid_ascii s : Forall (fun c => is_ascii_digit c = true) s -> valid_str s.
Proof.
  intros F. eapply Forall_impl; [exact F|]. intros c [A B]%andb_true_iff. apply Z.leb_le in A, B. unfold is_scalar. lia.
Qed.
Lemma valid_dec n : valid_str (dec_of_nat n).
Proof. apply valid_ascii, dec_of_Z_digits. Qed.

Lemma valid_join sep ls : valid_str sep -> Forall valid_str ls -> valid_str (join sep ls).
Proof.
  intros S. induction 1 as [|l ls V F IH]; [apply valid_nil|]. destruct ls as [|l' ls]; [done|].
  change (valid_str (l ++ sep ++ join sep (l' :: ls))). auto with text.
Qed.

Lemma valid_split_inclusive c s : is_scalar c -> valid_str s -> Forall valid_str (split_inclusive c s).
Proof.
  intros Hc. induction 1 as [|d s Hd V IH]; [constructor|]. cbn [split_inclusive].
  destruct (d =? c); [constructor; auto with text|]. inversion IH; constructor; auto with text.
Qed.

Lemma valid_line_of l : valid_str l -> valid_str (line_of l).
Proof.
  intros V. unfold line_of. destruct (strip_suffix [LF] l) as [l'|] eqn:E; [|done].
  apply strip_suffix_Some in E. apply (valid_prefix _ _ _ E) in V.
  destruct (strip_suffix [CR] l') as [l''|] eqn:E'; [|done]. apply strip_suffix_Some in E'. by apply (valid_prefix _ _ _ E').
Qed.

Lemma scalar_LF : is_scalar LF.
Proof. unfold is_scalar, LF. lia. Qed.
#[export] Hint Resolve valid_join valid_dec valid_line_of scalar_LF : text.

Lemma valid_lines s : valid_str s -> Forall valid_str (lines s).
Proof.
  intros V. unfold lines. apply Forall_fmap. eapply Forall_impl; [by apply valid_split_inclusive; [apply scalar_LF|]|].
  intros l. apply valid_line_of.
Qed.

Lemma valid_trim_end_by f s : valid_str s -> valid_str (trim_end_by f s).
Proof. destruct (trim_end_by_prefix f s) as (p & E & _). intros V. exact (valid_prefix _ _ _ E V). Qed.

Lemma valid_replace_char a b s : valid_str b -> valid_str s -> valid_str (replace_char a b s).
Proof.
  intros B V. unfold replace_char. induction V as [|c s Hc V IH]; [apply valid_nil|]. rewrite bind_cons.
  apply valid_app; [|exact IH]. destruct (c =? a); auto with text.
Qed.

Lemma valid_replace_crlf n : forall s, (length s <= n)%nat -> valid_str s -> valid_str (replace_crlf s).
Proof.
  induction n as [|n IH]; intros s L V; [by destruct s; [apply valid_nil | cbn in L; lia]|].
  destruct V as [|c s Hc V]; [apply valid_nil|]. destruct V as [|d s Hd V]; [cbn; auto with text|].
  rewrite replace_crlf_cons. cbn [length] in L. destruct (_ && _); apply valid_cons; auto using scalar_LF; apply IH; cbn; auto with text; lia.
Qed.

(** ** The text transforms *)

Lemma valid_strip_ansi s : valid_str s -> valid_str (strip_ansi s).
Proof. apply valid_sublist, strip_ansi_sublist. Qed.

Lemma valid_keep_lines ls : forall run, Forall valid_str ls -> Forall valid_str (keep_lines run ls).
Proof.
  induction ls as [|l ls IH]; intros run F; [constructor|]. inversion F; subst. cbn [keep_lines].
  case_match; [by apply IH|]. constructor; [by apply valid_trim_end_by | by apply IH].
Qed.

Lemma valid_normalize_ws s : valid_str s -> valid_str (normalize_ws s).
Proof.
  intros V. assert (W : valid_str (with_newlines (keep_lines 0 (lines (replace_char CR [LF] (replace_crlf s)))))).
  { unfold with_newlines. apply valid_concat, Forall_fmap.
    eapply Forall_impl; [apply valid_keep_lines, valid_lines, valid_replace_char; [apply valid_LF | by eapply valid_replace_crlf]|].
    intros l Vl. cbn. auto with text. }
  unfold normalize_ws. destruct (ends_with _ _); [done|]. by apply valid_trim_end_by.
Qed.

Lemma valid_elision n : valid_str (elision_marker n).
Proof. unfold elision_marker. apply valid_app; [by apply valid_literal; vm_compute|]. apply valid_app; [apply valid_dec | by apply valid_literal; vm_compute]. Qed.

Lemma valid_head_tail s t : valid_str s -> head_tail s = Some t -> valid_str t.
Proof.
  intros V E. unfold head_tail in E. destruct (_ <=? _)%nat; [done|]. injection E as <-.
  pose proof (valid_lines s V) as L.
  refine (valid_app _ _ _ (valid_app [LF] _ valid_LF (valid_app _ _ (valid_elision _) (valid_app [LF] _ valid_LF _))));
    (apply valid_join; [apply valid_LF | by (apply Forall_take || apply Forall_drop)]).
Qed.

Lemma valid_blob_marker n : valid_str (blob_marker n).
Proof. unfold blob_marker. apply valid_app; [by apply valid_literal; vm_compute|]. apply valid_app; [apply valid_dec | by apply valid_literal; vm_compute]. Qed.

Lemma valid_extract_blob s t : valid_str s -> extract_blob s = Some t -> valid_str t.
Proof.
  intros V E. unfold extract_blob in E. apply bind_Some in E as ([a b] & _ & E). injection E as <-.
  exact (valid_app _ _ (valid_take a _ V) (valid_app (blob_marker (b - a)) _ (valid_blob_marker _) (valid_drop b _ V))).
Qed.

(** *** The markup stripper: what it writes is drawn from the input, the entity
    table, spaces and newlines *)

Lemma scalar_ascii c : 0 <= c < 128 -> is_scalar c.
Proof. unfold is_scalar. lia. Qed.

Lemma valid_raw_push r c : is_scalar c -> valid_str (out r) -> valid_str (out (raw_push r c)).
Proof. intros C V. cbn. auto with text. Qed.

Lemma valid_newline_capped r : valid_str (out r) -> valid_str (out (newline_capped r)).
Proof. unfold newline_capped. destruct (_ <? _)%nat; [|done]. apply valid_raw_push, scalar_LF. Qed.

Lemma valid_flush_pending r : valid_str (out r) -> valid_str (out (flush_pending r)).
Proof.
  intros V. unfold flush_pending. destruct (pending r) as [[]|]; [|by apply valid_newline_capped | done].
  apply valid_raw_push; [apply scalar_ascii; unfold SPACE; lia | exact V].
Qed.

Lemma valid_Renderer_push r c : is_scalar c -> valid_str (out r) -> valid_str (out (Renderer_push r c)).
Proof.
  intros C V. unfold Renderer_push.
  assert (F : forall r, valid_str (out r) -> valid_str (out (if c =? LF then newline_capped r else raw_push r c)))
    by (intros r' V'; destruct (c =? LF); [by apply valid_newline_capped | by apply valid_raw_push]).
  destruct (0 <? _)%nat; [apply valid_raw_push, valid_flush_pending, V; exact C|].
  destruct (pending r) as [[]|].
  - destruct (is_whitespace c); apply F; [exact V | by apply valid_flush_pending].
  - destruct (c =? LF); [by apply valid_newline_capped|]. destruct (_ || _); [exact V|].
    apply valid_raw_push; [exact C | by apply valid_flush_pending].
  - by apply F.
Qed.

Lemma out_Renderer_tag r t : out (Renderer_tag r t) = out r.
Proof. unfold Renderer_tag. destruct (separator t); [|done]. by destruct (_ && _). Qed.

Lemma valid_tag_span s a b : valid_str s -> tag_span s = Some (a, b) -> valid_str b.
Proof.
  intros V E. unfold tag_span in E. destruct V as [|c rest Hc V]; [done|].
  apply bind_Some in E as (e & _ & E). injection E as _ <-. by apply (valid_drop (S e)).
Qed.

Lemma valid_find_closing_tag s name t : valid_str s -> find_closing_tag s name = Some t -> valid_str t.
Proof.
  induction 1 as [|c rest Hc V IH]; [done|]. cbn [find_closing_tag]. destruct (_ && _); [|done].
  intros E. injection E as <-. by constructor.
Qed.

Lemma decoded_entity_scalar s c n : decoded_entity s = Some (c, n) -> is_scalar c.
Proof.
  assert (A : allb (fun p => is_scalarb p.2) entities = true) by (vm_compute; reflexivity).
  unfold decoded_entity. induction entities as [|[e d] es IH]; [done|]. cbn [find_entity].
  apply andb_true_iff in A as [A1 A2]. destruct (starts_with e s); [|by apply IH].
  intros E. injection E as <- _. assert (L : valid_str [d]) by (apply valid_literal; cbn [allb]; by rewrite (A1 : is_scalarb d = true)).
  by inversion L.
Qed.

(** A skip to just after a closing tag, as for [script] and [style]. *)
Lemma valid_skip after name close body after' :
  valid_str after -> find_closing_tag after name = Some close -> tag_span close = Some (body, after') -> valid_str after'.
Proof. intros V F. apply valid_tag_span. by eapply valid_find_closing_tag. Qed.

Lemma valid_strip_html_loop fuel : forall s r r',
  valid_str s -> valid_str (out r) -> strip_html_loop fuel s r = Some r' -> valid_str (out r').
Proof.
  induction fuel as [|fuel IH]; intros s r r' V O E; (destruct s as [|c rest]; [by injection E as <-|]); [done|].
  assert (Vr : valid_str rest) by (by inversion V). assert (Hc : is_scalar c) by (by inversion V). cbn [strip_html_loop] in E.
  destruct (c =? LANGLE).
  - destruct (starts_with _ _).
    { apply bind_Some in E as (i & _ & E). eapply IH; [|exact O|exact E]. by apply valid_drop, valid_drop. }
    apply bind_Some in E as (next & _ & E). destruct (starts_tag next).
    + apply bind_Some in E as ([body after] & T & E). pose proof (valid_tag_span _ _ _ V T) as Va.
      destruct (named_opening_tag_at _ _); [|destruct (named_opening_tag_at _ _)];
        [| |eapply IH; [exact Va|by rewrite out_Renderer_tag|exact E]];
        apply bind_Some in E as (close & F & E); apply bind_Some in E as ([b2 after2] & T2 & E);
        (eapply IH; [by eapply valid_skip|exact O|exact E]).
    + refine (IH _ _ _ Vr (valid_Renderer_push r _ _ O) E). apply scalar_ascii. unfold LANGLE. lia.
  - destruct (c =? AMP); [destruct (decoded_entity _) as [[d n]|] eqn:D|].
    + refine (IH _ _ _ (valid_drop _ _ V) (valid_Renderer_push r _ _ O) E). by eapply decoded_entity_scalar.
    + refine (IH _ _ _ Vr (valid_Renderer_push r _ _ O) E). apply scalar_ascii. unfold AMP. lia.
    + exact (IH _ _ _ Vr (valid_Renderer_push r _ Hc O) E).
Qed.

Lemma valid_strip_html s t : valid_str s -> strip_html s = Some t -> valid_str t.
Proof.
  intros V E. unfold strip_html in E. apply bind_Some in E as (r & L & E). destruct (_ <? _); [|done]. injection E as <-.
  exact (valid_strip_html_loop _ _ Renderer_new _ V valid_nil L).
Qed.

(** ** What the libraries hand over *)

Section Laws.
Context `{SerdeJson, FormatCore, Similar}.

(** [serde_json], [format_core] and [similar] return [String]s: what they make
    of texts is text. *)
Record text_laws : Prop := {
  law_json_string : forall raw t, json_string raw = Some t -> valid_str t;
  law_text_field : forall raw t, json_text_field raw = Some t -> valid_str t;
  law_result_text : forall raw t, json_result_text raw = Some (Some t) -> valid_str t;
  law_id_fields : forall raw fields, json_id_fields raw = Some fields ->
    forall t, t ∈ option_list (field_id fields) ++ option_list (field_tool_use_id fields) ++ option_list (field_name fields) ->
    valid_str t;
  law_compact : forall s ir, valid_str s -> decode_ir s = Some ir -> valid_str (compact_json ir);
  law_select : forall s t, valid_str s -> select_encoding s = Some t -> valid_str t;
  law_diff : forall a b, valid_str a -> valid_str b -> valid_str (unified_diff a b);
}.

(** ** Leaves *)

Definition content_text_ok (c : MessageContent) : Prop :=
  match c with Content_Text _ t => valid_str t | Content_Blocks _ => True end.
Definition body_text_ok (body : WireBody) : Prop := Forall (fun w => content_text_ok (content w)) (messages body).

Lemma parse_body_text bytes body : text_laws -> parse_body bytes = Some body -> body_text_ok body.
Proof.
  intros L E. unfold parse_body in E. apply bind_Some in E as (env & _ & E). apply bind_Some in E as (msgs & M & E).
  injection E as <-. unfold body_text_ok. cbn [messages]. apply mapM_Some_1 in M. induction M as [|m w ms ws E _ IH]; [constructor|].
  constructor; [|exact IH]. unfold WireMessage_deserialize in E. apply bind_Some in E as (r & _ & E).
  apply bind_Some in E as (c & C & E). injection E as <-. cbn [content]. unfold MessageContent_deserialize in C.
  destruct (starts_with _ _); [apply bind_Some in C as (t & T & C); injection C as <-; by eapply law_json_string|].
  apply bind_Some in C as (bs & _ & C). by injection C as <-.
Qed.

Lemma tool_result_text_ok raw t : text_laws -> tool_result_text raw = Some t -> valid_str t.
Proof.
  intros L E. unfold tool_result_text in E. destruct (json_result_text raw) as [[t'|]|] eqn:R; [|done|done].
  injection E as <-. by eapply law_result_text.
Qed.

Lemma leaf_strings_ok body seg : text_laws -> body_text_ok body -> Forall valid_str (leaf_strings body seg).
Proof.
  intros L B. unfold leaf_strings.
  assert (C : forall c, single_content body seg = Some c -> content_text_ok c).
  { intros c E. unfold single_content in E. destruct (source_uuids seg) as [|u [|]]; [done| |done].
    apply bind_Some in E as (m & _ & E). apply bind_Some in E as (w & Lw & E). injection E as <-.
    exact (Forall_lookup_1 _ _ _ _ B Lw). }
  assert (T : Forall valid_str (match single_content body seg with
                | Some (Content_Text _ t) => [t] | Some (Content_Blocks bs) => omap text_block_string bs | None => [] end)).
  { destruct (single_content body seg) as [[raw t|bs]|]; [| |constructor].
    - constructor; [exact (C _ eq_refl) | constructor].
    - apply Forall_forall. intros t (b & _ & E)%list_elem_of_omap. unfold text_block_string in E.
      destruct b; try discriminate E. by eapply law_text_field. }
  assert (S : Forall valid_str (match single_content body seg with Some (Content_Text _ t) => [t] | _ => [] end))
    by (destruct (single_content body seg) as [[]|]; [exact T | apply Forall_nil_2 | apply Forall_nil_2]).
  destruct (kind seg); [exact T|exact T| |exact S|exact S].
  apply Forall_concat, Forall_fmap, Forall_forall. intros m _. cbn. unfold tool_result_strings.
  destruct (messages body !! m); [|constructor]. apply Forall_forall. intros t (b & _ & E)%list_elem_of_omap.
  destruct b; try discriminate E. by eapply tool_result_text_ok.
Qed.

(** The bytes of a text, if any are asked for. *)
Definition text_bytes_ok (needs : option (list byte)) : Prop :=
  match needs with Some bytes => exists o, valid_str o /\ bytes = as_bytes o | None => True end.

Definition proposal_text_ok (p : Proposal) : Prop :=
  match prop_strategy p with Recode content _ => valid_str content | _ => True end /\ text_bytes_ok (needs_ref p).

Definition ledger_text_ok (l : PlanLedger) : Prop := Forall proposal_text_ok (proposals l).

Definition leaf_text_ok (leaf : RecodeLeaf) : Prop := valid_str (leaf_content leaf) /\ text_bytes_ok (carried_ref leaf).

Lemma raw_leaf_text_ok body seg leaf : text_laws -> body_text_ok body -> raw_leaf body seg = Some leaf -> leaf_text_ok leaf.
Proof.
  intros L B E. unfold raw_leaf in E. pose proof (leaf_strings_ok body seg L B) as F.
  destruct (leaf_strings body seg) as [|one [|]]; try discriminate E. destruct (_ && _); [|done]. injection E as <-.
  inversion F. by split.
Qed.

Lemma raw_recode_leaf_text_ok body seg leaf :
  text_laws -> body_text_ok body -> raw_recode_leaf body seg = Some leaf -> leaf_text_ok leaf.
Proof. intros L B E. unfold raw_recode_leaf in E. destruct (_ || _); [done|]. by eapply raw_leaf_text_ok. Qed.

Lemma recode_leaf_text_ok body seg l leaf :
  text_laws -> body_text_ok body -> ledger_text_ok l -> recode_leaf body seg l = Some leaf -> leaf_text_ok leaf.
Proof.
  intros L B F E. unfold recode_leaf in E. destruct (_ || _); [done|].
  destruct (proposal_for l (seg_index seg)) as [p|] eqn:P; [|by eapply raw_leaf_text_ok].
  apply proposal_for_Some in P as [I _]. destruct (proj1 (Forall_forall _ _) F p I) as [T N].
  destruct (prop_strategy p); try discriminate E. injection E as <-. by split.
Qed.

Lemma upsert_text_ok l p : ledger_text_ok l -> proposal_text_ok p -> ledger_text_ok (upsert_proposal l p).
Proof.
  intros F P. apply Forall_forall. intros q [->|I]%elem_of_upsert; [exact P | exact (proj1 (Forall_forall _ _) F q I)].
Qed.

Lemma recode_proposal_text_ok seg leaf t needs by_ :
  valid_str t -> text_bytes_ok needs -> proposal_text_ok (recode_proposal seg leaf t needs by_).
Proof. by split. Qed.

Lemma inline_recode_text_ok seg leaf t by_ p :
  leaf_text_ok leaf -> valid_str t -> inline_recode seg leaf t by_ = Some p -> proposal_text_ok p.
Proof. intros [_ C] V E. unfold inline_recode in E. destruct (_ <? _); [|done]. injection E as <-. by apply recode_proposal_text_ok. Qed.

Lemma ref_recode_text_ok seg leaf t by_ p :
  leaf_text_ok leaf -> valid_str t -> ref_recode seg leaf t (as_bytes (leaf_content leaf)) by_ = Some p -> proposal_text_ok p.
Proof.
  intros [Vl C] V E. unfold ref_recode in E. destruct (_ <? _); [|done]. injection E as <-. apply recode_proposal_text_ok; [done|].
  destruct (carried_ref leaf); [exact C | by exists (leaf_content leaf)].
Qed.

(** ** Passes *)

Lemma foldl_inv {S A} (P : S -> Prop) (f : S -> A -> S) xs : (forall s x, P s -> P (f s x)) -> forall s, P s -> P (foldl f s xs).
Proof. intros St. induction xs as [|x xs IH]; intros s Hs; [done|]. by apply IH, St. Qed.

Definition keeps_text (p : Pass) : Prop :=
  forall ctx l l' c, body_text_ok (ctx_body ctx) -> ledger_text_ok l -> apply p ctx l = Some (l', c) -> ledger_text_ok l'.

Definition text_transform (transform : rstr -> option rstr) : Prop :=
  forall s t, valid_str s -> transform s = Some t -> valid_str t.

Lemma leaf_pass_text id transform propose :
  text_laws -> text_transform transform ->
  (forall seg leaf t p, leaf_text_ok leaf -> valid_str t -> propose seg leaf t = Some p -> proposal_text_ok p) ->
  keeps_text (leaf_pass id transform propose).
Proof.
  intros L T P ctx l l' c B F E. cbn [leaf_pass apply] in E. injection E as <- _. apply (foldl_inv ledger_text_ok); [|exact F].
  intros l1 seg F1. unfold leaf_step. destruct (recode_leaf _ _ _) as [leaf|] eqn:R; [|done].
  destruct (transform _) as [t|] eqn:Tr; [|done]. destruct (propose _ _ _) as [p|] eqn:Pr; [|done].
  pose proof (recode_leaf_text_ok _ _ _ _ L B F1 R) as Lf. apply upsert_text_ok; [exact F1|].
  exact (P _ _ _ _ Lf (T _ _ (proj1 Lf) Tr) Pr).
Qed.

Lemma inline_pass_text id transform : text_laws -> text_transform transform -> keeps_text (leaf_pass id transform (propose_inline id)).
Proof. intros L T. apply leaf_pass_text; [done|done|]. intros seg leaf t p. apply inline_recode_text_ok. Qed.
Lemma ref_pass_text id transform : text_laws -> text_transform transform -> keeps_text (leaf_pass id transform (propose_ref id)).
Proof. intros L T. apply leaf_pass_text; [done|done|]. intros seg leaf t p. apply ref_recode_text_ok. Qed.

Lemma dedup_text : text_laws -> keeps_text DedupBackrefPass.
Proof.
  intros L ctx l l' c B F E. cbn [DedupBackrefPass apply] in E. injection E as <- _.
  apply (foldl_inv (fun st => ledger_text_ok st.2)); [|exact F]. intros [seen l1] seg F1. unfold dedup_step.
  destruct (raw_recode_leaf _ _) as [leaf|] eqn:R; [|done]. destruct (_ <? _); [done|]. destruct (contains _ _); [|done].
  destruct (ref_recode _ _ _ _ _) as [p|] eqn:P; [|done]. apply upsert_text_ok; [exact F1|].
  eapply ref_recode_text_ok; [by eapply raw_recode_leaf_text_ok|apply valid_nil|exact P].
Qed.

Lemma resolve_tool_text body seg name id : text_laws -> resolve_tool body seg = Some (name, id) -> valid_str name /\ valid_str id.
Proof.
  intros L E. unfold resolve_tool in E. apply bind_Some in E as (i & I & E). apply bind_Some in E as (n & N & E). injection E as <- <-.
  assert (U : forall b t, tool_use_id b = Some t \/ tool_name b = Some t -> valid_str t).
  { intros b t D. assert (X : exists fields, json_id_fields (block_raw b) = Some fields /\
      t ∈ option_list (field_id fields) ++ option_list (field_tool_use_id fields) ++ option_list (field_name fields)).
    { destruct D as [D|D]; apply bind_Some in D as (fields & J & D); exists fields; (split; [exact J|]);
        destruct b; try discriminate D; rewrite D; set_solver. }
    destruct X as (fields & J & X). by eapply law_id_fields. }
  apply head_Some_elem_of in I, N. apply list_elem_of_omap in I as (b & _ & I). apply list_elem_of_omap in N as (b' & _ & N).
  split; [apply (U b'); by right|]. destruct b; try discriminate I. destruct (tool_result_text raw); [|done]. by eapply U; left.
Qed.

Lemma valid_seq_diff_header name id : valid_str name -> valid_str id -> valid_str (seq_diff_header name id).
Proof.
  intros N I. unfold seq_diff_header.
  refine (valid_app _ _ _ (valid_app name _ N (valid_app _ _ _ (valid_app id _ I _)))); by apply valid_literal; vm_compute.
Qed.

Lemma diff_proposal_text ctx seg leaf i base name p :
  text_laws -> leaf_text_ok leaf -> valid_str base -> valid_str name ->
  diff_proposal ctx seg leaf i base name = Some p -> proposal_text_ok p.
Proof.
  intros L Lf Vb Vn P. unfold diff_proposal in P. do 3 (destruct (_ || _); [done|]).
  apply bind_Some in P as (bs & _ & P). apply bind_Some in P as ([? bid] & R & P). destruct (_ <? _); [done|].
  eapply ref_recode_text_ok; [exact Lf| |exact P]. destruct (resolve_tool_text _ _ _ _ L R) as [_ Vi].
  exact (valid_app _ _ (valid_seq_diff_header _ _ Vn Vi) (valid_app [LF] _ valid_LF (law_diff L _ _ Vb (proj1 Lf)))).
Qed.

Lemma seq_diff_text : text_laws -> keeps_text SeqDiffPass.
Proof.
  intros L ctx l l' c B F E. cbn [SeqDiffPass apply] in E. injection E as <- _.
  set (Inv := fun st : gmap rstr (nat * rstr) * PlanLedger => map_Forall (fun _ v => valid_str v.2) st.1 /\ ledger_text_ok st.2).
  enough (X : Inv (foldl (seq_diff_step ctx) (∅, l) (ctx_segments ctx))) by exact (proj2 X).
  apply (foldl_inv Inv); [|by split; [apply map_Forall_empty|]]. intros [last l1] seg [M F1]. cbn [fst snd] in M, F1. unfold seq_diff_step.
  destruct (match proposal_for l1 _ with Some _ => _ | None => false end); [done|].
  destruct (recode_leaf _ _ _) as [leaf|] eqn:R; [|done]. pose proof (recode_leaf_text_ok _ _ _ _ L B F1 R) as Lf.
  destruct (resolve_tool _ seg) as [[name id]|] eqn:Rt; [|done]. destruct (resolve_tool_text _ _ _ _ L Rt) as [Vn _].
  destruct (mbind _ _) as [p|] eqn:P.
  - split; [exact M|]. apply upsert_text_ok; [exact F1|]. apply bind_Some in P as ([bi base] & Lk & P).
    exact (diff_proposal_text _ _ _ _ _ _ _ L Lf (M _ _ Lk) Vn P).
  - destruct (_ && _); [|done]. split; [|exact F1]. apply map_Forall_insert_2; [exact (proj1 Lf) | exact M].
Qed.

Lemma deterministic_text :
  text_laws -> Forall (fun s => match s with Stage_Pass p => keeps_text p | _ => True end) (stages deterministic).
Proof.
  intros L. repeat apply Forall_cons_2; [..|by apply Forall_nil_2].
  - apply ref_pass_text; [done|]. intros s t. apply valid_extract_blob.
  - apply inline_pass_text; [done|]. intros s t V [= <-]. by apply valid_strip_ansi.
  - apply inline_pass_text; [done|]. intros s t V [= <-]. by apply valid_normalize_ws.
  - apply ref_pass_text; [done|]. intros s t V. destruct (looks_like_html s); [by apply valid_strip_html | done].
  - apply inline_pass_text; [done|]. intros s t V E. unfold minify_json in E.
    destruct (decode_ir s) as [ir|] eqn:D; [|done]. injection E as <-. by eapply law_compact.
  - apply ref_pass_text; [done|]. intros s t V. by apply (law_select L).
  - by apply dedup_text.
  - apply ref_pass_text; [done|]. intros s t. apply valid_head_tail.
  - by apply seq_diff_text.
Qed.

Lemma run_straight_text ctx ss : forall l l',
  Forall (fun s => match s with Stage_Pass p => keeps_text p | _ => True end) ss ->
  body_text_ok (ctx_body ctx) -> ledger_text_ok l -> run_straight ss ctx l = Some l' -> ledger_text_ok l'.
Proof.
  induction ss as [|s ss IH]; intros l l' F B T E; [by injection E as <-|]. inversion F as [|? ? Fs F']; subst.
  destruct s as [p|]; cbn [run_straight] in E; [|by eapply IH].
  apply bind_Some in E as ([l1 c] & A & E). eapply IH; [exact F'|exact B|exact (Fs _ _ _ _ B T A)|exact E].
Qed.
End Laws.

Section Theorems.
Context `{SerdeJson, FormatCore, Similar}.

(** C23. Texts stay texts: on a parsed body the deterministic chain runs to an
    end, every text it proposes is valid UTF-8 (no code point out of range, no
    surrogate, whatever was cut, stripped, joined or decoded from an entity),
    and what a proposal asks the store to keep is the bytes of such a text, so
    that the store's lossy decoding gives back exactly that text; the fast
    lane's clean-up of a leaf is valid as well. *)
Theorem chain_text_types (bytes : list byte) (ctx : PassCtx) (n : nat) :
  text_laws -> parse_body bytes = Some (ctx_body ctx) -> indexed (ctx_segments ctx) ->
  (exists l, Runner_run Runner_default deterministic ctx (PlanLedger_sized n) = Ok l /\
     forall p, p ∈ proposals l ->
       (exists content, prop_strategy p = Recode content None /\ valid_str content) /\
       forall kept, needs_ref p = Some kept -> exists o, valid_str o /\ kept = as_bytes o /\ from_utf8_lossy kept = o) /\
  forall seg leaf t, fast_lane_leaf (ctx_body ctx) seg = Some leaf -> fast_lane_clean (leaf_content leaf) = Some t -> valid_str t.
Proof.
  intros L P Hx. pose proof (parse_body_text _ _ L P) as B. split.
  - destruct (run_straight_keeps ctx _ _ deterministic_keeps Hx (chain_inv_empty ctx n)) as (l & R & N & F).
    exists l. rewrite Runner_run_straight, R by apply deterministic_never_reverts. split; [done|]. intros p Ip.
    destruct (proj1 (Forall_forall _ _) F p Ip) as (_ & _ & c & _ & _ & _ & _ & S & _).
    assert (T : ledger_text_ok l) by (eapply run_straight_text; [by apply deterministic_text|exact B| |exact R]; constructor).
    destruct (proj1 (Forall_forall _ _) T p Ip) as [V K]. rewrite S in V. split; [by exists c|].
    intros kept E. rewrite E in K. destruct K as (o & Vo & ->). exists o. split; [exact Vo|]. split; [done|]. by apply from_utf8_lossy_as_bytes.
  - intros seg leaf t Lf C. unfold fast_lane_leaf in Lf. destruct (kind seg); try discriminate Lf.
    destruct (raw_recode_leaf_text_ok _ _ _ L B Lf) as [V _]. unfold fast_lane_clean in C.
    assert (W : valid_str (normalize_ws (strip_ansi (leaf_content leaf)))) by (by apply valid_normalize_ws, valid_strip_ansi).
    destruct (_ <? str_len (leaf_content leaf)); [|done]. injection C as <-. destruct (minify_json _) as [m|] eqn:M; [|exact W].
    destruct (_ <? _); [|exact W]. unfold minify_json in M. destruct (decode_ir _) as [ir|] eqn:D; [|done]. injection M as <-.
    by eapply law_compact.
Qed.
End Theorems.

(** ** A concrete body, read by a scanner that returns only texts *)

Definition text_only (o : option rstr) : option rstr := t ← o; if allb is_scalarb t then Some t else None.

Lemma text_only_valid o t : text_only o = Some t -> valid_str t.
Proof.
  intros E. apply bind_Some in E as (t' & _ & E). destruct (allb is_scalarb t') eqn:A; [|done]. injection E as <-. by apply valid_literal.
Qed.

Definition checked_serde : SerdeJson :=
  let _ := scan_serde in {|
  json_envelope := json_envelope;
  json_string := fun raw => text_only (json_string raw);
  json_array := json_array;
  json_type_tag := json_type_tag;
  json_id_fields := fun raw =>
    f ← json_id_fields raw;
    Some (mkIdFields (text_only (field_id f)) (text_only (field_tool_use_id f)) (text_only (field_name f)));
  json_text_field := fun raw => text_only (json_text_field raw);
  json_result_text := fun raw => o ← json_result_text raw; Some (text_only o);
  json_result_fields := json_result_fields;
|}.

Lemma checked_text_laws : @text_laws checked_serde no_format no_diff.
Proof.
  split; cbn [json_string json_text_field json_result_text json_id_fields decode_ir select_encoding unified_diff checked_serde no_format no_diff].
  - intros raw t. apply text_only_valid.
  - intros raw t. apply text_only_valid.
  - intros raw t E. apply bind_Some in E as (o & _ & E). injection E as E. by apply (text_only_valid o).
  - intros raw fields E t I. apply bind_Some in E as (f & _ & E). injection E as <-. cbn [field_id field_tool_use_id field_name] in I.
    rewrite !elem_of_app in I. destruct I as [I|[I|I]];
      (destruct (text_only _) as [t'|] eqn:X; [|by apply not_elem_of_nil in I]; apply list_elem_of_singleton in I as ->; by eapply text_only_valid).
  - intros s ir _ E. discriminate E.
  - intros s t _ E. discriminate E.
  - intros a b _ V. exact V.
Qed.

Section Run.
#[local] Existing Instances checked_serde no_format no_diff.

Definition checked_body : WireBody := default recode_body (parse_body lane_request).
Definition checked_ctx : PassCtx :=
  mkPassCtx checked_body (segment_prompt checked_body) WorkingState_default FALLBACK_ECON
    (mkCacheState 0 f64_zero f64_zero (body_model checked_body) []) PolicyConfig_default
    (mkStagedDecisions false [] []) f64_zero f64_zero.

Lemma chain_text_types_witness :
  exists l p content, Runner_run Runner_default deterministic checked_ctx (PlanLedger_sized 3) = Ok l /\ p ∈ proposals l /\
    prop_strategy p = Recode content None /\ valid_str content.
Proof.
  destruct (chain_text_types lane_request checked_ctx 3 checked_text_laws) as [(l & R & T) _].
  - assert (X : match parse_body lane_request with Some _ => true | None => false end = true) by (vm_compute; reflexivity).
    unfold checked_ctx, checked_body. cbn [ctx_body]. destruct (parse_body lane_request); [reflexivity | discriminate X].
  - apply segment_prompt_indexed.
  - assert (X : match Runner_run Runner_default deterministic checked_ctx (PlanLedger_sized 3) with
      | Ok l => negb (is_empty (proposals l)) | Err _ => false end = true) by (vm_compute; reflexivity).
    rewrite R in X. destruct (proposals l) as [|p ps] eqn:E; [discriminate X|].
    destruct (T p) as [(content & S & V) _]; [apply list_elem_of_here|]. exists l, p, content.
    split; [exact R|]. split; [rewrite E; apply list_elem_of_here|]. split; [exact S | exact V].
Defined.
End Run.
