(* ===== verification/UsageTap.v ===== *)
(** * The cache-usage tap

    Models [crates/ccs-proxy/src/usage_tap.rs]: the read-only scanner over the
    response stream that reports the usage of the first [message_start] event.
    Its typed parse is [serde_json]'s, the parameter [SerdeUsage]. *)
From S2P Require Import Prelude RStr F64 Core Economics Text.

Local Open Scope Z_scope.

Definition SCAN_CAP : nat := Z.to_nat (64 * 1024).
Definition TARGET_EVENT : list byte := str "message_start".

Record Observed := mkObserved { obs_usage : CacheUsage; obs_model : ModelId }.

(** [from_slice::<MessageStart>] *)
Class SerdeUsage := { message_start : list byte -> option Observed }.

(** [slice::split] on a byte. *)
Fixpoint split_on (c : byte) (s : list byte) : list (list byte) :=
  match s with
  | [] => [[]]
  | b :: s =>
      if b =? c then [] :: split_on c s
      else match split_on c s with [] => [[b]] | l :: ls => (b :: l) :: ls end
  end.

Definition strip_cr (line : list byte) : list byte := default line (strip_suffix [CR] line).

Definition parse_field (line field : list byte) : option (list byte) :=
  rest ← strip_prefix field line;
  Some (default rest (strip_prefix (str " ") rest)).

Definition EVENT_FIELD : list byte := str "event:".
Definition DATA_FIELD : list byte := str "data:".

Section Tap.
Context `{SerdeUsage}.

(** The loop over the buffer's lines; [event] is the last event name. *)
Fixpoint scan_lines (event : option (list byte)) (ls : list (list byte)) : option Observed :=
  match ls with
  | [] => None
  | line :: ls =>
      let line := strip_cr line in
      match parse_field line EVENT_FIELD with
      | Some name => scan_lines (Some name) ls
      | None =>
          match parse_field line DATA_FIELD with
          | Some data =>
              if bool_decide (event = Some TARGET_EVENT) then
                match message_start data with
                | Some observed => Some observed
                | None => scan_lines event ls
                end
              else scan_lines event ls
          | None => scan_lines event ls
          end
      end
  end.

Definition scan (buf : list byte) : option Observed := scan_lines None (split_on LF buf).

(** [sent] is what went down the channel. *)
Record Scanner := mkScanner { buf : list byte; sent : list Observed; scanner_done : bool }.

Definition Scanner_new : Scanner := mkScanner [] [] false.

Definition feed (self : Scanner) (chunk : list byte) : Scanner :=
  if scanner_done self then self
  else
    let b := buf self ++ chunk in
    match scan b with
    | Some observed => mkScanner [] (sent self ++ [observed]) true
    | None => if (SCAN_CAP <=? length b)%nat then mkScanner [] (sent self) true
              else mkScanner b (sent self) false
    end.

(** [tap]: every chunk goes through unchanged, the scanner sees it on the way. *)
Definition tap (chunks : list (list byte)) : list (list byte) * Scanner :=
  (chunks, foldl feed Scanner_new chunks).

(** ** Lines *)

Lemma split_on_cons c s : exists l ls, split_on c s = l :: ls.
Proof.
  induction s as [|b s (l & ls & E)]; cbn; [eauto|]. destruct (b =? c); [eauto|]. rewrite E. eauto.
Qed.

Lemma split_on_app c a b :
  split_on c (a ++ b) =
  match split_on c b with
  | [] => split_on c a
  | l :: ls => removelast (split_on c a) ++ (List.last (split_on c a) [] ++ l) :: ls
  end.
Proof.
  destruct (split_on_cons c b) as (l & ls & Eb). rewrite Eb.
  induction a as [|x a IH]; cbn [app split_on]; [by rewrite Eb|].
  destruct (split_on_cons c a) as (k & ks & Ea). rewrite IH, Ea.
  destruct (x =? c); [by destruct ks|]. destruct ks as [|k' ks]; [done|]. cbn [removelast List.last app].
  by destruct ks.
Qed.

(** A text that ends in a newline: its lines, and an empty rest. *)
Definition terminated (ls : list (list byte)) : list byte := concat ((fun l => l ++ [LF]) <$> ls).

Lemma split_on_line_app l s : LF ∉ l -> split_on LF (l ++ LF :: s) = l :: split_on LF s.
Proof.
  induction l as [|b l IH]; intros N; [done|]. apply not_elem_of_cons in N as [Nb N]. cbn [app split_on].
  rewrite (proj2 (Z.eqb_neq b LF)) by done. by rewrite IH.
Qed.

Lemma split_on_terminated ls s :
  Forall (fun l => LF ∉ l) ls -> split_on LF (terminated ls ++ s) = ls ++ split_on LF s.
Proof.
  induction 1 as [|l ls Hl _ IH]; [done|]. unfold terminated in *. cbn [fmap list_fmap concat].
  rewrite <- !app_assoc. change ([LF] ++ ?x) with (LF :: x). rewrite split_on_line_app by done.
  cbn [app]. by rewrite IH.
Qed.

Lemma split_on_line l : LF ∉ l -> split_on LF l = [l].
Proof.
  induction l as [|b l IH]; intros N; [done|]. apply not_elem_of_cons in N as [Nb N]. cbn.
  rewrite (proj2 (Z.eqb_neq b LF)) by done. by rewrite IH.
Qed.

Lemma scan_lines_app ls1 : forall event ls2 o,
  scan_lines event ls1 = Some o -> scan_lines event (ls1 ++ ls2) = Some o.
Proof.
  induction ls1 as [|l ls1 IH]; intros event ls2 o E; [done|]. cbn [app scan_lines] in *.
  destruct (parse_field (strip_cr l) EVENT_FIELD); [by apply IH|].
  destruct (parse_field (strip_cr l) DATA_FIELD) as [d|]; [|by apply IH].
  destruct (bool_decide _); [|by apply IH]. destruct (message_start d); [done | by apply IH].
Qed.

(** The event a list of lines leaves current. *)
Fixpoint last_event (event : option (list byte)) (ls : list (list byte)) : option (list byte) :=
  match ls with
  | [] => event
  | l :: ls => last_event (match parse_field (strip_cr l) EVENT_FIELD with Some n => Some n | None => event end) ls
  end.

Lemma scan_lines_none ls1 : forall event ls2,
  scan_lines event ls1 = None -> scan_lines event (ls1 ++ ls2) = scan_lines (last_event event ls1) ls2.
Proof.
  induction ls1 as [|l ls1 IH]; intros event ls2 E; [done|]. cbn [app scan_lines last_event] in *.
  destruct (parse_field (strip_cr l) EVENT_FIELD); [by apply IH|].
  destruct (parse_field (strip_cr l) DATA_FIELD) as [d|]; [|by apply IH].
  destruct (bool_decide _); [|by apply IH]. destruct (message_start d); [done | by apply IH].
Qed.
End Tap.

(** ** Chunk boundaries do not matter *)

Section Chunks.
Context `{SerdeUsage}.

(** Of two documents that parse, one a prefix of the other, both are the same
    JSON value followed by blanks. *)
Definition json_prefix_law : Prop :=
  forall d d' o o', d' `prefix_of` d -> message_start d = Some o -> message_start d' = Some o' -> o' = o.

(** No line of the list, however cut short, already reads as the event. *)
Definition quiet (ls : list (list byte)) : Prop :=
  forall k l p, ls !! k = Some l -> p `prefix_of` l -> scan_lines (last_event None (take k ls)) [p] = None.

Lemma prefix_terminated ls s : forall p,
  p `prefix_of` terminated ls ++ s ->
  terminated ls `prefix_of` p \/
  exists k l q, ls !! k = Some l /\ q `prefix_of` l /\ p = terminated (take k ls) ++ q.
Proof.
  induction ls as [|l ls IH]; intros p P; [left; apply prefix_nil|].
  unfold terminated in *. cbn [fmap list_fmap concat] in *. rewrite <- !app_assoc in P. cbn [app] in P.
  destruct (decide (length p <= length l)%nat) as [Le|Gt].
  - right. exists 0%nat, l, p. split; [done|]. split; [|done]. destruct P as [t E].
    exists (drop (length p) l). rewrite <- (take_drop (length p) l) at 1. f_equal.
    apply (f_equal (take (length p))) in E. rewrite take_app_length, take_app_le in E by done. done.
  - assert (l ++ [LF] `prefix_of` p) as [p' ->].
    { set (whole := l ++ LF :: _) in P. assert (Q : l ++ [LF] `prefix_of` whole) by (eexists; by rewrite <- app_assoc).
      destruct (prefix_weak_total _ _ _ P Q) as [Pl|Pl]; [|exact Pl].
      destruct Pl as [t Et]. assert (length t = 0%nat) as Lt
        by (apply (f_equal length) in Et; rewrite !length_app in Et; cbn in Et; lia).
      destruct t; [|done]. rewrite app_nil_r in Et. by rewrite Et. }
    rewrite <- app_assoc in P. apply prefix_app_inv in P. cbn [app] in P. apply (prefix_app_inv [LF]) in P.
    destruct (IH p' P) as [C|(k & l' & q & Hk & Hq & ->)].
    + left. rewrite <- !app_assoc. by do 2 apply prefix_app.
    + right. exists (S k), l', q. split; [done|]. split; [done|]. cbn [take fmap list_fmap concat].
      by rewrite <- !app_assoc.
Qed.

Lemma strip_cr_prefix p l : p `prefix_of` l -> strip_cr p `prefix_of` strip_cr l.
Proof.
  assert (Le : forall x, strip_cr x `prefix_of` x).
  { intros x. unfold strip_cr. destruct (strip_suffix [CR] x) as [y|] eqn:E; [|done].
    apply strip_suffix_Some in E. by exists [CR]. }
  intros P. destruct (decide (p = l)) as [->|N]; [done|].
  unfold strip_cr at 2. destruct (strip_suffix [CR] l) as [y|] eqn:E; cbn; [|etrans; [apply Le | exact P]].
  etrans; [apply Le|]. apply strip_suffix_Some in E as ->.
  destruct P as [t Et]. destruct t as [|c t _] using rev_ind; [rewrite app_nil_r in Et; by destruct N|].
  rewrite app_assoc in Et. apply app_inj_tail in Et as [-> _]. by exists t.
Qed.

Lemma parse_field_prefix p l f d d' :
  p `prefix_of` l -> parse_field p f = Some d' -> parse_field l f = Some d -> d' `prefix_of` d.
Proof.
  intros [t ->]. unfold parse_field.
  assert (exists c, str " " = [c]) as [c ->] by (eexists; vm_compute; reflexivity). intros E1 E2.
  apply bind_Some in E1 as (r1 & R1%strip_prefix_Some & [= <-]). subst p. rewrite <- app_assoc in E2.
  apply bind_Some in E2 as (r2 & R2%strip_prefix_Some & [= <-]). apply app_inv_head in R2 as <-.
  destruct r1 as [|b r1]; [apply prefix_nil|]. cbn [app strip_prefix]. destruct (c =? b); by exists t.
Qed.

Lemma scan_line_Some event l o :
  scan_lines event [l] = Some o ->
  parse_field (strip_cr l) EVENT_FIELD = None /\ event = Some TARGET_EVENT /\
  exists d, parse_field (strip_cr l) DATA_FIELD = Some d /\ message_start d = Some o.
Proof.
  cbn [scan_lines]. destruct (parse_field (strip_cr l) EVENT_FIELD); [done|].
  destruct (parse_field (strip_cr l) DATA_FIELD) as [d|]; [|done]. case_bool_decide as C; [|done].
  destruct (message_start d) eqn:M; [|done]. intros [= ->]. eauto.
Qed.

Lemma take_none ls k : scan_lines None ls = None -> scan_lines None (take k ls) = None.
Proof.
  intros N. destruct (scan_lines None (take k ls)) as [o|] eqn:E; [|done].
  apply (scan_lines_app _ _ (drop k ls)) in E. rewrite take_drop in E. congruence.
Qed.

Section Stream.
Context (ls : list (list byte)) (l post : list byte) (o : Observed).
Context (law : json_prefix_law) (lf : Forall (fun x => LF ∉ x) (ls ++ [l])).
Context (none : scan_lines None ls = None) (cut : quiet ls).
Context (hit : scan_lines (last_event None ls) [l] = Some o).
Let head := terminated (ls ++ [l]).

Lemma scan_whole s : scan (head ++ s) = Some o.
Proof.
  unfold scan, head. rewrite split_on_terminated by done. apply scan_lines_app. by rewrite scan_lines_none.
Qed.

(** A buffer that does not hold the whole event scans to nothing, or to it. *)
Lemma scan_prefix_of p : p `prefix_of` head ++ post -> scan p = None \/ scan p = Some o.
Proof.
  intros P. destruct (prefix_terminated _ _ p P) as [[s ->]|(k & x & q & Hk & Hq & ->)]; [right; apply scan_whole|].
  assert (Hlf : Forall (fun y => LF ∉ y) (take k (ls ++ [l]))) by (by apply Forall_take).
  assert (Nq : LF ∉ q).
  { destruct Hq as [t ->]. rewrite Forall_lookup in lf. specialize (lf _ _ Hk). cbn in lf. intros C. apply lf.
    apply elem_of_app. by left. }
  unfold scan. rewrite split_on_terminated, split_on_line by done.
  destruct (decide (k < length ls)%nat) as [Lt|Ge].
  - rewrite take_app_le, scan_lines_none by (lia || by apply take_none).
    left. apply (cut k x); [|done]. by rewrite lookup_app_l in Hk.
  - assert (k = length ls) as ->.
    { apply lookup_lt_Some in Hk. rewrite length_app in Hk. cbn in Hk. lia. }
    rewrite lookup_app_r, Nat.sub_diag in Hk by lia. cbn in Hk. injection Hk as <-.
    rewrite take_app_length, scan_lines_none by done.
    destruct (scan_lines (last_event None ls) [q]) as [o'|] eqn:E; [right | by left].
    apply scan_line_Some in E as (_ & _ & d' & D' & M'). apply scan_line_Some in hit as (_ & _ & d & D & M).
    f_equal. eapply law; [|exact M | exact M']. by eapply parse_field_prefix; [apply strip_cr_prefix| |].
Qed.

Lemma feed_done sc chunks : scanner_done sc = true -> foldl feed sc chunks = sc.
Proof. intros D. induction chunks as [|c cs IH]; [done|]. cbn [foldl]. unfold feed at 2. by rewrite D. Qed.

Lemma feed_stream : (length head <= SCAN_CAP)%nat -> forall chunks b,
  b ++ concat chunks = head ++ post -> scan b = None ->
  sent (foldl feed (mkScanner b [] false) chunks) = [o].
Proof.
  intros Cap. induction chunks as [|c cs IH]; intros b E N.
  { cbn in E. rewrite app_nil_r in E. rewrite E, scan_whole in N. done. }
  cbn [foldl]. unfold feed at 2. cbn [scanner_done buf sent]. cbn [concat] in E. rewrite app_assoc in E.
  assert (P : b ++ c `prefix_of` head ++ post) by (by exists (concat cs)).
  destruct (scan_prefix_of _ P) as [S|S]; rewrite S.
  - destruct (Nat.leb_spec SCAN_CAP (length (b ++ c))) as [L|_]; [|by apply IH].
    exfalso. destruct (prefix_weak_total head (b ++ c) (head ++ post)) as [[s Es]|Q]; [by exists post | done | |].
    + rewrite Es, scan_whole in S. done.
    + apply prefix_length in Q as Lq. destruct Q as [t Et].
      assert (t = []) as -> by (apply length_zero_iff_nil; apply (f_equal length) in Et; rewrite length_app in Et; lia).
      rewrite app_nil_r in Et. rewrite <- Et, <- (app_nil_r head), scan_whole in S. done.
  - by rewrite feed_done.
Qed.
End Stream.

(** C27. The tap reports the first [message_start] however the network cuts
    the stream: when the event's data line ends within the first 64 KiB and no
    earlier line, however cut, reads as one, then for every way of dividing the
    stream into chunks the scanner sends exactly that observation, once, and
    the chunks pass through unchanged. *)
Theorem tap_observes_first (ls : list (list byte)) (l post : list byte) (o : Observed) (chunks : list (list byte)) :
  json_prefix_law -> Forall (fun x => LF ∉ x) (ls ++ [l]) ->
  scan_lines None ls = None -> quiet ls -> scan_lines (last_event None ls) [l] = Some o ->
  (length (terminated (ls ++ [l])) <= SCAN_CAP)%nat ->
  concat chunks = terminated (ls ++ [l]) ++ post ->
  (tap chunks).1 = chunks /\ sent (tap chunks).2 = [o].
Proof.
  intros law lf none cut hit cap E. split; [done|].
  exact (feed_stream ls l post o law lf none cut hit cap chunks [] E eq_refl).
Qed.
End Chunks.

(** A stream whose event and data lines are cut in the middle. *)
Definition start_data : list byte := str "{usage}".
Definition start_observed : Observed := mkObserved (mkCacheUsage 10 20 30) (ModelId_new (str "m")).
Definition exact_usage : SerdeUsage :=
  {| message_start := fun d => if bool_decide (d = start_data) then Some start_observed else None |}.

Lemma tap_observes_first_witness :
  let _ := exact_usage in
  sent (tap [str "event: mess"; str "age_start" ++ [LF] ++ str "data: {us"; str "age}" ++ [CR; LF] ++ str "rest"]).2
    = [start_observed].
Proof.
  intros U.
  refine (proj2 (tap_observes_first [str "event: message_start"] (str "data: {usage}" ++ [CR]) (str "rest")
    start_observed _ _ _ _ _ _ _ _)).
  - intros d d' o o' _ E E'. cbn in E, E'. repeat case_bool_decide; simplify_eq. done.
  - apply (bool_decide_unpack _). vm_compute. exact I.
  - vm_compute. reflexivity.
  - intros [|k] x p Hk Hp; [|done]. injection Hk as <-. cbn [take last_event scan_lines].
    destruct (parse_field (strip_cr p) EVENT_FIELD); [done|].
    destruct (parse_field (strip_cr p) DATA_FIELD); [|done]. by rewrite bool_decide_eq_false_2.
  - vm_compute. reflexivity.
  - apply Nat.leb_le. vm_compute. reflexivity.
  - vm_compute. reflexivity.
Defined.
