(* ===== verification/Synth.v ===== *)
(** * Compaction requests answered locally

    Models [crates/ccs-proxy/src/synth]: the detection of Claude Code's
    compaction request ([detect.rs], [mod.rs]) and the server-sent-event stream
    that answers it ([sse.rs]). *)
From S2P Require Import Prelude RStr F64 Core Economics Config Wire Segment Policy Targets Rewrite Text UsageTap.

Local Open Scope Z_scope.

(** [from_slice::<Value>] *)
Class SerdeSlice := { value_of_slice : list byte -> option Value }.

(** ** [detect.rs] *)

Definition MESSAGE : rstr := str "message".
Definition COMPACT_MARKER : list byte := str "CRITICAL: Respond with TEXT ONLY. Do NOT call any tools.".
Definition MAX_TOKENS_CEILING : Z := 20000.
Definition RECAP_TURNS : nat := 6.

Record BriefInputs := mkBriefInputs {
  brief_model : rstr;
  brief_working : WorkingState;
  brief_recap : list rstr;
}.

(** [Value::get], [as_str], [as_array], [as_u64]. *)
Definition value_get (v : Value) (key : rstr) : option Value :=
  match v with Value_Object m => m !! key | _ => None end.
Definition as_str (v : Value) : option rstr := match v with Value_String s => Some s | _ => None end.
Definition as_array (v : Value) : option (list Value) := match v with Value_Array vs => Some vs | _ => None end.
Definition as_u64 (v : Value) : option Z :=
  match v with
  | Value_Scalar (c :: s) => z ← parse_digits 0 (c :: s); if z <? 2 ^ 64 then Some z else None
  | _ => None
  end.

Definition is_user_value (m : Value) : bool := bool_decide ((value_get m (str "role") ≫= as_str) = Some (str "user")).

Definition message_text (message : Value) : option rstr :=
  match value_get message CONTENT with
  | Some (Value_String s) => Some s
  | Some (Value_Array bs) =>
      let t := join [LF]
                 (omap (fun b => value_get b (str "text") ≫= as_str)
                    (filterb (fun b => bool_decide ((value_get b (str "type") ≫= as_str) = Some (str "text"))) bs)) in
      if is_empty t then None else Some t
  | _ => None
  end.

Definition message_values (obj : gmap rstr Value) : list Value := default [] (obj !! MESSAGES ≫= as_array).

Definition recap_turns (obj : gmap rstr Value) : list rstr :=
  let users := omap message_text (filterb is_user_value (message_values obj)) in
  rev (take RECAP_TURNS (drop 1 (rev users))).

Definition marker_count (body : list byte) : nat := count_sub COMPACT_MARKER body.

Section Detect.
Context `{SerdeValue, SerdeSlice}.

Definition message_contains_marker (message : Value) : bool :=
  bool_decide (is_Some (find_sub COMPACT_MARKER (as_bytes (value_display message)))).

Definition last_user_contains_marker (obj : gmap rstr Value) : bool :=
  match List.find is_user_value (rev (message_values obj)) with
  | Some m => message_contains_marker m
  | None => false
  end.

Definition detect (body : list byte) : option BriefInputs :=
  _ ← find_sub COMPACT_MARKER body;
  root ← value_of_slice body;
  match root with
  | Value_Object obj =>
      match marker_count body, obj !! str "max_tokens" ≫= as_u64, obj !! str "tool_choice",
            last_user_contains_marker obj with
      | 2%nat, Some max_tokens, None, true =>
          if max_tokens <=? MAX_TOKENS_CEILING then
            Some (mkBriefInputs (default (str "claude") (obj !! str "model" ≫= as_str))
                    WorkingState_default (recap_turns obj))
          else None
      | _, _, _, _ => None
      end
  | _ => None
  end.
End Detect.

(** [Decision] ([mod.rs]). *)
Inductive SynthDecision := Synthesize (inputs : BriefInputs) | Forward.

Definition synth_decide `{SerdeValue, SerdeSlice} (body : list byte) : SynthDecision :=
  match detect body with Some inputs => Synthesize inputs | None => Forward end.

(** ** The summary ([sse.rs]) *)

Definition INPUT_TOKENS_FLOOR : Z := 256.

Definition section (heading : rstr) (ls : list rstr) (empty : rstr) : rstr :=
  if is_empty ls then heading ++ [LF] ++ empty ++ [LF] else heading ++ [LF] ++ join [LF] ls ++ [LF].

Definition join_or_none (items : list rstr) : rstr :=
  if is_empty items then str "(none)" else join (str ", ") items.

(** [lines().next()] of an empty text is nothing, and the text itself is used. *)
Definition first_line (text : rstr) : rstr := trim (default text (head (lines text))).

Definition estimate_tokens (text : rstr) : Z := str_len text / 4 + 1.

Definition live_constraints (cs : list Constraint) : rstr :=
  section (str "## Live Constraints (verbatim)")
    ((fun c => str "- " ++ constraint_text c) <$> filterb (fun c => is_none (constraint_superseded_by c)) cs)
    (str "- (none recorded)").

Definition decisions_section (ds : list Decision) : rstr :=
  section (str "## Decisions")
    ((fun d => str "- " ++ decision_text d ++ str " — " ++ rationale d ++ str " — [" 
               ++ (if planned d then str "planned" else str "implemented") ++ str "]") <$>
       filterb (fun d => is_none (decision_superseded_by d)) ds)
    (str "- (none recorded)").

Definition in_flight_section (w : option InFlightWork) : rstr :=
  match w with
  | Some w =>
      section (str "## In-Flight Work")
        [str "- Current task: " ++ task w;
         str "- Last safe point: " ++ last_safe_point w;
         str "- Open files: " ++ join_or_none (open_files w);
         str "- Re-read paths: " ++ join_or_none (skill_paths w)] []
  | None => section (str "## In-Flight Work") [] (str "- (no task in flight)")
  end.

Definition narrative (inputs : BriefInputs) : rstr :=
  let recap :=
    match in_flight (brief_working inputs), brief_recap inputs with
    | Some w, _ =>
        [str "- Work continues on: " ++ task w ++ str " (resuming from " ++ last_safe_point w ++ str ")."]
    | None, [] =>
        [str "- Compaction of a " ++ brief_model inputs ++ str " session with no extracted working state yet; no constraints, decisions, or in-flight task recorded."]
    | None, recap => (fun turn => str "- " ++ first_line turn) <$> recap
    end in
  section (str "## Narrative") recap (str "- (no narrative)").

Definition build_summary (inputs : BriefInputs) : rstr :=
  str "<summary>" ++ [LF] ++ live_constraints (constraints (brief_working inputs)) ++ [LF]
  ++ decisions_section (decisions (brief_working inputs)) ++ [LF]
  ++ in_flight_section (in_flight (brief_working inputs)) ++ [LF]
  ++ narrative inputs ++ [LF] ++ str "</summary>".

Definition recap_tokens (inputs : BriefInputs) : Z := u64_sum (estimate_tokens <$> brief_recap inputs).

Definition input_tokens (inputs : BriefInputs) : Z := u64_wrap (INPUT_TOKENS_FLOOR + recap_tokens inputs).
Definition output_tokens (inputs : BriefInputs) : Z := estimate_tokens (build_summary inputs).

(** [json!] *)
Definition obj (fields : list (rstr * Value)) : Value := Value_Object (list_to_map fields).
Definition num (z : Z) : Value := Value_Scalar (dec_of_Z z).
Definition null : Value := Value_Scalar (str "null").
Definition string_value (s : string) : Value := Value_String (str s).

Definition message_start_data (inputs : BriefInputs) : Value :=
  obj [(str "type", string_value "message_start");
       (MESSAGE, obj
          [(str "id", string_value "msg_ccs_synth"); (str "type", string_value "message");
           (str "role", string_value "assistant"); (str "model", Value_String (brief_model inputs));
           (CONTENT, Value_Array []); (str "stop_reason", null); (str "stop_sequence", null);
           (str "usage", obj [(str "input_tokens", num (input_tokens inputs)); (str "output_tokens", num 0)])])].

Definition delta_data (inputs : BriefInputs) : Value :=
  obj [(str "type", string_value "content_block_delta"); (str "index", num 0);
       (str "delta", obj [(str "type", string_value "text_delta"); (str "text", Value_String (build_summary inputs))])].

(** The arguments of the six [frame] calls, in order. *)
Definition synth_frames (inputs : BriefInputs) : list (rstr * Value) :=
  [(str "message_start", message_start_data inputs);
   (str "content_block_start",
     obj [(str "type", string_value "content_block_start"); (str "index", num 0);
          (str "content_block", obj [(str "type", string_value "text"); (str "text", Value_String [])])]);
   (str "content_block_delta", delta_data inputs);
   (str "content_block_stop", obj [(str "type", string_value "content_block_stop"); (str "index", num 0)]);
   (str "message_delta",
     obj [(str "type", string_value "message_delta");
          (str "delta", obj [(str "stop_reason", string_value "end_turn"); (str "stop_sequence", null)]);
          (str "usage", obj [(str "output_tokens", num (output_tokens inputs))])]);
   (str "message_stop", obj [(str "type", string_value "message_stop")])].

Section Stream.
Context `{SerdeValue}.

Definition frame (event : rstr) (data : Value) : list byte :=
  as_bytes (str "event: " ++ event ++ [LF] ++ str "data: " ++ value_display data ++ [LF; LF]).

Definition synth_events (inputs : BriefInputs) : list (list byte) :=
  (fun '(event, data) => frame event data) <$> synth_frames inputs.

(** The response's body; its status and headers are constants. *)
Definition synth_response (inputs : BriefInputs) : list byte := concat (synth_events inputs).
End Stream.

(** ** Reading the stream back *)

(** The event-stream format: a field per line, a blank line dispatches. *)
Fixpoint sse_lines (event : list byte) (data : list (list byte)) (ls : list (list byte)) : list (list byte * list byte) :=
  match ls with
  | [] => []
  | [] :: ls =>
      match data with
      | [] => sse_lines [] [] ls
      | _ => (event, join [LF] data) :: sse_lines [] [] ls
      end
  | l :: ls =>
      match parse_field l EVENT_FIELD, parse_field l DATA_FIELD with
      | Some e, _ => sse_lines e data ls
      | None, Some d => sse_lines event (data ++ [d]) ls
      | None, None => sse_lines event data ls
      end
  end.
Definition sse_read (stream : list byte) : list (list byte * list byte) := sse_lines [] [] (split_on LF stream).

Lemma utf8_bytes_no_lf c : c <> LF -> LF ∉ utf8_bytes c.
Proof.
  intros N. unfold utf8_bytes.
  assert (K : forall z, utf8_cont z <> LF).
  { intros z. unfold utf8_cont, LF. pose proof (Z.land_nonneg z 63). lia. }
  assert (Sh : forall n, 128 <= c -> 0 <= n -> 0 <= Z.shiftr c n) by (intros; apply Z.shiftr_nonneg; lia).
  assert (B : forall a n, 128 <= c -> 192 <= a -> 0 <= n -> a + Z.shiftr c n <> LF).
  { intros a n Hc Ha Hn. specialize (Sh n Hc Hn). unfold LF. lia. }
  destruct (Z.ltb_spec c 128) as [L|L]; [rewrite list_elem_of_singleton; congruence|].
  repeat destruct (_ <? _);
    repeat (apply not_elem_of_cons; split; [first [apply not_eq_sym, K | apply not_eq_sym, B; lia]|]);
    apply not_elem_of_nil.
Qed.

Lemma as_bytes_no_lf s : LF ∉ s -> LF ∉ as_bytes s.
Proof.
  intros N I. unfold as_bytes in I. apply list_elem_of_bind in I as (c & I & C).
  apply (utf8_bytes_no_lf c); [congruence | done].
Qed.

Section Read.
Context `{SerdeValue} (display_law : forall v, LF ∉ value_display v).

Definition frame_lines (event : rstr) (data : Value) : list (list byte) :=
  [as_bytes (str "event: " ++ event); as_bytes (str "data: " ++ value_display data); []].

Lemma frame_terminated event data : frame event data = terminated (frame_lines event data).
Proof.
  unfold frame, frame_lines, terminated. cbn [fmap list_fmap concat].
  rewrite !as_bytes_app, !app_nil_r, <- !app_assoc. reflexivity.
Qed.

Lemma frame_lines_no_lf event data : LF ∉ event -> Forall (fun l => LF ∉ l) (frame_lines event data).
Proof.
  intros N. repeat constructor.
  - apply as_bytes_no_lf. rewrite elem_of_app. intros [I|I]; [|done]. revert I. apply (bool_decide_unpack _). reflexivity.
  - apply as_bytes_no_lf. rewrite elem_of_app. intros [I|I]; [|by apply (display_law data)].
    revert I. apply (bool_decide_unpack _). reflexivity.
  - apply not_elem_of_nil.
Qed.

Lemma sse_lines_frame event data ls :
  sse_lines [] [] (frame_lines event data ++ ls)
  = (as_bytes event, as_bytes (value_display data)) :: sse_lines [] [] ls.
Proof.
  unfold frame_lines. rewrite !as_bytes_app. cbn [app].
  set (e := as_bytes event). set (d := as_bytes (value_display data)). reflexivity.
Qed.

Lemma sse_read_frames (fs : list (rstr * Value)) :
  Forall (fun f => LF ∉ f.1) fs ->
  sse_read (concat ((fun '(event, data) => frame event data) <$> fs))
  = (fun '(event, data) => (as_bytes event, as_bytes (value_display data))) <$> fs.
Proof.
  unfold sse_read. induction 1 as [|[e d] fs He _ IH]; [reflexivity|].
  cbn [fmap list_fmap concat]. rewrite frame_terminated, split_on_terminated by (by apply frame_lines_no_lf).
  rewrite sse_lines_frame. by f_equal.
Qed.
End Read.

(** ** The summary *)

Lemma is_empty_mid {A} (l1 l2 : list A) x : is_empty (l1 ++ x :: l2) = false.
Proof. by destruct l1. Qed.

Lemma section_line heading ls empty l :
  l ∈ ls -> exists pre post, section heading ls empty = pre ++ l ++ post.
Proof.
  intros I. apply list_elem_of_split in I as (l1 & l2 & ->). unfold section.
  assert (J : exists a b, join [LF] (l1 ++ l :: l2) = a ++ l ++ b).
  { induction l1 as [|y l1 (a & b & IH)].
    - exists []. destruct l2 as [|z l2]; [exists []; by rewrite app_nil_r | eauto].
    - exists (y ++ [LF] ++ a), b. cbn [app]. change (join [LF] (y :: l1 ++ l :: l2)) with 
        (match l1 ++ l :: l2 with [] => y | _ => y ++ [LF] ++ join [LF] (l1 ++ l :: l2) end).
      destruct (l1 ++ l :: l2) eqn:E; [by destruct l1|]. rewrite IH. by rewrite <- !app_assoc. }
  destruct J as (a & b & J). rewrite is_empty_mid, J. exists (heading ++ [LF] ++ a), (b ++ [LF]). by rewrite <- !app_assoc.
Qed.

Lemma build_summary_constraint inputs c :
  c ∈ constraints (brief_working inputs) -> constraint_superseded_by c = None ->
  exists pre post, build_summary inputs = pre ++ str "- " ++ constraint_text c ++ post.
Proof.
  intros I N.
  destruct (section_line (str "## Live Constraints (verbatim)")
    ((fun c => str "- " ++ constraint_text c) <$>
      filterb (fun c => is_none (constraint_superseded_by c)) (constraints (brief_working inputs)))
    (str "- (none recorded)") (str "- " ++ constraint_text c)) as (a & b & S).
  { apply (list_elem_of_fmap_2 (fun c => str "- " ++ constraint_text c)), elem_of_filterb. by rewrite N. }
  unfold build_summary, live_constraints. rewrite S. rewrite <- !app_assoc. do 2 eexists.
  rewrite (app_assoc [LF] a), (app_assoc (str "<summary>")). reflexivity.
Qed.

(** Following keys into a document. *)
Definition field_at (v : Value) (path : list rstr) : option Value := foldl (fun o key => o ≫= fun v => value_get v key) (Some v) path.

(** What a client of the Messages API reads off each document of a one-block
    text answer. *)
Definition answers (inputs : BriefInputs) (docs : list Value) : Prop :=
  exists start block delta stop finish last,
    docs = [start; block; delta; stop; finish; last] /\
    field_at start [MESSAGE; str "role"] = Some (string_value "assistant") /\
    field_at start [MESSAGE; str "model"] = Some (Value_String (brief_model inputs)) /\
    field_at start [MESSAGE; CONTENT] = Some (Value_Array []) /\
    field_at start [MESSAGE; str "usage"; str "input_tokens"] = Some (num (input_tokens inputs)) /\
    field_at block [str "index"] = Some (num 0) /\
    field_at block [str "content_block"; str "type"] = Some (string_value "text") /\
    field_at block [str "content_block"; str "text"] = Some (Value_String []) /\
    field_at delta [str "index"] = Some (num 0) /\
    field_at delta [str "delta"; str "type"] = Some (string_value "text_delta") /\
    field_at delta [str "delta"; str "text"] = Some (Value_String (build_summary inputs)) /\
    field_at stop [str "index"] = Some (num 0) /\
    field_at finish [str "delta"; str "stop_reason"] = Some (string_value "end_turn") /\
    field_at finish [str "usage"; str "output_tokens"] = Some (num (output_tokens inputs)).

Definition event_names : list rstr :=
  [str "message_start"; str "content_block_start"; str "content_block_delta"; str "content_block_stop"; str "message_delta";
   str "message_stop"].

(** C26. The synthesised answer is one well-formed event stream.  As long as the
    JSON printer emits no raw newline, an event-stream reader that is given the
    concatenated frames dispatches exactly the six events [message_start],
    [content_block_start], [content_block_delta], [content_block_stop],
    [message_delta], [message_stop], in this order, each with a JSON document
    whose [type] is the event's name, whatever text the working state and the
    recap hold.  The documents describe one assistant message of the request's
    model with one text block, opened empty, filled by the delta with the whole
    summary, closed, and ended with [end_turn]; every live constraint appears in
    the summary verbatim; the usage in [message_start] reports at least 256
    input tokens and the one in [message_delta] at least one output token. *)
Theorem synth_stream_spec `{SerdeValue} inputs :
  (forall v, LF ∉ value_display v) ->
  sumZ (estimate_tokens <$> brief_recap inputs) < 2 ^ 63 ->
  exists docs,
    sse_read (synth_response inputs) = zip (as_bytes <$> event_names) (as_bytes ∘ value_display <$> docs) /\
    (fun d => value_get d (str "type")) <$> docs = (fun name => Some (Value_String name)) <$> event_names /\
    answers inputs docs /\
    (forall c, c ∈ constraints (brief_working inputs) -> constraint_superseded_by c = None ->
       exists pre post, build_summary inputs = pre ++ str "- " ++ constraint_text c ++ post) /\
    INPUT_TOKENS_FLOOR <= input_tokens inputs /\ 1 <= output_tokens inputs.
Proof.
  intros Law Small. exists (synth_frames inputs).*2. split; [|split; [|split; [|split; [|split]]]].
  - unfold synth_response, synth_events. rewrite sse_read_frames; [reflexivity | done |].
    repeat constructor; apply (bool_decide_unpack _); reflexivity.
  - reflexivity.
  - repeat eexists; reflexivity.
  - intros c. apply build_summary_constraint.
  - unfold input_tokens, recap_tokens, INPUT_TOKENS_FLOOR.
    assert (P : Forall (fun z => 0 <= z) (estimate_tokens <$> brief_recap inputs)).
    { apply Forall_fmap, Forall_true. intros t. unfold estimate_tokens; simpl. pose proof (str_len_nonneg t).
      pose proof (Z.div_pos (str_len t) 4). lia. }
    pose proof (sumZ_nonneg _ P). rewrite u64_sum_wrap. unfold u64_wrap. rewrite (Z.mod_small (sumZ _)), Z.mod_small by lia. lia.
  - unfold output_tokens, estimate_tokens. pose proof (str_len_nonneg (build_summary inputs)).
    pose proof (Z.div_pos (str_len (build_summary inputs)) 4). lia.
Qed.

(** A printer for the witness: strings and arrays only as far as the frames
    need them, every newline escaped. *)
Fixpoint print_value (fuel : nat) (v : Value) : rstr :=
  match fuel with
  | O => []
  | S fuel =>
      match v with
      | Value_Scalar s => filterb (fun c => negb (c =? LF)) s
      | Value_String s => [34] ++ (s ≫= fun c => if c =? LF then str "\n" else [c]) ++ [34]
      | Value_Array vs => str "[" ++ concat (print_value fuel <$> vs) ++ str "]"
      | Value_Object m =>
          str "{" ++ concat ((fun '(k, v) => print_value fuel (Value_String k) ++ str ":" ++ print_value fuel v ++ str ",")
                               <$> map_to_list m) ++ str "}"
      end
  end.

Lemma not_in_str (l : list Z) : bool_decide (LF ∈ l) = false -> LF ∉ l.
Proof. apply bool_decide_eq_false. Qed.

Lemma print_value_no_lf fuel v : LF ∉ print_value fuel v.
Proof.
  revert v. induction fuel as [|fuel IH]; intros v; [apply not_elem_of_nil|].
  destruct v as [s|s|vs|m]; cbn [print_value]; rewrite ?elem_of_app.
  - by intros [_ ?]%elem_of_filterb.
  - intros [I|[I|I]]; [by apply (not_in_str [34]) in I| |by apply (not_in_str [34]) in I].
    apply list_elem_of_bind in I as (c & I & _). destruct (Z.eqb_spec c LF).
    + by apply (not_in_str (str "\n")) in I.
    + apply list_elem_of_singleton in I. congruence.
  - intros [I|[I|I]]; [by apply (not_in_str (str "[")) in I| |by apply (not_in_str (str "]")) in I].
    apply elem_of_concat in I as (l & (v & -> & _)%list_elem_of_fmap & I). by apply IH in I.
  - intros [I|[I|I]]; [by apply (not_in_str (str "{")) in I| |by apply (not_in_str (str "}")) in I].
    apply elem_of_concat in I as (l & ([k v] & -> & _)%list_elem_of_fmap & I). rewrite !elem_of_app in I.
    destruct I as [I|[I|[I|I]]]; [by apply IH in I | by apply (not_in_str (str ":")) in I | by apply IH in I
                                 | by apply (not_in_str (str ",")) in I].
Qed.

Definition print_values : SerdeValue := {|
  json_value _ := None; json_object_fields _ := None; value_to_string _ := None;
  value_display := print_value 8; raw_map _ := None; raw_map_to_vec _ := None; raw_array_to_string _ := None;
|}.

Definition sample_inputs : BriefInputs :=
  mkBriefInputs (str "claude") (mkWorkingState
    [mkConstraint (str "never push") (MessageId_new (str "m0")) None;
     mkConstraint (str "old") (MessageId_new (str "m1")) (Some (MessageId_new (str "m2")))] [] None)
    [str "fix the build" ++ [LF] ++ str "please"].

Lemma synth_stream_spec_witness :
  exists docs, sse_read (@synth_response print_values sample_inputs)
    = zip (as_bytes <$> event_names) (as_bytes ∘ print_value 8 <$> docs) /\ answers sample_inputs docs /\
  exists pre post, build_summary sample_inputs = pre ++ str "- " ++ str "never push" ++ post.
Proof.
  destruct (@synth_stream_spec print_values sample_inputs (print_value_no_lf 8)) as (docs & R & _ & A & C & _);
    [vm_compute; reflexivity|].
  exists docs. split; [exact R|]. split; [exact A|].
  apply (C (mkConstraint (str "never push") (MessageId_new (str "m0")) None)); [apply list_elem_of_here | reflexivity].
Defined.
