(* ===== verification/Staging.v ===== *)
(** * The off-path staging task

    Models [crates/ccs-proxy/src/staging.rs]: the task that, after a response is
    forwarded, recomputes the plan the next turn applies.  It shares the store
    with other tasks, so each operation threads the store and may panic
    ([None]); what the task commits is separate from what it stored. *)
From S2P Require Import Prelude RStr F64 Core Economics Config Wire Segment Policy Scorer Pipeline Ladder Text Targets Markup Recode Rewrite Utf8 Marker Store Session Summarizer.

Local Open Scope Z_scope.

Definition CONSTRAINT_TAG : rstr := str "CONSTRAINT".
Definition MIN_RECODE_SHRINK_FRAC : f64 := f64_lit 2 10.

(** Whether the database accepts a write. *)
Class Database := { put_fails : list byte -> f64 -> bool }.

Definition neutral_econ : ModelEconomics := mkModelEconomics f64_zero f64_zero f64_zero 0.
Definition neutral_cache (body : WireBody) : CacheState :=
  mkCacheState 0 f64_zero (f64_of_Z 3600) (body_model body) [].
Definition neutral_ctx (body : WireBody) (segments : list Segment) (working : WorkingState) (policy : PolicyConfig)
    (now : f64) : PassCtx :=
  mkPassCtx body segments working neutral_econ (neutral_cache body) policy (mkStagedDecisions false [] []) f64_zero now.

Definition prefers_recode (prop : Proposal) (payload : list byte) : bool :=
  match prop_strategy prop with
  | Recode content _ =>
      negb (is_empty payload)
      && f64_leb (f64_of_Z (str_len content))
           (f64_mul (f64_sub f64_one MIN_RECODE_SHRINK_FRAC) (f64_of_Z (Z.of_nat (length payload))))
  | _ => false
  end.

Definition recode_marker (prop : Proposal) (record : RefRecord) : rstr :=
  match prop_strategy prop with
  | Recode [] _ => render_backref (rec_ref_id record)
  | _ => render_placeholder record [] false
  end.

Definition salience_tags (seg : Segment) (working : WorkingState) : list rstr :=
  if carries_live_constraint seg working then [CONSTRAINT_TAG] else [].

Definition source_uuid (seg : Segment) : MessageId :=
  default (MessageId_new (dec_of_nat (seg_index seg))) (head (source_uuids seg)).

Section Staging.
Context `{SerdeJson, SerdeValue, Libm, FormatCore, Similar, Sha256, Upstream, Database}.

Definition deterministic_recodes (body : WireBody) (segments : list Segment) (policy : PolicyConfig) (now : f64)
    : option PlanLedger :=
  ok (Runner_run Runner_default deterministic (neutral_ctx body segments WorkingState_default policy now)
        (PlanLedger_sized (length segments))).

Definition off_path_eligibility (body : WireBody) (segments : list Segment) (working : WorkingState)
    (policy : PolicyConfig) (now : f64) : option PlanLedger :=
  ok (Runner_run Runner_default (Pipeline_of [Stage_Pass SalienceGatePass; Stage_Pass ScorePass])
        (neutral_ctx body segments working policy now) (PlanLedger_sized (length segments))).

(** [store.put(..).await]: the inner [None] is a database error. *)
Definition try_put (st : RefStore) (payload : list byte) (uuid : MessageId) (session_id : SessionId)
    (kind : SegmentKind) (now : f64) : option (RefStore * option RefRecord) :=
  if put_fails payload now then Some (st, None)
  else '(st, record) ← put st payload uuid session_id kind now; Some (st, Some record).

Definition stage_recode (st : RefStore) (prop : Proposal) (payload : list byte) (uuid : MessageId)
    (session_id : SessionId) (kind : SegmentKind) (now : f64) : option (RefStore * option StagedEntry) :=
  match prop_strategy prop with
  | Recode content _ =>
      '(st, record) ← try_put st payload uuid session_id kind now;
      Some (st,
        record ← record;
        let '(ref_id, marker) :=
          match needs_ref prop with
          | Some _ => (Some (rec_ref_id record), Some (recode_marker prop record))
          | None => (None, None)
          end in
        Some (mkStagedEntry record (mkContentDecision ChoiceTag_Compress [] None)
                (Some (mkStagedRecode content ref_id marker))))
  | _ => Some (st, None)
  end.

Definition add_entry (plan : StagedPlan) (key : RefId) (entry : StagedEntry) : StagedPlan :=
  mkStagedPlan (<[key := entry]> (by_content plan)).

(** One iteration of the loop. *)
Definition stage_segment (body : WireBody) (client : SessionAuthContext) (session_id : SessionId)
    (working : WorkingState) (policy : PolicyConfig) (now : f64) (ledger recode_ledger : PlanLedger)
    (st : RefStore) (plan : StagedPlan) (seg : Segment) : option (RefStore * StagedPlan) :=
  if is_gated ledger (seg_index seg) then Some (st, plan)
  else
    let payload := segment_payload_bytes seg body in
    let preferred :=
      match proposal_for recode_ledger (seg_index seg) with
      | Some p => if prefers_recode p payload then Some p else None
      | None => None
      end in
    match preferred with
    | Some prop =>
        '(st, entry) ← stage_recode st prop payload (source_uuid seg) session_id (kind seg) now;
        match entry with
        | Some entry => key ← content_address payload; Some (st, add_entry plan key entry)
        | None => Some (st, plan)
        end
    | None =>
        let decision := decide_content client (from_utf8_lossy payload) (salience_tags seg working) policy in
        if bool_decide (choice decision = ChoiceTag_Keep) then Some (st, plan)
        else
          '(st, record) ← try_put st payload (source_uuid seg) session_id (kind seg) now;
          Some (st, match record with
                    | Some record => add_entry plan (rec_ref_id record) (mkStagedEntry record decision None)
                    | None => plan
                    end)
    end.

Fixpoint stage_segments (body : WireBody) (client : SessionAuthContext) (session_id : SessionId)
    (working : WorkingState) (policy : PolicyConfig) (now : f64) (ledger recode_ledger : PlanLedger)
    (st : RefStore) (plan : StagedPlan) (segs : list Segment) : option (RefStore * StagedPlan) :=
  match segs with
  | [] => Some (st, plan)
  | seg :: segs =>
      '(st, plan) ← stage_segment body client session_id working policy now ledger recode_ledger st plan seg;
      stage_segments body client session_id working policy now ledger recode_ledger st plan segs
  end.

Definition recent_turns_text (segments : list Segment) (body : WireBody) (cfg : PolicyConfig) : rstr :=
  join [LF]
    ((fun m => rendered (content m)) <$>
       omap (fun i => messages body !! i)
         (omap message_index
            (filterb (fun seg => is_recency_protected seg segments cfg) segments ≫= source_uuids))).

(** The task between [clone_inputs] and [commit]: the store it leaves and what
    it commits, if anything.  [None] is a panic; then nothing is committed. *)
Definition stage_plan (working : WorkingState) (auth : SessionAuthContext) (policy : PolicyConfig)
    (bytes : list byte) (session_id : SessionId) (st : RefStore) (now : f64)
    : option (RefStore * option (StagedPlan * WorkingState)) :=
  match parse_body bytes with
  | None => Some (st, None)
  | Some body =>
      let segments := segment_prompt body in
      ledger ← off_path_eligibility body segments working policy now;
      if allb (fun seg => is_gated ledger (seg_index seg)) segments then Some (st, None)
      else
        recode_ledger ← deterministic_recodes body segments policy now;
        '(st, plan) ← stage_segments body auth session_id working policy now ledger recode_ledger st
                        (mkStagedPlan ∅) segments;
        Some (st, Some (plan, fold_state auth working (recent_turns_text segments body policy)))
  end.
(** *** The task as its [await]s cut it: what it has read, what it has planned
    and the segments left.  Other tasks and sweeps run between two steps. *)
Record Task := mkTask {
  tk_body : WireBody;
  tk_session : SessionId;
  tk_working : WorkingState;
  tk_auth : SessionAuthContext;
  tk_policy : PolicyConfig;
  tk_now : f64;
  tk_ledger : PlanLedger;
  tk_recodes : PlanLedger;
  tk_plan : StagedPlan;
  tk_rest : list Segment;
}.

(** Up to the first [await]: [Some None] is an early return. *)
Definition task_start (inputs : WorkingState * SessionAuthContext * PolicyConfig) (bytes : list byte)
    (session_id : SessionId) (now : f64) : option (option Task) :=
  let '(working, auth, policy) := inputs in
  match parse_body bytes with
  | None => Some None
  | Some body =>
      let segments := segment_prompt body in
      ledger ← off_path_eligibility body segments working policy now;
      if allb (fun seg => is_gated ledger (seg_index seg)) segments then Some None
      else
        recode_ledger ← deterministic_recodes body segments policy now;
        Some (Some (mkTask body session_id working auth policy now ledger recode_ledger (mkStagedPlan ∅) segments))
  end.

Definition task_next (t : Task) (plan : StagedPlan) (rest : list Segment) : Task :=
  mkTask (tk_body t) (tk_session t) (tk_working t) (tk_auth t) (tk_policy t) (tk_now t) (tk_ledger t) (tk_recodes t)
    plan rest.

(** The next iteration of the loop. *)
Definition task_segment (st : RefStore) (t : Task) : option (RefStore * Task) :=
  match tk_rest t with
  | [] => Some (st, t)
  | seg :: rest =>
      '(st, plan) ← stage_segment (tk_body t) (tk_auth t) (tk_session t) (tk_working t) (tk_policy t) (tk_now t)
                      (tk_ledger t) (tk_recodes t) st (tk_plan t) seg;
      Some (st, task_next t plan rest)
  end.

(** After the loop: what is committed. *)
Definition task_result (t : Task) : StagedPlan * WorkingState :=
  (tk_plan t,
   fold_state (tk_auth t) (tk_working t) (recent_turns_text (segment_prompt (tk_body t)) (tk_body t) (tk_policy t))).

Fixpoint task_run (n : nat) (st : RefStore) (t : Task) : option (RefStore * Task) :=
  match n with
  | 0%nat => Some (st, t)
  | S n => '(st, t) ← task_segment st t; task_run n st t
  end.
End Staging.

(** ** The session's side ([clone_inputs], [commit], the guard) *)

Section Guard.
Context `{Breaker}.

Definition clone_inputs (s : SessionEcon) : WorkingState * SessionAuthContext * PolicyConfig :=
  (s_working s, s_auth s, s_policy s).
Definition commit (s : SessionEcon) (plan : StagedPlan) (working : WorkingState) : SessionEcon :=
  set_working (set_staged s (Some plan)) working.
(** [StagingGuard::drop] *)
Definition release (s : SessionEcon) : SessionEcon := set_staging s false.
End Guard.

(** ** What a task stages *)

Section Sound.
Context `{SerdeJson, SerdeValue, Libm, FormatCore, Similar, Sha256, Upstream, Database}.

(** A failed exchange never yields a decision or a new working state. *)
Definition upstream_down (client : SessionAuthContext) : Prop := forall body n, post client body n = None.

Lemma call_down client system user n :
  upstream_down client -> exists e, call client system user n = Err e.
Proof.
  intros D. unfold call. destruct (value_to_string _) as [text|]; [|eauto].
  destruct (call_timed_out _ _); [eauto|]. cbn [send_with_retries RETRY_BACKOFFS]. rewrite D. eauto.
Qed.

Lemma decide_content_keep client content tags cfg :
  chars_count content < pre_gate_min_chars cfg \/ upstream_down client -> decide_content client content tags cfg = keep.
Proof.
  unfold decide_content. destruct (Z.ltb_spec (chars_count content) (pre_gate_min_chars cfg)); [done|].
  intros [L|D]; [lia|]. unfold decision_query.
  destruct (call_down client DECISION_SYSTEM (decision_message content tags) DECISION_MAX_TOKENS D) as [e ->]. done.
Qed.

Lemma fold_state_down client prev turns : upstream_down client -> fold_state client prev turns = prev.
Proof.
  intros D. unfold fold_state, fold_query.
  destruct (call_down client WORKING_STATE_SYSTEM (fold_message prev turns) FOLD_MAX_TOKENS D) as [e ->]. done.
Qed.

(** The two passes of the eligibility pipeline never panic, and gate exactly
    the segments that are not candidates. *)
Lemma off_path_eligibility_spec body segs working policy now :
  indexed segs ->
  exists l, off_path_eligibility body segs working policy now = Some l /\
    forall seg, seg ∈ segs -> is_gated l (seg_index seg) = negb (is_squash_candidate seg working policy).
Proof.
  intros Hx. unfold off_path_eligibility. set (ctx := neutral_ctx body segs working policy now).
  rewrite Runner_run_straight.
  2:{ repeat constructor; cbn; intros ? ? ? ?; [by intros; simplify_eq|].
      unfold score_apply. destruct (score_all _ _ _); intros; by simplify_eq/=. }
  set (l0 := PlanLedger_sized (length segs)). destruct (salience_gate_ledger ctx l0) as [Sc0 Pr0].
  destruct (score_all_table ctx Hx segs [] (ScoreTable_sized (length segs))) as (t & Et & _);
    [done | by cbn; rewrite length_replicate | done |].
  exists (mkPlanLedger t (proposals (salience_gate_apply ctx l0)) (provenance (salience_gate_apply ctx l0))). split.
  - cbn [run_straight stages Pipeline_of apply SalienceGatePass ScorePass mbind option_bind].
    unfold score_apply. rewrite Sc0. change (ctx_segments ctx) with segs. cbn [l0 PlanLedger_sized ledger_scores].
    rewrite Et. done.
  - intros seg I. apply list_elem_of_lookup in I as [k Hk]. rewrite (Hx _ _ Hk).
    exact (salience_gate_gated ctx Hx l0 k seg eq_refl Hk).
Qed.

Lemma deterministic_recodes_spec body segs policy now :
  indexed segs ->
  exists l, deterministic_recodes body segs policy now = Some l /\
    chain_inv (neutral_ctx body segs WorkingState_default policy now) l.
Proof.
  intros Hx. unfold deterministic_recodes. set (ctx := neutral_ctx body segs WorkingState_default policy now).
  destruct (run_straight_keeps ctx _ _ deterministic_keeps Hx (chain_inv_empty ctx (length segs))) as (l & R & I).
  exists l. rewrite Runner_run_straight, R by apply deterministic_never_reverts. done.
Qed.

(** The two markers that name the record's own key. *)
Definition marker_ok (rec : RefRecord) (marker : rstr) : Prop :=
  marker = render_backref (rec_ref_id rec) \/ marker = render_placeholder rec [] false.

(** What an entry says of its key, whatever it was staged for. *)
Definition entry_wf (key : RefId) (e : StagedEntry) : Prop :=
  rec_ref_id (se_rec e) = key /\
  match se_recode e with
  | None => True
  | Some r =>
      match sr_ref_id r with
      | None => sr_marker r = None
      | Some id => id = key /\ exists marker, sr_marker r = Some marker /\ marker_ok (se_rec e) marker
      end
  end.

(** A segment the loop may squash: a human paste too big to keep, or no human
    turn at all and without a live constraint. *)
Definition may_squash (seg : Segment) (working : WorkingState) (policy : PolicyConfig) : Prop :=
  is_huge_human_paste seg policy = true \/
  (kind seg = UserTurn -> seg_is_true_human seg = false) /\
  forall c, c ∈ constraints working -> constraint_superseded_by c = None -> source_message c ∉ source_uuids seg.

(** What an entry filed under [key] promises of the segment it was staged for
    and of the store. *)
Definition entry_ok (body : WireBody) (segs : list Segment) (working : WorkingState) (policy : PolicyConfig)
    (client : SessionAuthContext) (st : RefStore) (key : RefId) (e : StagedEntry) : Prop :=
  exists seg, seg ∈ segs /\ may_squash seg working policy /\
    let payload := segment_payload_bytes seg body in
    content_address payload = Some key /\ rec_ref_id (se_rec e) = key /\
    byte_len (se_rec e) = Z.of_nat (length payload) /\
    (exists row, st !! RefId_as_str key = Some row /\ content_address (row_original row) = Some key) /\
    match se_recode e with
    | None =>
        ~ upstream_down client /\ choice (se_decision e) <> ChoiceTag_Keep /\
        pre_gate_min_chars policy <= chars_count (from_utf8_lossy payload)
    | Some r =>
        pinned seg = false /\ seg_is_true_human seg = false /\
        f64_leb (f64_of_Z (str_len (sr_content r)))
          (f64_mul (f64_sub f64_one MIN_RECODE_SHRINK_FRAC) (f64_of_Z (Z.of_nat (length payload)))) = true /\
        exists leaf, raw_leaf body seg = Some leaf /\ str_len (sr_content r) < str_len (leaf_content leaf) /\
          match sr_ref_id r with
          | None => sr_marker r = None /\ InlineDerives (leaf_content leaf) (sr_content r)
          | Some id => id = key /\ exists marker, sr_marker r = Some marker /\ marker_ok (se_rec e) marker
          end
    end.

Lemma entry_ok_wf body segs working policy client st key e :
  entry_ok body segs working policy client st key e -> entry_wf key e.
Proof.
  intros (seg & _ & _ & _ & R & _ & _ & M). split; [exact R|]. destruct (se_recode e) as [r|]; [|done].
  destruct M as (_ & _ & _ & leaf & _ & _ & M). by destruct (sr_ref_id r); [|destruct M].
Qed.

Definition plan_ok body segs working policy client st (plan : StagedPlan) : Prop :=
  map_Forall (entry_ok body segs working policy client st) (by_content plan).

Lemma entry_ok_mono body segs working policy client st st' key e :
  (forall id, is_Some (st !! id) -> st' !! id = st !! id) ->
  entry_ok body segs working policy client st key e -> entry_ok body segs working policy client st' key e.
Proof.
  intros M (seg & I & C & A & R & B & (row & L & O) & E). exists seg. repeat (split; [done|]).
  split; [|done]. exists row. by rewrite M by eauto.
Qed.

Lemma plan_ok_add body segs working policy client st st' plan key e :
  (forall id, is_Some (st !! id) -> st' !! id = st !! id) ->
  plan_ok body segs working policy client st plan -> entry_ok body segs working policy client st' key e ->
  plan_ok body segs working policy client st' (add_entry plan key e).
Proof.
  intros M P E. apply map_Forall_insert_2; [done|]. intros k x L. eapply entry_ok_mono; [done | by apply P].
Qed.

(** A put never changes a row that is there, and leaves one under the address. *)
Lemma try_put_spec st payload uuid session kind now :
  sha256_law -> store_ok st ->
  exists st' r, try_put st payload uuid session kind now = Some (st', r) /\ store_ok st' /\
    (forall id, is_Some (st !! id) -> st' !! id = st !! id) /\
    forall record, r = Some record ->
      content_address payload = Some (rec_ref_id record) /\ byte_len record = Z.of_nat (length payload) /\
      exists row, st' !! RefId_as_str (rec_ref_id record) = Some row /\
        content_address (row_original row) = Some (rec_ref_id record).
Proof.
  intros Law S. unfold try_put. destruct (put_fails payload now); [by exists st, None|].
  destruct (put st payload uuid session kind now) as [[st' record]|] eqn:P.
  2:{ unfold put in P. by rewrite content_address_total in P. }
  pose proof (put_ok _ _ _ _ _ _ _ _ P S) as S'. exists st', (Some record). split; [done|]. split; [done|].
  unfold put in P. destruct (content_address payload) as [id|] eqn:A; [|done]. cbn [mbind option_bind] in P.
  injection P as <- <-. split.
  - intros k [row Hk]. unfold insert_row. destruct (st !! RefId_as_str id) eqn:N; [done|].
    rewrite lookup_insert_ne; [done|]. intros E. rewrite E, Hk in N. done.
  - intros record [= <-]. cbn [rec_ref_id byte_len]. repeat (split; [done|]).
    assert (is_Some (insert_row st (RefId_as_str id)
      (mkRow payload (Z.of_nat (length payload)) (estimate_chars_proxy (from_utf8_lossy payload)) (MessageId_as_str uuid)
         (SessionId_as_str session) (SegmentKind_to_string kind) now now 0 0) !! RefId_as_str id)) as [row L].
    { unfold insert_row. destruct (st !! RefId_as_str id) eqn:L; [rewrite L; eauto | rewrite lookup_insert_eq; eauto]. }
    exists row. split; [exact L|]. destruct id. exact (proj1 (S' _ _ L)).
Qed.

Lemma stage_recode_spec st prop payload uuid session kind now content r :
  sha256_law -> store_ok st -> prop_strategy prop = Recode content r ->
  exists st' o, stage_recode st prop payload uuid session kind now = Some (st', o) /\ store_ok st' /\
    (forall id, is_Some (st !! id) -> st' !! id = st !! id) /\
    forall e, o = Some e ->
      content_address payload = Some (rec_ref_id (se_rec e)) /\ byte_len (se_rec e) = Z.of_nat (length payload) /\
      (exists row, st' !! RefId_as_str (rec_ref_id (se_rec e)) = Some row /\
        content_address (row_original row) = Some (rec_ref_id (se_rec e))) /\
      exists sr, se_recode e = Some sr /\ sr_content sr = content /\
        match needs_ref prop with
        | None => sr_ref_id sr = None /\ sr_marker sr = None
        | Some _ => sr_ref_id sr = Some (rec_ref_id (se_rec e)) /\
            exists marker, sr_marker sr = Some marker /\ marker_ok (se_rec e) marker
        end.
Proof.
  intros Law S Str. unfold stage_recode. rewrite Str.
  destruct (try_put_spec st payload uuid session kind now Law S) as (st' & o & E & S' & M & R).
  rewrite E. cbn [mbind option_bind]. do 2 eexists. split; [reflexivity|]. split; [done|]. split; [done|].
  intros e He. destruct o as [record|]; [|done]. cbn [mbind option_bind] in He.
  destruct (R record eq_refl) as (A & B & L).
  destruct (needs_ref prop); injection He as <-; cbn [se_rec se_recode];
    (repeat (split; [done|])); eexists; (split; [reflexivity|]); cbn [sr_content sr_ref_id sr_marker]; [|done].
  split; [done|]. split; [done|]. eexists. split; [reflexivity|]. unfold recode_marker, marker_ok. rewrite Str.
  destruct content; [by left | by right].
Qed.

(** One iteration adds at most one entry to whatever the plan holds. *)
Definition add_option (plan : StagedPlan) (o : option (RefId * StagedEntry)) : StagedPlan :=
  match o with Some (key, e) => add_entry plan key e | None => plan end.

Lemma stage_segment_entry body client session working policy now ledger rl st segs seg :
  sha256_law -> store_ok st -> indexed segs -> seg ∈ segs ->
  is_gated ledger (seg_index seg) = negb (is_squash_candidate seg working policy) ->
  chain_inv (neutral_ctx body segs WorkingState_default policy now) rl ->
  exists st' o,
    (forall plan, stage_segment body client session working policy now ledger rl st plan seg = Some (st', add_option plan o)) /\
    store_ok st' /\ (forall id, is_Some (st !! id) -> st' !! id = st !! id) /\
    forall key e, o = Some (key, e) -> entry_ok body segs working policy client st' key e.
Proof.
  intros Law S Hx I G Ch. unfold stage_segment. rewrite G.
  destruct (is_squash_candidate seg working policy) eqn:C; cbn [negb]; [|by exists st, None].
  set (payload := segment_payload_bytes seg body).
  destruct (match proposal_for rl (seg_index seg) with Some p => if prefers_recode p payload then Some p else None
            | None => None end) as [prop|] eqn:Pr.
  - destruct (proposal_for rl (seg_index seg)) as [p|] eqn:F; [|done].
    destruct (prefers_recode p payload) eqn:Pf; [|done]. injection Pr as ->.
    apply proposal_for_Some in F as [F1 F2].
    destruct Ch as [_ Ch]. rewrite Forall_forall in Ch.
    destruct (Ch prop F1) as (seg' & leaf & c & L & Np & Nh & Lf & Str & _ & Sh & Rc).
    rewrite F2 in L. apply list_elem_of_lookup in I as I'. destruct I' as [k Hk].
    assert (seg' = seg) as -> by (cbn in L; rewrite (Hx _ _ Hk) in L; congruence).
    unfold prefers_recode in Pf. rewrite Str in Pf. apply andb_true_iff in Pf as [_ Pf].
    destruct (stage_recode_spec st prop payload (source_uuid seg) session (kind seg) now c None Law S Str)
      as (st' & o & -> & S' & M & R). cbn [mbind option_bind].
    destruct o as [e|]; [|by exists st', None].
    destruct (R e eq_refl) as (A & B & Row & sr & Es & Ec & Rf). rewrite A. cbn [mbind option_bind].
    exists st', (Some (rec_ref_id (se_rec e), e)). repeat (split; [done|]). intros k' e' [= <- <-].
    exists seg. split; [done|]. split; [by apply is_squash_candidate_spec|].
    split; [exact A|]. split; [done|]. split; [done|]. split; [done|]. rewrite Es, Ec. split; [done|]. split; [done|]. split; [done|].
    exists leaf. split; [exact Lf|]. split; [done|]. unfold recoverable in Rc.
    destruct (needs_ref prop); destruct Rf as [-> Rf]; done.
  - clear Pr. set (d := decide_content _ _ _ _). destruct (bool_decide (choice d = ChoiceTag_Keep)) eqn:K; [by exists st, None|].
    apply bool_decide_eq_false in K.
    destruct (try_put_spec st payload (source_uuid seg) session (kind seg) now Law S) as (st' & o & -> & S' & M & R).
    cbn [mbind option_bind]. destruct o as [record|]; [|by exists st', None].
    destruct (R record eq_refl) as (A & B & Row).
    exists st', (Some (rec_ref_id record, mkStagedEntry record d None)). repeat (split; [done|]). intros k' e' [= <- <-].
    exists seg. split; [done|]. split; [by apply is_squash_candidate_spec|]. repeat (split; [done|]). cbn [se_recode se_decision].
    assert (N : ~ (chars_count (from_utf8_lossy payload) < pre_gate_min_chars policy \/ upstream_down client)).
    { intros D. apply K. unfold d. by rewrite (decide_content_keep _ _ _ _ D). }
    split; [tauto|]. split; [done|]. apply Z.nlt_ge. tauto.
Qed.

Lemma stage_segments_spec body client session working policy now ledger rl segs ss : forall st plan,
  sha256_law -> indexed segs -> Forall (fun seg => seg ∈ segs) ss ->
  (forall seg, seg ∈ segs -> is_gated ledger (seg_index seg) = negb (is_squash_candidate seg working policy)) ->
  chain_inv (neutral_ctx body segs WorkingState_default policy now) rl ->
  store_ok st -> plan_ok body segs working policy client st plan ->
  exists st' plan', stage_segments body client session working policy now ledger rl st plan ss = Some (st', plan') /\
    store_ok st' /\ plan_ok body segs working policy client st' plan' /\
    forall id, is_Some (st !! id) -> st' !! id = st !! id.
Proof.
  induction ss as [|seg ss IH]; intros st plan Law Hx F G Ch S P; [by exists st, plan|].
  inversion F as [|? ? I F']; subst.
  destruct (stage_segment_entry body client session working policy now ledger rl st segs seg)
    as (st1 & o & E & S1 & M1 & P1); try done; [by apply G|].
  cbn [stage_segments]. rewrite E. cbn [mbind option_bind].
  assert (P' : plan_ok body segs working policy client st1 (add_option plan o)).
  { destruct o as [[key e]|]; [by apply (plan_ok_add _ _ _ _ _ st); [| |apply P1]|].
    intros k x Lk. eapply entry_ok_mono; [done | by apply P]. }
  destruct (IH st1 (add_option plan o)) as (st2 & plan2 & E2 & S2 & P2 & M2); try done.
  exists st2, plan2. repeat (split; [done|]). intros id [r L]. rewrite M2, M1; eauto. rewrite M1; eauto.
Qed.

Lemma stage_plan_run working auth policy bytes session st now :
  sha256_law -> store_ok st ->
  exists st' out, stage_plan working auth policy bytes session st now = Some (st', out) /\ store_ok st' /\
    (forall id, is_Some (st !! id) -> st' !! id = st !! id) /\
    match out with
    | None => st' = st
    | Some (plan, working') =>
        exists body, parse_body bytes = Some body /\
          working' = fold_state auth working (recent_turns_text (segment_prompt body) body policy) /\
          forall key e, by_content plan !! key = Some e ->
            entry_ok body (segment_prompt body) working policy auth st' key e
    end.
Proof.
  intros Law S. unfold stage_plan. destruct (parse_body bytes) as [body|] eqn:B; [|by exists st, None].
  set (segs := segment_prompt body). assert (Hx : indexed segs) by apply segment_prompt_indexed.
  destruct (off_path_eligibility_spec body segs working policy now Hx) as (ledger & -> & G). cbn [mbind option_bind].
  destruct (allb _ segs); [by exists st, None|].
  destruct (deterministic_recodes_spec body segs policy now Hx) as (rl & -> & Ch). cbn [mbind option_bind].
  destruct (stage_segments_spec body auth session working policy now ledger rl segs segs st (mkStagedPlan ∅))
    as (st' & plan & -> & S' & P & M); [exact Law | exact Hx | by apply Forall_forall | exact G | exact Ch | exact S | apply map_Forall_empty |].
  cbn [mbind option_bind]. do 2 eexists. split; [reflexivity|]. split; [done|]. split; [done|].
  exists body. split; [done|]. split; [done|]. exact P.
Qed.

(** *** The steps of a task *)

(** What the loop relies on from the two pipelines. *)
Definition task_ok (t : Task) : Prop :=
  let segs := segment_prompt (tk_body t) in
  Forall (fun seg => seg ∈ segs) (tk_rest t) /\
  (forall seg, seg ∈ segs -> is_gated (tk_ledger t) (seg_index seg) = negb (is_squash_candidate seg (tk_working t) (tk_policy t))) /\
  chain_inv (neutral_ctx (tk_body t) segs WorkingState_default (tk_policy t) (tk_now t)) (tk_recodes t).

Lemma task_start_ok inputs bytes session now :
  exists o, task_start inputs bytes session now = Some o /\
    forall t, o = Some t -> task_ok t /\ tk_plan t = mkStagedPlan ∅.
Proof.
  destruct inputs as [[working auth] policy]. unfold task_start. destruct (parse_body bytes) as [body|]; [|by exists None].
  set (segs := segment_prompt body). assert (Hx : indexed segs) by apply segment_prompt_indexed.
  destruct (off_path_eligibility_spec body segs working policy now Hx) as (ledger & -> & G). cbn [mbind option_bind].
  destruct (allb _ segs); [by exists None|].
  destruct (deterministic_recodes_spec body segs policy now Hx) as (rl & -> & Ch). cbn [mbind option_bind].
  eexists. split; [reflexivity|]. intros t [= <-]. split; [|done]. split; [by apply Forall_forall|]. done.
Qed.

Lemma task_segment_ok st t :
  sha256_law -> store_ok st -> task_ok t ->
  exists st' t', task_segment st t = Some (st', t') /\ store_ok st' /\ task_ok t' /\
    (forall id, is_Some (st !! id) -> st' !! id = st !! id) /\
    forall key e, by_content (tk_plan t') !! key = Some e -> by_content (tk_plan t) !! key = Some e \/
      entry_wf key e /\ exists row, st' !! RefId_as_str key = Some row /\ content_address (row_original row) = Some key.
Proof.
  intros Law S (F & G & Ch). unfold task_segment. destruct (tk_rest t) as [|seg rest] eqn:R.
  { exists st, t. split; [done|]. split; [done|]. split; [by split; [rewrite R|]|]. eauto. }
  inversion F as [|? ? I F']; subst.
  destruct (stage_segment_entry (tk_body t) (tk_auth t) (tk_session t) (tk_working t) (tk_policy t) (tk_now t)
    (tk_ledger t) (tk_recodes t) st _ seg Law S (segment_prompt_indexed _) I (G seg I) Ch) as (st' & o & E & S' & M & P).
  rewrite E. cbn [mbind option_bind]. do 2 eexists. split; [reflexivity|]. split; [done|]. split; [done|]. split; [done|].
  cbn [task_next tk_plan]. intros key e. destruct o as [[k e']|]; [|by left]. cbn [add_option add_entry by_content].
  intros [[-> ->]|[_ ?]]%lookup_insert_Some; [|by left]. right. split; [by eapply entry_ok_wf, P|]. by destruct (P _ _ eq_refl) as (? & _ & _ & _ & _ & _ & ? & _).
Qed.

(** The task run without interruption is [stage_plan]. *)
Lemma task_run_segments n : forall st t,
  length (tk_rest t) = n ->
  task_run n st t =
  ('(st, plan) ← stage_segments (tk_body t) (tk_auth t) (tk_session t) (tk_working t) (tk_policy t) (tk_now t)
                   (tk_ledger t) (tk_recodes t) st (tk_plan t) (tk_rest t);
   Some (st, task_next t plan [])).
Proof.
  induction n as [|n IH]; intros st t L; cbn [task_run].
  - destruct t as [? ? ? ? ? ? ? ? ? [|]]; done.
  - unfold task_segment. destruct (tk_rest t) as [|seg rest] eqn:R; [done|]. cbn [stage_segments].
    destruct (stage_segment _ _ _ _ _ _ _ _ st _ seg) as [[st1 plan1]|]; [|done]. cbn [mbind option_bind].
    injection L as L. by rewrite IH.
Qed.

Lemma stage_plan_task working auth policy bytes session st now :
  stage_plan working auth policy bytes session st now =
  (o ← task_start (working, auth, policy) bytes session now;
   match o with
   | None => Some (st, None)
   | Some t => '(st, t) ← task_run (length (tk_rest t)) st t; Some (st, Some (task_result t))
   end).
Proof.
  unfold stage_plan, task_start. destruct (parse_body bytes) as [body|]; [|done].
  destruct (off_path_eligibility _ _ _ _ _) as [ledger|]; [|done]. cbn [mbind option_bind]. destruct (allb _ _); [done|].
  destruct (deterministic_recodes _ _ _ _) as [rl|]; [|done]. cbn [mbind option_bind].
  rewrite task_run_segments by done. cbn.
  destruct (stage_segments _ _ _ _ _ _ _ _ _ _ _) as [[st' plan]|]; done.
Qed.

(** C17. The off-path task is total and what it commits is sound, whatever the
    summarizer answers and whichever writes the database refuses.  It never
    panics and never alters a row already stored.  Every staged entry was made
    for a segment of the request that is a huge human paste, or no human turn
    and without a live constraint; it is filed under the content address of
    that segment's payload, and that address has a row in the store whose bytes
    hash to it.  A staged recode was made for a segment the segmenter left
    unpinned and no human wrote; it is at least the required fraction smaller
    than the payload, shorter than the leaf, and either derived from the leaf by
    the inline passes alone or carries the marker of its own key; a staged model decision is never [Keep] and was never asked for below
    the pre-gate.  With the upstream down only recodes are staged and the
    working state is unchanged. *)
Theorem stage_plan_sound working auth policy bytes session st now :
  sha256_law -> store_ok st ->
  exists st' out, stage_plan working auth policy bytes session st now = Some (st', out) /\ store_ok st' /\
    (forall id, is_Some (st !! id) -> st' !! id = st !! id) /\
    match out with
    | None => st' = st
    | Some (plan, working') =>
        (upstream_down auth -> working' = working) /\
        exists body, parse_body bytes = Some body /\
          forall key e, by_content plan !! key = Some e ->
            entry_ok body (segment_prompt body) working policy auth st' key e
    end.
Proof.
  intros Law S. destruct (stage_plan_run working auth policy bytes session st now Law S) as (st' & out & E & S' & M & R).
  exists st', out. repeat (split; [done|]). destruct out as [[plan working']|]; [|done].
  destruct R as (body & B & -> & P). split; [apply fold_state_down|]. by exists body.
Qed.
End Sound.

(** ** A concrete task: a noisy tool result, the summarizer unreachable *)

Definition down : Upstream := {|
  post _ _ _ := None; call_timed_out _ _ := false; response_texts _ := None;
  json_decision _ := None; json_working _ := None; working_pretty _ := None;
|}.
Definition reliable : Database := {| put_fails _ _ := false |}.
Definition no_auth : SessionAuthContext := mkSessionAuthContext [] [].
Definition stage_request : list byte :=
  as_bytes (print_fields
    [(str "max_tokens", str "4096");
     (MESSAGES, print_array
        [wire_message (str "user") (quoted (str "build"));
         wire_message (str "assistant") (print_array [block_raw (tool_use_block (str "tu_1") (str "Bash"))]);
         wire_message (str "user") (print_array [block_raw (tool_result_block (str "tu_1") noisy_log)]);
         wire_message (str "assistant") (print_array [block_raw (text_block (str "done"))])]);
     (str "model", quoted (str "claude-opus-4-8"))]).

Section Task.
#[local] Existing Instances scan_serde scan_values length_digest flat_libm no_format no_diff down reliable.

Definition staged_run : option (RefStore * option (StagedPlan * WorkingState)) :=
  stage_plan WorkingState_default no_auth PolicyConfig_default stage_request (SessionId_new (str "t")) ∅ f64_zero.

Lemma stage_plan_sound_witness :
  exists st' plan, staged_run = Some (st', Some (plan, WorkingState_default)) /\ store_ok st' /\
    exists key e r row, by_content plan !! key = Some e /\ se_recode e = Some r /\
      st' !! RefId_as_str key = Some row /\ content_address (row_original row) = Some key.
Proof.
  destruct (stage_plan_sound WorkingState_default no_auth PolicyConfig_default stage_request (SessionId_new (str "t"))
              ∅ f64_zero length_digest_law (map_Forall_empty _)) as (st' & out & E & S & _ & P).
  fold staged_run in E.
  assert (K : match staged_run with
              | Some (_, Some (plan, _)) => match map_to_list (by_content plan) with [(k, _)] => true | _ => false end
              | _ => false end = true) by (vm_compute; reflexivity).
  rewrite E in K. destruct out as [[plan w]|]; [|discriminate K]. destruct P as (D & body & _ & P).
  exists st', plan. rewrite (D (fun _ _ => eq_refl)) in E. split; [exact E|]. split; [exact S|].
  destruct (map_to_list (by_content plan)) as [|[key e] ?] eqn:L; [discriminate K|].
  assert (I : by_content plan !! key = Some e) by (apply elem_of_map_to_list; rewrite L; apply list_elem_of_here).
  destruct (P key e I) as (seg & _ & _ & _ & _ & _ & (row & R & A) & M). destruct (se_recode e) as [r|] eqn:Er.
  - exists key, e, r, row. repeat split; assumption.
  - destruct M as [M _]. destruct (M (fun _ _ => eq_refl)).
Defined.
End Task.
