(* ===== verification/App.v ===== *)
(** * Application state, demux and the upstream hop

    Models [crates/ccs-proxy/src]: the shared handler state ([app.rs]), the
    per-session surface ([demux.rs]), header hygiene ([headers.rs]) and the
    verbatim hop ([forward.rs]).  An [Arc<Mutex<SessionEcon>>] is a location of
    the heap [econs], so every clone of the [Arc] names the same cell.  The
    HTTP client, the URI parser and the URL library are parameters; a [Url] is
    its text. *)
From S2P Require Import Prelude RStr F64 Core Economics Config Wire Segment Policy Rewrite Marker Store Session UsageTap.

Local Open Scope Z_scope.

Abbreviation loc := nat (only parsing).
Abbreviation SessionToken := rstr (only parsing).
Abbreviation HeaderMap := (list (rstr * rstr)) (only parsing).

Record SessionCtx := mkSessionCtx {
  ctx_config : RelayConfig;
  ctx_session_id : SessionId;
  ctx_econ_cell : option loc;
}.

Record AppState `{Breaker} := mkAppState {
  app_upstream : rstr;
  sessions : gmap SessionToken SessionCtx;
  econs : gmap loc SessionEcon;
  kill : bool;
  shadow : bool;
  app_store : RefStore;
}.

(** ** Requests *)

(** A request's path and query are one text, as [path_and_query] gives it. *)
Record Request := mkRequest {
  req_method : rstr;
  req_target : rstr;
  req_headers : HeaderMap;
  req_body : option (list byte);
}.

Definition MESSAGES_PATH : rstr := str "/v1/messages".
Definition SLASH : Z := 47.
Definition QUESTION : Z := 63.

Inductive Inspect := Inspect_Yes (token : option SessionToken) | Inspect_No.

Section State.
Context `{Breaker}.

Definition set_sessions (st : AppState) (m : gmap SessionToken SessionCtx) : AppState :=
  mkAppState _ (app_upstream st) m (econs st) (kill st) (shadow st) (app_store st).
Definition set_econs (st : AppState) (m : gmap loc SessionEcon) : AppState :=
  mkAppState _ (app_upstream st) (sessions st) m (kill st) (shadow st) (app_store st).
Definition set_kill (st : AppState) (on : bool) : AppState :=
  mkAppState _ (app_upstream st) (sessions st) (econs st) on (shadow st) (app_store st).
Definition set_shadow (st : AppState) (on : bool) : AppState :=
  mkAppState _ (app_upstream st) (sessions st) (econs st) (kill st) on (app_store st).
Definition set_store (st : AppState) (s : RefStore) : AppState :=
  mkAppState _ (app_upstream st) (sessions st) (econs st) (kill st) (shadow st) s.

(** One critical section on a session's mutex. *)
Definition with_econ (st : AppState) (l : loc) (f : SessionEcon -> SessionEcon) : AppState :=
  set_econs st (alter f l (econs st)).

(** [state.sessions.get(token).and_then(|ctx| ctx.econ.clone())] *)
Definition econ_cell (st : AppState) (token : SessionToken) : option loc :=
  ctx ← sessions st !! token; ctx_econ_cell ctx.

(** ** [demux.rs] *)

Definition inspect_for (st : AppState) (method inner_path token : rstr) : Inspect :=
  if bool_decide (method = str "POST") && bool_decide (inner_path = MESSAGES_PATH)
     && bool_decide (is_Some (sessions st !! token))
  then Inspect_Yes (Some token) else Inspect_No.

Definition inner_path_and_query (path_and_query prefix : rstr) : option rstr :=
  rest ← strip_prefix prefix path_and_query;
  Some (match rest with
        | [] => [SLASH]
        | c :: _ => if c =? QUESTION then SLASH :: rest else rest
        end).

(** [rest.split_once('/')]: the token and the inner path. *)
Definition demux_split (rest : rstr) : rstr * rstr :=
  match split_once SLASH rest with
  | Some (token, inner) => (token, SLASH :: inner)
  | None => (rest, [SLASH])
  end.
End State.

(** [parse::<Uri>]: the target text a parsed URI stands for. *)
Class UriParser := { uri_parse : rstr -> option rstr }.

Section Demux.
Context `{Breaker, UriParser}.

Definition strip_session_prefix (req : Request) (token : rstr) : Request :=
  match inner_path_and_query (req_target req) (str "/s/" ++ token) ≫= uri_parse with
  | Some uri => mkRequest (req_method req) uri (req_headers req) (req_body req)
  | None => req
  end.

(** What [session] hands to [serve]; [rest] is the decoded wildcard. *)
Definition session_route (st : AppState) (method rest : rstr) (req : Request) : Request * Inspect :=
  let '(token, inner) := demux_split rest in
  (strip_session_prefix req token, inspect_for st method inner token).
End Demux.

Section Route.
Context `{Breaker, UriParser}.

(** A session's messages endpoint: the inner target goes upstream, and only a
    registered token is inspected; any other token is a passthrough. *)
Lemma session_route_messages st token query req :
  SLASH ∉ token -> req_target req = str "/s/" ++ token ++ MESSAGES_PATH ++ query ->
  (forall t, uri_parse t = Some t) ->
  session_route st (str "POST") (token ++ MESSAGES_PATH) req =
  (mkRequest (req_method req) (MESSAGES_PATH ++ query) (req_headers req) (req_body req),
   if bool_decide (is_Some (sessions st !! token)) then Inspect_Yes (Some token) else Inspect_No).
Proof.
  intros N T U. unfold session_route, demux_split.
  assert (S : split_once SLASH (token ++ MESSAGES_PATH) = Some (token, drop 1 MESSAGES_PATH)).
  { clear T. induction token as [|c token IH]; [reflexivity|]. apply not_elem_of_cons in N as [Nc N].
    cbn [app split_once]. rewrite (proj2 (Z.eqb_neq c SLASH)) by done. by rewrite (IH N). }
  rewrite S. change (SLASH :: drop 1 MESSAGES_PATH) with MESSAGES_PATH.
  apply (f_equal2 pair); [|unfold inspect_for; by rewrite !bool_decide_true by done].
  unfold strip_session_prefix, inner_path_and_query. rewrite T.
  assert (P : strip_prefix (str "/s/" ++ token) (str "/s/" ++ token ++ MESSAGES_PATH ++ query) = Some (MESSAGES_PATH ++ query)).
  { apply strip_prefix_Some. by rewrite <- app_assoc. }
  rewrite P. cbn [mbind option_bind]. change (MESSAGES_PATH ++ query) with (SLASH :: drop 1 MESSAGES_PATH ++ query).
  cbn [mbind option_bind]. rewrite (proj2 (Z.eqb_neq SLASH QUESTION)) by done. by rewrite U.
Qed.
End Route.

(** ** [headers.rs] *)

Definition STRIP : list rstr :=
  [str "connection"; str "proxy-connection"; str "keep-alive"; str "transfer-encoding"; str "te"; str "trailer";
   str "upgrade"; str "host"; str "content-length"].

Definition sanitize (headers : HeaderMap) : HeaderMap :=
  filterb (fun h => negb (contains h.1 STRIP)) headers.

(** ** [forward.rs] *)

(** The path and the query of a target. *)
Definition uri_path (target : rstr) : rstr :=
  let path := match split_once QUESTION target with Some (path, _) => path | None => target end in
  if is_empty path then [SLASH] else path.
Definition uri_query (target : rstr) : option rstr := snd <$> split_once QUESTION target.

(** [Url::set_path] and [Url::set_query].  They resolve dot segments and
    percent-encode, so what they make of a target is in general not the target. *)
Class UrlLib := { url_set_path : rstr -> rstr -> rstr; url_set_query : rstr -> option rstr -> rstr }.

(** What the HTTP client is asked to send, and what it answers. *)
Record Outbound := mkOutbound {
  out_method : rstr;
  out_url : rstr;
  out_headers : HeaderMap;
  out_body : list byte;
}.
Record Inbound := mkInbound { in_status : Z; in_headers : HeaderMap; in_chunks : list (list byte) }.
Class HttpClient := { send : Outbound -> option Inbound }.

Record Reply := mkReply { reply_status : Z; reply_headers : HeaderMap; reply_chunks : list (list byte) }.
Definition bad_gateway : Reply := mkReply 502 [] [].

Section Forward.
Context `{Breaker, UrlLib, HttpClient, SerdeUsage}.

Definition outbound (st : AppState) (req : Request) (body : list byte) : Outbound :=
  let url := url_set_path (app_upstream st) (uri_path (req_target req)) in
  let url := url_set_query url (uri_query (req_target req)) in
  mkOutbound (req_method req) url (sanitize (req_headers req)) body.

(** The relayed response and what the tap observed of it. *)
Definition relay_response (upstream : Inbound) (tapped : bool) : Reply * option Observed :=
  let '(chunks, seen) :=
    if tapped then let '(chunks, scanner) := tap (in_chunks upstream) in (chunks, head (sent scanner))
    else (in_chunks upstream, None) in
  (mkReply (in_status upstream) (sanitize (in_headers upstream)) chunks, seen).

Definition forward (st : AppState) (req : Request) (body : list byte) (tapped : bool) : Reply * option Observed :=
  match send (outbound st req body) with
  | Some upstream => relay_response upstream tapped
  | None => (bad_gateway, None)
  end.
End Forward.

(** *** Targets the URL library leaves as they are *)

Definition UPSTREAM_HOST : rstr := str "api.anthropic.com".
Definition UPSTREAM : rstr := str "https://" ++ UPSTREAM_HOST.

(** Letters, digits and the marks that no percent-encode set holds. *)
Definition plain_char (c : char) : bool := is_ascii_alphanumeric c || contains c (str "-._~!$&()*+,;=:@/").

Definition plain_path (path : rstr) : bool :=
  starts_with [SLASH] path && allb plain_char path
  && allb (fun seg => negb (contains seg [str "."; str ".."])) (split_on SLASH path).

Definition plain_target (target : rstr) : bool :=
  plain_path (uri_path target)
  && match uri_query target with Some query => allb plain_char query | None => true end
  && negb (is_empty target) && negb (starts_with [QUESTION] target).

(** On the upstream the proxy runs with, a path without dot segments and
    characters to encode is set as it stands, and so is a query. *)
Definition url_law `{UrlLib} : Prop :=
  forall path query, plain_path path = true -> (forall q, query = Some q -> allb plain_char q = true) ->
    url_set_query (url_set_path UPSTREAM path) query =
    UPSTREAM ++ path ++ match query with Some q => QUESTION :: q | None => [] end.

Lemma plain_target_verbatim `{Breaker, UrlLib} st req body :
  url_law -> app_upstream st = UPSTREAM -> plain_target (req_target req) = true ->
  out_url (outbound st req body) = UPSTREAM ++ req_target req.
Proof.
  intros L U P. unfold plain_target in P. apply andb_true_iff in P as [P Nq]. apply andb_true_iff in P as [P Ne].
  apply andb_true_iff in P as [P Q]. cbn [outbound out_url]. rewrite U, L; [|exact P|].
  2:{ intros q E. by rewrite E in Q. }
  f_equal. unfold uri_path, uri_query. destruct (split_once QUESTION (req_target req)) as [[path query]|] eqn:E; cbn [fmap option_fmap option_map snd].
  - apply split_once_Some in E as [E _]. destruct path as [|c path]; [|by rewrite E]. exfalso.
    rewrite E in Nq. unfold starts_with in Nq. cbn in Nq. done.
  - destruct (req_target req); [done|]. by rewrite app_nil_r.
Qed.
