(* ===== verification/Relay.v ===== *)
(** * The relay

    Models [crates/ccs-proxy/src/relay.rs]: the handler that inspects,
    synthesises or forwards a request, with the session state it folds.  Every
    lock region is one function of the session; [serve] composes them in the
    handler's order, and [now] is the one clock reading of a turn.  No lock
    region can panic, so a mutex is never poisoned. *)
From S2P Require Import Prelude RStr F64 Core Economics Config Wire Segment Policy Scorer Pipeline Ladder Targets Recode Rewrite Marker Store Session Intercept UsageTap Synth Summarizer Staging App.

Local Open Scope Z_scope.

Definition MAX_BODY : Z := 16 * 1024 * 1024.
Definition AUTH_HEADERS : list rstr :=
  [str "authorization"; str "x-api-key"; str "anthropic-version"; str "anthropic-beta"].

(** ** One critical section each *)

Section Cells.
Context `{Breaker}.

Definition close_window (s : SessionEcon) : SessionEcon := set_window s (s_last_message_count s) true.

Definition stash_predicted_bust (s : SessionEcon) (predicted : Cost) : SessionEcon := set_predicted s (Some predicted).

Definition commit_fast_lane (s : SessionEcon) (committed uncommitted : list RefId) : SessionEcon :=
  if is_empty committed && is_empty uncommitted then s
  else set_fast_lane s ((s_fast_lane s ∪ list_to_set committed) ∖ list_to_set uncommitted).

(** The staged plan is taken with the snapshot, and only with it. *)
Definition intercept_inputs (s : SessionEcon) (now : f64) : SessionEcon * option InterceptInputs :=
  match s_intercept_enabled s, s_econ s with
  | true, Some model_econ =>
      (set_staged s None,
       Some (mkInterceptInputs model_econ (s_cache s) (s_npv_floor s) (s_policy s) (s_remaining_turns s)
               (s_hot_refs s) (s_fast_lane s) (s_last_message_count s) (s_window_closed s) (s_staged s)
               (s_token_scale s) now))
  | _, _ => (s, None)
  end.

Definition stash_egress_snapshot `{SerdeJson} (s : SessionEcon) (body : list byte) : SessionEcon :=
  match parse_body body with
  | Some w =>
      set_window (set_estimate s (s_token_scale s) (Some (u32_sum (token_estimate <$> segment_prompt w))))
        (Nat.max (s_last_message_count s) (length (messages w))) false
  | None => set_estimate s (s_token_scale s) (Some 0)
  end.

(** [compare_exchange(false, true)] *)
Definition claim_staging (s : SessionEcon) : SessionEcon * bool :=
  if s_staging s then (s, false) else (set_staging s true, true).
End Cells.

(** ** The session's cell *)

Section Setup.
Context `{Breaker, SerdeJson}.

Definition body_model_of (body : list byte) : option ModelId := body_model <$> parse_body body.

Definition capture_auth (st : AppState) (headers : HeaderMap) : SessionAuthContext :=
  mkSessionAuthContext (filterb (fun h => contains h.1 AUTH_HEADERS) headers) (app_upstream st).

Definition fresh_econ (st : AppState) (ctx : SessionCtx) (headers : HeaderMap) (body : list byte) (now : f64) : SessionEcon :=
  SessionEcon_new
    (mkCacheState 0 now (knob_ttl_auto_s (relay_economics (ctx_config ctx)))
       (default (ModelId_new (str "unknown")) (body_model_of body)) [])
    (capture_auth st headers) (knob_npv_floor (relay_economics (ctx_config ctx)))
    (PolicyConfig_from (relay_policy (ctx_config ctx))).

(** [Arc::new]: a cell no clone names yet. *)
Definition new_cell (st : AppState) : loc := fresh (dom (econs st)).

Definition init_econ (st : AppState) (token : rstr) (ctx : SessionCtx) (headers : HeaderMap) (body : list byte)
    (now : f64) : AppState * loc :=
  let l := new_cell st in
  let st := set_econs st (<[l := fresh_econ st ctx headers body now]> (econs st)) in
  (set_sessions st (<[token := mkSessionCtx (ctx_config ctx) (ctx_session_id ctx) (Some l)]> (sessions st)), l).

Definition lazy_econ (st : AppState) (token : rstr) (headers : HeaderMap) (body : list byte) (now : f64)
    : option (AppState * loc * SessionId) :=
  ctx ← sessions st !! token;
  Some (match ctx_econ_cell ctx with
        | Some l => (st, l, ctx_session_id ctx)
        | None => let '(st, l) := init_econ st token ctx headers body now in (st, l, ctx_session_id ctx)
        end).

(** The cell, and the staging inputs when this turn won the guard. *)
Definition forward_setup (st : AppState) (token : rstr) (headers : HeaderMap) (body : list byte) (now : f64)
    : option (AppState * loc * option SessionId) :=
  '(st, l, session_id) ← lazy_econ st token headers body now;
  s ← econs st !! l;
  let '(s, won) := claim_staging s in
  Some (set_econs st (<[l := s]> (econs st)), l, if won then Some session_id else None).

Definition working_snapshot (st : AppState) (token : option rstr) : WorkingState :=
  default WorkingState_default
    (t ← token; l ← econ_cell st t; s ← econs st !! l; Some (s_working s)).
End Setup.

(** ** [serve] *)

Inductive Served :=
| Served_BadGateway
| Served_Synth (body : list byte)
| Served_Upstream (sent : list byte) (cell : option loc) (staging : option SessionId).

Section Serve.
Context `{Breaker, SerdeJson, SerdeValue, SerdeSlice, Sha256, Libm, FormatCore}.

Definition close_session (st : AppState) (token : option rstr) : AppState :=
  match token ≫= econ_cell st with Some l => with_econ st l close_window | None => st end.

(** The kill switch, read before anything else. *)
Definition kill_gate (st : AppState) (inspect : Inspect) : AppState * Inspect :=
  if kill st then
    (match inspect with Inspect_Yes (Some t) => close_session st (Some t) | _ => st end, Inspect_No)
  else (st, inspect).

Definition to_bytes (body : option (list byte)) : option (list byte) :=
  b ← body; if MAX_BODY <? Z.of_nat (length b) then None else Some b.

(** What the interceptor's outcome changes in the session. *)
Definition fold_intercepted (s : SessionEcon) (out : Intercepted) : SessionEcon :=
  let s := match out_predicted_bust out with Some p => stash_predicted_bust s p | None => s end in
  commit_fast_lane s (fast_lane_committed out) (fast_lane_uncommitted out).

(** One inspected turn of a session: the egress and the session after it. *)
Definition intercepted_turn (s : SessionEcon) (bytes : list byte) (now : f64) (outcome : TaskOutcome)
    : SessionEcon * list byte :=
  match intercept_inputs s now with
  | (s, Some inputs) =>
      let out := run outcome bytes inputs in
      (stash_egress_snapshot (fold_intercepted s out) (out_bytes out), out_bytes out)
  | (s, None) => (stash_egress_snapshot s bytes, bytes)
  end.

Definition serve_forward (st : AppState) (token : option rstr) (req : Request) (bytes : list byte) (now : f64)
    (outcome : TaskOutcome) : AppState * Served :=
  match (t ← token; forward_setup st t (req_headers req) bytes now) with
  | None => (st, Served_Upstream bytes None None)
  | Some (st, l, staging) =>
      match econs st !! l with
      | Some s =>
          let '(s, egress) := intercepted_turn s bytes now outcome in
          (set_econs st (<[l := s]> (econs st)), Served_Upstream egress (Some l) staging)
      | None => (st, Served_Upstream bytes (Some l) staging)
      end
  end.

Definition serve (st : AppState) (req : Request) (inspect : Inspect) (now : f64) (outcome : TaskOutcome)
    : AppState * Served :=
  let '(st, inspect) := kill_gate st inspect in
  match to_bytes (req_body req) with
  | None => (st, Served_BadGateway)
  | Some bytes =>
      match inspect with
      | Inspect_No => (st, Served_Upstream bytes None None)
      | Inspect_Yes token =>
          match synth_decide bytes with
          | Synthesize inputs =>
              if shadow st then (close_session st token, Served_Upstream bytes None None)
              else
                (st, Served_Synth (synth_response
                       (mkBriefInputs (brief_model inputs) (working_snapshot st token) (brief_recap inputs))))
          | Forward => serve_forward st token req bytes now outcome
          end
      end
  end.

(** *** The handler cut at the interceptor's [await]: what it does before the
    rewrite runs, and after. *)
Inductive Begun :=
| Begun_Served (served : Served)
| Begun_Flight (cell : loc) (staging : option SessionId) (bytes : list byte) (inputs : option InterceptInputs).

Definition forward_begin (st : AppState) (token : option rstr) (req : Request) (bytes : list byte) (now : f64)
    : AppState * Begun :=
  match (t ← token; forward_setup st t (req_headers req) bytes now) with
  | None => (st, Begun_Served (Served_Upstream bytes None None))
  | Some (st, l, staging) =>
      match econs st !! l with
      | Some s =>
          let '(s, inputs) := intercept_inputs s now in
          (set_econs st (<[l := s]> (econs st)), Begun_Flight l staging bytes inputs)
      | None => (st, Begun_Served (Served_Upstream bytes (Some l) staging))
      end
  end.

Definition serve_begin (st : AppState) (req : Request) (inspect : Inspect) (now : f64) : AppState * Begun :=
  let '(st, inspect) := kill_gate st inspect in
  match to_bytes (req_body req) with
  | None => (st, Begun_Served Served_BadGateway)
  | Some bytes =>
      match inspect with
      | Inspect_No => (st, Begun_Served (Served_Upstream bytes None None))
      | Inspect_Yes token =>
          match synth_decide bytes with
          | Synthesize inputs =>
              if shadow st then (close_session st token, Begun_Served (Served_Upstream bytes None None))
              else
                (st, Begun_Served (Served_Synth (synth_response
                       (mkBriefInputs (brief_model inputs) (working_snapshot st token) (brief_recap inputs)))))
          | Forward => forward_begin st token req bytes now
          end
      end
  end.

(** The egress and what the session folds of it. *)
Definition egress_of (outcome : TaskOutcome) (bytes : list byte) (inputs : option InterceptInputs) : list byte :=
  match inputs with Some inputs => out_bytes (run outcome bytes inputs) | None => bytes end.

Definition fold_flight (outcome : TaskOutcome) (bytes : list byte) (inputs : option InterceptInputs) (s : SessionEcon)
    : SessionEcon :=
  stash_egress_snapshot
    (match inputs with Some inputs => fold_intercepted s (run outcome bytes inputs) | None => s end)
    (egress_of outcome bytes inputs).

(** The two halves make the handler. *)
Lemma serve_halves st req inspect now outcome :
  serve st req inspect now outcome =
  match serve_begin st req inspect now with
  | (st, Begun_Served served) => (st, served)
  | (st, Begun_Flight l staging bytes inputs) =>
      (with_econ st l (fold_flight outcome bytes inputs), Served_Upstream (egress_of outcome bytes inputs) (Some l) staging)
  end.
Proof.
  unfold serve, serve_begin. destruct (kill_gate st inspect) as [st1 [token|]]; [|by destruct (to_bytes _)].
  destruct (to_bytes (req_body req)) as [bytes|]; [|done].
  destruct (synth_decide bytes) as [inputs|]; [by destruct (shadow st1)|]. unfold serve_forward, forward_begin.
  destruct (token ≫= _) as [[[st2 l] staging]|]; [|done]. destruct (econs st2 !! l) as [s|]; [|done].
  unfold intercepted_turn, with_econ. destruct (intercept_inputs s now) as [s' [inputs|]]; cbn [egress_of set_econs econs].
  - unfold fold_flight. f_equal. f_equal. apply map_eq. intros l'. destruct (decide (l' = l)) as [->|N].
    + by rewrite lookup_alter_eq, !lookup_insert_eq.
    + by rewrite lookup_alter_ne, !lookup_insert_ne by done.
  - f_equal. unfold fold_flight. f_equal. apply map_eq. intros l'. destruct (decide (l' = l)) as [->|N].
    + by rewrite lookup_alter_eq, !lookup_insert_eq.
    + by rewrite lookup_alter_ne, !lookup_insert_ne by done.
Qed.

(** [drain] *)
Definition drain (s : SessionEcon) (observed : Observed) (now clock : f64) : SessionEcon :=
  observe s (obs_usage observed) now clock.
End Serve.

(** ** Answering *)

Section Answer.
Context `{Breaker, SerdeJson, SerdeValue, SerdeSlice, Sha256, Libm, FormatCore, UrlLib, HttpClient, SerdeUsage}.

Definition synth_headers : HeaderMap :=
  [(str "content-type", str "text/event-stream"); (str "cache-control", str "no-cache")].

(** What the client receives, and what the tap observed. *)
Definition respond (st : AppState) (req : Request) (served : Served) : Reply * option Observed :=
  match served with
  | Served_BadGateway => (bad_gateway, None)
  | Served_Synth body => (mkReply 200 synth_headers [body], None)
  | Served_Upstream body cell _ => forward st req body (match cell with Some _ => true | None => false end)
  end.

Lemma kill_gate_spec st inspect st' inspect' :
  kill_gate st inspect = (st', inspect') -> kill st = true \/ inspect = Inspect_No ->
  inspect' = Inspect_No /\ app_upstream st' = app_upstream st /\ sessions st' = sessions st /\ app_store st' = app_store st /\
  forall l s', econs st' !! l = Some s' -> exists s, econs st !! l = Some s /\ (s' = s \/ s' = close_window s).
Proof.
  unfold kill_gate. intros E C. destruct (kill st); [|destruct C as [? | ->]; [done|]; injection E as <- <-; eauto 10].
  clear C. injection E as <- <-. destruct inspect as [[t|]|]; [|eauto 10|eauto 10].
  unfold close_session. destruct (Some t ≫= econ_cell st) as [l|]; [|eauto 10]. repeat (split; [done|]).
  intros l' s' L. cbn in L. destruct (decide (l' = l)) as [->|N]; [|rewrite lookup_alter_ne in L by done; eauto].
  rewrite lookup_alter_eq in L. destruct (econs st !! l) as [s|]; [|done]. injection L as <-. eauto.
Qed.

(** The reply a forwarded request gets, tapped or not. *)
Lemma forward_reply st req body tapped :
  (forward st req body tapped).1 =
  match send (outbound st req body) with
  | Some up => mkReply (in_status up) (sanitize (in_headers up)) (in_chunks up)
  | None => bad_gateway
  end.
Proof. unfold forward. destruct (send _) as [up|]; [|done]. by destruct tapped. Qed.

End Answer.

(** ** A killed proxy in front of an echoing upstream *)

Definition open_breaker : Breaker :=
  {| breaker := unit; breaker_new := tt; breaker_call := fun _ _ _ => tt; is_call_permitted := fun _ _ => true |}.
Definition no_slice : SerdeSlice := {| value_of_slice := fun _ => None |}.
Definition echo : HttpClient :=
  {| send := fun o => Some (mkInbound 200 [(str "connection", str "close"); (str "x-id", str "7")] [out_body o]) |}.
Definition plain_urls : UrlLib :=
  {| url_set_path := app; url_set_query := fun url query => url ++ match query with Some q => QUESTION :: q | None => [] end |}.
Definition no_usage : SerdeUsage := {| message_start := fun _ => None |}.

Section Killed.
#[local] Existing Instances open_breaker no_slice scan_serde scan_values length_digest flat_libm no_format plain_urls echo no_usage.

Definition killed : AppState :=
  mkAppState _ UPSTREAM
    {[ str "t" := mkSessionCtx RelayConfig_default (SessionId_new (str "t")) None ]} ∅ true false ∅.
Definition killed_request : Request :=
  mkRequest (str "POST") MESSAGES_PATH [(str "host", str "127.0.0.1"); (str "x-api-key", str "k")] (Some (str "{}")).

End Killed.
