(* ===== verification/Seam.v ===== *)
(** * The control channel and the retrieval tool

    Models [crates/ccs-proxy/src/seam.rs] (the control frames the Go plane
    streams and the garbage collection they trigger), [mcp.rs] (the
    [cc_squash_retrieve] tool) and the staging task as one step on the shared
    state.  Reading a frame's JSON is a parameter. *)
From S2P Require Import Prelude RStr F64 Core Economics Config Wire Segment Policy Scorer Pipeline Ladder Targets Recode Rewrite Marker Bm25 Store Session Intercept UsageTap Synth Summarizer Staging App Relay.

Local Open Scope Z_scope.

Definition PROTOCOL_VERSION : Z := 1.
Definition GRACE_SECONDS : f64 := f64_of_Z 600.
Definition MAX_REFS_BYTES : Z := 256 * 1024 * 1024.

Inductive Control :=
| Control_Mint (protocol : Z) (token : rstr) (config : RelayConfig)
| Control_Evict (protocol : Z) (token : rstr)
| Control_Shadow (protocol : Z) (on : bool)
| Control_Kill (protocol : Z) (on : bool)
| Control_Gc (protocol : Z)
| Control_Shutdown (protocol : Z).

Definition Control_protocol (c : Control) : Z :=
  match c with
  | Control_Mint p _ _ | Control_Evict p _ | Control_Shadow p _ | Control_Kill p _ | Control_Gc p
  | Control_Shutdown p => p
  end.

Class SerdeControl := { json_control : rstr -> option Control }.

Inductive ControlOutcome := Outcome_Continue | Outcome_Shutdown | Outcome_ProtocolError.
#[export] Instance ControlOutcome_eq_dec : EqDecision ControlOutcome.
Proof. solve_decision. Defined.

Section Seam.
Context `{Breaker}.

Definition staged_keys (s : SessionEcon) : list RefId :=
  match s_staged s with Some plan => fst <$> map_to_list (by_content plan) | None => [] end.

Definition reachable_refs (st : AppState) : list RefId :=
  concat (staged_keys <$>
    omap (fun p => ctx_econ_cell p.2 ≫= fun l => econs st !! l) (map_to_list (sessions st))).

(** [run_gc] takes the reachable set at once and spawns the sweep, which runs
    later on whatever the store then holds. *)
Definition run_gc (st : AppState) : list RefId := reachable_refs st.
Definition sweep (st : AppState) (reachable : list RefId) (now : f64) : AppState :=
  set_store st (gc (app_store st) reachable GRACE_SECONDS MAX_REFS_BYTES now).1.

Definition mint (st : AppState) (token : rstr) (config : RelayConfig) : AppState :=
  set_sessions st (<[token := mkSessionCtx config (SessionId_new token) None]> (sessions st)).

(** The state, the sweep a [gc] frame spawns, and what becomes of the loop. *)
Definition apply_control (control : Control) (st : AppState) : AppState * option (list RefId) * ControlOutcome :=
  match control with
  | Control_Mint _ token config =>
      if is_empty token then (st, None, Outcome_ProtocolError) else (mint st token config, None, Outcome_Continue)
  | Control_Evict _ token =>
      if is_empty token then (st, None, Outcome_ProtocolError)
      else (set_sessions st (delete token (sessions st)), None, Outcome_Continue)
  | Control_Shadow _ on => (set_shadow st on, None, Outcome_Continue)
  | Control_Kill _ on => (set_kill st on, None, Outcome_Continue)
  | Control_Gc _ => (st, Some (run_gc st), Outcome_Continue)
  | Control_Shutdown _ => (st, None, Outcome_Shutdown)
  end.

(** [apply]: one line. *)
Definition seam_apply `{SerdeControl} (line : rstr) (st : AppState) : AppState * option (list RefId) * ControlOutcome :=
  match json_control line with
  | Some control =>
      if Control_protocol control =? PROTOCOL_VERSION then apply_control control st
      else (st, None, Outcome_ProtocolError)
  | None => (st, None, Outcome_ProtocolError)
  end.

(** [run_seam]'s loop: a shutdown or a protocol error ends it, and so does the
    end of the stream.  With the state: the sweeps spawned, in order, and
    whether a shutdown was notified. *)
Fixpoint seam_loop `{SerdeControl} (ls : list rstr) (st : AppState) : AppState * list (list RefId) * bool :=
  match ls with
  | [] => (st, [], false)
  | line :: ls =>
      let '(st, spawned, outcome) := seam_apply line st in
      let spawned := option_list spawned in
      match outcome with
      | Outcome_Continue => let '(st, later, stop) := seam_loop ls st in (st, spawned ++ later, stop)
      | Outcome_Shutdown => (st, spawned, true)
      | Outcome_ProtocolError => (st, spawned, false)
      end
  end.

(** A line that is not a frame of this protocol ends the loop: what follows it
    is not read. *)
Lemma seam_malformed_stops `{SerdeControl} line ls st :
  json_control line = None -> seam_loop (line :: ls) st = (st, [], false).
Proof. intros N. cbn [seam_loop]. unfold seam_apply. by rewrite N. Qed.
End Seam.

(** ** [mcp.rs] *)

Definition HOT_THRESHOLD : Z := 2.

Section Mcp.
Context `{Breaker, Libm, Unicode}.

Definition resolve_scope (st : AppState) (token : rstr) : option (SessionId * option loc) :=
  ctx ← sessions st !! token; Some (ctx_session_id ctx, ctx_econ_cell ctx).

Definition set_hot (s : SessionEcon) (v : gset RefId) : SessionEcon :=
  mkSessionEcon (s_cache s) (s_turn s) (s_auth s) (s_working s) (s_staged s) (s_staging s) (s_intercept_enabled s)
    (s_econ s) (s_npv_floor s) (s_policy s) (s_remaining_turns s) v (s_fast_lane s) (s_last_message_count s)
    (s_window_closed s) (s_last_predicted_bust s) (s_token_scale s) (s_last_estimated_prefix s) (s_breaker s).

Definition mark_hot (st : AppState) (cell : option loc) (ref_id : RefId) : AppState :=
  match cell with
  | Some l => with_econ st l (fun s => set_hot s ({[ ref_id ]} ∪ s_hot_refs s))
  | None => st
  end.

(** The tool of one scope; [db_fails] is a database error. *)
Definition cc_squash_retrieve (st : AppState) (scope : SessionId * option loc) (ref_id : rstr) (query : option rstr)
    (db_fails : bool) (now : f64) : option (AppState * rstr) :=
  match RefId_parse ref_id with
  | Err _ => Some (st, RECOVERY_HINT)
  | Ok ref_id =>
      if db_fails then Some (st, RECOVERY_HINT)
      else
        let '(store, result) := retrieve (app_store st) ref_id scope.1 query now in
        let st := set_store st store in
        result ← result;
        Some (match result with
              | Hit text access_count =>
                  (if HOT_THRESHOLD <=? access_count then mark_hot st scope.2 ref_id else st, text)
              | Miss => (st, RECOVERY_HINT)
              end)
  end.

(** [serve_mcp] up to the transport: a token without a session is not found. *)
Definition serve_mcp (st : AppState) (token ref_id : rstr) (query : option rstr) (db_fails : bool) (now : f64)
    : option (option (AppState * rstr)) :=
  match resolve_scope st token with
  | None => Some None
  | Some scope => Some <$> cc_squash_retrieve st scope ref_id query db_fails now
  end.
End Mcp.

(** ** [stage_next] on the shared state *)

Section StageNext.
Context `{Breaker, SerdeJson, SerdeValue, Libm, FormatCore, Similar, Sha256, Upstream, Database}.

Definition stage_next (st : AppState) (l : loc) (bytes : list byte) (session_id : SessionId) (now : f64) : AppState :=
  match econs st !! l with
  | None => st
  | Some s =>
      let '(working, auth, policy) := clone_inputs s in
      match stage_plan working auth policy bytes session_id (app_store st) now with
      | None => with_econ st l release
      | Some (store, committed) =>
          let st := set_store st store in
          with_econ st l (fun s =>
            release (match committed with Some (plan, working) => commit s plan working | None => s end))
      end
  end.
End StageNext.
