(* ===== verification/System.v ===== *)
(** * The running proxy

    The relay, the staging tasks, the usage drain, the control channel with the
    sweeps it spawns and the retrieval tool as steps of one transition system
    over the shared state.  A turn is two steps, before and after the
    interceptor's task ([Relay.serve_halves]); a staging task advances one call
    at a time and a spawned sweep waits until it runs, so all of them
    interleave.  The number of messages each session has sent upstream is kept
    as history.  The system is parameterised by its clients, by what request
    they may send in a state: [any_client] sends any request at any time, so
    the turns of one session may overlap; an [orderly] one resends its whole
    transcript and waits for each answer.  A [history] is a run with all its
    worlds.  [Stored] has the invariants that hold for any client, [Window] the
    one that needs an orderly one. *)
From S2P Require Import Prelude RStr F64 Core Economics Config Wire Segment Policy Scorer Pipeline Ladder Targets Recode Rewrite Marker Bm25 Store Session Intercept UsageTap Synth Summarizer Staging App Relay Seam.

Local Open Scope Z_scope.

(** ** The transition system *)

(** An inspected turn between the two halves of its handler. *)
Record Flight := mkFlight {
  fl_token : rstr;
  fl_cell : loc;
  fl_bytes : list byte;
  fl_inputs : option InterceptInputs;
}.

(** The shared state; as history, the messages each session has sent; the turns
    in flight; the staging tasks that run, each with the cell it stages for; and
    the sweeps spawned and not yet run, each with the reachable set its frame
    saw. *)
Record World `{Breaker} := mkWorld {
  w_app : AppState;
  w_sent : gmap rstr nat;
  w_flights : list Flight;
  w_tasks : list (loc * Task);
  w_sweeps : list (list RefId);
}.

Section Steps.
Context `{Breaker, SerdeJson, SerdeValue, SerdeSlice, Sha256, Libm, FormatCore, Similar, Upstream, Database, Unicode}.

(** The messages a body carries; a malformed one is refused upstream. *)
Definition message_count (bytes : list byte) : nat :=
  match parse_body bytes with Some w => length (messages w) | None => 0 end.

Definition sent_of (m : gmap rstr nat) (token : rstr) : nat := default 0%nat (m !! token).

Definition record_bytes (m : gmap rstr nat) (token : rstr) (bytes : list byte) : gmap rstr nat :=
  <[token := Nat.max (sent_of m token) (message_count bytes)]> m.
Definition record_sent (m : gmap rstr nat) (token : rstr) (served : Served) : gmap rstr nat :=
  match served with Served_Upstream body _ _ => record_bytes m token body | _ => m end.

Definition set_app (w : World) (st : AppState) : World :=
  mkWorld _ st (w_sent w) (w_flights w) (w_tasks w) (w_sweeps w).
Definition set_tasks (w : World) (tasks : list (loc * Task)) : World :=
  mkWorld _ (w_app w) (w_sent w) (w_flights w) tasks (w_sweeps w).

(** A message request of the session arrives: it is answered or forwarded at
    once, or it is in flight until the interceptor's task ends. *)
Definition begin_turn (w : World) (token : rstr) (req : Request) (now : f64) : World :=
  let inspect := inspect_for (w_app w) (str "POST") MESSAGES_PATH token in
  match serve_begin (w_app w) req inspect now with
  | (st, Begun_Served served) => mkWorld _ st (record_sent (w_sent w) token served) (w_flights w) (w_tasks w) (w_sweeps w)
  | (st, Begun_Flight l _ bytes inputs) =>
      mkWorld _ st (w_sent w) (w_flights w ++ [mkFlight token l bytes inputs]) (w_tasks w) (w_sweeps w)
  end.

(** The interceptor's task ends, one way or another, and the egress is sent. *)
Definition finish_turn (w : World) (i : nat) (outcome : TaskOutcome) : World :=
  match w_flights w !! i with
  | None => w
  | Some f =>
      mkWorld _ (with_econ (w_app w) (fl_cell f) (fold_flight outcome (fl_bytes f) (fl_inputs f)))
        (record_bytes (w_sent w) (fl_token f) (egress_of outcome (fl_bytes f) (fl_inputs f)))
        (delete i (w_flights w)) (w_tasks w) (w_sweeps w)
  end.

(** The client goes away and the handler is dropped at its [await]: the turn's
    staged plan is gone and nothing is folded back.  Dropped later, it has sent
    its egress, or might as well have. *)
Definition drop_turn (w : World) (i : nat) : World :=
  mkWorld _ (w_app w) (w_sent w) (delete i (w_flights w)) (w_tasks w) (w_sweeps w).

(** *** The clients *)

Definition Client := World -> rstr -> Request -> Prop.

Definition any_client : Client := fun _ _ _ => True.

(** It resends its whole transcript: a request never carries fewer messages
    than the conversation has sent. *)
Definition grown (w : World) (token : rstr) (req : Request) : Prop :=
  forall bytes body, to_bytes (req_body req) = Some bytes -> parse_body bytes = Some body ->
    (sent_of (w_sent w) token <= length (messages body))%nat.

(** It waits for the answer before the next request of the session. *)
Definition idle (w : World) (token : rstr) : Prop := Forall (fun f => fl_token f <> token) (w_flights w).

Definition orderly : Client := fun w token req => grown w token req /\ idle w token.

(** *** The other steps *)

(** A control frame; the sweep it may spawn waits. *)
Definition control_frame (w : World) (c : Control) : World :=
  let '(st, spawned, _) := apply_control c (w_app w) in
  mkWorld _ st (w_sent w) (w_flights w) (w_tasks w) (w_sweeps w ++ option_list spawned).

(** A spawned sweep runs, on whatever the store now holds. *)
Definition sweep_next (w : World) (i : nat) (now : f64) : World :=
  match w_sweeps w !! i with
  | Some reachable => mkWorld _ (sweep (w_app w) reachable now) (w_sent w) (w_flights w) (w_tasks w) (delete i (w_sweeps w))
  | None => w
  end.

(** A staging task starts: it reads its inputs under the session's lock and
    either returns at once, the guard dropped, or waits for its first call. *)
Definition spawn (w : World) (l : loc) (bytes : list byte) (session_id : SessionId) (now : f64) : World :=
  match econs (w_app w) !! l with
  | None => w
  | Some s =>
      match task_start (clone_inputs s) bytes session_id now with
      | Some (Some t) => set_tasks w (w_tasks w ++ [(l, t)])
      | _ => set_app w (with_econ (w_app w) l release)
      end
  end.

(** A task goes on to its next call, or commits. *)
Definition advance (w : World) (i : nat) : World :=
  match w_tasks w !! i with
  | None => w
  | Some (l, t) =>
      match tk_rest t with
      | [] =>
          let '(plan, working) := task_result t in
          set_tasks (set_app w (with_econ (w_app w) l (fun s => release (commit s plan working)))) (delete i (w_tasks w))
      | _ =>
          match task_segment (app_store (w_app w)) t with
          | Some (store, t) => set_tasks (set_app w (set_store (w_app w) store)) (<[i := (l, t)]> (w_tasks w))
          | None => set_tasks (set_app w (with_econ (w_app w) l release)) (delete i (w_tasks w))
          end
      end
  end.

Inductive step (C : Client) : World -> World -> Prop :=
| step_begin w token req now : C w token req -> step C w (begin_turn w token req now)
| step_finish w i outcome : step C w (finish_turn w i outcome)
| step_drop w i : step C w (drop_turn w i)
| step_spawn w l bytes session_id now : step C w (spawn w l bytes session_id now)
| step_advance w i : step C w (advance w i)
| step_drain w l observed now clock :
    step C w (set_app w (with_econ (w_app w) l (fun s => drain s observed now clock)))
| step_control w c : step C w (control_frame w c)
| step_sweep w i now : step C w (sweep_next w i now)
| step_retrieve w token ref_id query db_fails now st text :
    serve_mcp (w_app w) token ref_id query db_fails now = Some (Some (st, text)) ->
    step C w (set_app w st).

(** A proxy just started on a database. *)
Definition start (upstream : rstr) (store : RefStore) : World :=
  mkWorld _ (mkAppState _ upstream ∅ ∅ false false store) ∅ [] [] [].

Definition reachable (C : Client) (w : World) : Prop :=
  exists upstream store, store_ok store /\ rtc (step C) (start upstream store) w.

(** A property of the start that every step from a reachable state keeps. *)
Lemma reachable_invariant C (I : World -> Prop) :
  (forall upstream store, store_ok store -> I (start upstream store)) ->
  (forall w w', reachable C w -> I w -> step C w w' -> I w') ->
  forall w, reachable C w -> I w.
Proof.
  intros S K w (upstream & store & Ok & R).
  assert (X : reachable C w /\ I w); [|by destruct X].
  apply (rtc_ind_r (R := step C) (fun w => reachable C w /\ I w) (start upstream store)); [| |exact R].
  - split; [exists upstream, store; split; [done | apply rtc_refl] | by apply S].
  - intros w1 w2 R1 St [Rw Iw]. split; [|by eapply K]. exists upstream, store. split; [done|]. by eapply rtc_r.
Qed.

Lemma reachable_step C w w' : reachable C w -> step C w w' -> reachable C w'.
Proof. intros (u & store & Ok & R) St. exists u, store. split; [done|]. by eapply rtc_r. Qed.

Lemma reachable_steps C w w' : reachable C w -> rtc (step C) w w' -> reachable C w'.
Proof. intros (u & store & Ok & R) St. exists u, store. split; [done|]. by etransitivity. Qed.

(** Fewer requests, fewer states. *)
Lemma step_client (C C' : Client) w w' : (forall w t r, C w t r -> C' w t r) -> step C w w' -> step C' w w'.
Proof. intros M []; econstructor; eauto. Qed.

Lemma reachable_client (C C' : Client) w : (forall w t r, C w t r -> C' w t r) -> reachable C w -> reachable C' w.
Proof.
  intros M (u & store & Ok & R). exists u, store. split; [done|].
  eapply rtc_subrel; [|exact R]. intros. by eapply step_client.
Qed.

Lemma reachable_any C w : reachable C w -> reachable any_client w.
Proof. by apply reachable_client. Qed.

(** *** Runs with their history

    The worlds of a run, the last one first. *)
Inductive history (C : Client) : list World -> Prop :=
| history_start upstream store : store_ok store -> history C [start upstream store]
| history_step w w' past : history C (w :: past) -> step C w w' -> history C (w' :: w :: past).

Lemma history_reachable C w past : history C (w :: past) -> reachable C w.
Proof.
  remember (w :: past) as tr eqn:E. intros R. revert w past E. induction R as [u store S|w0 w1 rest R IH St]; intros w past [= <- <-].
  - exists u, store. split; [done | apply rtc_refl].
  - eapply reachable_step; [by eapply IH | done].
Qed.

Lemma reachable_history C w : reachable C w -> exists past, history C (w :: past).
Proof.
  apply (reachable_invariant C (fun w => exists past, history C (w :: past))).
  - intros u store S. exists []. by apply history_start.
  - intros w0 w1 _ [past R] St. exists (w0 :: past). by apply history_step.
Qed.

Lemma history_client (C C' : Client) tr : (forall w t r, C w t r -> C' w t r) -> history C tr -> history C' tr.
Proof. intros M. induction 1; [by apply history_start | apply history_step; [done | by eapply step_client]]. Qed.

(** A step that neither spawns nor runs a sweep. *)
Definition quiet_step (C : Client) (w w' : World) : Prop := step C w w' /\ w_sweeps w' = w_sweeps w.

Lemma quiet_steps C w w' : rtc (quiet_step C) w w' -> rtc (step C) w w'.
Proof. apply rtc_subrel. by intros ? ? []. Qed.

Lemma history_quiet C w w' : rtc (quiet_step C) w w' -> forall past,
  history C (w :: past) -> Forall (fun x => w_sweeps x = []) (w :: past) ->
  exists past', history C (w' :: past') /\ Forall (fun x => w_sweeps x = []) (w' :: past').
Proof.
  induction 1 as [w|w w1 w2 [St Q] _ IH]; intros past R F; [by exists past|].
  apply (IH (w :: past)); [by apply history_step|]. apply Forall_cons. split; [|done]. rewrite Q. by apply Forall_cons in F as [? _].
Qed.

(** *** A task nobody interrupts *)

Lemma advance_run C n : forall w l t tasks store' t',
  w_tasks w = tasks ++ [(l, t)] -> length (tk_rest t) = n -> task_run n (app_store (w_app w)) t = Some (store', t') ->
  rtc (quiet_step C) w (set_tasks (set_app w (set_store (w_app w) store')) (tasks ++ [(l, t')])) /\ tk_rest t' = [].
Proof.
  induction n as [|n IH]; intros w l t tasks store' t' Tw Ln E; cbn [task_run] in E.
  - injection E as <- <-. split; [|by apply nil_length_inv]. rewrite <- Tw. destruct w as [st sent fl ts sw], st. apply rtc_refl.
  - apply bind_Some in E as ([store1 t1] & E1 & E).
    assert (Rs : exists seg rest, tk_rest t = seg :: rest /\ tk_rest t1 = rest).
    { unfold task_segment in E1. destruct (tk_rest t) as [|seg rest]; [done|].
      apply bind_Some in E1 as ([? ?] & _ & E1). injection E1 as <- <-. by exists seg, rest. }
    destruct Rs as (seg & rest & Rt & Rt1). rewrite Rt in Ln. injection Ln as Ln.
    assert (Ad : advance w (length tasks) = set_tasks (set_app w (set_store (w_app w) store1)) (tasks ++ [(l, t1)])).
    { unfold advance. rewrite Tw, list_lookup_middle by done. rewrite Rt, E1. by rewrite insert_app_r_alt, Nat.sub_diag by lia. }
    destruct (IH (advance w (length tasks)) l t1 tasks store' t') as [R1 R2]; [by rewrite Ad | by rewrite Rt1 | by rewrite Ad|].
    split; [|exact R2]. eapply rtc_l; [split; [apply (step_advance C w (length tasks)) | by rewrite Ad]|].
    eapply eq_ind; [exact R1|]. by rewrite Ad.
Qed.

(** [stage_next] as one function is a task that runs alone. *)
Lemma stage_next_steps C w l bytes session_id now :
  sha256_law -> store_ok (app_store (w_app w)) -> rtc (quiet_step C) w (set_app w (stage_next (w_app w) l bytes session_id now)).
Proof.
  intros Law I. unfold stage_next. assert (Q : w_sweeps (spawn w l bytes session_id now) = w_sweeps w) by (unfold spawn; by repeat case_match).
  eapply rtc_l; [split; [apply (step_spawn C w l bytes session_id now) | exact Q]|]. clear Q. unfold spawn.
  destruct (econs (w_app w) !! l) as [s|] eqn:Es; [|by destruct w].
  destruct (clone_inputs s) as [[working auth] policy] eqn:Ci.
  destruct (stage_plan_run working auth policy bytes session_id _ now Law I)
    as (store' & out & E & _). rewrite E. rewrite stage_plan_task in E.
  apply bind_Some in E as ([t|] & -> & E).
  2:{ injection E as <- <-. destruct w as [st sent fl ts sw], st. apply rtc_refl. }
  apply bind_Some in E as ([store1 t1] & E1 & E). injection E as <- <-.
  destruct (advance_run C _ (set_tasks w (w_tasks w ++ [(l, t)])) l t (w_tasks w) store1 t1 eq_refl eq_refl E1) as [R1 R2].
  eapply rtc_r; [exact R1|]. split; [|done].
  match goal with |- step _ ?a ?b => replace b with (advance a (length (w_tasks w))); [apply step_advance|] end.
  unfold advance. cbn [set_tasks set_app w_tasks]. rewrite list_lookup_middle by done. rewrite R2.
  destruct (task_result t1) as [plan working']. cbn.
  rewrite delete_middle, app_nil_r. done.
Qed.
End Steps.

(** ** A concrete run: mint, a first short turn, then a turn with a noisy tool
    result; and the staging of that turn *)

Definition tok : rstr := str "t".
Definition request_of (body : list byte) : Request := mkRequest (str "POST") MESSAGES_PATH [] (Some body).
Definition first_request : list byte :=
  as_bytes (print_fields
    [(str "max_tokens", str "4096");
     (MESSAGES, print_array [wire_message (str "user") (quoted (str "build"))]);
     (str "model", quoted (str "claude-opus-4-8"))]).

Section Run.
#[local] Existing Instances open_breaker no_slice scan_serde scan_values length_digest flat_libm no_format no_diff down
  reliable ascii_unicode.

Definition world_start : World := start (str "https://api.anthropic.com") ∅.
Definition world_minted : World :=
  control_frame world_start (Control_Mint 1 tok RelayConfig_default).
Definition one_turn (w : World) (body : list byte) (now : f64) : World :=
  finish_turn (begin_turn w tok (request_of body) now) 0 Finished.
Definition world_open : World := one_turn world_minted first_request f64_zero.
Definition world_flight : World := begin_turn world_open tok (request_of lane_request) f64_zero.
Definition world_staged : World :=
  set_app world_open (stage_next (w_app world_open) 0%nat stage_request (SessionId_new tok) f64_zero).

Lemma world_open_history :
  exists past, history orderly (world_open :: past) /\ Forall (fun w => w_sweeps w = []) (world_open :: past).
Proof.
  exists [begin_turn world_minted tok (request_of first_request) f64_zero; world_minted; world_start]. split.
  - apply history_step; [|apply step_finish]. apply history_step.
    + apply history_step; [apply history_start, map_Forall_empty | apply (step_control orderly world_start (Control_Mint 1 tok RelayConfig_default))].
    + apply step_begin. split; [intros bytes body _ _; apply Nat.le_0_l | apply Forall_nil; exact I].
  - repeat constructor.
Qed.

Lemma world_open_reachable : reachable orderly world_open.
Proof. destruct world_open_history as (past & R & _). exact (history_reachable orderly _ past R). Qed.

Lemma world_open_idle : w_flights world_open = [].
Proof. vm_compute. reflexivity. Qed.
Lemma world_open_sent : sent_of (w_sent world_open) tok = 1%nat.
Proof. vm_compute. reflexivity. Qed.

Lemma world_open_store : app_store (w_app world_open) = ∅.
Proof. vm_compute. reflexivity. Qed.

(** The staging task of that session, on the longer transcript; no sweep was
    asked for so far. *)
Lemma world_staged_history :
  exists past, history orderly (world_staged :: past) /\ Forall (fun w => w_sweeps w = []) (world_staged :: past).
Proof.
  destruct world_open_history as (past & R & Q). apply (history_quiet orderly world_open world_staged) with (past := past); [|exact R | exact Q].
  apply (stage_next_steps orderly); [exact length_digest_law|]. rewrite world_open_store. apply map_Forall_empty.
Qed.

Lemma world_staged_reachable : reachable orderly world_staged.
Proof. destruct world_staged_history as (past & R & _). exact (history_reachable orderly _ past R). Qed.
End Run.
