(* ===== verification/Window.v ===== *)
(** * The fast lane's window

    The invariant of [System] that needs an orderly client: an open window
    vouches for every message the session has sent, in its cell and in the
    inputs of its turn in flight.  From it, the fast lane never rewrites what
    was sent. *)
From S2P Require Import Prelude RStr F64 Core Economics Config Wire Segment Policy Scorer Pipeline Ladder Targets Recode Rewrite Marker Bm25 Store Session Intercept UsageTap Synth Summarizer Staging App Relay Seam System.

Local Open Scope Z_scope.

(** ** One session's cell *)

Section Cell.
Context `{Breaker, SerdeJson, SerdeValue, Sha256, Libm, FormatCore}.

(** An open window vouches for all [n] messages sent. *)
Definition window_ok (n : nat) (s : SessionEcon) : Prop :=
  s_window_closed s = false -> (n <= s_last_message_count s)%nat.

(** An operation that keeps the window's fields. *)
Definition same_window (s s' : SessionEcon) : Prop :=
  s_last_message_count s' = s_last_message_count s /\ s_window_closed s' = s_window_closed s.

Lemma same_window_ok n s s' : same_window s s' -> window_ok n s -> window_ok n s'.
Proof. intros (L & C) W E. rewrite C in E. rewrite L. by apply W. Qed.

Lemma drain_same_window s observed now clock : same_window s (drain s observed now clock).
Proof. unfold drain, observe, calibrate. destruct (s_last_estimated_prefix _); done. Qed.

Lemma fold_intercepted_same_window s out : same_window s (fold_intercepted s out).
Proof. unfold fold_intercepted, commit_fast_lane. destruct (out_predicted_bust out); case_match; done. Qed.

Lemma stash_egress_ok n s body :
  window_ok n s -> (forall w, parse_body body = Some w -> (n <= length (messages w))%nat) ->
  window_ok (Nat.max n (message_count body)) (stash_egress_snapshot s body).
Proof.
  intros W G. unfold stash_egress_snapshot, message_count. destruct (parse_body body) as [w|].
  - intros _. cbn. specialize (G w eq_refl). lia.
  - intros C. rewrite Nat.max_0_r. by apply W.
Qed.

(** A rewrite keeps the number of messages. *)
Lemma run_message_count outcome bytes inputs :
  sha256_law ->
  message_count (out_bytes (run outcome bytes inputs)) = message_count bytes /\
  forall w, parse_body (out_bytes (run outcome bytes inputs)) = Some w ->
    exists w0, parse_body bytes = Some w0 /\ length (messages w) = length (messages w0).
Proof.
  intros L. destruct (run_cases outcome bytes inputs L) as [-> | (body & new & P & Pn & Sr & _)]; [split; [done | eauto]|].
  assert (E : length (messages new) = length (messages body)).
  { pose proof (f_equal length (safe_roles _ _ _ Sr)) as E. by rewrite !length_fmap in E. }
  unfold message_count. rewrite P, Pn. split; [done|]. intros w [= <-]. eauto.
Qed.

(** What a turn takes with it: an open window still vouches for all [n]
    messages. *)
Definition inputs_ok (n : nat) (inputs : option InterceptInputs) : Prop :=
  forall i, inputs = Some i -> in_window_closed i = false -> (n <= in_last_message_count i)%nat.

Lemma intercept_inputs_ok n s now s' inputs :
  window_ok n s -> intercept_inputs s now = (s', inputs) -> window_ok n s' /\ inputs_ok n inputs.
Proof.
  intros W. unfold intercept_inputs. intros E.
  destruct (s_intercept_enabled s); [destruct (s_econ s) as [e|]|]; injection E as <- <-; [|by split..].
  split; [exact W|]. by intros i [= <-].
Qed.

(** The second half of a turn on a conversation that has grown. *)
Lemma fold_flight_ok n outcome bytes inputs s :
  sha256_law -> window_ok n s -> (forall w, parse_body bytes = Some w -> (n <= length (messages w))%nat) ->
  window_ok (Nat.max n (message_count (egress_of outcome bytes inputs))) (fold_flight outcome bytes inputs s).
Proof.
  intros L C G. unfold fold_flight. destruct inputs as [inputs|]; [|by apply stash_egress_ok].
  cbn [egress_of]. destruct (run_message_count outcome bytes inputs L) as [_ Pw]. apply stash_egress_ok.
  - apply (same_window_ok _ s); [apply fold_intercepted_same_window | exact C].
  - intros w Ww. destruct (Pw w Ww) as (w0 & P0 & ->). by apply G.
Qed.
End Cell.

(** ** The invariant *)

Section Window.
Context `{Breaker, SerdeJson, SerdeValue, SerdeSlice, Sha256, Libm, FormatCore, Similar, Upstream, Database, Unicode}.

Record Inv (st : AppState) (sent : gmap rstr nat) : Prop := {
  inv_inj : forall t1 t2 l, econ_cell st t1 = Some l -> econ_cell st t2 = Some l -> t1 = t2;
  inv_cells : forall t l, econ_cell st t = Some l ->
    exists s, econs st !! l = Some s /\ window_ok (sent_of sent t) s;
}.

Lemma Inv_start upstream store : Inv (w_app (start upstream store)) ∅.
Proof. split; unfold econ_cell; cbn; intros *; by rewrite lookup_empty. Qed.

(** Only the session [t] changes, its cell to one that is sound for what it
    has now sent. *)
Lemma Inv_frame st st' sent sent' t :
  Inv st sent ->
  (forall t', t' <> t -> econ_cell st' t' = econ_cell st t' /\ sent_of sent' t' = sent_of sent t') ->
  (forall l, (forall l', econ_cell st t = Some l' -> l <> l') -> is_Some (econs st !! l) -> econs st' !! l = econs st !! l) ->
  (forall l, econ_cell st' t = Some l ->
     (econ_cell st t = Some l \/ econs st !! l = None) /\
     exists s, econs st' !! l = Some s /\ window_ok (sent_of sent' t) s) ->
  Inv st' sent'.
Proof.
  intros [J C] F Fe T. split.
  - intros t1 t2 l E1 E2.
    assert (X : forall t', t' <> t -> econ_cell st' t' = Some l -> econ_cell st' t = Some l -> False).
    { intros t' N E' E. destruct (F t' N) as [Fc _]. rewrite Fc in E'. destruct (T l E) as [[E0|E0] _].
      - apply N. by apply (J t' t l).
      - destruct (C t' l E') as (s & L & _). congruence. }
    destruct (decide (t1 = t)) as [->|N1], (decide (t2 = t)) as [->|N2]; [done | exfalso; eauto | exfalso; eauto |].
    destruct (F t1 N1) as [Fc1 _], (F t2 N2) as [Fc2 _]. rewrite Fc1 in E1. rewrite Fc2 in E2. by apply (J t1 t2 l).
  - intros t' l E. destruct (decide (t' = t)) as [->|N].
    + by destruct (T l E) as [_ ?].
    + destruct (F t' N) as [Fc Fs]. rewrite Fc in E. destruct (C t' l E) as (s & L & Ok). exists s. rewrite Fs.
      split; [|done]. rewrite Fe; [done | | by eexists]. intros l' El' ->. apply N. by apply (J t' t l').
Qed.

(** A critical section that keeps every sound cell sound. *)
Lemma Inv_with_econ st sent l f :
  Inv st sent -> (forall n s, econs st !! l = Some s -> window_ok n s -> window_ok n (f s)) -> Inv (with_econ st l f) sent.
Proof.
  intros [J C] F. split; [exact J|]. intros t l' E. destruct (C t l' E) as (s & L & Ok).
  cbn [with_econ set_econs econs]. destruct (decide (l' = l)) as [->|N].
  - exists (f s). rewrite lookup_alter_eq, L. split; [done | by apply F].
  - exists s. by rewrite lookup_alter_ne.
Qed.

Lemma Inv_same st st' sent : sessions st' = sessions st -> econs st' = econs st -> Inv st sent -> Inv st' sent.
Proof.
  intros Es Ee [J C]. assert (X : forall t, econ_cell st' t = econ_cell st t) by (intros t; unfold econ_cell; by rewrite Es).
  split; [intros t1 t2 l; rewrite !X; apply J | intros t l; rewrite X, Ee; apply C].
Qed.

(** *** What a turn in flight relies on *)

(** The session's commitments. *)
Definition lane (st : AppState) (l : loc) : gset RefId := default ∅ (s_fast_lane <$> econs st !! l).

(** Only the sessions in [T] gain a cell, a fresh one, or send anything; no cell
    goes away. *)
Record calm (T : rstr -> Prop) (st : AppState) (sent : gmap rstr nat) (st' : AppState) (sent' : gmap rstr nat) : Prop := {
  calm_cells : forall t l, econ_cell st' t = Some l -> econ_cell st t = Some l \/ T t /\ econs st !! l = None;
  calm_econs : forall l, is_Some (econs st !! l) -> is_Some (econs st' !! l);
  calm_sent : forall t, ~ T t -> sent_of sent' t = sent_of sent t;
}.

Lemma calm_refl T st sent : calm T st sent st sent.
Proof. split; auto. Qed.

Lemma calm_with_econ T st sent l f : calm T st sent (with_econ st l f) sent.
Proof.
  split; [auto | | done]. intros l' [s L]. cbn. destruct (decide (l' = l)) as [->|N].
  - rewrite lookup_alter_eq, L. by eexists.
  - rewrite lookup_alter_ne by done. by eexists.
Qed.

Lemma lane_with_econ st l f :
  (forall s, econs st !! l = Some s -> s_fast_lane (f s) = s_fast_lane s) -> forall l', lane (with_econ st l f) l' = lane st l'.
Proof.
  intros K l'. unfold lane. cbn. destruct (decide (l' = l)) as [->|N]; [|by rewrite lookup_alter_ne].
  rewrite lookup_alter_eq. destruct (econs st !! l) as [s|] eqn:E; [|done]. cbn. by rewrite K.
Qed.
(** Its cell is its session's alone, the session has sent nothing since it
    began, and its request is no shorter than what was sent. *)
Definition flight_ok (st : AppState) (sent : gmap rstr nat) (f : Flight) : Prop :=
  is_Some (econs st !! fl_cell f) /\
  (forall t l, econ_cell st t = Some l -> (t = fl_token f <-> l = fl_cell f)) /\
  (forall body, parse_body (fl_bytes f) = Some body -> (sent_of sent (fl_token f) <= length (messages body))%nat) /\
  inputs_ok (sent_of sent (fl_token f)) (fl_inputs f).

Lemma flight_ok_calm T st sent st' sent' f :
  ~ T (fl_token f) -> calm T st sent st' sent' -> flight_ok st sent f -> flight_ok st' sent' f.
Proof.
  intros N [C E S] (L & O & G & I). split; [by apply E|]. rewrite (S _ N). split; [|by split]. intros t l Ec.
  destruct (C t l Ec) as [Ec0|[Tt F]]; [by apply O|]. split; intros ->; [done|]. rewrite F in L. by destruct L.
Qed.

(** *** A turn *)

Lemma sent_of_insert sent t t' m : t' <> t -> sent_of (<[t := m]> sent) t' = sent_of sent t'.
Proof. intros N. unfold sent_of. by rewrite lookup_insert_ne. Qed.
Lemma sent_of_insert_eq sent t m : sent_of (<[t := m]> sent) t = m.
Proof. unfold sent_of. by rewrite lookup_insert_eq. Qed.

(** An uninspected forward closes the window first, so any count is vouched for. *)
Lemma Inv_close st sent t m : Inv st sent -> Inv (close_session st (Some t)) (<[t := m]> sent).
Proof.
  intros I. unfold close_session. cbn [mbind option_bind]. destruct (econ_cell st t) as [l|] eqn:E.
  - eapply Inv_frame with (t := t); [exact I | intros t' N; split; [done | by apply sent_of_insert] | |].
    + intros l0 N _. cbn. rewrite lookup_alter_ne; [done|]. intros ->. by apply (N l0).
    + intros l' E'. change (econ_cell st t = Some l') in E'. rewrite E in E'. injection E' as <-. split; [by left|].
      destruct I as [_ C]. destruct (C t l E) as (s & L & Ok). exists (close_window s).
      cbn. rewrite lookup_alter_eq, L. by split.
  - eapply Inv_frame with (t := t); [exact I | intros t' N; split; [done | by apply sent_of_insert] | done |].
    intros l' E'. congruence.
Qed.

Lemma Inv_unregistered st sent t m : sessions st !! t = None -> Inv st sent -> Inv st (<[t := m]> sent).
Proof.
  intros N I. eapply Inv_frame with (t := t); [exact I | intros t' N'; split; [done | by apply sent_of_insert] | done |].
  intros l E. unfold econ_cell in E. by rewrite N in E.
Qed.

Lemma Inv_close_session st sent token : Inv st sent -> Inv (close_session st token) sent.
Proof.
  intros I. unfold close_session. destruct (token ≫= econ_cell st) as [l|]; [|done].
  apply Inv_with_econ; [done|]. by intros n s _ _.
Qed.

(** A new session starts with its window closed. *)
Lemma fresh_econ_ok st ctx headers body now n : window_ok n (fresh_econ st ctx headers body now).
Proof. done. Qed.

Lemma claim_staging_ok n s s' won : claim_staging s = (s', won) -> window_ok n s -> window_ok n s'.
Proof. unfold claim_staging. intros E C. destruct (s_staging s); injection E as <- _; done. Qed.

(** The cell a forwarded turn works on. *)
Lemma forward_setup_spec st sent t headers body now st' l staging :
  Inv st sent -> forward_setup st t headers body now = Some (st', l, staging) ->
  econ_cell st' t = Some l /\ (econ_cell st t = Some l \/ econ_cell st t = None /\ econs st !! l = None) /\
  (forall t', t' <> t -> econ_cell st' t' = econ_cell st t') /\
  (forall l', l' <> l -> econs st' !! l' = econs st !! l') /\
  exists s, econs st' !! l = Some s /\ (forall n, (n <= sent_of sent t)%nat -> window_ok n s) /\ s_fast_lane s = lane st l.
Proof.
  intros [_ C]. unfold forward_setup, lazy_econ. intros E. apply bind_Some in E as ([[st1 l1] sid] & E1 & E).
  apply bind_Some in E1 as (ctx & Hc & E1). apply bind_Some in E as (s & Hs & E).
  destruct (claim_staging s) as [s' won] eqn:Cl. injection E as <- <- _.
  assert (W : forall n, (n <= sent_of sent t)%nat -> window_ok (sent_of sent t) s -> window_ok n s').
  { intros n Ln Ok. apply (claim_staging_ok _ _ _ _ Cl) in Ok. intros Cd. specialize (Ok Cd). lia. }
  assert (FL : s_fast_lane s' = s_fast_lane s) by (unfold claim_staging in Cl; by destruct (s_staging s); injection Cl as <- _).
  destruct (ctx_econ_cell ctx) as [l0|] eqn:Ec.
  - injection E1 as <- <- _. assert (Et : econ_cell st t = Some l0) by (unfold econ_cell; by rewrite Hc).
    split; [exact Et|]. split; [by left|]. split; [done|]. split.
    + intros l' N. cbn. by rewrite lookup_insert_ne.
    + exists s'. cbn. rewrite lookup_insert_eq. split; [done|]. split; [|unfold lane; by rewrite Hs, FL].
      intros n Ln. apply (W n Ln). destruct (C t l0 Et) as (s0 & L0 & Ok). assert (s0 = s) as -> by congruence. exact Ok.
  - unfold init_econ in E1. injection E1 as <- <- _. set (l0 := new_cell st) in *.
    assert (Fr : econs st !! l0 = None) by (apply not_elem_of_dom, is_fresh).
    assert (Et : econ_cell st t = None) by (unfold econ_cell; by rewrite Hc).
    cbn in Hs. rewrite lookup_insert_eq in Hs. injection Hs as <-. split; [|split; [by right|split; [|split]]].
    + unfold econ_cell. cbn. by rewrite lookup_insert_eq.
    + intros t' N. unfold econ_cell. cbn. by rewrite lookup_insert_ne.
    + intros l' N. cbn. by rewrite !lookup_insert_ne.
    + exists s'. cbn. rewrite lookup_insert_eq. split; [done|]. split; [|unfold lane; by rewrite Fr, FL].
      intros n Ln. apply (W n Ln), fresh_econ_ok.
Qed.

(** The first half of an inspected turn of a registered session. *)
Lemma forward_begin_ok st sent t req bytes now st' b :
  Inv st sent -> is_Some (sessions st !! t) -> forward_begin st (Some t) req bytes now = (st', b) ->
  Inv st' sent /\ calm (eq t) st sent st' sent /\ (forall l, lane st' l = lane st l) /\
  exists l staging inputs, b = Begun_Flight l staging bytes inputs /\ is_Some (econs st' !! l) /\ econ_cell st' t = Some l /\
    inputs_ok (sent_of sent t) inputs.
Proof.
  intros I R. unfold forward_begin. cbn [mbind option_bind].
  destruct (forward_setup st t (req_headers req) bytes now) as [[[st1 l] staging]|] eqn:E.
  - destruct (forward_setup_spec _ _ _ _ _ _ _ _ _ I E) as (Ec & Old & Oth & Fr & s & Ls & Ok & FL). rewrite Ls.
    destruct (intercept_inputs s now) as [s' inputs] eqn:Ii. intros [= <- <-].
    destruct (intercept_inputs_ok _ _ _ _ _ (Ok _ (le_n _)) Ii) as [Ok' Io].
    assert (FL' : s_fast_lane s' = s_fast_lane s) by (unfold intercept_inputs in Ii; by repeat case_match; simplify_eq/=).
    assert (Cl : calm (eq t) st sent (set_econs st1 (<[l:=s']> (econs st1))) sent).
    { split; [| |done].
      - intros t' l' E'. change (econ_cell st1 t' = Some l') in E'. destruct (decide (t' = t)) as [->|N]; [|rewrite Oth in E'; auto].
        rewrite Ec in E'. injection E' as <-. destruct Old as [?|[_ ?]]; auto.
      - intros l' L'. cbn. destruct (decide (l' = l)) as [->|N]; [rewrite lookup_insert_eq; by eexists|].
        rewrite lookup_insert_ne, Fr; done. }
    split; [|split; [exact Cl|split]].
    + eapply Inv_frame with (t := t); [exact I | intros t' N; split; [by apply Oth | done] | |].
      * intros l0 N [x L0]. cbn. destruct (decide (l0 = l)) as [->|N0]; [|by rewrite lookup_insert_ne, Fr].
        destruct Old as [Old|[_ Old]]; [by destruct (N l) | congruence].
      * intros l0 E0. change (econ_cell st1 t = Some l0) in E0. rewrite Ec in E0. injection E0 as <-.
        split; [destruct Old as [?|[_ ?]]; auto|]. exists s'. cbn. by rewrite lookup_insert_eq.
    + intros l'. unfold lane at 1. cbn. destruct (decide (l' = l)) as [->|N].
      * rewrite lookup_insert_eq. cbn. by rewrite FL'.
      * rewrite lookup_insert_ne, Fr; done.
    + exists l, staging, inputs. split; [done|]. cbn. rewrite lookup_insert_eq. split; [by eexists|]. by split.
  - (* a registered session always has its cell *)
    exfalso. destruct R as [ctx Hc]. unfold forward_setup, lazy_econ in E. rewrite Hc in E. cbn [mbind option_bind] in E.
    destruct (ctx_econ_cell ctx) as [l|] eqn:Ec.
    + destruct I as [_ C]. destruct (C t l) as (s & Ls & _); [by unfold econ_cell; rewrite Hc|].
      cbn [mbind option_bind] in E. rewrite Ls in E. cbn [mbind option_bind] in E.
      by destruct (claim_staging s).
    + unfold init_econ in E. cbn in E. rewrite lookup_insert_eq in E. cbn [mbind option_bind] in E.
      by destruct (claim_staging _).
Qed.

(** What is sent at once closes the window first. *)
Lemma close_calm st sent t m :
  calm (eq t) st sent (close_session st (Some t)) (<[t := m]> sent) /\
  forall l, lane (close_session st (Some t)) l = lane st l.
Proof.
  assert (Sn : forall t', ~ t = t' -> sent_of (<[t := m]> sent) t' = sent_of sent t') by (intros t' N; apply sent_of_insert; congruence).
  unfold close_session. destruct (Some t ≫= econ_cell st) as [l|]; [|by repeat split; auto].
  split; [|by apply lane_with_econ]. destruct (calm_with_econ (eq t) st sent l close_window) as [C E _]. by split.
Qed.

Lemma close_calm_same st sent t :
  calm (eq t) st sent (close_session st (Some t)) sent /\
  forall l, lane (close_session st (Some t)) l = lane st l.
Proof.
  unfold close_session. destruct (Some t ≫= econ_cell st) as [l|]; [|by repeat split; auto].
  split; [apply calm_with_econ | by apply lane_with_econ].
Qed.

(** A request that arrives. *)
Lemma begin_turn_ok w t req now :
  grown w t req -> Inv (w_app w) (w_sent w) ->
  let w' := begin_turn w t req now in
  Inv (w_app w') (w_sent w') /\ calm (eq t) (w_app w) (w_sent w) (w_app w') (w_sent w') /\
  (forall l, lane (w_app w') l = lane (w_app w) l) /\
  (w_flights w' = w_flights w \/
   exists f, w_flights w' = w_flights w ++ [f] /\ fl_token f = t /\ flight_ok (w_app w') (w_sent w') f).
Proof.
  intros G I. destruct w as [st sent flights tasks sweeps]. unfold grown in G. cbn [w_app w_sent] in *.
  unfold begin_turn, inspect_for. cbn [w_app w_sent w_flights w_tasks w_sweeps].
  assert (Cs : forall m, calm (eq t) st sent st (<[t := m]> sent))
    by (intros m; split; [auto | auto | intros t' N; apply sent_of_insert; congruence]).
  rewrite !bool_decide_true by done. cbn [andb]. case_bool_decide as R; unfold serve_begin, kill_gate.
  2:{ assert (sessions st !! t = None) as Hc by (destruct (sessions st !! t); [destruct R; by eexists | done]).
      destruct (kill st); (destruct (to_bytes (req_body req)) as [bytes|];
        [split; [by apply Inv_unregistered | by repeat split; auto; apply Cs]
        |split; [done | split; [apply calm_refl | by auto 10]]]). }
  destruct (kill st).
  { destruct (to_bytes (req_body req)) as [bytes|].
    - split; [by apply Inv_close|]. destruct (close_calm st sent t (Nat.max (sent_of sent t) (message_count bytes))) as (? & ?). auto 10.
    - split; [by apply Inv_close_session|]. destruct (close_calm_same st sent t) as (? & ?). auto 10. }
  destruct (to_bytes (req_body req)) as [bytes|] eqn:B; [|split; [done | split; [apply calm_refl | by auto 10]]].
  destruct (synth_decide bytes) as [inputs|].
  { destruct (shadow st); [|split; [done | split; [apply calm_refl | by auto 10]]].
    split; [by apply Inv_close|]. destruct (close_calm st sent t (Nat.max (sent_of sent t) (message_count bytes))) as (? & ?). auto 10. }
  destruct (forward_begin st (Some t) req bytes now) as [st' b] eqn:E.
  destruct (forward_begin_ok _ _ _ _ _ _ _ _ I R E) as (I' & Cl & La & l & staging & inputs & -> & Ls & Ec & Io).
  repeat (split; [done|]). right. exists (mkFlight t l bytes inputs). split; [done|]. split; [done|].
  split; [exact Ls|]. cbn [fl_token fl_cell fl_bytes fl_inputs w_app w_sent]. split; [|split; [intros body; by apply G | exact Io]].
  intros t' l' E'. split; [intros ->; congruence|]. intros ->. by apply (inv_inj _ _ I' t' t l).
Qed.

(** The egress is sent. *)
Lemma finish_turn_ok st sent f outcome :
  sha256_law -> Inv st sent -> flight_ok st sent f ->
  let st' := with_econ st (fl_cell f) (fold_flight outcome (fl_bytes f) (fl_inputs f)) in
  let sent' := record_bytes sent (fl_token f) (egress_of outcome (fl_bytes f) (fl_inputs f)) in
  Inv st' sent' /\ calm (eq (fl_token f)) st sent st' sent'.
Proof.
  intros L [J C] (_ & O & G & _) st' sent'.
  assert (Sn : forall t, fl_token f <> t -> sent_of sent' t = sent_of sent t) by (intros t N; apply sent_of_insert; congruence).
  split.
  - split; [exact J|]. intros t l E. change (econ_cell st t = Some l) in E. destruct (C t l E) as (s & Ls & Ok).
    cbn. destruct (decide (t = fl_token f)) as [->|N].
    + assert (l = fl_cell f) as -> by by apply (O (fl_token f) l E). rewrite lookup_alter_eq, Ls.
      eexists. split; [done|]. unfold sent', record_bytes. rewrite sent_of_insert_eq. by apply fold_flight_ok.
    + rewrite lookup_alter_ne by (intros <-; by apply N, (O t _ E)). rewrite Sn by done. eauto.
  - destruct (calm_with_econ (eq (fl_token f)) st sent (fl_cell f) (fold_flight outcome (fl_bytes f) (fl_inputs f))) as [? ? _]. by split.
Qed.

(** *** Steps that are no turn: no session is set up, nothing is sent, no
    commitment changes. *)
Definition quiet (w w' : World) : Prop :=
  calm (fun _ => False) (w_app w) (w_sent w) (w_app w') (w_sent w') /\
  (forall l, lane (w_app w') l = lane (w_app w) l) /\ w_flights w' = w_flights w.

Lemma quiet_econ w w' l f :
  w_sent w' = w_sent w -> w_flights w' = w_flights w -> sessions (w_app w') = sessions (w_app w) ->
  econs (w_app w') = alter f l (econs (w_app w)) ->
  (forall s, s_fast_lane (f s) = s_fast_lane s) -> quiet w w'.
Proof.
  intros Es Ef Se Ec K. split; [|split; [|done]].
  - destruct (calm_with_econ (fun _ => False) (w_app w) (w_sent w) l f) as [_ E _]. split; [|intros l' L; rewrite Ec; by apply E | by rewrite Es].
    intros t l' E'. left. unfold econ_cell in *. by rewrite Se in E'.
  - intros l'. rewrite <- (lane_with_econ (w_app w) l f (fun s _ => K s)). unfold lane. by rewrite Ec.
Qed.

Lemma quiet_same w w' :
  w_sent w' = w_sent w -> w_flights w' = w_flights w -> sessions (w_app w') = sessions (w_app w) ->
  econs (w_app w') = econs (w_app w) -> quiet w w'.
Proof.
  intros Es Ef Se Ec. apply (quiet_econ w w' 0%nat id); [done.. | | done].
  rewrite Ec. apply map_eq. intros l. destruct (decide (l = 0%nat)) as [->|N]; [|by rewrite lookup_alter_ne].
  rewrite lookup_alter_eq. by destruct (econs (w_app w) !! 0%nat).
Qed.

Lemma spawn_quiet w l bytes session_id now : quiet w (spawn w l bytes session_id now).
Proof.
  unfold spawn. destruct (econs (w_app w) !! l) as [s|]; [|by apply quiet_same].
  destruct (task_start _ _ _ _) as [[t|]|]; [by apply quiet_same | by apply (quiet_econ _ _ l release)..].
Qed.

Lemma advance_quiet w i : quiet w (advance w i).
Proof.
  unfold advance. destruct (w_tasks w !! i) as [[l t]|]; [|by apply quiet_same]. destruct (tk_rest t).
  - destruct (task_result t) as [plan working]. by eapply (quiet_econ _ _ l).
  - destruct (task_segment _ _) as [[store t']|]; [by apply quiet_same | by apply (quiet_econ _ _ l release)].
Qed.

Lemma sweep_next_quiet w i now : quiet w (sweep_next w i now).
Proof. unfold sweep_next. destruct (w_sweeps w !! i); by apply quiet_same. Qed.

Lemma control_frame_quiet w c : quiet w (control_frame w c).
Proof.
  assert (Q : forall w', w_sent w' = w_sent w -> w_flights w' = w_flights w -> econs (w_app w') = econs (w_app w) ->
    (forall t l, econ_cell (w_app w') t = Some l -> econ_cell (w_app w) t = Some l) -> quiet w w').
  { intros w' Es Ef Ec C. split; [|split; [intros l; unfold lane; by rewrite Ec | done]]. split; [auto | by rewrite Ec | by rewrite Es]. }
  unfold control_frame. destruct c as [p t config|p t|p on|p on|p|p]; cbn [apply_control]; try by apply quiet_same.
  - destruct (is_empty t); [by apply quiet_same|]. apply Q; [done..|]. intros t' l. unfold econ_cell. cbn.
    destruct (decide (t' = t)) as [->|N]; [by rewrite lookup_insert_eq | by rewrite lookup_insert_ne].
  - destruct (is_empty t); [by apply quiet_same|]. apply Q; [done..|]. intros t' l. unfold econ_cell. cbn.
    destruct (decide (t' = t)) as [->|N]; [by rewrite lookup_delete_eq | by rewrite lookup_delete_ne].
Qed.

Lemma drain_quiet w l observed now clock : quiet w (set_app w (with_econ (w_app w) l (fun s => drain s observed now clock))).
Proof. eapply (quiet_econ _ _ l); [done..|]. intros s. unfold drain, observe, calibrate. by destruct (s_last_estimated_prefix _). Qed.

Lemma retrieve_quiet w token ref_id query db_fails now st text :
  serve_mcp (w_app w) token ref_id query db_fails now = Some (Some (st, text)) -> quiet w (set_app w st).
Proof.
  unfold serve_mcp. destruct (resolve_scope (w_app w) token) as [[sid cell]|]; [|done].
  unfold cc_squash_retrieve. destruct (RefId_parse ref_id) as [id|]; [|intros; simplify_eq/=; by apply quiet_same].
  destruct db_fails; [intros; simplify_eq/=; by apply quiet_same|]. cbn [fst snd].
  destruct (retrieve _ id sid query now) as [store [[text' n|]|]]; cbn [mbind option_bind fmap option_map]; intros E;
    simplify_eq/=; [|by apply quiet_same].
  case_match; [|by apply quiet_same]. unfold mark_hot. destruct cell as [l|]; [by eapply (quiet_econ _ _ l) | by apply quiet_same].
Qed.

(** A step begins, ends or drops a turn, or is quiet. *)
(** A step begins, ends or drops a turn, or is quiet. *)
Lemma step_cases C w w' :
  step C w w' ->
  quiet w w' \/ (exists t req now, C w t req /\ w' = begin_turn w t req now) \/
  (exists i outcome, w' = finish_turn w i outcome) \/ exists i, w' = drop_turn w i.
Proof.
  intros []; eauto 8 using spawn_quiet, advance_quiet, drain_quiet, control_frame_quiet, sweep_next_quiet, retrieve_quiet.
Qed.

(** *** Every step keeps the invariant *)

Record WInv (w : World) : Prop := {
  winv_app : Inv (w_app w) (w_sent w);
  winv_flights : Forall (flight_ok (w_app w) (w_sent w)) (w_flights w);
  winv_one_each : NoDup (fl_token <$> w_flights w);
}.

Lemma WInv_quiet w w' : quiet w w' -> Inv (w_app w') (w_sent w') -> WInv w -> WInv w'.
Proof.
  intros (Cl & _ & Ef) I [_ F N]. split; [done | | by rewrite Ef]. rewrite Ef.
  eapply Forall_impl; [exact F|]. intros f Of. exact (flight_ok_calm (fun _ => False) _ _ _ _ _ (fun x => x) Cl Of).
Qed.

(** One cell changes, its window does not. *)
Lemma WInv_econ w w' l f :
  quiet w w' -> w_sent w' = w_sent w -> sessions (w_app w') = sessions (w_app w) ->
  econs (w_app w') = econs (with_econ (w_app w) l f) -> (forall s, same_window s (f s)) -> WInv w -> WInv w'.
Proof.
  intros Q Es Se Ec Sw I. apply (WInv_quiet w); [done | | done]. rewrite Es.
  apply (Inv_same (with_econ (w_app w) l f)); [done | done|].
  apply Inv_with_econ; [apply I|]. intros n s _. by apply same_window_ok.
Qed.

Lemma WInv_same w w' :
  quiet w w' -> w_sent w' = w_sent w -> sessions (w_app w') = sessions (w_app w) -> econs (w_app w') = econs (w_app w) ->
  WInv w -> WInv w'.
Proof. intros Q Es Se Ec I. apply (WInv_quiet w); [done | | done]. rewrite Es. apply (Inv_same (w_app w)); [done..|apply I]. Qed.

Lemma spawn_ok w l bytes session_id now : WInv w -> WInv (spawn w l bytes session_id now).
Proof.
  pose proof (spawn_quiet w l bytes session_id now) as Q. unfold spawn in *.
  destruct (econs (w_app w) !! l) as [s|]; [|done].
  destruct (task_start _ _ _ _) as [[t|]|]; [by apply WInv_same | by apply (WInv_econ _ _ l release)..].
Qed.

Lemma advance_ok w i : WInv w -> WInv (advance w i).
Proof.
  pose proof (advance_quiet w i) as Q. unfold advance in *. destruct (w_tasks w !! i) as [[l t]|]; [|done].
  destruct (tk_rest t).
  - destruct (task_result t) as [plan working]. by eapply (WInv_econ _ _ l).
  - destruct (task_segment _ _) as [[store t']|]; [by apply WInv_same | by apply (WInv_econ _ _ l release)].
Qed.

Lemma sweep_next_ok w i now : WInv w -> WInv (sweep_next w i now).
Proof.
  pose proof (sweep_next_quiet w i now) as Q. unfold sweep_next in *. destruct (w_sweeps w !! i); [by apply WInv_same | done].
Qed.

(** Forgetting or replacing a session leaves the others as they are. *)
Lemma Inv_sessions st sent t :
  Inv st sent ->
  (forall c, ctx_econ_cell c = None -> Inv (set_sessions st (<[t := c]> (sessions st))) sent) /\
  Inv (set_sessions st (delete t (sessions st))) sent.
Proof.
  intros I. split.
  - intros c Hc. eapply Inv_frame with (t := t); [exact I | | done |].
    + intros t' N. split; [|done]. unfold econ_cell. cbn. by rewrite lookup_insert_ne.
    + intros l E. unfold econ_cell in E. cbn in E. rewrite lookup_insert_eq in E. cbn in E. congruence.
  - eapply Inv_frame with (t := t); [exact I | | done |].
    + intros t' N. split; [|done]. unfold econ_cell. cbn. by rewrite lookup_delete_ne.
    + intros l E. unfold econ_cell in E. cbn in E. by rewrite lookup_delete_eq in E.
Qed.

Lemma control_frame_ok w c : WInv w -> WInv (control_frame w c).
Proof.
  intros I. apply (WInv_quiet w); [apply control_frame_quiet | | done]. pose proof (winv_app _ I) as Ia.
  destruct (Inv_sessions (w_app w) (w_sent w)
    (match c with Control_Mint _ t _ | Control_Evict _ t => t | _ => [] end) Ia) as [Mi D].
  destruct c as [p t config|p t|p on|p on|p|p]; unfold control_frame; cbn [apply_control];
    [destruct (is_empty t); [done | by apply Mi] | destruct (is_empty t); [done | exact D] | by destruct Ia | by destruct Ia | done | done].
Qed.

Lemma retrieve_step_ok w token ref_id query db_fails now st text :
  serve_mcp (w_app w) token ref_id query db_fails now = Some (Some (st, text)) -> WInv w -> WInv (set_app w st).
Proof.
  intros E. pose proof (retrieve_quiet _ _ _ _ _ _ _ _ E) as Q. revert E. unfold serve_mcp.
  destruct (resolve_scope (w_app w) token) as [[sid cell]|]; [|done].
  unfold cc_squash_retrieve. destruct (RefId_parse ref_id) as [id|]; [|intros; simplify_eq/=; by apply (WInv_same w)].
  destruct db_fails; [intros; simplify_eq/=; by apply (WInv_same w)|]. cbn [fst snd].
  destruct (retrieve _ id sid query now) as [store [[text' n|]|]]; cbn [mbind option_bind fmap option_map]; intros E;
    simplify_eq/=; [|by apply (WInv_same w)].
  case_match; [|by apply (WInv_same w)]. unfold mark_hot in *. destruct cell as [l|]; [by eapply (WInv_econ w _ l) | by apply (WInv_same w)].
Qed.

Lemma begin_turn_WInv w t req now : orderly w t req -> WInv w -> WInv (begin_turn w t req now).
Proof.
  intros [G Id] I. destruct (begin_turn_ok w t req now G (winv_app _ I)) as (Ia & Cl & _ & F).
  assert (Fo : Forall (flight_ok (w_app (begin_turn w t req now)) (w_sent (begin_turn w t req now))) (w_flights w)).
  { pose proof (winv_flights _ I) as Fo. rewrite Forall_forall in Fo |- *. intros f If.
    apply (flight_ok_calm (eq t) (w_app w) (w_sent w)); [|exact Cl | by apply Fo].
    unfold idle in Id. rewrite Forall_forall in Id. intros E. by apply (Id f If). }
  split; [exact Ia | |].
  - destruct F as [->|(f & -> & _ & Of)]; [exact Fo|]. apply Forall_app. split; [exact Fo | by apply Forall_singleton].
  - destruct F as [->|(f & -> & Tf & _)]; [apply I|]. rewrite fmap_app. apply NoDup_app. split; [apply I|].
    split; [|apply NoDup_singleton]. intros x (g & -> & Ig)%list_elem_of_fmap Ix. apply list_elem_of_singleton in Ix.
    unfold idle in Id. rewrite Forall_forall in Id. apply (Id g Ig). congruence.
Qed.

Lemma finish_turn_WInv w i outcome : sha256_law -> WInv w -> WInv (finish_turn w i outcome).
Proof.
  intros L I. unfold finish_turn.
  destruct (w_flights w !! i) as [f|] eqn:Ef; [|done]. pose proof (winv_flights _ I) as Fo.
  assert (Of : flight_ok (w_app w) (w_sent w) f) by (eapply Forall_lookup_1; [exact Fo | exact Ef]).
  destruct (finish_turn_ok _ _ f outcome L (winv_app _ I) Of) as [Ia Cl].
  split; [exact Ia | |]; cbn [w_flights].
  - apply Forall_lookup. intros k g Eg. assert (X : exists k', w_flights w !! k' = Some g /\ k' <> i).
    { destruct (decide (k < i)%nat).
      - rewrite list_lookup_delete_lt in Eg by done. exists k. split; [done | lia].
      - rewrite list_lookup_delete_ge in Eg by lia. exists (S k). split; [done | lia]. }
    destruct X as (k' & Eg' & N). apply (flight_ok_calm (eq (fl_token f)) (w_app w) (w_sent w)); [|exact Cl | by eapply Forall_lookup_1].
    intros E. apply N. eapply (NoDup_lookup (fl_token <$> w_flights w) k' i (fl_token f)); [apply I | | by rewrite list_lookup_fmap, Ef].
    rewrite list_lookup_fmap, Eg'. cbn. by rewrite E.
  - rewrite list_fmap_delete. eapply sublist_NoDup; [apply I | apply sublist_delete].
Qed.

Lemma drop_turn_WInv w i : WInv w -> WInv (drop_turn w i).
Proof.
  intros I. split; [apply I | apply Forall_delete, I|].
  cbn [drop_turn w_flights]. rewrite list_fmap_delete. eapply sublist_NoDup; [apply I | apply sublist_delete].
Qed.

Lemma step_ok w w' : sha256_law -> step orderly w w' -> WInv w -> WInv w'.
Proof.
  intros L St. destruct St as [w t req now O|w i outcome|w i|w l bytes sid now|w i|w l observed now clock|w c|w i now
    |w token ref_id query db_fails now st text Sm]; intros I.
  - by apply begin_turn_WInv.
  - by apply finish_turn_WInv.
  - by apply drop_turn_WInv.
  - by apply spawn_ok.
  - by apply advance_ok.
  - eapply (WInv_econ w _ l); [apply drain_quiet | done | done | done | | done]. intros s. apply drain_same_window.
  - by apply control_frame_ok.
  - by apply sweep_next_ok.
  - by eapply retrieve_step_ok.
Qed.

Lemma orderly_ok w : sha256_law -> reachable orderly w -> WInv w.
Proof.
  intros L. apply reachable_invariant.
  - intros u store _. split; [apply Inv_start | by apply Forall_nil | by apply NoDup_nil].
  - intros w0 w' _ I St. by eapply step_ok.
Qed.

(** ** The fast lane *)

(** The keys the second half of a turn adds to the session's commitments. *)
Lemma fold_flight_commits outcome bytes inputs s key n :
  sha256_law -> (forall i, inputs = Some i -> in_window_closed i = false -> (n <= in_last_message_count i)%nat) ->
  key ∈ s_fast_lane (fold_flight outcome bytes inputs s) -> key ∉ s_fast_lane s ->
  exists body seg, parse_body bytes = Some body /\ seg ∈ segment_prompt body /\
    content_address (segment_payload_bytes seg body) = Some key /\ kind seg = ToolPair /\
    forall u, u ∈ source_uuids seg -> exists m, message_index u = Some m /\ (n <= m)%nat.
Proof.
  intros L W K N. unfold fold_flight in K.
  assert (E0 : forall s b, s_fast_lane (stash_egress_snapshot s b) = s_fast_lane s)
    by (intros s0 b; unfold stash_egress_snapshot; by destruct (parse_body b)).
  rewrite E0 in K. destruct inputs as [inputs|]; [|done]. specialize (W inputs eq_refl). set (out := run outcome bytes inputs) in *.
  assert (Kc : key ∈ fast_lane_committed out).
  { unfold fold_intercepted, commit_fast_lane in K. destruct (out_predicted_bust out); case_match; cbn in K; set_solver. }
  destruct (run_cases outcome bytes inputs L) as [Id | (body & new & P & _ & _ & _ & Co & _)].
  { fold out in Id. rewrite Id in Kc. cbn in Kc. set_solver. }
  destruct (Co key Kc) as (_ & Cl & seg & I & A & T & _ & Pu). exists body, seg. repeat (split; [done|]).
  intros u U. unfold provably_uncached in Pu. apply andb_true_iff in Pu as [_ Pu]. rewrite allb_spec in Pu.
  specialize (Pu u U). destruct (message_index u) as [m|]; [|done]. exists m. split; [done|].
  apply Nat.leb_le in Pu. specialize (W Cl). lia.
Qed.
End Window.

Section Theorems.
Context `{Breaker, SerdeJson, SerdeValue, SerdeSlice, Sha256, Libm, FormatCore, Similar, Upstream, Database, Unicode}.

(** C2. The fast lane never rewrites what was already sent.  From every state the
    proxy can reach (turns of any sessions at once, killed, shadowed,
    synthesised or intercepted, their interceptor tasks ending in any order and
    in any way, or dropped with their client; staging tasks, usage observations,
    control frames, sweeps and retrievals interleaved), only the end of a turn ever adds a key to a
    session's commitments, and the key addresses a tool pair of that turn's
    request each of whose messages lies past every message the session has sent
    upstream, so the rewrite cannot invalidate a cached prefix.  Assumed of the
    client: it resends its whole transcript, one request of a session at a
    time ([overlap_rewrites_sent] shows a run without the assumption). *)
Theorem fast_lane_never_rewrites_sent w w' l key :
  sha256_law -> reachable orderly w -> step orderly w w' ->
  key ∈ lane (w_app w') l -> key ∉ lane (w_app w) l ->
  exists f body seg, f ∈ w_flights w /\ fl_cell f = l /\ parse_body (fl_bytes f) = Some body /\
    seg ∈ segment_prompt body /\ content_address (segment_payload_bytes seg body) = Some key /\ kind seg = ToolPair /\
    forall u, u ∈ source_uuids seg -> exists m, message_index u = Some m /\ (sent_of (w_sent w) (fl_token f) <= m)%nat.
Proof.
  intros L R St K N. pose proof (orderly_ok _ L R) as I. apply step_cases in St as [Q|[(t & req & now & [G _] & ->)|[(i & outcome & ->)|(i & ->)]]]; [| | |done].
  - destruct Q as (_ & La & _). by rewrite La in K.
  - destruct (begin_turn_ok w t req now G (winv_app _ I)) as (_ & _ & La & _). by rewrite La in K.
  - unfold finish_turn in K. destruct (w_flights w !! i) as [f|] eqn:Ef; [|done].
    assert (Of : flight_ok (w_app w) (w_sent w) f) by (eapply Forall_lookup_1; [exact (winv_flights _ I) | exact Ef]).
    unfold lane in K, N. cbn [w_app with_econ set_econs econs] in K. destruct (decide (l = fl_cell f)) as [->|Nl];
      [|by rewrite lookup_alter_ne in K].
    rewrite lookup_alter_eq in K. destruct Of as ([s Ls] & _ & _ & Io). rewrite Ls in K, N.
    destruct (fold_flight_commits outcome (fl_bytes f) (fl_inputs f) s key (sent_of (w_sent w) (fl_token f)) L
      Io K N) as (body & seg & ?).
    exists f, body, seg. split; [by eapply list_elem_of_lookup_2|]. done.
Qed.

(** The assumption is needed: after an uninspected turn that sent [n] messages,
    an inspected request with fewer reopens the window below [n]. *)
Lemma window_reopens_below s n body w :
  window_ok n (close_window s) /\
  (parse_body body = Some w -> (s_last_message_count s < n)%nat -> (length (messages w) < n)%nat ->
   ~ window_ok n (stash_egress_snapshot (close_window s) body)).
Proof.
  split; [done|]. intros P L1 L2. unfold stash_egress_snapshot. rewrite P. intros W. specialize (W eq_refl).
  cbn in W. lia.
Qed.

End Theorems.

(** ** A concrete turn: the noisy tool result of [System]'s run is committed *)

Section Run.
#[local] Existing Instances open_breaker no_slice scan_serde scan_values length_digest flat_libm no_format no_diff down
  reliable ascii_unicode.

Lemma world_flight_reachable : reachable orderly world_flight.
Proof.
  apply (reachable_step orderly world_open); [exact world_open_reachable|]. apply (step_begin orderly world_open). split.
  - intros bytes body B P. rewrite world_open_sent.
    assert (X : to_bytes (req_body (request_of lane_request)) = Some lane_request) by (vm_compute; reflexivity).
    rewrite X in B. injection B as <-. assert (Y : (length <$> (messages <$> parse_body lane_request)) = Some 4%nat) by (vm_compute; reflexivity).
    rewrite P in Y. injection Y as ->. repeat constructor.
  - unfold idle. rewrite world_open_idle. apply Forall_nil. exact I.
Qed.

Lemma world_flight_sent : sent_of (w_sent world_flight) tok = 1%nat.
Proof. vm_compute. reflexivity. Qed.
Lemma world_flight_lane : lane (w_app world_flight) 0%nat = ∅.
Proof. vm_compute. reflexivity. Qed.
Lemma world_flight_flights : (fun f => (fl_token f, fl_bytes f)) <$> w_flights world_flight = [(tok, lane_request)].
Proof. vm_compute. reflexivity. Qed.

(** The key the end of the turn commits, computed. *)
Lemma committed_key : exists key, key ∈ lane (w_app (finish_turn world_flight 0 Finished)) 0%nat.
Proof.
  assert (X : negb (is_empty (elements (lane (w_app (finish_turn world_flight 0 Finished)) 0%nat))) = true) by (vm_compute; reflexivity).
  destruct (elements (lane _ _)) as [|key ks] eqn:E; [discriminate X|]. exists key. apply elem_of_elements. rewrite E. apply list_elem_of_here.
Qed.

Lemma fast_lane_never_rewrites_sent_witness :
  sent_of (w_sent world_flight) tok = 1%nat /\
  exists key body seg, parse_body lane_request = Some body /\ seg ∈ segment_prompt body /\
    content_address (segment_payload_bytes seg body) = Some key /\
    forall u, u ∈ source_uuids seg -> exists m, message_index u = Some m /\ (1 <= m)%nat.
Proof.
  split; [exact world_flight_sent|]. destruct committed_key as [key K].
  destruct (fast_lane_never_rewrites_sent world_flight (finish_turn world_flight 0 Finished) 0%nat key
    length_digest_law world_flight_reachable (step_finish orderly world_flight 0 Finished) K) as (f & body & seg & If & _ & P & M & A & _ & U).
  - rewrite world_flight_lane. apply not_elem_of_empty.
  - assert (Ef : (fl_token f, fl_bytes f) ∈ (fun f => (fl_token f, fl_bytes f)) <$> w_flights world_flight)
      by (apply list_elem_of_fmap_2 with (f := fun f => (fl_token f, fl_bytes f)); exact If).
    rewrite world_flight_flights in Ef. apply list_elem_of_singleton in Ef. injection Ef as Et Eb.
    rewrite Et, world_flight_sent in U. rewrite Eb in P.
    exists key, body, seg. split; [exact P|]. split; [exact M|]. split; [exact A|]. exact U.
Defined.

(** Not so for turns that overlap.  The same request comes twice; the second
    turn's interceptor runs out of time, so all four messages go upstream as they
    came; the first turn, which saw the window of the turn before, then rewrites
    one of them. *)
Definition world_overlap : World := finish_turn (begin_turn world_flight tok (request_of lane_request) f64_zero) 1 Elapsed.

Lemma overlap_rewrites_sent :
  reachable any_client world_overlap /\ sent_of (w_sent world_overlap) tok = 4%nat /\
  (fl_bytes <$> w_flights world_overlap = [lane_request]) /\ message_count lane_request = 4%nat /\
  lane (w_app world_overlap) 0%nat = ∅ /\ lane (w_app (finish_turn world_overlap 0 Finished)) 0%nat <> ∅.
Proof.
  split; [|repeat (split; [vm_compute; reflexivity|])].
  - eapply reachable_step; [|apply step_finish]. eapply reachable_step; [|by apply step_begin].
    apply (reachable_any orderly), world_flight_reachable.
  - intros E. assert (X : elements (lane (w_app (finish_turn world_overlap 0 Finished)) 0%nat) <> []) by (vm_compute; discriminate).
    apply X. rewrite E. apply elements_empty.
Qed.
End Run.
