(* ===== verification/Stored.v ===== *)
(** * What is staged is in the store

    The invariant of [System] that holds for any client, whatever it sends and
    however many turns of a session overlap: each entry a session has staged, a
    running task has planned or a turn in flight carries has its original in
    the store, unless a sweep that ran in this very history took it. *)
From S2P Require Import Prelude RStr F64 Core Economics Config Wire Segment Policy Scorer Pipeline Ladder Targets Recode Rewrite Marker Bm25 Store Session Intercept UsageTap Synth Summarizer Staging App Relay Seam System.

Local Open Scope Z_scope.

Definition stored `{Sha256} (store : RefStore) (key : RefId) : Prop :=
  exists row, store !! RefId_as_str key = Some row /\ content_address (row_original row) = Some key.

Section Stored.
Context `{Breaker, SerdeJson, SerdeValue, SerdeSlice, Sha256, Libm, FormatCore, Similar, Upstream, Database, Unicode}.

(** ** Every entry satisfies [P] *)

Definition plan_backed (P : RefId -> StagedEntry -> Prop) (plan : StagedPlan) : Prop :=
  forall key e, by_content plan !! key = Some e -> P key e.

Definition backed (P : RefId -> StagedEntry -> Prop) (s : SessionEcon) : Prop :=
  forall plan, s_staged s = Some plan -> plan_backed P plan.

Definition cells_backed (P : RefId -> StagedEntry -> Prop) (st : AppState) : Prop :=
  map_Forall (fun _ => backed P) (econs st).

Definition inputs_backed (P : RefId -> StagedEntry -> Prop) (inputs : option InterceptInputs) : Prop :=
  forall i plan, inputs = Some i -> in_staged i = Some plan -> plan_backed P plan.

Lemma elem_of_staged_keys s key :
  key ∈ staged_keys s <-> exists plan e, s_staged s = Some plan /\ by_content plan !! key = Some e.
Proof.
  unfold staged_keys. destruct (s_staged s) as [plan|]; [|set_solver]. rewrite list_elem_of_fmap. split.
  - intros ([k e] & -> & I). apply elem_of_map_to_list in I. eauto.
  - intros (p & e & [= <-] & L). exists (key, e). split; [done|]. by apply elem_of_map_to_list.
Qed.

(** A critical section that keeps what is staged. *)
Definition same_staged (f : SessionEcon -> SessionEcon) : Prop := forall s, s_staged (f s) = s_staged s.

Lemma release_staged : same_staged release.
Proof. done. Qed.
Lemma close_window_staged : same_staged close_window.
Proof. done. Qed.
Lemma drain_staged observed now clock : same_staged (fun s => drain s observed now clock).
Proof. intros s. unfold drain, observe, calibrate. by destruct (s_last_estimated_prefix _). Qed.
Lemma fold_flight_staged outcome bytes inputs : same_staged (fold_flight outcome bytes inputs).
Proof.
  intros s. unfold fold_flight, stash_egress_snapshot, fold_intercepted, commit_fast_lane. by repeat case_match.
Qed.
Lemma set_hot_staged hot : same_staged (fun s => set_hot s hot).
Proof. done. Qed.

Section Cells.
Context (P : RefId -> StagedEntry -> Prop).

Lemma cells_econ st l f : (forall s, backed P s -> backed P (f s)) -> cells_backed P st -> cells_backed P (with_econ st l f).
Proof.
  intros F C l' s Ls. cbn in Ls. destruct (decide (l' = l)) as [->|N].
  - rewrite lookup_alter_eq in Ls. destruct (econs st !! l) as [s0|] eqn:E; [|done]. injection Ls as <-. by apply F, (C l).
  - rewrite lookup_alter_ne in Ls by done. by apply (C l').
Qed.

Lemma cells_same_staged st l f : same_staged f -> cells_backed P st -> cells_backed P (with_econ st l f).
Proof. intros S. apply cells_econ. intros s B plan. rewrite S. apply B. Qed.

Lemma cells_insert st l s : backed P s -> cells_backed P st -> cells_backed P (set_econs st (<[l := s]> (econs st))).
Proof. intros B C. by apply map_Forall_insert_2. Qed.

Lemma cells_close_session st token : cells_backed P st -> cells_backed P (close_session st token).
Proof. unfold close_session. destruct (token ≫= econ_cell st) as [l|]; [|done]. by apply cells_same_staged. Qed.

Lemma fresh_econ_backed st ctx headers body now : backed P (fresh_econ st ctx headers body now).
Proof. done. Qed.

Lemma forward_setup_backed st t headers body now st' l staging :
  forward_setup st t headers body now = Some (st', l, staging) -> cells_backed P st ->
  cells_backed P st' /\ app_store st' = app_store st.
Proof.
  unfold forward_setup, lazy_econ. intros E C. apply bind_Some in E as ([[st1 l1] sid] & E1 & E).
  apply bind_Some in E1 as (ctx & Hc & E1). apply bind_Some in E as (s & Hs & E).
  assert (X : cells_backed P st1 /\ app_store st1 = app_store st).
  { destruct (ctx_econ_cell ctx) as [l0|]; [by injection E1 as <- _ _|]. unfold init_econ in E1. injection E1 as <- _ _.
    split; [|done]. exact (cells_insert st (new_cell st) _ (fresh_econ_backed st ctx headers body now) C). }
  destruct X as [C1 S1]. destruct (claim_staging s) as [s' won] eqn:Cl. injection E as <- _ _. split; [|done].
  apply cells_insert; [|done]. intros plan. unfold claim_staging in Cl. destruct (s_staging s); injection Cl as <- _; exact (C1 l1 s Hs plan).
Qed.

Lemma intercept_inputs_backed s now s' inputs :
  intercept_inputs s now = (s', inputs) -> backed P s -> backed P s' /\ inputs_backed P inputs.
Proof.
  unfold intercept_inputs. intros E B.
  destruct (s_intercept_enabled s); [destruct (s_econ s) as [e|]|]; injection E as <- <-; [|by split..].
  split; [done|]. intros i plan [= <-]. apply B.
Qed.

Lemma serve_begin_backed st req inspect now st' b :
  serve_begin st req inspect now = (st', b) -> cells_backed P st ->
  cells_backed P st' /\ app_store st' = app_store st /\
  match b with Begun_Flight _ _ _ inputs => inputs_backed P inputs | _ => True end.
Proof.
  assert (Sc : forall s t, app_store (close_session s t) = app_store s) by (intros s t; unfold close_session; by case_match).
  unfold serve_begin. intros E C. destruct (kill_gate st inspect) as [st1 inspect1] eqn:K.
  assert (X : cells_backed P st1 /\ app_store st1 = app_store st).
  { unfold kill_gate in K. destruct (kill st); injection K as <- _; [|done].
    destruct inspect as [[t|]|]; [|done|done]. split; [by apply cells_close_session | apply Sc]. }
  destruct X as [C1 S1]. destruct (to_bytes (req_body req)) as [bytes|]; [|by injection E as <- <-].
  destruct inspect1 as [token|]; [|by injection E as <- <-].
  destruct (synth_decide bytes) as [inputs|].
  { destruct (shadow st1); injection E as <- <-; [|done]. split; [by apply cells_close_session|]. by rewrite Sc. }
  unfold forward_begin in E. destruct token as [t|]; cbn [mbind option_bind] in E; [|by injection E as <- <-].
  destruct (forward_setup st1 t _ bytes now) as [[[st2 l] staging]|] eqn:F; [|by injection E as <- <-].
  destruct (forward_setup_backed _ _ _ _ _ _ _ _ F C1) as [C2 S2].
  destruct (econs st2 !! l) as [s|] eqn:Ls; [|injection E as <- <-; by rewrite S2].
  destruct (intercept_inputs s now) as [s' inputs] eqn:I. injection E as <- <-.
  destruct (intercept_inputs_backed _ _ _ _ I (C2 _ _ Ls)) as [B Ib].
  split; [by apply cells_insert|]. split; [exact (eq_trans S2 S1) | exact Ib].
Qed.
End Cells.

Lemma plan_backed_mono (P P' : RefId -> StagedEntry -> Prop) plan :
  (forall key e, P key e -> P' key e) -> plan_backed P plan -> plan_backed P' plan.
Proof. intros M B key e L. by apply M, B. Qed.

Lemma cells_mono (P P' : RefId -> StagedEntry -> Prop) st :
  (forall key e, P key e -> P' key e) -> cells_backed P st -> cells_backed P' st.
Proof. intros M C l s L plan E. apply (plan_backed_mono P P'); [done|]. by apply (C l s). Qed.

Lemma stored_mono (store store' : RefStore) key :
  (forall id, is_Some (store !! id) -> store' !! id = store !! id) -> stored store key -> stored store' key.
Proof. intros M (row & L & A). exists row. split; [|done]. rewrite M; eauto. Qed.

(** *** The entries of a world: those of its cells, its tasks and its turns in
    flight *)

Definition world_backed (P : RefId -> StagedEntry -> Prop) (w : World) : Prop :=
  cells_backed P (w_app w) /\ Forall (fun lt => plan_backed P (tk_plan lt.2)) (w_tasks w) /\
  Forall (fun f => inputs_backed P (fl_inputs f)) (w_flights w).

Definition world_plan (w : World) (plan : StagedPlan) : Prop :=
  (exists l s, econs (w_app w) !! l = Some s /\ s_staged s = Some plan) \/
  (exists l t, (l, t) ∈ w_tasks w /\ tk_plan t = plan) \/
  (exists f inputs, f ∈ w_flights w /\ fl_inputs f = Some inputs /\ in_staged inputs = Some plan).

Definition planned (w : World) (key : RefId) (e : StagedEntry) : Prop :=
  exists plan, world_plan w plan /\ by_content plan !! key = Some e.

Lemma world_backed_planned P w : world_backed P w -> forall key e, planned w key e -> P key e.
Proof.
  intros (C & T & F) key e (plan & Pl & L). rewrite Forall_forall in T. rewrite Forall_forall in F.
  destruct Pl as [(l & s & Ls & St)|[(l & t & It & <-)|(f & i & If & Ei & Es)]].
  - exact (C l s Ls plan St key e L).
  - exact (T (l, t) It key e L).
  - exact (F f If i plan Ei Es key e L).
Qed.

Lemma planned_backed w : world_backed (planned w) w.
Proof.
  split; [|split; apply Forall_forall].
  - intros l s Ls plan St key e L. exists plan. split; [left; eauto | done].
  - intros [l t] It key e L. exists (tk_plan t). split; [right; left; eauto | done].
  - intros f If i plan Ei Es key e L. exists plan. split; [right; right; eauto 10 | done].
Qed.

(** *** What one step keeps *)

(** The sweep of [i] takes the row of the key: the row was there, its set does
    not hold the key, and the row was first stored longer ago than the grace
    period. *)
Definition takes_row (w w' : World) (i : nat) (reached : list RefId) (key : RefId) : Prop :=
  exists now row, w' = sweep_next w i now /\ w_sweeps w !! i = Some reached /\ key ∉ reached /\
    app_store (w_app w) !! RefId_as_str key = Some row /\
    f64_ltb GRACE_SECONDS (f64_sub now (row_created_at row)) = true /\
    app_store (w_app w') !! RefId_as_str key = None.

(** Entries are old or have just been stored; rows stay but for a sweep; a sweep
    is asked for with the reachable set of the moment. *)
Record keeps (w w' : World) : Prop := {
  keeps_store : store_ok (app_store (w_app w'));
  keeps_tasks : Forall (fun lt => task_ok lt.2) (w_tasks w');
  keeps_entries : world_backed (fun key e => planned w key e \/ (stored (app_store (w_app w')) key /\ entry_wf key e)) w';
  keeps_rows : forall key, stored (app_store (w_app w)) key ->
    stored (app_store (w_app w')) key \/ exists i reached, takes_row w w' i reached key;
  keeps_sweeps : forall reached, reached ∈ w_sweeps w' -> reached ∈ w_sweeps w \/ reached = run_gc (w_app w);
}.

(** What the steps rely on. *)
Definition sound (w : World) : Prop := store_ok (app_store (w_app w)) /\ Forall (fun lt => task_ok lt.2) (w_tasks w).

Lemma old_elements {A} (Q : A -> Prop) (l l' : list A) : l' ⊆ l -> Forall Q l -> Forall Q l'.
Proof. rewrite !Forall_forall. intros S F x Hx. by apply F, S. Qed.

Lemma world_backed_mono (P P' : RefId -> StagedEntry -> Prop) w :
  (forall key e, P key e -> P' key e) -> world_backed P w -> world_backed P' w.
Proof.
  intros M (C & T & F). split; [by eapply cells_mono|]. split; (eapply Forall_impl; [eassumption|]).
  - intros lt. by apply plan_backed_mono.
  - intros f B i plan Ei Es. eapply plan_backed_mono; [exact M | by eapply B].
Qed.

(** A step that adds no entry and leaves the store alone. *)
Lemma keeps_plain w w' :
  sound w -> app_store (w_app w') = app_store (w_app w) -> (forall P, cells_backed P (w_app w) -> cells_backed P (w_app w')) ->
  w_tasks w' ⊆ w_tasks w -> w_flights w' ⊆ w_flights w ->
  (forall reached, reached ∈ w_sweeps w' -> reached ∈ w_sweeps w \/ reached = run_gc (w_app w)) -> keeps w w'.
Proof.
  intros [S T] Es Ec Et Ef Sw. destruct (planned_backed w) as (C & Tb & Fb). split; [by rewrite Es | by eapply old_elements | | | done].
  - apply (world_backed_mono (planned w)); [by left|]. split; [by apply Ec|]. split; by eapply old_elements.
  - intros key K. left. by rewrite Es.
Qed.

(** *** Every step *)

Lemma delete_subseteq {A} i (l : list A) : delete i l ⊆ l.
Proof. intros x. apply sublist_subseteq, sublist_delete. Qed.

Lemma keeps_refl w : sound w -> keeps w w.
Proof. intros S. apply keeps_plain; auto. Qed.

Lemma begin_turn_keeps w t req now : sound w -> keeps w (begin_turn w t req now).
Proof.
  intros S. unfold begin_turn. destruct (serve_begin _ _ _ _) as [st' b] eqn:E.
  destruct (serve_begin_backed (planned w) _ _ _ _ _ _ E (proj1 (planned_backed w))) as (C & Es & B).
  destruct b as [served|l staging bytes inputs].
  - apply keeps_plain; auto. intros P Cp. exact (proj1 (serve_begin_backed P _ _ _ _ _ _ E Cp)).
  - destruct S as [S T]. destruct (planned_backed w) as (_ & Tb & Fb). split; cbn [w_app w_tasks w_flights w_sweeps]; [by rewrite Es | done | | | auto].
    + apply (world_backed_mono (planned w)); [by left|]. split; [done|]. split; [done|]. by apply Forall_app_2, Forall_singleton.
    + intros key K. left. by rewrite Es.
Qed.

Lemma econ_step_keeps w w' l f :
  sound w -> w_app w' = with_econ (w_app w) l f -> same_staged f -> w_tasks w' ⊆ w_tasks w -> w_flights w' ⊆ w_flights w ->
  w_sweeps w' = w_sweeps w -> keeps w w'.
Proof.
  intros S E F T Fl Sw. apply keeps_plain; [done | by rewrite E | | done | done | rewrite Sw; auto].
  intros P C. rewrite E. by apply cells_same_staged.
Qed.

Lemma finish_turn_keeps w i outcome : sound w -> keeps w (finish_turn w i outcome).
Proof.
  intros S. unfold finish_turn. destruct (w_flights w !! i) as [f|]; [|by apply keeps_refl].
  eapply econ_step_keeps; [done | reflexivity | apply fold_flight_staged | done | apply delete_subseteq | done].
Qed.

Lemma drop_turn_keeps w i : sound w -> keeps w (drop_turn w i).
Proof. intros S. apply keeps_plain; auto. apply delete_subseteq. Qed.

Lemma spawn_keeps w l bytes session_id now : sound w -> keeps w (spawn w l bytes session_id now).
Proof.
  intros [S T]. unfold spawn. destruct (econs (w_app w) !! l) as [s|]; [|by apply keeps_refl].
  destruct (task_start_ok (clone_inputs s) bytes session_id now) as (o & E & Ok). rewrite E. destruct o as [t|].
  - destruct (Ok t eq_refl) as [Tk P]. destruct (planned_backed w) as (C & Tb & Fb).
    split; cbn [set_tasks w_app w_tasks w_flights w_sweeps]; [done | by apply Forall_app_2, Forall_singleton | | by left | auto].
    apply (world_backed_mono (planned w)); [by left|]. split; [done|]. split; [|done]. apply Forall_app_2; [done|].
    apply Forall_singleton. cbn [snd]. rewrite P. intros key e. cbn. by rewrite lookup_empty.
  - eapply econ_step_keeps; [done | reflexivity | apply release_staged | done..].
Qed.

Lemma advance_keeps w i : sha256_law -> sound w -> keeps w (advance w i).
Proof.
  intros Law [S T]. unfold advance. destruct (w_tasks w !! i) as [[l t]|] eqn:Ti; [|by apply keeps_refl].
  destruct (planned_backed w) as (C & Tb & Fb). pose proof (Forall_lookup_1 _ _ _ _ T Ti) as Tk. pose proof (Forall_lookup_1 _ _ _ _ Tb Ti) as Pt.
  cbn [snd] in Tk, Pt. destruct (tk_rest t) as [|seg rest] eqn:R.
  - destruct (task_result t) as [plan working] eqn:Rs. unfold task_result in Rs. injection Rs as <- _.
    split; cbn [set_tasks set_app w_app w_tasks w_flights w_sweeps]; [done | by eapply old_elements, T; apply delete_subseteq | | by left | auto].
    apply (world_backed_mono (planned w)); [by left|]. split.
    + apply cells_econ; [|done]. by intros s _ plan' [= <-].
    + split; [eapply old_elements, Tb; apply delete_subseteq | done].
  - destruct (task_segment_ok (app_store (w_app w)) t Law S Tk) as (store & t' & E & S' & T' & Ms & P). rewrite E.
    split; cbn [set_tasks set_app set_store w_app w_tasks w_flights w_sweeps app_store]; [done | by apply Forall_insert | | | auto].
    + assert (O : forall key e, planned w key e -> planned w key e \/ (stored store key /\ entry_wf key e)) by (by left).
      split; [exact (cells_mono _ _ _ O C)|]. split.
      * apply Forall_insert; [eapply Forall_impl; [exact Tb | intros lt; by apply plan_backed_mono]|].
        intros key e L. destruct (P key e L) as [L0|[Wf Row]]; [left; by apply Pt | right; split; [exact Row | done]].
      * eapply Forall_impl; [exact Fb|]. intros f B j plan Ei Es. eapply plan_backed_mono; [exact O | by eapply B].
    + intros key K. left. by eapply stored_mono.
Qed.

Lemma sweep_next_keeps w i now : sound w -> keeps w (sweep_next w i now).
Proof.
  intros [S T]. unfold sweep_next. destruct (w_sweeps w !! i) as [r|] eqn:Si; [|by apply keeps_refl].
  split; cbn [w_app w_tasks w_flights w_sweeps]; [exact (gc_ok _ _ _ _ _ S) | done | | |].
  - apply (world_backed_mono (planned w)); [by left|]. exact (planned_backed w).
  - intros key (row & L & A). destruct (app_store (sweep (w_app w) r now) !! RefId_as_str key) as [row1|] eqn:L1.
    + left. destruct (gc_lookup (app_store (w_app w)) r GRACE_SECONDS MAX_REFS_BYTES now (RefId_as_str key)) as [E|(E & _)];
        cbn [sweep set_store app_store] in L1; rewrite E in L1; [|done].
      exists row1. rewrite L in L1. injection L1 as <-. split; [|done]. cbn [sweep set_store app_store]. by rewrite E.
    + right. exists i, r. destruct (gc_lookup (app_store (w_app w)) r GRACE_SECONDS MAX_REFS_BYTES now (RefId_as_str key))
        as [E|(_ & N & row' & L' & _ & O)]; cbn [sweep set_store app_store] in L1; [by rewrite E, L in L1|].
      exists now, row'. unfold sweep_next. rewrite Si. split; [done|]. split; [done|]. split.
      { intros Kr. by apply N, list_elem_of_fmap_2. }
      split; [done|]. split; [done|]. exact L1.
  - intros r' I. left. by eapply delete_subseteq.
Qed.

Lemma control_frame_keeps w c : sound w -> keeps w (control_frame w c).
Proof.
  intros S. unfold control_frame. assert (X : forall st spawned outcome, apply_control c (w_app w) = (st, spawned, outcome) ->
    app_store st = app_store (w_app w) /\ econs st = econs (w_app w) /\ (spawned = None \/ spawned = Some (run_gc (w_app w)))).
  { intros st spawned outcome E. destruct c as [p t config|p t|p on|p on|p|p]; cbn [apply_control] in E;
      [destruct (is_empty t) | destruct (is_empty t) | | | |]; injection E as <- <- <-; auto. }
  destruct (apply_control c (w_app w)) as [[st spawned] outcome]. destruct (X _ _ _ eq_refl) as (Es & Ee & Sp).
  apply keeps_plain; [done | done | | done | done |].
  - intros P C. unfold cells_backed. cbn [w_app]. by rewrite Ee.
  - cbn [w_sweeps]. intros r I%elem_of_app. destruct Sp as [-> | ->]; cbn [option_list] in I; [|].
    + destruct I as [I|I]; [by left | by apply not_elem_of_nil in I].
    + destruct I as [I|I%list_elem_of_singleton]; [by left | by right].
Qed.

Lemma retrieve_keeps w token ref_id query db_fails now st text :
  serve_mcp (w_app w) token ref_id query db_fails now = Some (Some (st, text)) -> sound w -> keeps w (set_app w st).
Proof.
  intros E S. pose proof S as [S0 _]. revert E. unfold serve_mcp.
  assert (Sm : keeps w (set_app w (w_app w))) by (apply keeps_plain; auto).
  destruct (resolve_scope (w_app w) token) as [[sid cell]|]; [|done].
  unfold cc_squash_retrieve. destruct (RefId_parse ref_id) as [id|]; [|intros; by simplify_eq/=].
  destruct db_fails; [intros; by simplify_eq/=|]. cbn [fst snd].
  pose proof (retrieve_ok _ id sid query now S0) as So.
  assert (Ro : forall i row, app_store (w_app w) !! i = Some row -> exists row', (retrieve (app_store (w_app w)) id sid query now).1 !! i = Some row'
    /\ row_original row' = row_original row) by (intros i row L; edestruct retrieve_rows as (r & ? & ? & _); eauto).
  destruct (retrieve (app_store (w_app w)) id sid query now) as [store result]. cbn [fst] in So, Ro.
  assert (K : forall key, stored (app_store (w_app w)) key -> stored store key).
  { intros key (row & L & A). destruct (Ro _ _ L) as (row' & L' & O). exists row'. split; [exact L'|]. by rewrite O. }
  assert (G : forall st', app_store st' = store -> (forall P, cells_backed P (w_app w) -> cells_backed P st') -> keeps w (set_app w st')).
  { intros st' Es Ec. destruct (planned_backed w) as (C & Tb & Fb). destruct S as [_ T].
    split; cbn [set_app w_app w_tasks w_flights w_sweeps]; rewrite ?Es; [done | done | | by left; apply K | auto].
    apply (world_backed_mono (planned w)); [by left|]. split; [by apply Ec | done]. }
  destruct result as [[text' n|]|]; cbn [mbind option_bind fmap option_map]; intros E; simplify_eq/=; [|by apply G].
  case_match; [|by apply G]. unfold mark_hot. destruct cell as [l|]; [|by apply G].
  apply G; [done|]. intros P C. apply cells_same_staged; [by intros s | exact C].
Qed.

Lemma step_keeps C w w' : sha256_law -> sound w -> step C w w' -> keeps w w'.
Proof.
  intros L S St. destruct St as [w t req now _|w i outcome|w i|w l bytes sid now|w i|w l observed now clock|w c|w i now
    |w token ref_id query db_fails now st text Sm].
  - by apply begin_turn_keeps.
  - by apply finish_turn_keeps.
  - by apply drop_turn_keeps.
  - by apply spawn_keeps.
  - by apply advance_keeps.
  - eapply econ_step_keeps; [done | reflexivity | apply drain_staged | done..].
  - by apply control_frame_keeps.
  - by apply sweep_next_keeps.
  - by eapply retrieve_keeps.
Qed.

(** ** Along a history *)

(** A sweep of this history took the key's row: at some step of it a sweep ran
    that was asked for earlier in it, at a moment when no registered session
    had the key staged; by the time it ran the key was planned and its row,
    then overdue, was removed. *)
Inductive evicted (key : RefId) : list World -> Prop :=
| evicted_now w w' past asked i e :
    takes_row w w' i (run_gc (w_app asked)) key -> planned w key e -> asked ∈ w :: past -> evicted key (w' :: w :: past)
| evicted_before w past : evicted key past -> evicted key (w :: past).

(** Without a waiting sweep there is no such step. *)
Lemma quiet_not_evicted key tr : Forall (fun w => w_sweeps w = []) tr -> ~ evicted key tr.
Proof.
  intros F E. induction E as [w w' past asked i e (now & row & _ & S & _) _ _|w past _ IH].
  - rewrite Forall_forall in F. rewrite (F w) in S by (by right; left). done.
  - apply IH. by apply Forall_cons in F as [_ ?].
Qed.

Definition held (w : World) (past : list World) (key : RefId) : Prop :=
  stored (app_store (w_app w)) key \/ evicted key (w :: past).
Definition kept (w : World) (past : list World) (key : RefId) (e : StagedEntry) : Prop := held w past key /\ entry_wf key e.

Record SInv (w : World) (past : list World) : Prop := {
  sinv_sound : sound w;
  sinv_planned : forall key e, planned w key e -> kept w past key e;
  sinv_sweeps : forall reached, reached ∈ w_sweeps w -> exists asked, asked ∈ w :: past /\ reached = run_gc (w_app asked);
}.

Lemma SInv_step w w' past : keeps w w' -> SInv w past -> SInv w' (w :: past).
Proof.
  intros [S T E R Sw] [_ P Q]. split; [done | |].
  - intros key e Pl. destruct (world_backed_planned _ _ E key e Pl) as [Old|[St Wf]]; [|by split; [left|]].
    destruct (P key e Old) as [[St|Ev] Wf]; split; try done; [|by right; apply evicted_before].
    destruct (R key St) as [St'|(i & reached & Tk)]; [by left|]. right. pose proof Tk as (now & row & _ & Si & _).
    destruct (Q reached) as (asked & Ia & ->); [by eapply list_elem_of_lookup_2|]. by eapply evicted_now.
  - intros reached I. destruct (Sw reached I) as [I'| ->]; [|exists w; split; [right; left | done]].
    destruct (Q reached I') as (asked & Ia & ->). exists asked. split; [by right | done].
Qed.

Lemma history_ok C w past : sha256_law -> history C (w :: past) -> SInv w past.
Proof.
  intros L. remember (w :: past) as tr eqn:E. intros R. revert w past E. induction R as [u store S|w0 w1 rest R IH St]; intros w past [= <- <-].
  - split; [split; [exact S | by apply Forall_nil] | |intros r I; by apply not_elem_of_nil in I].
    intros key e (plan & [(l & s & Ls & _)|[(l & t & I & _)|(f & i & I & _)]] & _);
      [cbn in Ls; by rewrite lookup_empty in Ls | by apply not_elem_of_nil in I..].
  - pose proof (IH _ _ eq_refl) as I. apply SInv_step; [|exact I]. eapply step_keeps; [done | apply I | done].
Qed.

Lemma elem_of_reachable_refs st t l s key :
  econ_cell st t = Some l -> econs st !! l = Some s -> key ∈ staged_keys s -> key ∈ reachable_refs st.
Proof.
  unfold econ_cell. intros E Ls K. apply bind_Some in E as (ctx & Hc & El). unfold reachable_refs.
  apply elem_of_concat. exists (staged_keys s). split; [|done]. apply list_elem_of_fmap_2, list_elem_of_omap.
  exists (t, ctx). split; [by apply elem_of_map_to_list|]. cbn [snd]. by rewrite El.
Qed.
End Stored.

Section Theorems.
Context `{Breaker, SerdeJson, SerdeValue, SerdeSlice, Sha256, Libm, FormatCore, Similar, Upstream, Database, Unicode}.

(** An entry the next turn of a registered session will splice, and one a turn
    in flight may be splicing. *)
Definition staged_in (w : World) (t : rstr) (key : RefId) (e : StagedEntry) : Prop :=
  exists l s plan, econ_cell (w_app w) t = Some l /\ econs (w_app w) !! l = Some s /\ s_staged s = Some plan /\
    by_content plan !! key = Some e.
Definition in_flight (w : World) (t : rstr) (key : RefId) (e : StagedEntry) : Prop :=
  exists f inputs plan, f ∈ w_flights w /\ fl_token f = t /\ fl_inputs f = Some inputs /\ in_staged inputs = Some plan /\
    by_content plan !! key = Some e.

Lemma in_flight_planned w t key e : in_flight w t key e -> planned w key e.
Proof. intros (f & inputs & plan & If & _ & Ei & Es & Lk). exists plan. split; [right; right; eauto 10 | done]. Qed.

(** C4. What is staged can be restored.  Take any history of the proxy, whatever
    its clients send, with the turns of one session or several, staging tasks
    and spawned sweeps interleaved, and an entry that a task has planned, a
    session has staged or a turn in flight carries at its end.  The entry got
    into a plan at a step that left its original in the store.  The store still
    holds it, under the address of its own bytes, unless a sweep of this
    history took it: one that was asked for when no registered session had the
    key staged, that waited until the key was planned, and that then found the
    row first stored longer ago than the grace period.  A sweep asked for now
    leaves the rows of all registered sessions alone. *)
Theorem staged_always_stored w past key e :
  sha256_law -> history any_client (w :: past) -> planned w key e ->
  store_ok (app_store (w_app w)) /\
  (forall w', step any_client w w' -> forall key' e', planned w' key' e' -> planned w key' e' \/ stored (app_store (w_app w')) key') /\
  ((exists row, app_store (w_app w) !! RefId_as_str key = Some row /\
      content_address (row_original row) = Some key /\ row_byte_len row = Z.of_nat (length (row_original row))) \/
   evicted key (w :: past)) /\
  (forall t, staged_in w t key e -> forall now,
     app_store (sweep (w_app w) (run_gc (w_app w)) now) !! RefId_as_str key = app_store (w_app w) !! RefId_as_str key).
Proof.
  intros L R K. pose proof (history_ok _ _ _ L R) as [[S T] P _]. split; [done|]. split; [|split].
  - intros w' St key' e' Pl. destruct (world_backed_planned _ _ (keeps_entries _ _ (step_keeps _ _ _ L (conj S T) St)) _ _ Pl) as [|[? _]]; auto.
  - destruct (P _ _ K) as [[(row & Lr & A)|Ev] _]; [left | by right].
    exists row. split; [done|]. split; [done|]. exact (proj2 (S _ _ Lr)).
  - intros t (l & s & plan & E & Ls & St & Lk) now. destruct (gc_lookup (app_store (w_app w)) (run_gc (w_app w)) GRACE_SECONDS
      MAX_REFS_BYTES now (RefId_as_str key)) as [Eq|(_ & N & _)]; [exact Eq|]. destruct N. apply list_elem_of_fmap_2.
    eapply elem_of_reachable_refs; [exact E | exact Ls | apply elem_of_staged_keys; eauto].
Qed.
End Theorems.

(** ** A concrete run: the staging of [System]'s turn *)

Section Run.
#[local] Existing Instances open_breaker no_slice scan_serde scan_values length_digest flat_libm no_format no_diff down
  reliable ascii_unicode.

Definition staged_and_stored (w : World) : bool :=
  match econs (w_app w) !! 0%nat with
  | Some s =>
      negb (is_empty (staged_keys s))
      && allb (fun key => bool_decide (is_Some (app_store (w_app w) !! RefId_as_str key))) (staged_keys s)
  | None => false
  end.

Lemma world_staged_keys :
  exists s key, econ_cell (w_app world_staged) tok = Some 0%nat /\ econs (w_app world_staged) !! 0%nat = Some s /\
    key ∈ staged_keys s /\ is_Some (app_store (w_app world_staged) !! RefId_as_str key).
Proof.
  assert (E : econ_cell (w_app world_staged) tok = Some 0%nat) by (vm_compute; reflexivity).
  assert (K : staged_and_stored world_staged = true) by (vm_compute; reflexivity). unfold staged_and_stored in K.
  destruct (econs (w_app world_staged) !! 0%nat) as [s|]; [|discriminate K].
  apply andb_true_iff in K as [N A].
  destruct (staged_keys s) as [|key ks] eqn:Ks; [discriminate N|]. exists s, key. split; [exact E|]. split; [reflexivity|].
  rewrite Ks. split; [apply list_elem_of_here|]. rewrite allb_spec in A.
  apply (bool_decide_eq_true_1 _ (A key (list_elem_of_here _ _))).
Qed.

(** No sweep was asked for, so the row is there; and it survives a sweep asked
    for now, at whatever time it runs. *)
Lemma staged_always_stored_witness :
  exists s key row, econs (w_app world_staged) !! 0%nat = Some s /\ key ∈ staged_keys s /\
    app_store (w_app world_staged) !! RefId_as_str key = Some row /\ content_address (row_original row) = Some key /\
    forall now, is_Some (app_store (sweep (w_app world_staged) (run_gc (w_app world_staged)) now) !! RefId_as_str key).
Proof.
  destruct world_staged_keys as (s & key & E & Ls & K & _). destruct world_staged_history as (past & R & Q).
  pose proof (proj1 (elem_of_staged_keys s key) K) as (plan & e & Sp & Lk).
  assert (St : staged_in world_staged tok key e)
    by (exists 0%nat, s, plan; split; [exact E | split; [exact Ls | split; [exact Sp | exact Lk]]]).
  assert (Pl : planned world_staged key e)
    by (exists plan; split; [left; exists 0%nat, s; split; [exact Ls | exact Sp] | exact Lk]).
  destruct (staged_always_stored world_staged past key e length_digest_law (history_client orderly any_client _ (fun _ _ _ _ => I) R) Pl)
    as (_ & _ & [(row & Lr & A & _)|Ev] & Sw); [|destruct (quiet_not_evicted _ _ Q Ev)].
  exists s, key, row. split; [exact Ls|]. split; [exact K|]. split; [exact Lr|]. split; [exact A|].
  intros now. rewrite (Sw tok St now), Lr. eexists. reflexivity.
Defined.

(** The event the theorem names can happen.  The proxy starts on a database that
    holds the payload's row from time 0; a [gc] frame takes its reachable set
    before the task commits; at 700 the row of the key the session has just
    staged is an eligible victim of the waiting sweep. *)
Definition world_stale : World :=
  let w := start (str "https://api.anthropic.com") (app_store (w_app world_staged)) in
  let w := control_frame w (Control_Mint 1 tok RelayConfig_default) in
  let w := one_turn w first_request f64_zero in
  let w := control_frame w (Control_Gc 1) in
  set_app w (stage_next (w_app w) 0%nat stage_request (SessionId_new tok) (f64_of_Z 700)).

Lemma stale_sweep_may_evict :
  match econs (w_app world_stale) !! 0%nat, w_sweeps world_stale with
  | Some s, [reached] =>
      negb (is_empty (staged_keys s))
      && allb (fun key => contains (RefId_as_str key)
                 (gc_id <$> gc_eligible reached GRACE_SECONDS (f64_of_Z 700) (gc_candidates (app_store (w_app world_stale)))))
           (staged_keys s)
  | _, _ => false
  end = true.
Proof. vm_compute. reflexivity. Qed.
End Run.
