(* ===== verification/Recover.v ===== *)
(** * What is squashed can be read back

    The composition of the renderers ([intercept.rs]), the marker scan
    ([marker.rs]), the store and the retrieval tool ([mcp.rs]) on the reachable
    states of [System]: from the text that stands in a squashed block to the
    original the tool answers with. *)
From S2P Require Import Prelude RStr F64 Core Economics Config Wire Segment Policy Scorer Pipeline Ladder Targets Recode Rewrite Utf8 Marker Bm25 Store Session Intercept UsageTap Synth Summarizer Staging App Relay Seam System Stored.

Local Open Scope Z_scope.

(** ** The texts an entry is replaced by *)

Definition summary_of (e : StagedEntry) : rstr := default [] (summary_content (se_decision e)).

Definition replacement_texts (e : StagedEntry) : list rstr :=
  match se_recode e with
  | None => [render_placeholder (se_rec e) (summary_of e) FUSE_UP; render_backref (rec_ref_id (se_rec e))]
  | Some r => option_list (render_proposal_text (recode_strategy r) (sr_marker r))
  end.

Section Rendered.
Context `{SerdeJson, SerdeValue, Sha256}.

(** A block the continuous path renders: a target of a segment filled with one
    of the texts of a row's entry. *)
Definition renders (live : list Live) (r : RenderedSegment) : Prop :=
  exists i e c t text, (i, e, c) ∈ live /\ r = render_target t text /\ text ∈ replacement_texts e.

Lemma render_reversible_targets_texts seg e key ts : forall first_seen r,
  se_recode e = None -> r ∈ (render_reversible_targets seg e key first_seen ts).1 ->
  exists t text, t ∈ ts /\ r = render_target t text /\ text ∈ replacement_texts e.
Proof.
  induction ts as [|t ts IH]; intros fs r N I; cbn [render_reversible_targets] in I; [by apply not_elem_of_nil in I|].
  destruct (render_reversible_target seg e key fs t) as [o fs1] eqn:E.
  specialize (IH fs1 r N). destruct (render_reversible_targets seg e key fs1 ts) as [rs fs2]. cbn [fst] in I, IH.
  assert (X : r ∈ rs \/ o = Some r) by (destruct o as [r1|]; [apply elem_of_cons in I as [->|I]; auto | auto]).
  destruct X as [X|X]; [destruct (IH X) as (t' & text & It & ?); exists t', text; split; [by apply list_elem_of_further | done]|].
  unfold render_reversible_target in E. cbn [render_proposal_text] in E. unfold replacement_texts, summary_of. rewrite N.
  exists t. destruct (fs !! key) as [prev|]; [destruct (backref_allowed _ _ _ _)|]; injection E as <- _; injection X as <-;
    eexists; (split; [apply list_elem_of_here | split; [reflexivity | set_solver]]).
Qed.

Lemma render_candidates_texts body segments live : forall first_seen rs r,
  render_candidates body segments first_seen live = Some (Some rs) -> r ∈ rs -> renders live r.
Proof.
  induction live as [|[[i e] c] live IH]; intros fs rs r E I; cbn [render_candidates] in E; [injection E as <-; by apply not_elem_of_nil in I|].
  destruct (segments !! i) as [seg|] eqn:Sg; [|done]. apply bind_Some in E as ([rendered fs1] & Er & E).
  destruct (is_empty rendered); [done|]. apply bind_Some in E as ([rs1|] & E1 & E); [|done]. injection E as <-.
  apply elem_of_app in I as [I|I].
  - assert (X : exists t text, r = render_target t text /\ text ∈ replacement_texts e).
    { destruct (se_recode e) as [rc|] eqn:Rc.
      - injection Er as <- <-. apply list_elem_of_omap in I as (t & It & Et).
        destruct (render_proposal_text _ _) as [text|] eqn:Tx; [|done]. injection Et as <-. exists t, text.
        split; [done|]. unfold replacement_texts. rewrite Rc, Tx. apply list_elem_of_here.
      - unfold render_reversible_segment in Er. apply bind_Some in Er as (key & _ & Er). injection Er as Er.
        destruct (render_reversible_targets_texts seg e key (squash_targets body seg) fs r Rc) as (t & text & _ & ?); [by rewrite Er|].
        by exists t, text. }
    destruct X as (t & text & ? & ?). exists i, e, c, t, text. split; [apply list_elem_of_here | done].
  - destruct (IH _ _ _ E1 I) as (i' & e' & c' & t & text & Il & ?). exists i', e', c', t, text.
    split; [by apply list_elem_of_further | done].
Qed.

Lemma placeholder_named pre rec summary fuse_up :
  ref_ok (rec_ref_id rec) ->
  rec_ref_id rec ∈ extract_refs (render_placeholder rec summary fuse_up) /\
  rec_ref_id rec ∈ extract_refs (pre ++ [LF] ++ render_placeholder rec summary fuse_up).
Proof. intros R. exact (extract_refs_line pre _ _ _ R (match_marker_placeholder rec _ R)). Qed.

Lemma backref_named pre key :
  ref_ok key ->
  key ∈ extract_refs (render_backref key) /\ key ∈ extract_refs (pre ++ [LF] ++ render_backref key).
Proof.
  intros R. pose proof (extract_refs_line pre _ _ _ R (match_marker_backref key [] R)) as X.
  by rewrite (app_nil_r (render_backref key)) in X.
Qed.

(** Every replacement names its key to the scan, but for a recode that needs no
    original. *)
Lemma replacement_names key e text :
  ref_ok key -> entry_wf key e -> text ∈ replacement_texts e ->
  key ∈ extract_refs text \/ exists r, se_recode e = Some r /\ sr_ref_id r = None /\ text = sr_content r.
Proof.
  intros R [K W] I. subst key. unfold replacement_texts in I. destruct (se_recode e) as [r|].
  - cbn [recode_strategy render_proposal_text option_list] in I. apply list_elem_of_singleton in I as I.
    destruct (sr_ref_id r) as [id|] eqn:Id; [|right; by exists r]. left. destruct W as (-> & m & Em & M). rewrite Em in I. subst text.
    destruct M as [-> | ->]; [exact (proj2 (backref_named _ _ R)) | exact (proj2 (placeholder_named _ _ _ _ R))].
  - left. apply elem_of_cons in I as [E|I]; [rewrite E; exact (proj1 (placeholder_named [] _ _ _ R))|].
    apply list_elem_of_singleton in I. rewrite I. exact (proj1 (backref_named [] _ R)).
Qed.
End Rendered.

(** ** Where a forwarded body's blocks come from *)

Section Origins.
Context `{SerdeJson, SerdeValue, Sha256, Libm, FormatCore}.

(** The fast lane's blocks hold the cleaned leaf. *)
Definition from_lane (body : WireBody) (r : RenderedSegment) : Prop :=
  exists seg leaf cleaned t, seg ∈ segment_prompt body /\ fast_lane_leaf body seg = Some leaf /\
    fast_lane_clean (leaf_content leaf) = Some cleaned /\ r = render_target t cleaned.

(** The budget fallback's blocks hold the drop placeholder. *)
Definition from_budget (inputs : InterceptInputs) (r : RenderedSegment) : Prop :=
  in_staged inputs = None /\ exists t, r = render_target t DROP_PLACEHOLDER.

Definition from_staged (inputs : InterceptInputs) (r : RenderedSegment) : Prop :=
  exists plan key e t text, in_staged inputs = Some plan /\ by_content plan !! key = Some e /\
    r = render_target t text /\ text ∈ replacement_texts e.

Definition block_origin (body : WireBody) (inputs : InterceptInputs) (r : RenderedSegment) : Prop :=
  from_lane body r \/ from_budget inputs r \/ from_staged inputs r.

(** A body put together from blocks that satisfy [P]. *)
Definition spliced_of (bytes : list byte) (body : WireBody) (P : RenderedSegment -> Prop) (out : Intercepted) : Prop :=
  out = identity bytes \/
  exists rendered plan s, splice bytes body rendered plan = Ok s /\ out_bytes out = spliced_bytes s /\
    forall r, r ∈ rendered -> P r.

Lemma shrinking_target_Some strategy t r :
  shrinking_target strategy t = Some r -> exists text, render_proposal_text strategy None = Some text /\ r = render_target t text.
Proof. unfold shrinking_target. intros E. apply bind_Some in E as (text & T & E). exists text. by case_match; simplify_eq. Qed.

Lemma lane_origin body segments keys inputs e r :
  segments = segment_prompt body -> e ∈ fast_lane_entries body segments keys inputs -> r ∈ lane_rendered e -> from_lane body r.
Proof.
  intros -> (seg & key & Hz & E)%fast_lane_entries_spec I.
  apply fast_lane_entry_Some in E as (leaf & cleaned & rendered & Hl & _ & Hc & Hr & -> & _). cbn [lane_rendered] in I.
  unfold render_fast_lane in Hr. apply bind_Some in Hr as (rs & M & Hr). destruct (is_empty rs); [done|]. injection Hr as <-.
  apply mapM_Some_1 in M. apply list_elem_of_lookup in I as (k & I).
  destruct (Forall2_lookup_r _ _ _ _ _ M I) as (t & _ & Es). apply shrinking_target_Some in Es as (text & T & ->).
  injection T as <-. exists seg, leaf, cleaned, t. split; [by eapply elem_of_zip_l | done].
Qed.

Lemma compact_origin body segments inputs policy ledger r :
  in_staged inputs = None -> r ∈ compact_rendered body segments policy ledger -> from_budget inputs r.
Proof.
  intros N (t & _ & E)%list_elem_of_omap. split; [done|]. apply shrinking_target_Some in E as (text & T & ->).
  change (Some DROP_PLACEHOLDER = Some text) in T. apply (inj Some) in T. rewrite <- T. by exists t.
Qed.

Lemma finish_origin (P : RenderedSegment -> Prop) bytes body base uncommit lane plan bust :
  (forall r, r ∈ base -> P r) -> (forall e r, e ∈ lane -> r ∈ lane_rendered e -> P r) ->
  spliced_of bytes body P (Intercept.finish bytes body base uncommit lane plan bust).
Proof.
  intros B Ln. unfold Intercept.finish. destruct (is_empty _); [by left|]. unfold splice_and_gate.
  destruct (splice _ _ _ _) as [s|] eqn:Sp; [|by left]. destruct (validate _ _); [|by left]. right.
  do 3 eexists. split; [exact Sp|]. split; [done|]. intros r [I|I]%elem_of_app; [by apply B|].
  apply elem_of_concat in I as (rs & (e & -> & Ie)%list_elem_of_fmap & Irs). apply elem_of_filterb in Ie as [Ie _]. by apply (Ln e).
Qed.

(** Every row comes from the plan. *)
Lemma live_rows_plan body segments plan inputs ps qs ledger i e c :
  (i, e, c) ∈ live_rows (omap (fun p => staged_segment body segments plan inputs p.1 p.2) ps)
                (omap (fun p => recode_row body segments plan inputs p.1 p.2) qs) ledger ->
  exists key, by_content plan !! key = Some e.
Proof.
  unfold live_rows. rewrite (sort_by_perm live_order). intros [I|I]%elem_of_app; apply list_elem_of_omap in I as (p & Ip & E).
  - apply bind_Some in E as ([st en] & F & E). injection E as <- <- <-. apply find_some in F as [F _].
    apply list_elem_of_In, list_elem_of_omap in F as ([seg key] & _ & F). exists key. unfold staged_segment in F. cbn [fst snd] in F.
    apply bind_Some in F as (e0 & L & F). destruct (se_recode e0); [done|]. apply bind_Some in F as (c0 & _ & F).
    by injection F as _ <-.
  - exists p.2. unfold recode_row in E. apply bind_Some in E as (e0 & L & E). apply bind_Some in E as (rc & _ & E).
    apply bind_Some in E as (c0 & _ & E). destruct (bool_decide _); [done|]. by injection E as _ <- _.
Qed.

Lemma continuous_origin bytes body keys plan inputs out :
  let segments := segment_prompt body in
  in_staged inputs = Some plan ->
  intercept_continuous bytes body segments keys plan inputs (fast_lane_entries body segments keys inputs) = Some out ->
  spliced_of bytes body (block_origin body inputs) out.
Proof.
  intros segments St E. unfold intercept_continuous in E.
  assert (Ln : forall e r, e ∈ fast_lane_entries body segments keys inputs -> r ∈ lane_rendered e -> block_origin body inputs r)
    by (intros e r Ie Ir; left; by eapply lane_origin).
  assert (Lo : spliced_of bytes body (block_origin body inputs) (lane_only bytes body (fast_lane_entries body segments keys inputs)))
    by (apply finish_origin; [set_solver | exact Ln]).
  apply bind_Some in E as (l & _ & E). apply bind_Some in E as (lk & _ & E). set (live := live_rows _ _ l) in E.
  assert (A : forall u bp cost, apply_live bytes body segments live u bp cost (fast_lane_entries body segments keys inputs) = Some out ->
    spliced_of bytes body (block_origin body inputs) out).
  { intros u bp cost Ea. unfold apply_live in Ea. apply bind_Some in Ea as ([rs|] & Er & Ea); injection Ea as <-; [|by left].
    apply finish_origin; [|exact Ln]. intros r Ir. right. right.
    destruct (render_candidates_texts _ _ _ _ _ _ Er Ir) as (i & e & c & t & text & Il & R & T).
    destruct (live_rows_plan _ _ _ _ _ _ _ _ _ _ Il) as (key & L). by exists plan, key, e, t, text. }
  destruct (is_empty live); [injection E as <-; exact Lo|]. apply bind_Some in E as (d & _ & E).
  destruct d as [? bp cost ?|?|? ?]; [by eapply A | injection E as <-; exact Lo | by eapply A].
Qed.

Lemma run_origin outcome bytes inputs :
  sha256_law -> let out := run outcome bytes inputs in
  out = identity bytes \/ exists body, parse_body bytes = Some body /\ spliced_of bytes body (block_origin body inputs) out.
Proof.
  intros L. destruct (intercept_total bytes inputs L) as [out E]. cbv zeta. destruct outcome; [|by left|by left].
  cbn [run]. rewrite E. change (default (identity bytes) (Some out)) with out. unfold intercept in E.
  destruct (_ <? _); [left; by injection E|]. destruct (parse_body bytes) as [body|]; [|left; by injection E].
  apply bind_Some in E as (keys & _ & E). right. exists body. split; [done|].
  destruct (in_staged inputs) as [plan|] eqn:St; [by eapply continuous_origin|].
  assert (Ln : forall e r, e ∈ fast_lane_entries body (segment_prompt body) keys inputs -> r ∈ lane_rendered e -> block_origin body inputs r)
    by (intros e r Ie Ir; left; by eapply lane_origin).
  unfold deterministic_compact in E. destruct (soft_pressure _ _).
  - injection E as <-. apply finish_origin; [set_solver | exact Ln].
  - apply bind_Some in E as (l & _ & E). injection E as <-. apply finish_origin; [|exact Ln].
    intros r Ir. right. left. by eapply compact_origin.
Qed.
End Origins.

(** ** From the block back to the original *)

Section Retrieval.
Context `{Breaker, SerdeJson, SerdeValue, SerdeSlice, Sha256, Libm, FormatCore, Similar, Upstream, Database, Unicode}.

Lemma content_address_ref_ok bytes key : sha256_law -> content_address bytes = Some key -> ref_ok key.
Proof.
  intros L E. rewrite content_address_total in E by done. injection E as <-. destruct (L bytes). by exists (sha256_hex bytes).
Qed.

(** What the tool answers a session that asks for a stored key: the whole
    original to the row's owner, the hint to any other; and the row stays. *)
Lemma retrieve_stored st t ctx key row now :
  ref_ok key -> sessions st !! t = Some ctx -> app_store st !! RefId_as_str key = Some row ->
  exists st', serve_mcp st t (RefId_as_str key) None false now =
      Some (Some (st', if bool_decide (row_session_id row = SessionId_as_str (ctx_session_id ctx))
                       then from_utf8_lossy (row_original row) else RECOVERY_HINT)) /\
    exists row', app_store st' !! RefId_as_str key = Some row' /\ row_original row' = row_original row.
Proof.
  intros R C L. unfold serve_mcp, resolve_scope. rewrite C. cbn [mbind option_bind].
  unfold cc_squash_retrieve. rewrite ref_ok_parse by done. cbn [fst snd]. unfold retrieve. rewrite L.
  case_bool_decide; cbn [mbind option_bind fmap option_fmap option_map].
  - eexists. split; [reflexivity|]. exists (bump row now). split; [|done].
    assert (X : forall st0, app_store (mark_hot st0 (ctx_econ_cell ctx) key) = app_store st0)
      by (intros st0; unfold mark_hot; by destruct (ctx_econ_cell ctx)).
    case_match; rewrite ?X; cbn; by rewrite lookup_insert_eq.
  - eexists. split; [reflexivity|]. by exists row.
Qed.

(** What stands in a block can be read back: the egress scan finds the key in
    the text, and unless a sweep of this history took the row ([evicted]), asking
    the tool for it yields the whole original to the session that owns the row
    and the hint to any other; a retrieval keeps the row, so any number of them
    answer alike. *)
Definition readable (w : World) (past : list World) (key : RefId) (text : rstr) : Prop :=
  key ∈ extract_refs text /\
  (evicted key (w :: past) \/
   exists row, app_store (w_app w) !! RefId_as_str key = Some row /\ content_address (row_original row) = Some key /\
     forall t ctx now, sessions (w_app w) !! t = Some ctx ->
       exists st', serve_mcp (w_app w) t (RefId_as_str key) None false now =
           Some (Some (st', if bool_decide (row_session_id row = SessionId_as_str (ctx_session_id ctx))
                            then from_utf8_lossy (row_original row) else RECOVERY_HINT)) /\
         history any_client (set_app w st' :: w :: past) /\
         exists row', app_store st' !! RefId_as_str key = Some row' /\ row_original row' = row_original row).

(** A recode that needs no original stands for itself. *)
Definition self_contained (e : StagedEntry) (text : rstr) : Prop :=
  exists r, se_recode e = Some r /\ sr_ref_id r = None /\ text = sr_content r.

(** A row that was evicted was stored first. *)
Lemma evicted_ref_ok w past key : sha256_law -> history any_client (w :: past) -> evicted key (w :: past) -> ref_ok key.
Proof.
  intros L. remember (w :: past) as tr eqn:E. intros R Ev. revert w past E R.
  induction Ev as [w0 w1 rest asked i e (now & row & _ & _ & _ & Lr & _) _ _|w0 rest Ev IH]; intros w past [= <- <-] R.
  - inversion R as [|? ? ? R0 _]; subst. destruct (sinv_sound _ _ (history_ok _ _ _ L R0)) as [S _].
    destruct (S _ _ Lr) as [A _]. apply (content_address_ref_ok (row_original row)); [done|]. rewrite A. by destruct key.
  - inversion R as [|? ? ? R0 _]; subst; [inversion Ev | by eapply IH].
Qed.

Lemma entry_readable w past key e text :
  sha256_law -> history any_client (w :: past) -> planned w key e -> text ∈ replacement_texts e ->
  self_contained e text \/ readable w past key text.
Proof.
  intros L R K I. destruct (sinv_planned _ _ (history_ok _ _ _ L R) _ _ K) as [Hd W].
  assert (O : ref_ok key).
  { destruct Hd as [(row & _ & A)|Ev]; [by eapply content_address_ref_ok | by eapply evicted_ref_ok]. }
  destruct (replacement_names key e text O W I) as [X|X]; [right | by left]. split; [exact X|].
  destruct Hd as [(row & Lr & A)|Ev]; [right | by left]. exists row. split; [exact Lr|]. split; [exact A|].
  intros t' ctx now C. destruct (retrieve_stored (w_app w) t' ctx key row now O C Lr) as (st' & E & Rw).
  exists st'. split; [exact E|]. split; [|exact Rw]. apply history_step; [exact R|]. by eapply step_retrieve.
Qed.

(** C1. What is squashed can be read back.  Take a turn in flight at the end of
    any history, whatever the clients sent in it.  What it forwards is the
    request as it came or the request with some blocks replaced, and each
    replaced block holds one of three things: the deterministic clean-up of the
    leaf it stands for (fast lane), the drop placeholder (only when nothing is
    staged), or a text of a staged entry. Such a text is a recode that needs no
    original, or the egress scan finds the entry's key in it and the retrieval
    tool gives the owner of the row the whole original whose bytes hash to that
    key, unless a sweep of this history, which waited while the entry came to be
    planned, found the row overdue and took it. *)
Theorem squashed_recoverable w past f inputs outcome :
  sha256_law -> history any_client (w :: past) -> f ∈ w_flights w -> fl_inputs f = Some inputs ->
  let out := run outcome (fl_bytes f) inputs in
  out = identity (fl_bytes f) \/
  exists body rendered plan s, parse_body (fl_bytes f) = Some body /\
    splice (fl_bytes f) body rendered plan = Ok s /\ out_bytes out = spliced_bytes s /\
    forall r, r ∈ rendered ->
      from_lane body r \/ from_budget inputs r \/
      exists t text key e, r = render_target t text /\ text ∈ replacement_texts e /\ in_flight w (fl_token f) key e /\
        (self_contained e text \/ readable w past key text).
Proof.
  intros L R If Ef out. destruct (run_origin outcome (fl_bytes f) inputs L) as [X|(body & P & X)]; [by left|].
  destruct X as [X|(rendered & plan & s & Sp & Eo & B)]; [by left|]. right. exists body, rendered, plan, s.
  split; [done|]. split; [done|]. split; [exact Eo|]. intros r Ir. destruct (B r Ir) as [X|[X|X]]; [by left | by right; left|].
  right. right. destruct X as (p & key & e & t & text & St & Lk & Er & Tx). exists t, text, key, e.
  assert (K : in_flight w (fl_token f) key e) by (by exists f, inputs, p).
  split; [exact Er|]. split; [exact Tx|]. split; [exact K|]. eapply entry_readable; [done | done | by eapply in_flight_planned | done].
Qed.
End Retrieval.

(** ** A concrete turn: the staged tool result is squashed by a paid flush *)

Definition flushed_request : list byte :=
  as_bytes (print_fields
    [(str "max_tokens", str "4096");
     (MESSAGES, print_array
        [wire_message (str "user") (quoted (replicate 6000 98));
         wire_message (str "assistant") (print_array [block_raw (tool_use_block (str "tu_1") (str "Bash"))]);
         wire_message (str "user") (print_array [block_raw (tool_result_block (str "tu_1") noisy_log)]);
         wire_message (str "assistant") (print_array [block_raw (text_block (str "done"))])]);
     (str "model", quoted (str "claude-opus-4-8"))]).

Section Run.
#[local] Existing Instances open_breaker no_slice scan_serde scan_values length_digest flat_libm no_format no_diff down
  reliable ascii_unicode.

(** A second request of the session arrives before the first has its answer, and
    with fewer messages: the turns overlap. *)
Definition world_flush : World :=
  begin_turn (begin_turn world_staged tok (request_of flushed_request) (f64_of_Z 700)) tok (request_of first_request) (f64_of_Z 701).

Lemma world_flush_history :
  exists past, history any_client (world_flush :: past) /\ Forall (fun w => w_sweeps w = []) (world_flush :: past).
Proof.
  destruct world_staged_history as (past & R & Q).
  set (w1 := begin_turn world_staged tok (request_of flushed_request) (f64_of_Z 700)).
  assert (B : forall w t req now, w_sweeps w = [] -> w_sweeps (begin_turn w t req now) = []).
  { intros w t req now E. unfold begin_turn. destruct (serve_begin _ _ _ _) as [? []]; exact E. }
  assert (Qs : w_sweeps world_staged = []) by (apply Forall_cons in Q as [Qs _]; exact Qs).
  exists (w1 :: world_staged :: past). split.
  - apply history_step; [|exact (step_begin any_client w1 tok (request_of first_request) (f64_of_Z 701) I)].
    apply history_step; [|exact (step_begin any_client world_staged tok (request_of flushed_request) (f64_of_Z 700) I)].
    exact (history_client orderly any_client _ (fun _ _ _ _ => I) R).
  - apply Forall_cons. split; [apply B, B, Qs|]. apply Forall_cons. split; [apply B, Qs | exact Q].
Qed.

(** The turn forwards something else than what came. *)
Definition rewrites (f : Flight) : bool :=
  match fl_inputs f with
  | Some inputs => negb (bool_decide (out_bytes (run Finished (fl_bytes f) inputs) = fl_bytes f))
  | None => false
  end.

Lemma world_flush_rewrites : exists f inputs, f ∈ w_flights world_flush /\ fl_inputs f = Some inputs /\
  out_bytes (run Finished (fl_bytes f) inputs) <> fl_bytes f.
Proof.
  assert (X : match w_flights world_flush with [f; _] => rewrites f | _ => false end = true) by (vm_compute; reflexivity).
  destruct (w_flights world_flush) as [|f [|? [|? ?]]]; [discriminate X|discriminate X| |discriminate X]. unfold rewrites in X.
  destruct (fl_inputs f) as [inputs|] eqn:E; [|discriminate X]. exists f, inputs. split; [apply list_elem_of_here|].
  split; [exact E|]. apply negb_true_iff, bool_decide_eq_false in X. exact X.
Qed.

(** Nothing was swept, so each marker that stands in the forwarded body names a
    row the store holds. *)
Lemma squashed_recoverable_witness :
  exists f inputs body rendered plan s, f ∈ w_flights world_flush /\ fl_inputs f = Some inputs /\
    splice (fl_bytes f) body rendered plan = Ok s /\ spliced_bytes s <> fl_bytes f /\
    forall r, r ∈ rendered ->
      from_lane body r \/ from_budget inputs r \/
      exists t text key e, r = render_target t text /\ in_flight world_flush (fl_token f) key e /\
        (self_contained e text \/
         key ∈ extract_refs text /\ exists row, app_store (w_app world_flush) !! RefId_as_str key = Some row /\
           content_address (row_original row) = Some key).
Proof.
  destruct world_flush_rewrites as (f & inputs & If & Ef & N). exists f, inputs. destruct world_flush_history as (past & R & Q).
  destruct (squashed_recoverable world_flush past f inputs Finished length_digest_law R If Ef)
    as [X|(body & rendered & plan & s & _ & Sp & Eo & B)].
  - exfalso. apply N. rewrite X. reflexivity.
  - exists body, rendered, plan, s. split; [exact If|]. split; [exact Ef|]. split; [exact Sp|]. split; [rewrite <- Eo; exact N|].
    intros r Ir. destruct (B r Ir) as [Y|[Y|(t & text & key & e & Er & _ & K & D)]]; [left; exact Y | right; left; exact Y|].
    right. right. exists t, text, key, e. split; [exact Er|]. split; [exact K|].
    destruct D as [D|[M [Ev|(row & Lr & A & _)]]]; [left; exact D | destruct (quiet_not_evicted _ _ Q Ev) | right].
    split; [exact M|]. exists row. split; [exact Lr | exact A].
Defined.
End Run.
