(* ===== verification/Guard.v ===== *)
(** * The staging guard of one session

    The overlap guard of [relay.rs] and [staging.rs] under interleaving: the
    handlers that won [claim_staging] and have not yet spawned their task, the
    tasks that run, the handlers dropped in between, and every other critical
    section of the session, one at a time in any order. *)
From S2P Require Import Prelude RStr F64 Core Economics Config Wire Segment Policy Scorer Pipeline Ladder Targets Recode Rewrite Marker Store Session Intercept UsageTap Staging App Relay Seam System.

Local Open Scope Z_scope.

(** The session; the handlers that claimed and did not spawn yet, the tasks that
    run, and the claims that went with a handler dropped between the two. *)
Record Guarded `{Breaker} := mkGuarded {
  g_econ : SessionEcon;
  g_claimed : nat;
  g_running : nat;
  g_lost : nat;
}.

Section Guard.
Context `{Breaker, SerdeJson, SerdeValue, Sha256, Libm, FormatCore}.

(** The sections that leave the flag alone. *)
Inductive touch (s : SessionEcon) : SessionEcon -> Prop :=
| touch_inputs now : touch s (intercept_inputs s now).1
| touch_fold out : touch s (fold_intercepted s out)
| touch_egress bytes : touch s (stash_egress_snapshot s bytes)
| touch_close : touch s (close_window s)
| touch_drain observed now clock : touch s (drain s observed now clock)
| touch_hot hot : touch s (set_hot s hot).

(** What is left of the holders' work: spawn the task, end the task. *)
Inductive finish_step : Guarded -> Guarded -> Prop :=
| guard_spawn s c r n : finish_step (mkGuarded _ s (S c) r n) (mkGuarded _ s c (S r) n)
| guard_end s c r n : finish_step (mkGuarded _ s c (S r) n) (mkGuarded _ (release s) c r n).

(** The last one: the handler is dropped while upstream answers, after the claim
    and before the spawn that would hand the claim to a [StagingGuard]. *)
Inductive guard_step : Guarded -> Guarded -> Prop :=
| guard_claim s c r n s' won :
    claim_staging s = (s', won) -> guard_step (mkGuarded _ s c r n) (mkGuarded _ s' (if won then S c else c) r n)
| guard_commit s c r n plan working :
    guard_step (mkGuarded _ s c (S r) n) (mkGuarded _ (commit s plan working) c (S r) n)
| guard_touch s s' c r n : touch s s' -> guard_step (mkGuarded _ s c r n) (mkGuarded _ s' c r n)
| guard_finish g g' : finish_step g g' -> guard_step g g'
| guard_drop s c r n : guard_step (mkGuarded _ s (S c) r n) (mkGuarded _ s c r (S n)).

Definition holders (g : Guarded) : nat := (g_claimed g + g_running g)%nat.
Definition guard_inv (g : Guarded) : Prop := (holders g + g_lost g = if s_staging (g_econ g) then 1 else 0)%nat.

Lemma touch_staging s s' : touch s s' -> s_staging s' = s_staging s.
Proof.
  intros []; [| | |done| |done].
  - unfold intercept_inputs. by repeat case_match.
  - unfold fold_intercepted, commit_fast_lane. by repeat case_match.
  - unfold stash_egress_snapshot. by case_match.
  - unfold drain, observe, calibrate. by destruct (s_last_estimated_prefix _).
Qed.

Lemma finish_step_inv g g' : finish_step g g' -> guard_inv g -> guard_inv g'.
Proof.
  intros [s c r n|s c r n]; unfold guard_inv, holders; cbn [g_claimed g_running g_lost g_econ].
  - intros I. rewrite <- I. lia.
  - intros I. cbn. destruct (s_staging s); lia.
Qed.

Lemma guard_step_inv g g' : guard_step g g' -> guard_inv g -> guard_inv g'.
Proof.
  intros [s c r n s' won C|s c r n plan working|s s' c r n T|? ? F|s c r n]; [| done | | by apply finish_step_inv|];
    unfold guard_inv, holders; cbn.
  - unfold claim_staging in C. destruct (s_staging s) eqn:E; injection C as <- <-; cbn; rewrite ?E; lia.
  - by rewrite (touch_staging _ _ T).
  - intros I. rewrite <- I. lia.
Qed.

Lemma guard_steps_inv g g' : rtc guard_step g g' -> guard_inv g -> guard_inv g'.
Proof. induction 1; eauto using guard_step_inv. Qed.

Lemma finish_steps_inv g g' : rtc finish_step g g' -> guard_inv g -> guard_inv g'.
Proof. induction 1; eauto using finish_step_inv. Qed.

Lemma finish_steps_lost g g' : rtc finish_step g g' -> g_lost g' = g_lost g.
Proof. induction 1 as [|? ? ? F _ IH]; [done|]. rewrite IH. by destruct F. Qed.

Lemma guard_steps_lost g g' : rtc guard_step g g' -> (g_lost g <= g_lost g')%nat.
Proof. induction 1 as [|? ? ? F _ IH]; [done|]. etrans; [|exact IH]. destruct F as [| | |? ? F|]; cbn; try lia. by destruct F. Qed.

(** C18. The guard admits one staging task at a time, and it is stuck exactly
    when a handler was dropped in its window.  Whatever the turns, observations,
    retrievals, claims, commits, task ends and dropped handlers that interleave
    on a session, at most one handler, task or lost claim holds the guard, and
    the flag is set exactly while one does.  As long as no claim was lost, once
    the holders have spawned and ended, in whatever order and however the task
    ended, the flag is clear and the next turn's claim is won.  Once one was
    lost, no later step of any kind clears the flag: no task runs and no claim
    is won again. *)
Theorem staging_guard_live (s : SessionEcon) (g : Guarded) :
  s_staging s = false -> rtc guard_step (mkGuarded _ s 0 0 0) g ->
  (holders g + g_lost g <= 1)%nat /\ (s_staging (g_econ g) = true <-> (holders g + g_lost g = 1)%nat) /\
  (g_lost g = 0%nat -> forall g', rtc finish_step g g' ->
    (exists g'', finish_step g' g'') \/
    (s_staging (g_econ g') = false /\ claim_staging (g_econ g') = (set_staging (g_econ g') true, true))) /\
  (g_lost g <> 0%nat -> forall g', rtc guard_step g g' ->
    s_staging (g_econ g') = true /\ holders g' = 0%nat /\ claim_staging (g_econ g') = (g_econ g', false)).
Proof.
  intros E R. assert (I : guard_inv g) by (eapply guard_steps_inv; [exact R | unfold guard_inv; cbn; by rewrite E]).
  pose proof I as I0. unfold guard_inv in I0. split; [destruct (s_staging (g_econ g)); lia|]. split; [|split].
  - destruct (s_staging (g_econ g)); split; intros; try done; lia.
  - intros N g' F. pose proof (finish_steps_inv _ _ F I) as I'. pose proof (finish_steps_lost _ _ F) as L. rewrite N in L.
    destruct g' as [s' c r n]. cbn in L. subst n. destruct c as [|c]; [destruct r as [|r]|]; [right | left | left].
    + unfold guard_inv, holders in I'. cbn in *. unfold claim_staging. by destruct (s_staging s').
    + eexists. apply guard_end.
    + eexists. apply guard_spawn.
  - intros N g' F. pose proof (guard_steps_inv _ _ F I) as I'. pose proof (guard_steps_lost _ _ F) as L. unfold guard_inv in I'.
    unfold claim_staging. destruct (s_staging (g_econ g')) eqn:Es; [|lia]. split; [done|]. split; [lia | done].
Qed.

(** The remaining work always ends: two steps per holder at most. *)
Definition remaining_work (g : Guarded) : nat := (2 * g_claimed g + g_running g)%nat.
Lemma finish_step_decreases g g' : finish_step g g' -> (remaining_work g' < remaining_work g)%nat.
Proof. intros []; unfold remaining_work; cbn; lia. Qed.

(** One dropped handler is enough to lose a claim. *)
Lemma cancelled_turn_wedges (s : SessionEcon) :
  s_staging s = false ->
  exists g, rtc guard_step (mkGuarded _ s 0 0 0) g /\ g_lost g = 1%nat /\
    forall g', rtc guard_step g g' -> s_staging (g_econ g') = true /\ (claim_staging (g_econ g')).2 = false.
Proof.
  intros E. exists (mkGuarded _ (set_staging s true) 0 0 1). split; [|split; [done|]].
  { eapply rtc_l; [apply (guard_claim s 0 0 0 (set_staging s true) true); unfold claim_staging; by rewrite E|].
    eapply rtc_l; [apply guard_drop|]. apply rtc_refl. }
  intros g' R. pose proof (guard_steps_inv _ _ R eq_refl) as I. pose proof (guard_steps_lost _ _ R) as L.
  unfold guard_inv in I. cbn in L. unfold claim_staging. destruct (s_staging (g_econ g')); [done | lia].
Qed.
End Guard.

Section Run.
#[local] Existing Instances open_breaker scan_serde scan_values length_digest flat_libm no_format.

Definition idle_session : SessionEcon :=
  SessionEcon_new (mkCacheState 0 f64_zero f64_zero (ModelId_new (str "claude-opus-4-8")) []) no_auth f64_zero PolicyConfig_default.

(** A turn claims, spawns and ends: the next claim is won.  Had it been dropped
    after the claim, none would be. *)
Lemma staging_guard_live_witness :
  exists g g', rtc guard_step (mkGuarded _ idle_session 0 0 0) g /\ holders g = 1%nat /\ rtc finish_step g g' /\
    s_staging (g_econ g') = false.
Proof.
  set (g := mkGuarded _ (set_staging idle_session true) 1 0 0).
  assert (R : rtc guard_step (mkGuarded _ idle_session 0 0 0) g).
  { eapply rtc_l; [apply (guard_claim idle_session 0 0 0 (set_staging idle_session true) true); reflexivity|]. apply rtc_refl. }
  set (g' := mkGuarded _ (release (set_staging idle_session true)) 0 0 0).
  assert (F : rtc finish_step g g').
  { eapply rtc_l; [apply guard_spawn|]. eapply rtc_l; [apply guard_end|]. apply rtc_refl. }
  destruct (staging_guard_live idle_session g eq_refl R) as (_ & _ & Lv & _).
  exists g, g'. split; [exact R|]. split; [reflexivity|]. split; [exact F|].
  destruct (Lv eq_refl g' F) as [[g'' X]|[X _]]; [inversion X | exact X].
Defined.
End Run.
