(* ===== verification/Serve.v ===== *)
(** * The process around the relay

    Models [crates/ccs-proxy/src/main.rs] (the start-up), [app.rs]'s state and
    router, [relay.rs]'s two entry handlers and [seam.rs]'s [run_seam] with its
    register frame.  [process_refines_system] shows that what the process does
    from its start on is a run of [System].  The path matcher, the listeners
    and the channel are parameters. *)
From S2P Require Import Prelude RStr F64 Core Economics Config Wire Segment Policy Scorer Pipeline Ladder Targets Recode Rewrite Marker Bm25 Store Open Session Intercept UsageTap Synth Summarizer Staging App Relay Seam System.

Local Open Scope Z_scope.

(** ** The router ([app.rs]) *)

(** What the route [/s/*rest] captures of a path, decoded. *)
Class PathMatch := { session_wildcard : rstr -> option rstr }.

Inductive Handler :=
| Handler_Session (rest : rstr)
| Handler_Relay
| Handler_MethodNotAllowed
| Handler_Passthrough.

(** [any] on the wildcard, [post] on the messages path, the fallback. *)
Definition router `{PathMatch} (req : Request) : Handler :=
  let path := uri_path (req_target req) in
  match session_wildcard path with
  | Some rest => Handler_Session rest
  | None =>
      if bool_decide (path = MESSAGES_PATH) then
        if bool_decide (req_method req = str "POST") then Handler_Relay else Handler_MethodNotAllowed
      else Handler_Passthrough
  end.

Section Handle.
Context `{PathMatch, UriParser, Breaker, SerdeJson, SerdeValue, SerdeSlice, Sha256, Libm, FormatCore}.

(** [relay::relay] and [relay::passthrough] *)
Definition relay (st : AppState) (req : Request) (now : f64) (outcome : TaskOutcome) : AppState * Served :=
  serve st req (Inspect_Yes None) now outcome.
Definition passthrough (st : AppState) (req : Request) (now : f64) (outcome : TaskOutcome) : AppState * Served :=
  serve st req Inspect_No now outcome.

(** The request as it is served and what comes of it; [None]: a 405. *)
Definition handle (st : AppState) (req : Request) (now : f64) (outcome : TaskOutcome)
    : AppState * option (Request * Served) :=
  let answer req p := (fst p, Some (req, snd p)) in
  match router req with
  | Handler_Session rest =>
      let '(req, inspect) := session_route st (req_method req) rest req in answer req (serve st req inspect now outcome)
  | Handler_Relay => answer req (relay st req now outcome)
  | Handler_MethodNotAllowed => (st, None)
  | Handler_Passthrough => answer req (passthrough st req now outcome)
  end.
End Handle.

(** ** The state at the start ([app.rs]) *)

Section AppNew.
Context `{Breaker}.

Definition with_upstream (upstream : rstr) (store : RefStore) : AppState :=
  mkAppState _ upstream ∅ ∅ false false store.
Definition AppState_new (store : RefStore) : AppState := with_upstream UPSTREAM store.
End AppNew.

(** ** The seam ([seam.rs]) *)

Definition BUILD_VERSION (stamped : option rstr) : rstr := default (str "dev") stamped.

Record Register := mkRegister {
  reg_kind : rstr;
  reg_protocol : Z;
  reg_port : Z;
  reg_mcp_port : Z;
  reg_version : rstr;
  reg_pid : Z;
}.

Definition announce (version : rstr) (pid port mcp_port : Z) : Register :=
  mkRegister (str "register") PROTOCOL_VERSION port mcp_port version pid.

Definition Register_value (r : Register) : Value :=
  Value_Object (list_to_map
    [(str "type", Value_String (reg_kind r)); (str "protocol", Value_Scalar (dec_of_Z (reg_protocol r)));
     (str "port", Value_Scalar (dec_of_Z (reg_port r))); (str "mcp_port", Value_Scalar (dec_of_Z (reg_mcp_port r)));
     (str "version", Value_String (reg_version r)); (str "pid", Value_Scalar (dec_of_Z (reg_pid r)))]).

(** A channel: whether it takes the frame, and the lines that come down it. *)
Record Channel := mkChannel { takes : list byte -> bool; incoming : list rstr }.

(** [run_seam] up to its loop: the lines it goes on to read, if it does. *)
Definition seam_register `{SerdeValue} (channel : Channel) (r : Register) : option (list rstr) :=
  frame ← value_to_string (Register_value r);
  if takes channel (as_bytes (frame ++ [LF])) then Some (incoming channel) else None.

(** ** The start-up ([main.rs]) *)

Record Args := mkArgs { arg_port : Z; arg_refs_db : option rstr }.

(** What the operating system grants: a port, the databases, a temporary
    directory, the process id and the channel on descriptor 3. *)
Record Host := mkHost {
  bind : Z -> option Z;
  database : rstr -> Db;
  temp_dir : rstr;
  process_id : Z;
  seam_channel : option Channel;
}.

Inductive StartError := Start_Bind | Start_Refs (e : RefError).

(** The addresses, the state served and the lines the spawned seam loop reads. *)
Record Started `{Breaker} := mkStarted {
  st_port : Z;
  st_mcp_port : Z;
  st_state : AppState;
  st_seam : option (list rstr);
}.

Definition main `{Breaker, SerdeValue} (stamped : option rstr) (args : Args) (h : Host) : result StartError Started :=
  match bind h (arg_port args), bind h 0 with
  | Some port, Some mcp_port =>
      match open (database h (refs_db_path (temp_dir h) (process_id h) (arg_refs_db args))) with
      | (_, Err e) => Err (Start_Refs e)
      | (db, Ok _) =>
          Ok (mkStarted _ port mcp_port (AppState_new (db_rows db))
                (seam_channel h ≫= fun c => seam_register c (announce (BUILD_VERSION stamped) (process_id h) port mcp_port)))
      end
  | _, _ => Err Start_Bind
  end.

(** ** The running process *)

(** The world of [System], what the seam loop has left to read while it runs,
    and whether it asked for a shutdown. *)
Record Process `{Breaker} := mkProcess { p_world : World; p_seam : option (list rstr); p_shutdown : bool }.

Section Run.
Context `{PathMatch, UriParser, Breaker, SerdeJson, SerdeValue, SerdeSlice, SerdeControl, Sha256, Libm, FormatCore, Similar, Upstream,
          Database, Unicode}.

Definition boot (s : Started) : Process :=
  mkProcess _ (mkWorld _ (st_state s) ∅ [] [] []) (st_seam s) false.

Definition is_messages (method inner : rstr) : bool :=
  bool_decide (method = str "POST") && bool_decide (inner = MESSAGES_PATH).

(** A request arrives at the relay's listener. *)
Definition arrive (w : World) (req : Request) (now : f64) : World :=
  match router req with
  | Handler_Session rest =>
      let '(token, inner) := demux_split rest in
      let inner_req := strip_session_prefix req token in
      if is_messages (req_method req) inner then begin_turn w token inner_req now
      else set_app w (serve (w_app w) inner_req (inspect_for (w_app w) (req_method req) inner token) now Finished).1
  | Handler_Relay => set_app w (relay (w_app w) req now Finished).1
  | Handler_MethodNotAllowed => w
  | Handler_Passthrough => set_app w (passthrough (w_app w) req now Finished).1
  end.

(** A request a client of [System] may send, seen before its route. *)
Definition abides (C : Client) (w : World) (req : Request) : Prop :=
  forall rest, router req = Handler_Session rest ->
    let '(token, _) := demux_split rest in C w token (strip_session_prefix req token).

(** The seam loop reads one line. *)
Definition read_line (p : Process) : Process :=
  match p_seam p with
  | Some (line :: rest) =>
      let w := p_world p in
      let '(st, spawned, outcome) := seam_apply line (w_app w) in
      let w := mkWorld _ st (w_sent w) (w_flights w) (w_tasks w) (w_sweeps w ++ option_list spawned) in
      match outcome with
      | Outcome_Continue => mkProcess _ w (Some rest) (p_shutdown p)
      | Outcome_Shutdown => mkProcess _ w None true
      | Outcome_ProtocolError => mkProcess _ w None (p_shutdown p)
      end
  | Some [] => mkProcess _ (p_world p) None (p_shutdown p)
  | None => p
  end.

Definition set_world (p : Process) (w : World) : Process := mkProcess _ w (p_seam p) (p_shutdown p).

Inductive process_step (C : Client) (p : Process) : Process -> Prop :=
| process_request req now : abides C (p_world p) req -> process_step C p (set_world p (arrive (p_world p) req now))
| process_finish i outcome : process_step C p (set_world p (finish_turn (p_world p) i outcome))
| process_drop i : process_step C p (set_world p (drop_turn (p_world p) i))
| process_spawn l bytes session_id now : process_step C p (set_world p (spawn (p_world p) l bytes session_id now))
| process_advance i : process_step C p (set_world p (advance (p_world p) i))
| process_drain l observed now clock :
    process_step C p (set_world p (set_app (p_world p) (with_econ (w_app (p_world p)) l (fun s => drain s observed now clock))))
| process_line : process_step C p (read_line p)
| process_sweep i now : process_step C p (set_world p (sweep_next (p_world p) i now))
| process_retrieve token ref_id query db_fails now st text :
    serve_mcp (w_app (p_world p)) token ref_id query db_fails now = Some (Some (st, text)) ->
    process_step C p (set_world p (set_app (p_world p) st)).

(** *** Lemmas *)

(** Outside a session the messages path answers POST alone: any other method is
    refused, not passed through. *)
Lemma messages_other_method req :
  session_wildcard (uri_path (req_target req)) = None -> uri_path (req_target req) = MESSAGES_PATH -> req_method req <> str "POST" ->
  router req = Handler_MethodNotAllowed.
Proof. intros W P M. unfold router. by rewrite W, P, (bool_decide_true _ eq_refl), bool_decide_false. Qed.

Lemma set_app_same w : set_app w (w_app w) = w.
Proof. by destruct w. Qed.

(** A request that no session is billed for changes nothing. *)
Lemma serve_uninspected st req now outcome : (serve st req Inspect_No now outcome).1 = st.
Proof. unfold serve, kill_gate. by destruct (kill st), (to_bytes _). Qed.

Lemma serve_tokenless st req now outcome : (serve st req (Inspect_Yes None) now outcome).1 = st.
Proof.
  unfold serve, kill_gate. destruct (kill st), (to_bytes _); try done. destruct (synth_decide _); [|done]. by destruct (shadow st).
Qed.

Lemma inspect_for_other st method inner token : is_messages method inner = false -> inspect_for st method inner token = Inspect_No.
Proof. unfold is_messages, inspect_for. by intros ->. Qed.

Lemma is_messages_true method inner : is_messages method inner = true -> method = str "POST" /\ inner = MESSAGES_PATH.
Proof. unfold is_messages. intros [A B]%andb_true_iff. split; by eapply bool_decide_eq_true_1. Qed.

Lemma arrive_steps C w req now : abides C w req -> rtc (step C) w (arrive w req now).
Proof.
  intros O. unfold arrive. destruct (router req) as [rest| | |] eqn:R.
  - specialize (O rest R). destruct (demux_split rest) as [token inner].
    destruct (is_messages (req_method req) inner) eqn:M; [apply rtc_once; by apply step_begin|].
    rewrite inspect_for_other, serve_uninspected, set_app_same by done. apply rtc_refl.
  - unfold relay. rewrite serve_tokenless, set_app_same. apply rtc_refl.
  - apply rtc_refl.
  - unfold passthrough. rewrite serve_uninspected, set_app_same. apply rtc_refl.
Qed.

Lemma read_line_steps C p : rtc (step C) (p_world p) (p_world (read_line p)).
Proof.
  unfold read_line. destruct (p_seam p) as [[|line rest]|]; [apply rtc_refl| |apply rtc_refl].
  unfold seam_apply. destruct (json_control line) as [c|].
  - destruct (_ =? _).
    + pose proof (step_control C (p_world p) c) as T. unfold control_frame in T.
      destruct (apply_control c _) as [[st spawned] []]; by apply rtc_once.
    + cbn. rewrite app_nil_r. destruct p as [[] ? ?]. apply rtc_refl.
  - cbn. rewrite app_nil_r. destruct p as [[] ? ?]. apply rtc_refl.
Qed.

Lemma process_step_steps C p p' : process_step C p p' -> rtc (step C) (p_world p) (p_world p').
Proof.
  intros T. destruct T; try (apply rtc_once; by econstructor); [by apply arrive_steps | apply read_line_steps].
Qed.

(** The handler, run to its end at once. *)
Lemma handle_arrive w req now outcome :
  w_app (finish_turn (arrive w req now) (length (w_flights w)) outcome) = (handle (w_app w) req now outcome).1.
Proof.
  assert (N : forall st, w_app (finish_turn (set_app w st) (length (w_flights w)) outcome) = st).
  { intros st. unfold finish_turn. cbn [set_app w_flights]. by rewrite lookup_ge_None_2. }
  unfold arrive, handle, session_route. destruct (router req) as [rest| | |].
  - destruct (demux_split rest) as [token inner]. cbn [fst]. destruct (is_messages (req_method req) inner) eqn:M.
    + apply is_messages_true in M as [-> ->]. unfold begin_turn. rewrite serve_halves.
      destruct (serve_begin _ _ _ _) as [st [served|l staging bytes inputs]]; unfold finish_turn; cbn [w_flights w_app fst].
      * by rewrite lookup_ge_None_2.
      * by rewrite list_lookup_middle.
    + rewrite N, inspect_for_other by done. by rewrite !serve_uninspected.
  - rewrite N. unfold relay. by rewrite !serve_tokenless.
  - pose proof (N (w_app w)) as X. by rewrite set_app_same in X.
  - rewrite N. unfold passthrough. by rewrite !serve_uninspected.
Qed.
End Run.

(** ** What the control plane decides *)

(** The registered tokens and the two switches. *)
Definition Plane : Type := gset rstr * bool * bool.

Section Plane.
Context `{Breaker}.

Definition plane_of (st : AppState) : Plane := (dom (sessions st), kill st, shadow st).

(** What one line of the seam makes of them, and of the loop. *)
Definition plane_line `{SerdeControl} (pl : Plane) (line : rstr) : Plane :=
  let '(tokens, kill, shadow) := pl in
  match json_control line with
  | Some c =>
      if negb (Control_protocol c =? PROTOCOL_VERSION) then pl
      else match c with
           | Control_Mint _ t _ => if is_empty t then pl else (tokens ∪ {[ t ]}, kill, shadow)
           | Control_Evict _ t => if is_empty t then pl else (tokens ∖ {[ t ]}, kill, shadow)
           | Control_Shadow _ on => (tokens, kill, on)
           | Control_Kill _ on => (tokens, on, shadow)
           | Control_Gc _ | Control_Shutdown _ => pl
           end
  | None => pl
  end.

Definition line_outcome `{SerdeControl} (line : rstr) : ControlOutcome :=
  match json_control line with
  | Some c =>
      if negb (Control_protocol c =? PROTOCOL_VERSION) then Outcome_ProtocolError
      else match c with
           | Control_Mint _ t _ | Control_Evict _ t => if is_empty t then Outcome_ProtocolError else Outcome_Continue
           | Control_Shutdown _ => Outcome_Shutdown
           | _ => Outcome_Continue
           end
  | None => Outcome_ProtocolError
  end.

Lemma seam_apply_plane `{SerdeControl} line st st' spawned outcome :
  seam_apply line st = (st', spawned, outcome) -> plane_of st' = plane_line (plane_of st) line /\ outcome = line_outcome line.
Proof.
  unfold seam_apply, plane_line, line_outcome, plane_of. destruct (json_control line) as [c|]; [|by intros [= <- <- <-]].
  destruct (Control_protocol c =? PROTOCOL_VERSION); cbn [negb]; [|by intros [= <- <- <-]].
  destruct c as [p t config|p t|p on|p on|p|p]; cbn [apply_control]; try (by intros [= <- <- <-]);
    (destruct (is_empty t); intros [= <- <- <-]; [done|]; split; [|done]; cbn [sessions mint set_sessions kill shadow]).
  - rewrite dom_insert_L. by rewrite union_comm_L.
  - by rewrite dom_delete_L.
Qed.
End Plane.

(** *** Nothing but the seam touches them *)

Section Untouched.
Context `{PathMatch, UriParser, Breaker, SerdeJson, SerdeValue, SerdeSlice, SerdeControl, Sha256, Libm, FormatCore, Similar, Upstream,
          Database, Unicode}.

Lemma close_session_plane st t : plane_of (close_session st t) = plane_of st.
Proof. unfold close_session. by destruct (t ≫= econ_cell st). Qed.

Lemma kill_gate_plane st inspect st' inspect' : kill_gate st inspect = (st', inspect') -> plane_of st' = plane_of st.
Proof.
  unfold kill_gate. intros E. destruct (kill st); injection E as <- <-; [|done]. destruct inspect as [[t|]|]; [apply close_session_plane | done..].
Qed.

Lemma forward_setup_plane st t headers body now st' l staging :
  forward_setup st t headers body now = Some (st', l, staging) -> plane_of st' = plane_of st.
Proof.
  unfold forward_setup, lazy_econ. intros E. apply bind_Some in E as ([[st1 l1] sid] & E1 & E).
  apply bind_Some in E1 as (ctx & Hc & E1). apply bind_Some in E as (s & _ & E). destruct (claim_staging s) as [s' won]. injection E as <- _ _.
  change (plane_of st1 = plane_of st). destruct (ctx_econ_cell ctx); [by injection E1 as <- _ _|].
  unfold init_econ in E1. injection E1 as <- _ _. unfold plane_of. cbn [set_sessions set_econs sessions kill shadow].
  by rewrite dom_insert_lookup_L.
Qed.

Lemma serve_begin_plane st req inspect now st' b : serve_begin st req inspect now = (st', b) -> plane_of st' = plane_of st.
Proof.
  unfold serve_begin. destruct (kill_gate st inspect) as [st1 inspect1] eqn:K. apply kill_gate_plane in K. rewrite <- K. clear K. intros E.
  destruct (to_bytes (req_body req)) as [bytes|]; [|by injection E as <- <-].
  destruct inspect1 as [token|]; [|by injection E as <- <-]. destruct (synth_decide bytes) as [inputs|].
  { destruct (shadow st1); injection E as <- <-; [apply close_session_plane | done]. }
  unfold forward_begin in E. destruct token as [t|]; cbn [mbind option_bind] in E; [|by injection E as <- <-].
  destruct (forward_setup st1 t _ bytes now) as [[[st2 l] staging]|] eqn:F; [|by injection E as <- <-].
  apply forward_setup_plane in F. rewrite <- F. destruct (econs st2 !! l) as [s|]; [|by injection E as <- <-].
  destruct (intercept_inputs s now) as [s' inputs]. by injection E as <- <-.
Qed.

Lemma arrive_plane w req now : plane_of (w_app (arrive w req now)) = plane_of (w_app w).
Proof.
  unfold arrive. destruct (router req) as [rest| | |]; [|by unfold relay; rewrite serve_tokenless|done|by unfold passthrough; rewrite serve_uninspected].
  destruct (demux_split rest) as [token inner]. destruct (is_messages (req_method req) inner) eqn:M.
  - unfold begin_turn. destruct (serve_begin _ _ _ _) as [st []] eqn:E; cbn [w_app]; by eapply serve_begin_plane.
  - by rewrite inspect_for_other, serve_uninspected by done.
Qed.

Lemma retrieve_plane st token ref_id query db_fails now st' text :
  serve_mcp st token ref_id query db_fails now = Some (Some (st', text)) -> plane_of st' = plane_of st.
Proof.
  unfold serve_mcp. destruct (resolve_scope st token) as [[sid cell]|]; [|done]. unfold cc_squash_retrieve.
  destruct (RefId_parse ref_id) as [id|]; [|intros; by simplify_eq/=]. destruct db_fails; [intros; by simplify_eq/=|].
  destruct (retrieve _ _ _ _ _) as [store [[text' n|]|]]; cbn [mbind option_bind fmap option_map]; intros E; simplify_eq/=; [|done].
  case_match; [|done]. unfold mark_hot. by destruct cell.
Qed.

(** The lines read so far, the ones left while the loop runs, and what became of
    it: it stops at the first line that does not continue. *)
Record seam_progress (s : Started) (p : Process) (read : list rstr) : Prop := {
  sp_lines : match st_seam s with
             | Some ls => exists unread, ls = read ++ unread /\ (p_seam p = Some unread \/ p_seam p = None)
             | None => read = [] /\ p_seam p = None
             end;
  sp_running : is_Some (p_seam p) -> Forall (fun line => line_outcome line = Outcome_Continue) read;
  sp_shutdown : p_shutdown p = true -> exists before line, read = before ++ [line] /\ line_outcome line = Outcome_Shutdown;
  sp_plane : plane_of (w_app (p_world p)) = foldl plane_line (∅, false, false) read;
}.

Lemma boot_progress s store : st_state s = AppState_new store -> seam_progress s (boot s) [].
Proof.
  intros E. split; cbn [boot p_seam p_shutdown p_world w_app]; try done.
  - destruct (st_seam s) as [ls|]; [|done]. exists ls. auto.
  - rewrite E. unfold plane_of. cbn. by rewrite dom_empty_L.
Qed.

Lemma set_world_progress s p w read :
  plane_of (w_app w) = plane_of (w_app (p_world p)) -> seam_progress s p read -> seam_progress s (set_world p w) read.
Proof. intros E [L R S P]. split; [done | done | done|]. cbn. by rewrite E. Qed.

Lemma read_line_progress s p read : seam_progress s p read -> exists read', seam_progress s (read_line p) read'.
Proof.
  intros [L R S P]. unfold read_line. destruct (p_seam p) as [[|line rest]|] eqn:Ps.
  - exists read. split; cbn; try done.
    destruct (st_seam s); [|by destruct L]. destruct L as (unread & E & _). exists unread. auto.
  - destruct (seam_apply line (w_app (p_world p))) as [[st spawned] outcome] eqn:E. apply seam_apply_plane in E as [Ep Eo].
    exists (read ++ [line]). assert (L' : match st_seam s with Some ls => ls = (read ++ [line]) ++ rest | None => False end).
    { destruct (st_seam s) as [ls|]; [|by destruct L]. destruct L as (unread & -> & [[= <-]|]); [by rewrite <- app_assoc | done]. }
    destruct (st_seam s) as [ls|] eqn:Es; [|done].
    assert (Pl : plane_of st = foldl plane_line (∅, false, false) (read ++ [line])) by (by rewrite foldl_snoc, <- P).
    destruct outcome; split; cbn [p_seam p_shutdown p_world w_app]; rewrite ?Es; try done; try (by intros [? ?]);
      try (exists rest; by auto).
    + intros _. apply Forall_app. split; [apply R; eauto | by apply Forall_singleton].
    + intros Sh. destruct (S Sh) as (before & l' & -> & O). specialize (R ltac:(eauto)). apply Forall_app in R as [_ R].
      rewrite Forall_singleton in R. congruence.
    + intros _. by exists read, line.
    + intros Sh. destruct (S Sh) as (before & l' & -> & O). specialize (R ltac:(eauto)). apply Forall_app in R as [_ R].
      rewrite Forall_singleton in R. congruence.
  - exists read. split; [by rewrite Ps | by rewrite Ps | done | done].
Qed.

Lemma process_step_progress C s p p' read :
  process_step C p p' -> seam_progress s p read -> exists read', seam_progress s p' read'.
Proof.
  intros T I. destruct T as [req now _|i outcome|i|l bytes sid now|i|l observed now clock| |i now|token ref_id query db_fails now st text Sm];
    try (by eapply read_line_progress); exists read; apply set_world_progress; try done.
  - apply arrive_plane.
  - unfold finish_turn. by case_match.
  - unfold spawn. by repeat case_match.
  - unfold advance. by repeat case_match.
  - unfold sweep_next. by case_match.
  - by eapply retrieve_plane.
Qed.
End Untouched.

Section Theorems.
Context `{PathMatch, UriParser, Breaker, SerdeJson, SerdeValue, SerdeSlice, SerdeControl, Sha256, Libm, FormatCore, Similar, Upstream,
          Database, Unicode}.

(** C7. The process is a run of the transition system under the control plane's
    command.  When the binary starts, its database is an exact epoch-1 one and
    it serves the initial state of [System] over the rows found there; the seam
    loop runs exactly if there is a channel and it took the register frame,
    which names the ports the process listens on, and then reads that channel's
    lines.  From then on, whatever requests its clients send, whatever lines
    come down the seam and whatever tasks, sweeps and retrievals run in
    between: its world is reachable by the same clients, so every invariant of
    [System]'s states holds of the process; the registered sessions, the kill
    switch and the shadow switch are what the lines read so far say, so without
    the seam no session is ever registered; the loop reads the lines in order,
    goes on only while each continues it, and a shutdown is asked for only by a
    shutdown frame, the last line read; and a request served in one go does to
    the shared state exactly what its handler does. *)
Theorem process_refines_system C stamped args h s p :
  main stamped args h = Ok s -> (forall path, store_ok (db_rows (database h path))) -> rtc (process_step C) (boot s) p ->
  epoch1 (open (database h (refs_db_path (temp_dir h) (process_id h) (arg_refs_db args)))).1 /\
  p_world (boot s) = start UPSTREAM (db_rows (database h (refs_db_path (temp_dir h) (process_id h) (arg_refs_db args)))) /\
  (forall ls, st_seam s = Some ls <->
     exists channel frame, seam_channel h = Some channel /\
       value_to_string (Register_value (mkRegister (str "register") PROTOCOL_VERSION (st_port s) (st_mcp_port s)
         (BUILD_VERSION stamped) (process_id h))) = Some frame /\
       takes channel (as_bytes (frame ++ [LF])) = true /\ incoming channel = ls) /\
  reachable C (p_world p) /\
  (exists read, seam_progress s p read) /\
  forall req now outcome,
    w_app (finish_turn (arrive (p_world p) req now) (length (w_flights (p_world p))) outcome) =
    (handle (w_app (p_world p)) req now outcome).1.
Proof.
  intros M S R. unfold main in M. destruct (bind h _) as [port|]; [|done]. destruct (bind h 0) as [mcp|]; [|done].
  set (path := refs_db_path _ _ _) in *. destruct (open_facts (database h path)) as (Ok_ & Rows).
  destruct (open (database h path)) as [db [[]|e]]; [|done]. injection M as <-. split; [by apply Ok_|].
  cbn [fst] in Rows. set (s := mkStarted _ port mcp (AppState_new (db_rows db)) _) in *.
  assert (W : p_world (boot s) = start UPSTREAM (db_rows (database h path))) by (by rewrite <- Rows).
  split; [exact W|]. split; [|split; [|split; [|intros; apply handle_arrive]]].
  - intros ls. cbn [st_seam st_port st_mcp_port s]. unfold seam_register, announce. split.
    + intros E. apply bind_Some in E as (channel & Ec & E). apply bind_Some in E as (frame & Ef & E).
      destruct (takes channel _) eqn:T; [|done]. injection E as <-. by exists channel, frame.
    + intros (channel & frame & -> & Ef & T & <-). cbn [mbind option_bind]. rewrite Ef. cbn [mbind option_bind]. by rewrite T.
  - exists UPSTREAM, (db_rows (database h path)). split; [apply S|]. rewrite <- W.
    clear W. induction R as [p|p p1 p2 T R IH]; [apply rtc_refl|]. etransitivity; [by apply process_step_steps | exact IH].
  - assert (I : exists read, seam_progress s (boot s) read) by (exists []; by apply (boot_progress s (db_rows db))).
    clear W. induction R as [p|p p1 p2 T R IH]; [done|]. apply IH. destruct I as [read I]. by eapply process_step_progress.
Qed.
End Theorems.

(** ** A concrete start: a new database, a mint frame, a request *)

Definition prefix_match : PathMatch := {| session_wildcard := strip_prefix (str "/s/") |}.
Definition any_uri : UriParser := {| uri_parse := Some |}.
Definition mint_control : SerdeControl :=
  {| json_control line := if bool_decide (line = str "mint") then Some (Control_Mint 1 tok RelayConfig_default) else None |}.

Section Example.
#[local] Existing Instances prefix_match any_uri mint_control open_breaker no_slice scan_serde scan_values length_digest flat_libm
  no_format no_diff down reliable ascii_unicode.

Definition new_host : Host :=
  mkHost (fun _ => Some 40000) (fun _ => mkDb [] 0 ∅) (str "/tmp") 7 (Some (mkChannel (fun _ => true) [str "mint"; str "?"])).
Definition started : Started :=
  mkStarted _ 40000 40000 (AppState_new ∅) (Some [str "mint"; str "?"]).
Definition session_request : Request :=
  mkRequest (str "POST") (str "/s/" ++ tok ++ MESSAGES_PATH ++ str "?beta=true") [] (Some first_request).

Lemma main_starts : main None (mkArgs 0 None) new_host = Ok started.
Proof. vm_compute. reflexivity. Qed.

Definition after_mint : Process := read_line (boot started).
Definition after_request : Process := set_world after_mint (arrive (p_world after_mint) session_request f64_zero).
Definition after_error : Process := read_line after_request.

Lemma after_error_runs : rtc (process_step any_client) (boot started) after_error.
Proof.
  eapply rtc_l; [apply process_line|]. eapply rtc_l; [apply (process_request any_client after_mint session_request f64_zero)|].
  - intros rest _. by destruct (demux_split rest).
  - eapply rtc_l; [apply process_line | apply rtc_refl].
Qed.

(** The session was minted, its turn is in flight, and the second line ended
    the seam loop without a shutdown. *)
Lemma process_refines_system_witness :
  reachable any_client (p_world after_error) /\ length (w_flights (p_world after_error)) = 1%nat /\
  p_seam after_error = None /\ p_shutdown after_error = false /\
  exists read, seam_progress started after_error read.
Proof.
  destruct (process_refines_system any_client None (mkArgs 0 None) new_host started after_error main_starts
    (fun _ => map_Forall_empty _) after_error_runs) as (_ & _ & _ & R & P & _).
  split; [exact R|]. split; [vm_compute; reflexivity|]. split; [vm_compute; reflexivity|]. split; [vm_compute; reflexivity | exact P].
Defined.
End Example.
