(* ===== verification/Json.v ===== *)
(** * An executable JSON

    A concrete instance of the classes that stand for [serde_json]: a reader of
    RFC 8259 texts that keeps the verbatim span of every value, the typed reads
    the program asks for, and the compact printer with sorted keys.  The
    development's theorems are generic in the library; this instance is what
    the conformance suite and some witnesses evaluate with. *)
From S2P Require Import Prelude RStr F64 Utf8 Core Economics Config Wire Segment Policy Targets Rewrite.

Local Open Scope Z_scope.

(** ** Reading *)

(** A value with the spans of its parts; a string remembers whether it was
    written with escapes, as a borrowed [&str] cannot be. *)
Inductive Json :=
| J_Null
| J_Bool (b : bool)
| J_Num (lexeme : rstr)
| J_Str (s : rstr) (escaped : bool)
| J_Arr (items : list (rstr * Json))
| J_Obj (fields : list (rstr * (rstr * Json))).

Definition is_json_ws (c : char) : bool := (c =? 32) || (c =? 9) || (c =? 10) || (c =? 13).
Definition skip_ws (s : rstr) : rstr := trim_start_by is_json_ws s.

Definition hex_digit (c : char) : option Z :=
  if is_ascii_digit c then Some (c - 48)
  else if in_range 97 102 c then Some (c - 87)
  else if in_range 65 70 c then Some (c - 55)
  else None.
Definition hex4 (a b c d : char) : option Z :=
  x ← hex_digit a; y ← hex_digit b; z ← hex_digit c; w ← hex_digit d; Some (((x * 16 + y) * 16 + z) * 16 + w).

Definition simple_escape (c : char) : option char :=
  if (c =? 34) || (c =? 92) || (c =? 47) then Some c
  else if c =? 98 then Some 8 else if c =? 102 then Some 12 else if c =? 110 then Some 10
  else if c =? 114 then Some 13 else if c =? 116 then Some 9 else None.

(** What follows the opening quote. *)
Fixpoint read_string (s acc : rstr) (escaped : bool) : option (rstr * bool * rstr) :=
  match s with
  | [] => None
  | c :: s1 =>
      if c =? 34 then Some (reverse acc, escaped, s1)
      else if c =? 92 then
        match s1 with
        | [] => None
        | e :: s2 =>
            if e =? 117 then
              match s2 with
              | a :: b :: c :: d :: s3 =>
                  match hex4 a b c d with
                  | None => None
                  | Some u =>
                      if in_range 55296 56319 u then
                        match s3 with
                        | q :: v :: a :: b :: c :: d :: s4 =>
                            match hex4 a b c d with
                            | Some l =>
                                if (q =? 92) && (v =? 117) && in_range 56320 57343 l
                                then read_string s4 (65536 + (u - 55296) * 1024 + (l - 56320) :: acc) true
                                else None
                            | None => None
                            end
                        | _ => None
                        end
                      else if in_range 56320 57343 u then None
                      else read_string s3 (u :: acc) true
                  end
              | _ => None
              end
            else match simple_escape e with Some x => read_string s2 (x :: acc) true | None => None end
        end
      else if c <? 32 then None
      else read_string s1 (c :: acc) escaped
  end.

Definition take_digits (s : rstr) : rstr * rstr :=
  let rest := trim_start_by is_ascii_digit s in (take (length s - length rest) s, rest).

(** [-? int frac? exp?] *)
Definition read_number (s : rstr) : option rstr :=
  let s := match s with c :: s' => if c =? 45 then s' else s | [] => s end in
  let '(int, s) := take_digits s in
  let leading_zero := match int with c :: _ :: _ => c =? 48 | _ => false end in
  if is_empty int || leading_zero then None
  else
    s ← match s with
        | c :: s' => if c =? 46 then let '(f, r) := take_digits s' in if is_empty f then None else Some r else Some s
        | [] => Some s
        end;
    match s with
    | c :: s' =>
        if (c =? 101) || (c =? 69) then
          let s' := match s' with d :: s'' => if (d =? 43) || (d =? 45) then s'' else s' | [] => s' end in
          let '(e, r) := take_digits s' in if is_empty e then None else Some r
        else Some s
    | [] => Some s
    end.

Definition span (s rest : rstr) : rstr := take (length s - length rest) s.

Fixpoint read_value (fuel : nat) (s : rstr) : option (Json * rstr) :=
  match fuel with
  | O => None
  | S fuel =>
      match s with
      | [] => None
      | c :: s1 =>
          if c =? 34 then '(t, e, r) ← read_string s1 [] false; Some (J_Str t e, r)
          else if c =? 123 then
            match skip_ws s1 with
            | d :: r => if d =? 125 then Some (J_Obj [], r) else '(fs, r) ← read_fields fuel (d :: r); Some (J_Obj fs, r)
            | [] => None
            end
          else if c =? 91 then
            match skip_ws s1 with
            | d :: r => if d =? 93 then Some (J_Arr [], r) else '(xs, r) ← read_items fuel (d :: r); Some (J_Arr xs, r)
            | [] => None
            end
          else
            match strip_prefix (str "null") s, strip_prefix (str "true") s, strip_prefix (str "false") s with
            | Some r, _, _ => Some (J_Null, r)
            | _, Some r, _ => Some (J_Bool true, r)
            | _, _, Some r => Some (J_Bool false, r)
            | None, None, None => r ← read_number s; Some (J_Num (span s r), r)
            end
      end
  end
with read_items (fuel : nat) (s : rstr) : option (list (rstr * Json) * rstr) :=
  match fuel with
  | O => None
  | S fuel =>
      '(v, r) ← read_value fuel s;
      let item := (span s r, v) in
      match skip_ws r with
      | c :: r =>
          if c =? 93 then Some ([item], r)
          else if c =? 44 then '(xs, r) ← read_items fuel (skip_ws r); Some (item :: xs, r)
          else None
      | [] => None
      end
  end
with read_fields (fuel : nat) (s : rstr) : option (list (rstr * (rstr * Json)) * rstr) :=
  match fuel with
  | O => None
  | S fuel =>
      match s with
      | c :: s1 =>
          if c =? 34 then
            '(key, _, r) ← read_string s1 [] false;
            match skip_ws r with
            | d :: r =>
                if d =? 58 then
                  let r := skip_ws r in
                  '(v, r') ← read_value fuel r;
                  let field := (key, (span r r', v)) in
                  match skip_ws r' with
                  | e :: r =>
                      if e =? 125 then Some ([field], r)
                      else if e =? 44 then '(fs, r) ← read_fields fuel (skip_ws r); Some (field :: fs, r)
                      else None
                  | [] => None
                  end
                else None
            | [] => None
            end
          else None
      | [] => None
      end
  end.

(** [from_str]: one value and nothing after it. *)
Definition from_str (s : rstr) : option Json :=
  '(v, r) ← read_value (S (length s)) (skip_ws s);
  match skip_ws r with [] => Some v | _ => None end.

Definition from_slice (bytes : list byte) : option Json :=
  let s := utf8_decode bytes in
  if bool_decide (as_bytes s = bytes) then from_str s else None.

(** ** Typed reads *)

(** A known field of a struct: named twice is an error. *)
Definition field (key : rstr) (fs : list (rstr * (rstr * Json))) : option (option (rstr * Json)) :=
  match filterb (fun f => bool_decide (f.1 = key)) fs with
  | [] => Some None
  | [f] => Some (Some f.2)
  | _ => None
  end.
Definition required (key : rstr) (fs : list (rstr * (rstr * Json))) : option (rstr * Json) := mjoin (field key fs).

Definition as_object (v : Json) : option (list (rstr * (rstr * Json))) := match v with J_Obj fs => Some fs | _ => None end.
Definition as_string (v : Json) : option rstr := match v with J_Str s _ => Some s | _ => None end.
Definition as_borrowed (v : Json) : option rstr := match v with J_Str s false => Some s | _ => None end.
Definition as_u32 (v : Json) : option Z :=
  match v with
  | J_Num s => n ← parse_usize s; let z := Z.of_nat n in if z <? 2 ^ 32 then Some z else None
  | _ => None
  end.

(** An [Option] field with a default: absent and [null] are [None]. *)
Definition optional {A} (read : Json -> option A) (key : rstr) (fs : list (rstr * (rstr * Json))) : option (option A) :=
  match field key fs with
  | None => None
  | Some None | Some (Some (_, J_Null)) => Some None
  | Some (Some (_, v)) => Some <$> read v
  end.
Definition optional_raw (key : rstr) (fs : list (rstr * (rstr * Json))) : option (option rstr) :=
  match field key fs with
  | None => None
  | Some None | Some (Some (_, J_Null)) => Some None
  | Some (Some (raw, _)) => Some (Some raw)
  end.

Definition message_of (v : Json) : option (rstr * rstr) :=
  fs ← as_object v; '(_, r) ← required (str "role") fs; r ← as_string r;
  '(c, _) ← required (str "content") fs; Some (r, c).

Definition envelope_of (v : Json) : option EnvelopeFields :=
  fs ← as_object v;
  '(_, model) ← required (str "model") fs; model ← as_string model;
  system ← optional_raw (str "system") fs;
  tools ← optional_raw (str "tools") fs;
  '(_, ms) ← required (str "messages") fs;
  msgs ← match ms with J_Arr items => mapM message_of (snd <$> items) | _ => None end;
  '(_, max) ← required (str "max_tokens") fs; max ← as_u32 max;
  Some (mkEnvelopeFields model system tools msgs max).

Definition result_content_of (v : Json) : ToolResultContent :=
  match v with
  | J_Str s _ => Result_Text s
  | J_Arr items => Result_Blocks (fst <$> items)
  | _ => Result_Empty
  end.

Definition rfc_serde : SerdeJson := {|
  json_envelope := fun bytes => from_slice bytes ≫= envelope_of;
  json_string := fun raw => from_str raw ≫= as_string;
  json_array := fun raw => v ← from_str raw; match v with J_Arr items => Some (fst <$> items) | _ => None end;
  json_type_tag := fun raw => fs ← from_str raw ≫= as_object; optional as_string (str "type") fs;
  json_id_fields := fun raw =>
    fs ← from_str raw ≫= as_object;
    id ← optional as_borrowed (str "id") fs;
    tool_use_id ← optional as_borrowed (str "tool_use_id") fs;
    name ← optional as_borrowed (str "name") fs;
    Some (mkIdFields id tool_use_id name);
  json_text_field := fun raw => fs ← from_str raw ≫= as_object; '(_, t) ← required (str "text") fs; as_string t;
  json_result_text := fun raw =>
    fs ← from_str raw ≫= as_object;
    match field (str "content") fs with
    | None => None
    | Some None | Some (Some (_, J_Null)) => Some None
    | Some (Some (_, v)) => Some <$> as_string v
    end;
  json_result_fields := fun raw =>
    fs ← from_str raw ≫= as_object;
    is_error ← optional (fun v => match v with J_Bool b => Some b | _ => None end) (str "is_error") fs;
    content ← match field (str "content") fs with
              | None => None
              | Some None | Some (Some (_, J_Null)) => Some Result_Empty
              | Some (Some (_, J_Str s _)) => Some (Result_Text s)
              | Some (Some (_, J_Arr items)) => Some (Result_Blocks (fst <$> items))
              | Some (Some _) => None
              end;
    Some (mkToolResultFields is_error content);
|}.

(** ** Values *)

(** Objects keep the last of equal keys. *)
Fixpoint to_value (v : Json) : Value :=
  match v with
  | J_Null => Value_Scalar (str "null")
  | J_Bool true => Value_Scalar (str "true")
  | J_Bool false => Value_Scalar (str "false")
  | J_Num s => Value_Scalar s
  | J_Str s _ => Value_String s
  | J_Arr items => Value_Array ((fix go (l : list (rstr * Json)) := match l with [] => [] | (_, x) :: l => to_value x :: go l end) items)
  | J_Obj fs =>
      Value_Object ((fix go (l : list (rstr * (rstr * Json))) (m : gmap rstr Value) :=
        match l with [] => m | (k, (_, x)) :: l => go l (<[k := to_value x]> m) end) fs ∅)
  end.

(** Strings in the order of their UTF-8 bytes, which is that of their code
    points. *)
Fixpoint chars_cmp (a b : rstr) : comparison :=
  match a, b with
  | [], [] => Eq
  | [], _ => Lt
  | _, [] => Gt
  | x :: a, y :: b => match x ?= y with Eq => chars_cmp a b | c => c end
  end.

Definition hex_char (n : Z) : char := if n <? 10 then 48 + n else 87 + n.
Definition escape_char (c : char) : rstr :=
  if c =? 34 then [92; 34] else if c =? 92 then [92; 92]
  else if c =? 8 then [92; 98] else if c =? 12 then [92; 102] else if c =? 10 then [92; 110]
  else if c =? 13 then [92; 114] else if c =? 9 then [92; 116]
  else if c <? 32 then [92; 117; 48; 48; hex_char (c / 16); hex_char (c mod 16)]
  else [c].
Definition print_string (s : rstr) : rstr := DQUOTE :: (s ≫= escape_char) ++ [DQUOTE].

Definition print_object (fs : list (rstr * rstr)) : rstr :=
  str "{" ++ join (str ",") ((fun f => print_string f.1 ++ str ":" ++ f.2) <$> sort_by (fun a b => chars_cmp a.1 b.1) fs) ++ str "}".
Definition print_items (xs : list rstr) : rstr := str "[" ++ join (str ",") xs ++ str "]".

(** Deep enough for what the program prints. *)
Fixpoint print_compact (depth : nat) (v : Value) : rstr :=
  match depth with
  | O => []
  | S depth =>
      match v with
      | Value_Scalar s => s
      | Value_String s => print_string s
      | Value_Array vs => print_items (print_compact depth <$> vs)
      | Value_Object m => print_object (map_to_list (print_compact depth <$> m))
      end
  end.
Definition print_depth : nat := 32.

Definition raw_fields (v : Json) : option (gmap rstr rstr) :=
  fs ← as_object v; Some (list_to_map (rev ((fun f => (f.1, f.2.1)) <$> fs))).

Definition rfc_values : SerdeValue := {|
  json_value := fun s => to_value <$> from_str s;
  json_object_fields := fun s => v ← from_str s; match to_value v with Value_Object m => Some m | _ => None end;
  value_to_string := fun v => Some (print_compact print_depth v);
  value_display := print_compact print_depth;
  raw_map := fun bytes => from_slice bytes ≫= raw_fields;
  raw_map_to_vec := fun m =>
    let bytes := as_bytes (print_object (map_to_list m)) in
    if decide (from_slice bytes ≫= raw_fields = Some m) then Some bytes else None;
  raw_array_to_string := fun rs =>
    let text := print_items rs in
    match from_str text with
    | Some (J_Arr items) => if decide ((fst <$> items) = rs) then Some text else None
    | _ => None
    end;
|}.
