(* ===== verification/TestKit.v ===== *)
(** * A kit for the conformance suite

    The files [Tests*] translate the unit tests of the Rust sources into
    computations of the model: each test is a boolean of the same name, and the
    lemmas say that the kernel evaluates all of them to [true].  They tie the
    definitions to the program's own expectations, on the JSON the tests are
    written in, read by [Json]. *)
From S2P Require Import Prelude RStr F64 Utf8 Core Economics Config Wire Segment Policy Scorer Pipeline Targets Rewrite Json Marker.

Local Open Scope Z_scope.

#[export] Existing Instances rfc_serde rfc_values.

(** A text written with apostrophes for quotes. *)
Definition q (s : string) : rstr := (fun c => if c =? 39 then 34 else c) <$> str s.

(** A Rust string literal: its escapes, with [\q] for a quote. *)
Fixpoint unescape (s : rstr) : rstr :=
  match s with
  | 92 :: 110 :: s => LF :: unescape s
  | 92 :: 114 :: s => CR :: unescape s
  | 92 :: 116 :: s => 9 :: unescape s
  | 92 :: 113 :: s => DQUOTE :: unescape s
  | 92 :: 120 :: a :: b :: s => default 0 (hex4 48 48 a b) :: unescape s
  | c :: s => c :: unescape s
  | [] => []
  end.
Definition u (s : string) : rstr := unescape (str s).

(** [format!] with decimal numbers spliced in. *)
Definition fmt (parts : list rstr) : rstr := concat parts.
Definition dec (n : nat) : rstr := dec_of_nat n.

(** [json!(..)], and its [to_string]. *)
Definition json_of (text : rstr) : Value := match from_str text with Some v => to_value v | None => Value_Scalar [] end.
Definition to_json (text : rstr) : rstr := print_compact print_depth (json_of text).
Definition json_bytes (text : rstr) : list byte := as_bytes (to_json text).

Definition is_ok {E A} (r : result E A) : bool := match r with Ok _ => true | Err _ => false end.
Definition check_some {A} (o : option A) (f : A -> bool) : bool := match o with Some x => f x | None => false end.
Definition check_ok {E A} (r : result E A) (f : A -> bool) : bool := match r with Ok x => f x | Err _ => false end.
Definition contains_sub (needle hay : rstr) : bool := match find_sub needle hay with Some _ => true | None => false end.
Definition eqb_dec {A} `{EqDecision A} (x y : A) : bool := bool_decide (x = y).

(** [String::from_utf8] *)
Definition from_utf8 (bytes : list byte) : option rstr :=
  let s := utf8_decode bytes in if eqb_dec (as_bytes s) bytes then Some s else None.

(** [str.repeat(n)] *)
Definition repeat_str (s : string) (n : nat) : rstr := concat (repeat (str s) n).

(** An exponential that decreases: enough for tests that compare signs. *)
Definition coarse_libm : Libm := {|
  f64_exp x := if f64_leb x f64_zero then f64_div f64_one (f64_sub f64_one x) else f64_add f64_one x;
  f64_ln x := f64_sub x f64_one;
|}.

(** A JSON value as a string literal, and a request of some messages. *)
Definition lit (t : rstr) : rstr := print_string t.
Definition message (role : string) (content : rstr) : rstr :=
  q "{'role':'" ++ str role ++ q "','content':" ++ content ++ q "}".
Definition tool_use (id name : string) (input : rstr) : rstr :=
  q "{'type':'tool_use','id':'" ++ str id ++ q "','name':'" ++ str name ++ q "','input':" ++ input ++ q "}".
Definition tool_result (id : string) (flags : string) (content : rstr) : rstr :=
  q "{'type':'tool_result','tool_use_id':'" ++ str id ++ q "'," ++ q flags ++ q "'content':" ++ content ++ q "}".
Definition items (xs : list rstr) : rstr := print_items xs.
Definition request (max_tokens : Z) (turns : list rstr) : rstr :=
  q "{'model':'claude-opus-4-8','max_tokens':" ++ dec_of_Z max_tokens ++ q ",'messages':" ++ print_items turns ++ q "}".

Definition HEX64 : rstr := str "abcdef0123456789abcdef0123456789abcdef0123456789abcdef0123456789".

(** A 32-bit digest that depends on every byte, printed eight times, in place
    of SHA-256. *)
Fixpoint hex_digits (n : nat) (z : Z) (acc : rstr) : rstr :=
  match n with O => acc | S n => hex_digits n (z / 16) (hex_char (z mod 16) :: acc) end.
Definition rolling_digest : Sha256 := {|
  sha256_hex bytes :=
    let h := foldl (fun h b => Z.land (Z.shiftl h 5 + h + b) 4294967295) 5381 bytes in
    let hex := hex_digits 8 h [] in concat (repeat hex 8);
|}.

(** ** The fixtures the test modules of [ccs-policy] share *)

Definition seg (index : nat) (k : SegmentKind) (tokens : TokenCount) (pin : bool) : Segment :=
  mkSegment index k 0 tokens 1 pin false false [].

Definition cache : CacheState :=
  mkCacheState 0 f64_zero (f64_of_Z 3600) (ModelId_new (str "claude-opus-4-8")) [].

Definition econ : ModelEconomics := mkModelEconomics (f64_lit 5 1000000) (f64_of_Z 2) (f64_lit 1 10) 1024.

Definition with_generation (s : Segment) (g : Generation) : Segment :=
  mkSegment (seg_index s) (kind s) (byte_offset s) (token_estimate s) g (pinned s) (is_current s)
    (seg_is_true_human s) (source_uuids s).

(** [assert!((x - y).abs() < 10^-n)] *)
Definition close_to (n : nat) (x y : f64) : bool :=
  let d := f64_sub x y in
  f64_ltb (if f64_ltb d f64_zero then f64_opp d else d) (f64_lit 1 (10 ^ Z.of_nat n)).
