(* ===== verification/Legacy.v ===== *)
(** * The pipeline against the code it replaced

    [crates/ccs-proxy/src/intercept.rs] keeps, in its test module, a copy of
    the code before the pipeline: one fold of [select_strategy] over the
    segments with the hot-ref filter ([legacy_continuous]), and the fallback's
    plan of stripped and dropped segments ([legacy_default_compact]).  The
    tests compare the two on a few bodies; [continuous_matches_legacy] and
    [deterministic_matches_legacy] do on every request.  The two fallbacks run
    in lock-step ([Ladder]) up to a segment that is stripped and then dropped,
    listed twice by one; writing its block again changes nothing ([Twice]). *)
From S2P Require Import Prelude RStr F64 Core Economics Config Wire Segment Policy Scorer Pipeline Ladder Fallback Controller Text Targets Markup Recode Rewrite Json Marker Store Session Intercept TestKit.

Local Open Scope Z_scope.

(** ** [legacy_select_strategy] and [legacy_continuous] *)

Definition legacy_select_strategy (seg : Segment) (decision : ContentDecision) (cand : SquashCandidate)
    (econ : ModelEconomics) (cache : CacheState) (remaining_turns now npv_floor : f64) (cfg : PolicyConfig) : Strategy :=
  let chars := approx_chars seg in
  let reversible := ReversibleRef (cand_ref_id cand) (default [] (summary_content decision)) in
  if seg_is_true_human seg && bool_decide (kind seg = UserTurn) && (human_verbatim_max cfg <? chars) then
    match choice decision with ChoiceTag_Compress => reversible | _ => Keep end
  else
    match pre_gate decision chars cfg with
    | Some gated => gated
    | None =>
        if pinned seg || f64_leb (npv (SquashBatch_of_single cand) cache econ remaining_turns now) npv_floor
           || (chars <? pre_gate_min_chars cfg) then Keep
        else
          match choice decision with
          | ChoiceTag_Truncate => Truncate (ranges_to_keep decision)
          | ChoiceTag_Summarize => Summarize (default [] (summary_content decision))
          | ChoiceTag_Compress => reversible
          | ChoiceTag_Keep => Keep
          end
    end.

Section Legacy.
Context `{SerdeJson, SerdeValue, Sha256, Libm, FormatCore}.

(** One segment of the [filter_map]. *)
Definition legacy_row (body : WireBody) (segments : list Segment) (plan : StagedPlan) (inputs : InterceptInputs)
    (seg : Segment) (key : RefId) : option Live :=
  entry ← by_content plan !! key;
  let q := segment_quality_gain seg segments inputs (rec_ref_id (se_rec entry)) in
  cand ← live_candidate seg segments body entry (in_token_scale inputs) q;
  match legacy_select_strategy seg (se_decision entry) cand (in_econ inputs) (in_cache inputs)
          (in_remaining_turns inputs) (in_now inputs) (in_npv_floor inputs) (in_policy inputs) with
  | Keep => None
  | _ => Some (seg_index seg, entry, cand)
  end.

Definition cold_ref (inputs : InterceptInputs) (row : Live) : bool :=
  negb (bool_decide (cand_ref_id row.2 ∈ in_hot_refs inputs)).

Definition legacy_continuous (bytes : list byte) (body : WireBody) (segments : list Segment)
    (plan : StagedPlan) (inputs : InterceptInputs) : option Intercepted :=
  keys ← mapM (fun seg => content_address (segment_payload_bytes seg body)) segments;
  let matched := omap (fun p => legacy_row body segments plan inputs p.1 p.2) (zip segments keys) in
  if is_empty matched then Some (identity bytes)
  else
    let live := filterb (cold_ref inputs) matched in
    if is_empty live then Some (identity bytes)
    else
      let batch := mkSquashBatch (snd <$> live) in
      let prompt := mkPromptState segments (max_tokens body) (max_tokens body) (free_bust_of body (in_cache inputs)) in
      let controller := mkController (in_econ inputs) (in_cache inputs) (in_remaining_turns inputs)
                          (in_npv_floor inputs) (in_policy inputs) (in_token_scale inputs) in
      decision ← decide_squash controller prompt batch (in_now inputs);
      match decision with
      | Flush _ breakpoint_plan predicted_bust _ =>
          apply_live bytes body segments live [] breakpoint_plan predicted_bust []
      | RideFreeBust _ _ => apply_live bytes body segments live [] no_breakpoints (mkCost f64_zero 0) []
      | Hold _ => Some (identity bytes)
      end.

(** ** [legacy_default_compact] and [legacy_deterministic_compact] *)

Record LegacyCompactionPlan := mkLegacyCompactionPlan { legacy_strip : list nat; legacy_dropped : list nat }.

(** The two loops over the running total; what each appends to [dropped]. *)
Fixpoint legacy_drop_pairs (target : Z) (segs : list Segment) (running : Z) (dropped : list nat) : Z * list nat :=
  match segs with
  | [] => (running, dropped)
  | seg :: segs =>
      if running <=? target then (running, dropped)
      else legacy_drop_pairs target segs (sat_sub running (token_estimate seg)) (dropped ++ [seg_index seg])
  end.

Fixpoint legacy_drop_oldest (target : Z) (last : nat) (segs : list Segment) (running : Z) (dropped : list nat) : list nat :=
  match segs with
  | [] => dropped
  | seg :: segs =>
      if running <=? target then dropped
      else if (seg_index seg =? last)%nat || is_instruction (kind seg) || contains (seg_index seg) dropped
      then legacy_drop_oldest target last segs running dropped
      else legacy_drop_oldest target last segs (sat_sub running (token_estimate seg)) (dropped ++ [seg_index seg])
  end.

(** [None] is the index panic of [segments[i]]. *)
Definition legacy_default_compact (body : WireBody) (segments : list Segment) (target : Z) : option LegacyCompactionPlan :=
  let running := u64_sum (token_estimate <$> segments) in
  if running <=? target then Some (mkLegacyCompactionPlan [] [])
  else
    let strip := strip_reasoning body segments in
    sheds ← mapM (fun i => shed_tokens body <$> segments !! i) strip;
    let running := sat_sub running (u64_sum sheds) in
    if running <=? target then Some (mkLegacyCompactionPlan strip [])
    else
      let '(running, dropped) := legacy_drop_pairs target (filterb is_droppable_pair segments) running [] in
      Some (mkLegacyCompactionPlan strip
              (legacy_drop_oldest target (length segments - 1) segments running dropped)).

Definition legacy_rendered (body : WireBody) (segments : list Segment) (policy : PolicyConfig) (indices : list nat)
    : list RenderedSegment :=
  omap (shrinking_target Drop)
    (concat (squash_targets body <$>
       filterb (fun seg => negb (pinned seg) && negb (is_recency_protected seg segments policy))
         (omap (fun i => segments !! i) indices))).

Definition legacy_deterministic_compact (bytes : list byte) (body : WireBody) (segments : list Segment)
    (policy : PolicyConfig) : option Intercepted :=
  let window := max_tokens body in
  let just_added := match last segments with Some s => token_estimate s | None => 0 end in
  match soft_pressure window just_added with
  | Nominal => Some (identity bytes)
  | OverBudget =>
      plan ← legacy_default_compact body segments (hard_target window (max_tokens body));
      let rendered := legacy_rendered body segments policy (legacy_strip plan ++ legacy_dropped plan) in
      Some (if is_empty rendered then identity bytes
            else match splice_and_gate bytes body rendered no_breakpoints with
                 | Some rewritten => mkIntercepted rewritten None [] []
                 | None => identity bytes
                 end)
  end.

(** ** The rows agree *)

Lemma legacy_select_is_select ctx seg staged :
  legacy_select_strategy seg (staged_decision staged) (staged_candidate staged) (ctx_econ ctx) (ctx_cache ctx)
    (ctx_remaining_turns ctx) (ctx_now ctx) (staged_npv_floor staged) (ctx_knobs ctx) = select_strategy ctx seg staged.
Proof.
  unfold legacy_select_strategy, select_strategy.
  change (seg_is_true_human seg && bool_decide (kind seg = UserTurn)
    && (human_verbatim_max (ctx_knobs ctx) <? approx_chars seg)) with (is_huge_human_paste seg (ctx_knobs ctx)).
  destruct (is_huge_human_paste _ _); [done|]. destruct (pre_gate _ _ _) as [g|] eqn:E; [|done].
  revert E. unfold pre_gate. destruct (_ <? _); [congruence|].
  destruct (choice (staged_decision staged)), (summary_content (staged_decision staged)); try destruct (_ <? _); congruence.
Qed.

(** Rows in ascending order of their segments are determined by their set. *)
Lemma rows_unique (l k : list Live) :
  StronglySorted (fun a b => live_order a b <> Gt) l -> StronglySorted (fun a b => live_order a b <> Gt) k ->
  NoDup ((fun r => r.1.1) <$> l) -> NoDup ((fun r => r.1.1) <$> k) -> (forall r, r ∈ l <-> r ∈ k) -> l = k.
Proof.
  intros Sl Sk Nl Nk E. apply (StronglySorted_unique_strong (fun a b => live_order a b <> Gt)); [|done..|].
  - intros a b Ha Hb R1 R2. unfold live_order in *. rewrite Nat.compare_gt_iff in R1, R2.
    assert (I : a.1.1 = b.1.1) by lia. apply E in Hb.
    apply list_elem_of_lookup in Ha as [i Hi], Hb as [j Hj].
    assert (i = j) as ->; [|congruence].
    apply (NoDup_lookup _ _ _ a.1.1 Nl); rewrite list_lookup_fmap; [by rewrite Hi | by rewrite Hj; cbn; f_equal].
  - apply list.NoDup_Permutation; [by eapply NoDup_fmap_1 .. | exact E].
Qed.

Lemma live_order_sorted l : StronglySorted (fun a b => live_order a b <> Gt) (sort_by live_order l).
Proof.
  apply sort_by_sorted; unfold live_order.
  - intros a b. rewrite !Nat.compare_gt_iff. lia.
  - intros a b c. rewrite !Nat.compare_gt_iff. lia.
Qed.

Lemma sublist_sorted {A} (R : A -> A -> Prop) l k : sublist l k -> StronglySorted R k -> StronglySorted R l.
Proof.
  induction 1 as [|x l k Hs IH|x l k Hs IH]; intros Sk; [done| |]; apply StronglySorted_inv in Sk as [Sk F]; [|by apply IH].
  constructor; [by apply IH|]. rewrite Forall_forall in F |- *. intros y Hy. apply F. by apply (sublist_subseteq _ _ Hs).
Qed.

(** Rows drawn in order from positional segments. *)
Lemma rows_in_order (l : list Live) n :
  sublist ((fun r => r.1.1) <$> l) (seq 0 n) ->
  StronglySorted (fun a b => live_order a b <> Gt) l /\ NoDup ((fun r => r.1.1) <$> l).
Proof.
  intros Sub. split; [|eapply sublist_NoDup; [|exact Sub]; apply NoDup_seq].
  pose proof (sublist_sorted lt _ _ Sub (seq_sorted n 0)) as St. clear Sub.
  induction l as [|r l IH]; [constructor|]. cbn [fmap list_fmap] in St. apply StronglySorted_inv in St as [St F].
  constructor; [by apply IH|]. rewrite Forall_fmap in F. eapply Forall_impl; [exact F|].
  intros b Lt. cbn in Lt. unfold live_order. rewrite Nat.compare_gt_iff. lia.
Qed.

Context (body : WireBody) (segments : list Segment) (keys : list RefId) (plan : StagedPlan) (inputs : InterceptInputs).
Context (Hx : indexed segments) (Hf : w_score_floor (weights (in_policy inputs)) = f64_neg_inf).
Context (Hr : forall key e, by_content plan !! key = Some e -> se_recode e = None).
Context (Hs : forall seg key, (seg, key) ∈ zip segments keys -> is_Some (by_content plan !! key) ->
  is_squash_candidate seg WorkingState_default (in_policy inputs) = true).

Let rows := omap (fun p => staged_segment body segments plan inputs p.1 p.2) (zip segments keys).
Let ctx := mkPassCtx body segments WorkingState_default (in_econ inputs) (in_cache inputs) (in_policy inputs)
  (staged_decisions rows inputs) (in_remaining_turns inputs) (in_now inputs).
Let legacy_live :=
  filterb (cold_ref inputs) (omap (fun p => legacy_row body segments plan inputs p.1 p.2) (zip segments keys)).

(** A staged row and the legacy row of its segment carry the same entry and
    candidate; the legacy one also needs a strategy. *)
Lemma legacy_row_staged seg key :
  legacy_row body segments plan inputs seg key =
  '(st, entry) ← staged_segment body segments plan inputs seg key;
  match select_strategy ctx seg st with Keep => None | _ => Some (seg_index seg, entry, staged_candidate st) end.
Proof.
  unfold legacy_row, staged_segment. destruct (by_content plan !! key) as [entry|] eqn:E; [|done].
  cbn [mbind option_bind]. rewrite (Hr _ _ E). destruct (live_candidate _ _ _ _ _ _) as [cand|]; [|done].
  cbn [mbind option_bind]. rewrite <- legacy_select_is_select. done.
Qed.

Lemma zip_indexed seg key : (seg, key) ∈ zip segments keys -> segments !! seg_index seg = Some seg.
Proof.
  intros Hz. apply elem_of_zip_l, list_elem_of_lookup in Hz as (k & Hk). by rewrite (Hx _ _ Hk).
Qed.

(** What the spine proposes where a row is staged. *)
Lemma spine_of_row seg key st entry :
  (seg, key) ∈ zip segments keys -> staged_segment body segments plan inputs seg key = Some (st, entry) ->
  spine_spec ctx (seg_index seg) =
  if bool_decide (cand_ref_id (staged_candidate st) ∈ in_hot_refs inputs) then None
  else match select_strategy ctx seg st with
       | Keep => None
       | strategy => Some (mkProposal (seg_index seg) strategy (Some (cand_ref_id (staged_candidate st))) None
                       (cand_net_removed (staged_candidate st)) (cand_quality_gain (staged_candidate st)) LADDER_SELECT)
       end.
Proof.
  intros Hz Est. pose proof (staged_segment_index _ _ _ _ _ _ _ Est) as I. cbn [fst] in I.
  assert (Hin : (st, entry) ∈ rows) by (apply list_elem_of_omap; by exists (seg, key)).
  assert (F : StagedDecisions_segment (ctx_staged ctx) (seg_index seg) = Some st).
  { rewrite <- I. apply find_key; [by apply staged_segments_NoDup|]. by apply (list_elem_of_fmap_2 fst rows (st, entry)). }
  unfold spine_spec. rewrite F. cbn [mbind option_bind ctx ctx_segments ctx_working ctx_knobs].
  rewrite (zip_indexed _ _ Hz). cbn [mbind option_bind].
  assert (Sq : is_squash_candidate seg WorkingState_default (in_policy inputs) = true).
  { apply (Hs seg key Hz). unfold staged_segment in Est. apply bind_Some in Est as (e & E & _). by rewrite E. }
  rewrite Sq. rewrite (proj2 (proj2 (proj2 (quality_gain_sound (pass_score ctx seg) (weights (in_policy inputs))))) Hf).
  unfold is_hot, contains. cbn [ctx_staged ctx staged_decisions hot_refs andb].
  rewrite (bool_decide_ext _ _ (elem_of_elements (in_hot_refs inputs) _)).
  by case_bool_decide.
Qed.

Lemma legacy_in_order :
  StronglySorted (fun a b => live_order a b <> Gt) legacy_live /\ NoDup ((fun r => r.1.1) <$> legacy_live).
Proof.
  apply (rows_in_order _ (length segments)). unfold legacy_live. etransitivity; [apply fmap_sublist, filterb_sublist|].
  rewrite <- (indexed_fmap _ Hx). etransitivity; [|apply fmap_sublist, (zip_fst_sublist segments keys)].
  rewrite <- list_fmap_compose. apply omap_sublist. intros [seg key] r E. cbn [fst snd] in E. cbn.
  rewrite legacy_row_staged in E. apply bind_Some in E as ([st e] & _ & E). by destruct (select_strategy ctx seg st); simplify_eq.
Qed.

(** The rows that survive the pipeline are the legacy rows. *)
Lemma live_rows_legacy l :
  ledger_ok l -> (forall i, proposal_for l i = spine_spec ctx i) -> live_rows rows [] l = legacy_live.
Proof.
  intros N Sp. unfold live_rows. rewrite app_nil_r. apply rows_unique.
  - apply live_order_sorted.
  - apply legacy_in_order.
  - rewrite (sort_by_perm live_order). eapply sublist_NoDup; [exact N|]. apply omap_sublist.
    intros p r E. apply bind_Some in E as ([st e] & _ & E). by simplify_eq/=.
  - apply legacy_in_order.
  - intros [[i entry] cand]. rewrite (sort_by_perm live_order). split.
    + intros (p & Hp & E)%list_elem_of_omap. apply bind_Some in E as ([st e] & Fd & E). injection E as <- <- <-.
      apply find_key_Some in Fd as [Hin Ei]. cbn [fst] in Ei.
      apply list_elem_of_omap in Hin as ([seg key] & Hz & Est). cbn [fst snd] in Est.
      pose proof (staged_segment_index _ _ _ _ _ _ _ Est) as I. cbn [fst] in I.
      apply (proposal_for_elem l p N) in Hp. rewrite Sp, <- Ei, I, (spine_of_row _ _ _ _ Hz Est) in Hp.
      case_bool_decide as Hot; [done|]. apply elem_of_filterb. split.
      * apply list_elem_of_omap. exists (seg, key). split; [done|]. cbn [fst snd]. rewrite legacy_row_staged, Est.
        cbn [mbind option_bind]. rewrite <- Ei, I. by destruct (select_strategy ctx seg st).
      * unfold cold_ref. cbn [snd]. by rewrite bool_decide_false.
    + intros [Hin Cold]%elem_of_filterb. apply list_elem_of_omap in Hin as ([seg key] & Hz & E). cbn [fst snd] in E.
      rewrite legacy_row_staged in E. apply bind_Some in E as ([st e] & Est & E).
      pose proof (staged_segment_index _ _ _ _ _ _ _ Est) as I. cbn [fst] in I.
      unfold cold_ref in Cold. cbn [snd] in Cold. apply negb_true_iff, bool_decide_eq_false in Cold.
      pose proof (spine_of_row _ _ _ _ Hz Est) as Q.
      assert (E' : (seg_index seg, e, staged_candidate st) = (i, entry, cand) /\ select_strategy ctx seg st <> Keep)
        by (destruct (select_strategy ctx seg st); simplify_eq; done).
      destruct E' as [E' K]. injection E' as <- <- <-. rewrite bool_decide_false in Q by done.
      assert (P : exists p, proposal_for l (seg_index seg) = Some p) by (rewrite Sp, Q; destruct (select_strategy ctx seg st); eauto; done).
      destruct P as [p P]. apply proposal_for_Some in P as [Hp Ip]. apply list_elem_of_omap. exists p. split; [done|].
      assert (Fd : List.find (fun s => (staged_seg_index s.1 =? prop_seg_index p)%nat) rows = Some (st, e)).
      { rewrite Ip, <- I. apply (find_key (fun s => staged_seg_index s.1) rows (st, e)).
        - pose proof (staged_segments_NoDup body segments keys plan inputs Hx) as ND. by rewrite <- list_fmap_compose in ND.
        - apply list_elem_of_omap. by exists (seg, key). }
      rewrite Fd. cbn [mbind option_bind]. by rewrite Ip.
Qed.

Lemma if_absorb {A} (a b : bool) (x y : A) :
  (a = true -> b = true) -> (if a then x else if b then x else y) = if b then x else y.
Proof. destruct a; [intros E; by rewrite E | done]. Qed.

Lemma lane_only_empty bytes : lane_only bytes body [] = identity bytes.
Proof. done. Qed.

Lemma legacy_run bytes :
  mapM (fun seg => content_address (segment_payload_bytes seg body)) segments = Some keys ->
  in_fast_lane inputs = ∅ ->
  intercept_continuous bytes body segments keys plan inputs [] = legacy_continuous bytes body segments plan inputs.
Proof.
  intros K Fl. unfold legacy_continuous. rewrite K. cbn [mbind option_bind].
  unfold intercept_continuous. fold rows.
  assert (R0 : omap (fun p => recode_row body segments plan inputs p.1 p.2) (zip segments keys) = []).
  { apply elem_of_nil_inv. intros r ([seg key] & _ & E)%list_elem_of_omap. unfold recode_row in E. cbn [fst snd] in E.
    apply bind_Some in E as (entry & E1 & E). by rewrite (Hr _ _ E1) in E. }
  rewrite R0. change (on_path (for_request true Nominal)) with continuous. fold ctx.
  destruct (continuous_spine ctx Hx (staged_segments_NoDup body segments keys plan inputs Hx) Runner_default)
    as (l & Rn & N & Sp). cbn [ctx ctx_segments] in Rn. fold ctx in Rn. rewrite Rn. cbn [ok mbind option_bind].
  rewrite (live_rows_legacy l N Sp). fold legacy_live.
  assert (Lk : exists lk, mapM (fun r : Live => keys !! r.1.1) legacy_live = Some lk).
  { apply mapM_is_Some_2, Forall_forall. intros r Hi. rewrite <- (live_rows_legacy l N Sp) in Hi.
    destruct (live_rows_index rows [] l segments r) as [s Hl]; [|by intros ? ?%not_elem_of_nil|done|].
    - intros p Hp. apply (proposal_for_elem l p N) in Hp. rewrite Sp in Hp. by apply spine_spec_index in Hp.
    - apply lookup_lt_is_Some_2. apply length_mapM in K. rewrite <- K. by eapply lookup_lt_Some. }
  destruct Lk as [lk ->]. cbn [mbind option_bind].
  replace (filterb (fun key => bool_decide (key ∈ in_fast_lane inputs)) lk) with (@nil RefId)
    by (symmetry; apply elem_of_nil_inv; intros k [_ Hk]%elem_of_filterb; rewrite Fl in Hk; apply bool_decide_eq_true in Hk; set_solver).
  rewrite lane_only_empty.
  rewrite if_absorb; [reflexivity|]. unfold legacy_live. destruct (omap (fun p => legacy_row body segments plan inputs p.1 p.2) (zip segments keys));
    [reflexivity | discriminate].
Qed.
End Legacy.

(** ** Blocks written twice *)

Section Twice.
Context `{SerdeJson, SerdeValue}.

(** The slot of the body a target names, and what it becomes. *)
Definition slot (body : WireBody) (t : BlockTarget) : Prop :=
  exists w, messages body !! target_message (bt_target t) = Some w /\
  match target_block (bt_target t) with
  | None => (exists raw text, content w = Content_Text raw text) /\ bt_kind t = StringContent
  | Some b => exists bs block, content w = Content_Blocks bs /\ bs !! b = Some block /\
      block_target (target_message (bt_target t)) b block = Some t
  end.

Lemma squash_targets_slot body seg t : t ∈ squash_targets body seg -> slot body t.
Proof.
  assert (B : forall m, t ∈ block_targets body m -> slot body t).
  { intros m. unfold block_targets. destruct (messages body !! m) as [w|] eqn:W; [|by intros ?%not_elem_of_nil].
    intros ([b block] & Hb%elem_of_enumerate & E)%list_elem_of_omap.
    assert (T : bt_target t = mkSegmentTarget m (Some b)).
    { destruct block; cbn [block_target] in E; try done; [by case_match; simplify_eq|].
      unfold tool_result_target in E. repeat (apply bind_Some in E as (? & _ & E)). by case_match; simplify_eq. }
    exists w. rewrite T. cbn [target_message target_block]. split; [done|].
    destruct (content w) as [|bs]; cbn [blocks] in Hb; [discriminate Hb | by exists bs, block]. }
  assert (S : forall m raw text w, messages body !! m = Some w -> content w = Content_Text raw text ->
    t ∈ string_target m raw text -> slot body t).
  { intros m raw text w W C. unfold string_target. case_match; [|by intros ?%not_elem_of_nil].
    intros ->%list_elem_of_singleton. exists w. cbn. eauto. }
  unfold squash_targets. destruct (kind seg) eqn:K.
  3:{ intros (l & (m & -> & _)%list_elem_of_fmap & Ht)%elem_of_concat. apply (B m).
      unfold tool_result_targets, block_targets in *. destruct (messages body !! m) as [w|]; [|done].
      apply list_elem_of_omap in Ht as ([b block] & Hb & E). apply list_elem_of_omap. exists (b, block). by destruct block. }
  all: destruct (single_message body seg) as [[m [raw text|bs]]|] eqn:Sg; try (by intros ?%not_elem_of_nil);
    apply single_message_Some in Sg as (u & w & _ & _ & W & C); eauto.
Qed.

(** Blocks that drop targets of the body. *)
Definition drops (body : WireBody) (r : RenderedSegment) : Prop :=
  exists t, slot body t /\ r = render_target t DROP_PLACEHOLDER.

(** Two of them at one message write the same text at the same target, and a
    whole-content target is the message's only one. *)
Lemma drops_agree body r r' :
  drops body r -> drops body r' -> target_message (rs_target r) = target_message (rs_target r') ->
  (rs_target r = rs_target r' -> block_json r = block_json r') /\
  (target_block (rs_target r) = None -> rs_target r' = rs_target r).
Proof.
  intros (t & (w & W & Sl) & ->) (t' & (w' & W' & Sl') & ->) E. cbn [rs_target render_target block_json] in *.
  rewrite E, W' in W. injection W as <-. destruct (bt_target t) as [m b], (bt_target t') as [m' b']. cbn in *. subst m'.
  destruct b as [b|], b' as [b'|].
  - destruct Sl as (bs & block & C & L & T), Sl' as (bs' & block' & C' & L' & T'). split; [|done].
    intros [= ->]. rewrite C in C'. injection C' as <-. rewrite L in L'. injection L' as <-. rewrite T in T'. by injection T' as <-.
  - destruct Sl as (bs & block & C & _), Sl' as ((raw & text & C') & _). congruence.
  - destruct Sl as ((raw & text & C) & _), Sl' as (bs & block & C' & _). congruence.
  - destruct Sl as (_ & ->), Sl' as (_ & ->). done.
Qed.

Lemma write_targets_app a b : forall c,
  write_targets c (a ++ b) = (c' ← write_targets c a; write_targets c' b).
Proof.
  induction a as [|x a IH]; intros c; cbn [app write_targets]; [done|].
  destruct (write_target c x) as [c'|e]; [|done]. cbn. apply IH.
Qed.

(** Writing a block again changes nothing. *)
Lemma write_again body m pre x c c' :
  (forall r, r ∈ pre -> drops body r /\ target_message (rs_target r) = m) -> x ∈ pre ->
  write_targets c pre = Ok c' -> write_target c' x = Ok c'.
Proof.
  revert c'. induction pre as [|y pre IH] using rev_ind; intros c' D Hx E; [by apply not_elem_of_nil in Hx|].
  rewrite write_targets_app in E. destruct (write_targets c pre) as [c0|] eqn:E0; [|done].
  cbn [mbind result_bind write_targets] in E. destruct (write_target c0 y) as [c1|] eqn:Ey; [|done]. cbn in E. injection E as ->.
  destruct (D x Hx) as [Dx Mx], (D y) as [Dy My]; [set_solver|].
  destruct (drops_agree body x y Dx Dy) as [J N]; [congruence|].
  destruct (decide (rs_target x = rs_target y)) as [T|T].
  - unfold write_target in *. rewrite (J T), T. revert Ey.
    destruct (json_value (block_json y)) as [v|]; [|done]. cbn [mbind result_bind ok_or].
    destruct (target_block (rs_target y)) as [b|]; [|done]. destruct c0 as [| |bs|]; try done.
    destruct (bs !! b) eqn:L; [|done]. intros [= <-]. apply lookup_lt_Some in L as Lt.
    rewrite list_lookup_insert_eq by done. by rewrite list_insert_insert_eq.
  - assert (Hx' : x ∈ pre) by (apply elem_of_app in Hx as [?|?%list_elem_of_singleton]; [done | by subst]).
    assert (W : write_target c0 x = Ok c0) by (apply IH; [intros r Hr; apply D; set_solver | done | done]).
    unfold write_target in *. revert W Ey.
    destruct (json_value (block_json x)) as [vx|]; [|done]. cbn [mbind result_bind ok_or].
    destruct (target_block (rs_target x)) as [bx|] eqn:Bx; [|by rewrite (N eq_refl) in T].
    destruct c0 as [| |bs|]; try done. destruct (bs !! bx) eqn:Lx; [|done]. intros W.
    destruct (json_value (block_json y)) as [vy|]; [|done]. cbn [mbind result_bind ok_or]. intros Ey.
    destruct (target_block (rs_target y)) as [b|] eqn:By.
    2:{ destruct (drops_agree body y x Dy Dx) as [_ N']; [congruence|]. by rewrite (N' By) in T. }
    destruct (bs !! b) eqn:Ly; [|done]. injection Ey as <-. injection W as W.
    assert (b <> bx).
    { intros ->. apply T. destruct (rs_target x), (rs_target y). cbn in *. congruence. }
    rewrite list_lookup_insert_ne by done. rewrite Lx. by rewrite list_insert_insert_ne, W by done.
Qed.

(** Two lists of blocks that leave every message's content alike. *)
Definition writes_alike (a b : list RenderedSegment) : Prop :=
  forall m, is_empty (targets_of m a) = is_empty (targets_of m b) /\
  forall c, write_targets c (targets_of m a) = write_targets c (targets_of m b).

Lemma targets_of_app m a b : targets_of m (a ++ b) = targets_of m a ++ targets_of m b.
Proof. induction a as [|x a IH]; [done|]. cbn [app]. unfold targets_of in *. cbn [filterb]. case_match; cbn; by rewrite IH. Qed.

Lemma drop_repeat body pre xs suf :
  (forall r, r ∈ pre -> drops body r) -> (forall x, x ∈ xs -> x ∈ pre) ->
  writes_alike (pre ++ xs ++ suf) (pre ++ suf).
Proof.
  intros D. induction xs as [|x xs IH]; intros Hx m; [done|].
  destruct (IH (fun y Hy => Hx y (list_elem_of_further _ _ _ Hy)) m) as [Em Wr].
  destruct (decide (target_message (rs_target x) = m)) as [T|T].
  - assert (Tx : targets_of m [x] = [x]) by (unfold targets_of; cbn [filterb]; by rewrite T, Nat.eqb_refl).
    assert (In : x ∈ targets_of m pre) by (apply elem_of_filterb; split; [apply Hx; left | by rewrite T, Nat.eqb_refl]).
    change ((x :: xs) ++ suf) with ([x] ++ xs ++ suf). rewrite (targets_of_app m pre), (targets_of_app m [x]), Tx.
    rewrite (targets_of_app m pre) in Em, Wr. split.
    + rewrite <- Em. destruct (targets_of m pre); [by apply not_elem_of_nil in In | done].
    + intros c. rewrite <- Wr, (write_targets_app (targets_of m pre)), (write_targets_app (targets_of m pre)).
      destruct (write_targets c (targets_of m pre)) as [c'|] eqn:E; [|done].
      cbn [mbind result_bind app write_targets]. rewrite (write_again body m (targets_of m pre) x c c'); [done | | exact In | exact E].
      intros r [Hr M]%elem_of_filterb. apply Nat.eqb_eq in M. split; [by apply D | done].
  - assert (Tx : targets_of m ([x] ++ xs ++ suf) = targets_of m (xs ++ suf)).
    { unfold targets_of. cbn [app filterb]. by rewrite (proj2 (Nat.eqb_neq _ _) T). }
    change ((x :: xs) ++ suf) with ([x] ++ xs ++ suf). rewrite (targets_of_app m pre), Tx, <- targets_of_app. by split.
Qed.

Lemma splice_alike original body a b : writes_alike a b -> splice original body a no_breakpoints = splice original body b no_breakpoints.
Proof.
  intros W. unfold splice. destruct (raw_map original) as [env|]; [|done]. cbn [mbind result_bind ok_or].
  destruct (env !! MESSAGES) as [m|]; [|done]. cbn [mbind result_bind ok_or].
  destruct (json_array m) as [raws|]; [|done]. cbn [mbind result_bind ok_or].
  set (kept := cap_cache_hints_to _ _).
  assert (E : forall raws i, edit_messages i raws a kept = edit_messages i raws b kept).
  { intros rs. induction rs as [|raw rs IH]; intros i; cbn [edit_messages]; [done|]. rewrite IH.
    replace (edit_message i raw b (contains i kept)) with (edit_message i raw a (contains i kept)); [done|].
    unfold edit_message. destruct (W i) as [Em Wr]. rewrite Em. case_match; [done|].
    destruct (json_object_fields raw) as [msg|]; [|done]. cbn [mbind result_bind ok_or].
    destruct (msg !! CONTENT) as [c|]; [|done]. cbn [mbind result_bind ok_or]. by rewrite Wr. }
  by rewrite E.
Qed.
End Twice.

(** ** The two fallbacks in step *)

Section Ladder.
Context `{SerdeJson, SerdeValue}.

Notation indices l := (prop_seg_index <$> proposals l).

Lemma filterb_in_ext {A} (f g : A -> bool) l : (forall x, x ∈ l -> f x = g x) -> filterb f l = filterb g l.
Proof.
  induction l as [|x l IH]; intros E; [done|]. cbn [filterb]. rewrite (E x) by left. rewrite IH; [done|]. intros y Hy. apply E. by right.
Qed.

Lemma omap_fmap {A B C} (f : B -> option C) (g : A -> B) (l : list A) : omap f (g <$> l) = omap (fun x => f (g x)) l.
Proof. induction l as [|x l IH]; [done|]. cbn. by rewrite IH. Qed.

Lemma upsert_new q l : prop_seg_index q ∉ (prop_seg_index <$> l) -> upsert q l = l ++ [q].
Proof.
  induction l as [|p l IH]; [done|]. cbn [upsert fmap list_fmap]. intros N. apply not_elem_of_cons in N as [Np Nl].
  unfold for_segment. rewrite (proj2 (Nat.eqb_neq _ _)) by congruence. cbn. by rewrite IH.
Qed.

Lemma removed_app a b pr sc : removed_so_far (mkPlanLedger sc (a ++ b) pr) =
  u64_sum (((fun p => Z.max (prop_net_removed p) 0) <$> a) ++ ((fun p => Z.max (prop_net_removed p) 0) <$> b)).
Proof. unfold removed_so_far. cbn [proposals]. by rewrite fmap_app. Qed.

(** What each rung appends. *)
Definition appended (l l' : PlanLedger) (ps : list Proposal) : Prop := proposals l' = proposals l ++ ps.

Definition tokens_of (segs : list Segment) : Z := sumZ (token_estimate <$> segs).

Lemma strip_loop_appends ctx ks : forall l sheds,
  mapM (fun i => shed_tokens (ctx_body ctx) <$> ctx_segments ctx !! i) ks = Some sheds ->
  NoDup ks -> (forall i, i ∈ ks -> i ∉ indices l) ->
  exists l', strip_loop ctx ks l = Some l' /\
    appended l l' (zip_with (fun i shed => drop_proposal i shed STRIP_REASONING) ks sheds).
Proof.
  induction ks as [|i ks IH]; intros l sheds M N F; cbn [strip_loop].
  { injection M as <-. exists l. split; [done|]. unfold appended. by rewrite app_nil_r. }
  apply NoDup_cons in N as [Ni N]. cbn [mapM] in M. destruct (ctx_segments ctx !! i) as [s|]; [|done].
  cbn [fmap option_fmap option_map mbind option_bind] in *. apply bind_Some in M as (sh & M & [= <-]).
  set (q := drop_proposal _ _ _). assert (Q : proposals (upsert_proposal l q) = proposals l ++ [q]) by (apply upsert_new, F; left).
  destruct (IH (upsert_proposal l q) sh M N) as (l' & E & A).
  - intros j Hj. rewrite Q, fmap_app. intros [?|?%list_elem_of_singleton]%elem_of_app; [eapply F; [by right | done] | by subst].
  - exists l'. split; [exact E|]. unfold appended in *. by rewrite A, Q, <- app_assoc.
Qed.

(** Rung 2 on both sides: the same pairs, the same running total. *)
Lemma drop_pairs_agree t ss : forall running dropped l,
  Forall (fun s => 0 <= token_estimate s) ss -> 0 <= running ->
  NoDup (seg_index <$> ss) -> (forall s, s ∈ ss -> seg_index s ∉ indices l) ->
  exists ds, sublist ds ss /\
    legacy_drop_pairs t ss running dropped = (sat_sub running (tokens_of ds), dropped ++ (seg_index <$> ds)) /\
    (drop_tool_pairs_loop t ss running l).1 = sat_sub running (tokens_of ds) /\
    appended l (drop_tool_pairs_loop t ss running l).2
      ((fun s => drop_proposal (seg_index s) (token_estimate s) DROP_TOOL_PAIRS) <$> ds).
Proof.
  induction ss as [|s ss IH]; intros running dropped l P R N F; cbn [legacy_drop_pairs drop_tool_pairs_loop].
  { exists []. unfold tokens_of, sat_sub, appended. cbn. rewrite !app_nil_r, Z.sub_0_r, Z.max_r by lia. by repeat constructor. }
  destruct (running <=? t).
  { exists []. split; [apply sublist_nil_l|]. unfold tokens_of, sat_sub, appended. cbn. by rewrite !app_nil_r, Z.sub_0_r, Z.max_r by lia. }
  inversion P as [|? ? Ps P']; subst. cbn [fmap list_fmap] in N. apply NoDup_cons in N as [Ns N]. cbn [drop_step].
  set (q := drop_proposal _ _ _). assert (Q : proposals (upsert_proposal l q) = proposals l ++ [q]) by (apply upsert_new, F; left).
  destruct (IH (sat_sub running (token_estimate s)) (dropped ++ [seg_index s]) (upsert_proposal l q)) as (ds & Sub & E1 & E2 & A).
  - done.
  - unfold sat_sub. lia.
  - done.
  - intros s' Hs'. rewrite Q, fmap_app. intros [?|E%list_elem_of_singleton]%elem_of_app; [eapply F; [by right | done]|].
    apply Ns. change (prop_seg_index q) with (seg_index s) in E. rewrite <- E. by apply list_elem_of_fmap_2.
  - assert (T : 0 <= tokens_of ds).
    { apply sumZ_nonneg. rewrite Forall_fmap. rewrite Forall_forall in P' |- *. intros x Hx. apply P'. by apply (sublist_subseteq _ _ Sub). }
    assert (St : sat_sub (sat_sub running (token_estimate s)) (tokens_of ds) = sat_sub running (tokens_of (s :: ds)))
      by (unfold tokens_of, sat_sub in *; cbn [fmap list_fmap]; rewrite sumZ_cons; lia).
    exists (s :: ds). split; [by constructor|]. rewrite <- St. split; [|split; [exact E2|]].
    + rewrite E1. by rewrite <- app_assoc.
    + unfold appended in *. by rewrite A, Q, <- app_assoc.
Qed.

(** Rung 3 on both sides: the same segments; a segment already stripped is
    proposed in place by one and listed again by the other. *)
Lemma drop_oldest_agree t last ss : forall running dropped l,
  NoDup (seg_index <$> ss) ->
  (forall s, s ∈ ss -> contains (seg_index s) dropped = dropped_by_tool_pairs l (seg_index s)) ->
  exists os, sublist os ss /\
    legacy_drop_oldest t last ss running dropped = dropped ++ (seg_index <$> os) /\
    indices (drop_oldest_loop t last ss running l).2 =
      indices l ++ filterb (fun i => negb (contains i (indices l))) (seg_index <$> os).
Proof.
  induction ss as [|s ss IH]; intros running dropped l N C; cbn [legacy_drop_oldest drop_oldest_loop].
  { exists []. rewrite !app_nil_r. by repeat constructor. }
  destruct (running <=? t).
  { exists []. split; [apply sublist_nil_l|]. cbn. by rewrite !app_nil_r. }
  cbn [fmap list_fmap] in N. apply NoDup_cons in N as [Ns N]. rewrite (C s) by left.
  destruct ((seg_index s =? last)%nat || is_instruction (kind s) || dropped_by_tool_pairs l (seg_index s)).
  { destruct (IH running dropped l N) as (os & Sub & E); [intros s' Hs'; apply C; by right|].
    exists os. split; [by constructor | exact E]. }
  cbn [drop_step]. set (q := drop_proposal _ _ _).
  assert (Other : forall s', s' ∈ ss -> seg_index s' <> seg_index s).
  { intros s' Hs' E. apply Ns. rewrite <- E. by apply list_elem_of_fmap_2. }
  destruct (IH (sat_sub running (token_estimate s)) (dropped ++ [seg_index s]) (upsert_proposal l q) N) as (os & Sub & E1 & E2).
  { intros s' Hs'. unfold dropped_by_tool_pairs. rewrite proposal_for_upsert, decide_False by exact (fun X => Other s' Hs' (eq_sym X)).
    fold (dropped_by_tool_pairs l (seg_index s')). rewrite <- (C s') by (by right). unfold contains.
    apply bool_decide_ext. rewrite elem_of_app, list_elem_of_singleton. split; [intros [?|?]; [done|] | by left].
    exfalso. by eapply Other. }
  exists (s :: os). split; [by constructor|]. split; [rewrite E1; by rewrite <- app_assoc|]. rewrite E2.
  cbn [fmap list_fmap filterb]. change (indices (upsert_proposal l q)) with (prop_seg_index <$> upsert q (proposals l)).
  rewrite upsert_indices. change (prop_seg_index q) with (seg_index s). unfold contains at 2. case_decide as D.
  - by rewrite bool_decide_true by done.
  - rewrite bool_decide_false by done. cbn [negb]. rewrite <- app_assoc. cbn. do 2 f_equal.
    apply filterb_in_ext. intros i Hi. f_equal. unfold contains. apply bool_decide_ext.
    rewrite elem_of_app, list_elem_of_singleton. split; [intros [?|?]; [done|] | by left].
    apply list_elem_of_fmap in Hi as (s' & -> & Hs'). exfalso. eapply Other; [|done]. by apply (sublist_subseteq _ _ Sub).
Qed.

(** The two plans: what one lists twice, the other lists where it first stood. *)
Section Plans.
Context (body : WireBody) (policy : PolicyConfig).
Let segs := segment_prompt body.
Let ctx := fallback_ctx body segs policy.
Hypothesis Hlen : Z.of_nat (length segs) < 2 ^ 31.

Lemma sumZ_u32 l : Forall is_u32 l -> 0 <= sumZ l <= Z.of_nat (length l) * 2 ^ 32.
Proof. induction 1 as [|z l Hz Hl IH]; [done|]. rewrite sumZ_cons. unfold is_u32 in Hz. cbn [length]. lia. Qed.

Lemma u64_sum_u32 l : Forall is_u32 l -> Z.of_nat (length l) < 2 ^ 32 -> u64_sum l = sumZ l.
Proof. intros F L. rewrite u64_sum_wrap. apply Z.mod_small. pose proof (sumZ_u32 l F). unfold u64_wrap. lia. Qed.

Lemma strip_sublist : sublist (strip_reasoning body segs) (seg_index <$> segs).
Proof. unfold strip_reasoning. apply fmap_sublist. etransitivity; apply filterb_sublist. Qed.

Lemma strip_sheds : exists sheds, mapM (fun i => shed_tokens body <$> segs !! i) (strip_reasoning body segs) = Some sheds /\
  Forall is_u32 sheds /\ length sheds = length (strip_reasoning body segs).
Proof.
  destruct (segment_prompt_facts body) as (Hidx & Htok & _). fold segs in Hidx, Htok.
  destruct (mapM (fun i => shed_tokens body <$> segs !! i) (strip_reasoning body segs)) as [sheds|] eqn:M.
  - exists sheds. split; [done|]. split; [|symmetry; by eapply length_mapM]. apply Forall_forall. intros z Hz.
    apply mapM_Some_1 in M. apply list_elem_of_lookup in Hz as (k & Hk).
    destruct (Forall2_lookup_r _ _ _ _ _ M Hk) as (i & _ & E). apply fmap_Some in E as (s & Hs & ->).
    unfold shed_tokens, sat_sub. set (kept := concat _). pose proof (estimate_chars_proxy_u32 kept).
    pose proof (Htok _ _ Hs). unfold is_u32 in *. lia.
  - exfalso. apply eq_None_not_Some in M. apply M. apply mapM_is_Some_2, Forall_forall. intros i Hi.
    destruct (strip_reasoning_ok ctx Hidx i Hi) as (s & Hs & _). exists (shed_tokens body s). change (ctx_segments ctx) with segs in Hs. cbv beta. by rewrite Hs.
Qed.

Definition stripped (strip : list nat) (sheds : list Z) : list Proposal :=
  zip_with (fun i shed => drop_proposal i shed STRIP_REASONING) strip sheds.
Definition paired (ds : list Segment) : list Proposal :=
  (fun s => drop_proposal (seg_index s) (token_estimate s) DROP_TOOL_PAIRS) <$> ds.

Lemma stripped_indices strip sheds : length sheds = length strip -> prop_seg_index <$> stripped strip sheds = strip.
Proof. revert sheds. induction strip as [|i strip IH]; intros [|z sheds] L; try done. unfold stripped in *. cbn. rewrite IH; [done|]. by injection L. Qed.

Lemma paired_indices ds : prop_seg_index <$> paired ds = seg_index <$> ds.
Proof. unfold paired. by rewrite <- list_fmap_compose. Qed.

Lemma stripped_removed strip sheds : length sheds = length strip -> Forall is_u32 sheds ->
  (fun p => Z.max (prop_net_removed p) 0) <$> stripped strip sheds = sheds.
Proof.
  intros L F. revert strip L. induction F as [|z sheds Hz F IH]; intros [|i strip] L; try done.
  unfold stripped in *. cbn. rewrite IH by (by injection L). unfold is_u32 in Hz. by rewrite Z.max_l by lia.
Qed.

Lemma paired_removed ds : Forall (fun s => is_u32 (token_estimate s)) ds ->
  (fun p => Z.max (prop_net_removed p) 0) <$> paired ds = token_estimate <$> ds.
Proof. induction 1 as [|s ds Hs F IH]; [done|]. unfold paired in *. cbn. rewrite IH. unfold is_u32 in Hs. by rewrite Z.max_l by lia. Qed.

(** Which segments the first two rungs' ledger counts as dropped pairs. *)
Lemma pairs_dropped l strip sheds ds i :
  length sheds = length strip -> proposals l = stripped strip sheds ++ paired ds -> NoDup (strip ++ (seg_index <$> ds)) ->
  contains i (seg_index <$> ds) = dropped_by_tool_pairs l i.
Proof.
  intros L E N. assert (O : ledger_ok l) by (unfold ledger_ok; by rewrite E, fmap_app, stripped_indices, paired_indices).
  unfold contains. destruct (dropped_by_tool_pairs l i) eqn:D.
  - apply bool_decide_eq_true. unfold dropped_by_tool_pairs in D. destruct (proposal_for l i) as [p|] eqn:P; [|done].
    apply bool_decide_eq_true in D. apply proposal_for_Some in P as [Hp <-]. rewrite E in Hp.
    apply elem_of_app in Hp as [Hp|Hp].
    + exfalso. unfold stripped in Hp. apply elem_of_lookup_zip_with in Hp as (k & j & z & -> & _). discriminate D.
    + rewrite <- paired_indices. by apply list_elem_of_fmap_2.
  - apply bool_decide_eq_false. intros (s & -> & Hs)%list_elem_of_fmap. unfold dropped_by_tool_pairs in D.
    pose proof (proposal_for_elem l (drop_proposal (seg_index s) (token_estimate s) DROP_TOOL_PAIRS) O) as P.
    cbn [prop_seg_index drop_proposal] in P. rewrite P in D; [by rewrite bool_decide_true in D|]. rewrite E.
    apply elem_of_app. right. unfold paired. by apply (list_elem_of_fmap_2 (fun s => drop_proposal (seg_index s) (token_estimate s) DROP_TOOL_PAIRS)).
Qed.

Lemma pairs_idle t ss running l : running <= t -> drop_tool_pairs_loop t ss running l = (running, l).
Proof. intros R. destruct ss; cbn [drop_tool_pairs_loop]; [done|]. by rewrite (proj2 (Z.leb_le _ _) R). Qed.

Lemma oldest_idle t last ss running l : running <= t -> drop_oldest_loop t last ss running l = (running, l).
Proof. intros R. destruct ss; cbn [drop_oldest_loop]; [done|]. by rewrite (proj2 (Z.leb_le _ _) R). Qed.

(** The stripped segments and the dropped pairs are different segments. *)
Lemma strip_pairs_NoDup ds : sublist ds (filterb is_droppable_pair segs) ->
  NoDup (strip_reasoning body segs ++ (seg_index <$> ds)).
Proof.
  intros Sub. destruct (segment_prompt_facts body) as (Hidx & _ & _). fold segs in Hidx.
  assert (N : NoDup (seg_index <$> segs)) by (rewrite (indexed_fmap segs Hidx); apply NoDup_seq).
  apply NoDup_app. split; [exact (sublist_NoDup _ _ N strip_sublist)|]. split.
  - intros i Hi (s & -> & Hs)%list_elem_of_fmap. destruct (strip_reasoning_ok ctx Hidx _ Hi) as (s' & L & K & _).
    apply (sublist_subseteq _ _ Sub) in Hs. apply elem_of_filterb in Hs as [Hs D]. apply andb_true_iff in D as [D _].
    apply bool_decide_eq_true in D. apply list_elem_of_lookup in Hs as (k & Hk). rewrite (Hidx _ _ Hk) in L.
    change (ctx_segments ctx) with segs in L. congruence.
  - eapply sublist_NoDup; [exact N|]. apply fmap_sublist. etransitivity; [exact Sub | apply filterb_sublist].
Qed.

(** The running total rung 3 starts from is the one rung 2 ended with. *)
Lemma running_total total sheds l ds :
  length sheds = length (strip_reasoning body segs) -> Forall is_u32 sheds ->
  sublist ds (filterb is_droppable_pair segs) -> Forall (fun s => is_u32 (token_estimate s)) ds ->
  proposals l = stripped (strip_reasoning body segs) sheds ++ paired ds ->
  sat_sub total (removed_so_far l) = sat_sub (sat_sub total (u64_sum sheds)) (tokens_of ds).
Proof.
  intros Ls Fs Sub Fd A. unfold removed_so_far. rewrite A, fmap_app, stripped_removed, paired_removed by done.
  assert (Lst : (length (strip_reasoning body segs) <= length segs)%nat).
  { pose proof (sublist_length _ _ strip_sublist) as Q. by rewrite length_fmap in Q. }
  assert (Ld : (length ds <= length segs)%nat).
  { etransitivity; [exact (sublist_length _ _ Sub) | exact (sublist_length _ _ (filterb_sublist _ _))]. }
  assert (Ft : Forall is_u32 (token_estimate <$> ds)) by by rewrite Forall_fmap.
  rewrite u64_sum_u32; [|by apply Forall_app | rewrite length_app, length_fmap, Ls; lia].
  rewrite (u64_sum_u32 sheds) by (done || (rewrite Ls; lia)).
  rewrite sumZ_app. pose proof (sumZ_u32 sheds Fs). pose proof (sumZ_u32 _ Ft). unfold tokens_of, sat_sub in *. lia.
Qed.

(** Rungs 2 and 3 in step, after the same rung 1. *)
Lemma later_rungs_agree total sheds l1 :
  length sheds = length (strip_reasoning body segs) -> Forall is_u32 sheds ->
  proposals l1 = stripped (strip_reasoning body segs) sheds ->
  let pairs := filterb is_droppable_pair segs in
  let running := sat_sub total (u64_sum sheds) in
  let l2 := (drop_tool_pairs_loop (target ctx) pairs running l1).2 in
  exists ds os,
    (let '(running, dropped) := legacy_drop_pairs (target ctx) pairs running [] in
     legacy_drop_oldest (target ctx) (length segs - 1) segs running dropped) = ds ++ os /\
    indices (drop_oldest_loop (target ctx) (length segs - 1) segs (sat_sub total (removed_so_far l2)) l2).2 =
      (strip_reasoning body segs ++ ds) ++ filterb (fun i => negb (contains i (strip_reasoning body segs ++ ds))) os.
Proof.
  intros Ls Fs A1 pairs running l2. destruct (segment_prompt_facts body) as (Hidx & Htok & _). fold segs in Hidx, Htok.
  assert (Ni : NoDup (seg_index <$> segs)) by (rewrite (indexed_fmap segs Hidx); apply NoDup_seq).
  assert (Tok : forall s, s ∈ pairs -> is_u32 (token_estimate s)).
  { intros s [(k & Hk)%list_elem_of_lookup _]%elem_of_filterb. by eapply Htok. }
  destruct (drop_pairs_agree (target ctx) pairs running [] l1) as (ds & Sub & D1 & _ & A2).
  { apply Forall_forall. intros s Hs. by destruct (Tok s Hs). }
  { unfold running, sat_sub. lia. }
  { eapply sublist_NoDup; [exact Ni | apply fmap_sublist, filterb_sublist]. }
  { intros s Hs. rewrite A1, stripped_indices by done. intros Hi.
    pose proof (strip_pairs_NoDup pairs ltac:(reflexivity)) as N. apply NoDup_app in N as (_ & N & _).
    apply (N _ Hi). by apply list_elem_of_fmap_2. }
  fold l2 in A2. unfold appended in A2. rewrite A1 in A2. fold (paired ds) in A2.
  assert (Fd : Forall (fun s => is_u32 (token_estimate s)) ds).
  { apply Forall_forall. intros s Hs. by apply Tok, (sublist_subseteq _ _ Sub). }
  rewrite (running_total total sheds l2 ds Ls Fs Sub Fd A2), D1. fold running.
  destruct (drop_oldest_agree (target ctx) (length segs - 1) segs (sat_sub running (tokens_of ds)) ([] ++ (seg_index <$> ds)) l2)
    as (os & _ & O1 & O2); [exact Ni | |].
  { intros s _. cbn [app]. eapply pairs_dropped; [exact Ls | exact A2 | exact (strip_pairs_NoDup ds Sub)]. }
  exists (seg_index <$> ds), (seg_index <$> os). split; [exact O1|].
  by rewrite O2, A2, fmap_app, stripped_indices, paired_indices.
Qed.

Lemma ladder_plans : exists l plan base os,
  Runner_run Runner_default budget_fallback ctx (PlanLedger_sized (length segs)) = Ok l /\
  legacy_default_compact body segs (target ctx) = Some plan /\
  legacy_strip plan ++ legacy_dropped plan = base ++ os /\
  indices l = base ++ filterb (fun i => negb (contains i base)) os.
Proof.
  destruct (segment_prompt_facts body) as (Hidx & _). fold segs in Hidx.
  assert (Ni : NoDup (seg_index <$> segs)) by (rewrite (indexed_fmap segs Hidx); apply NoDup_seq).
  rewrite Runner_run_straight by apply fallback_never_reverts. rewrite fallback_straight.
  unfold legacy_default_compact, strip_reasoning_apply.
  change (total_tokens ctx) with (u64_sum (token_estimate <$> segs)). set (total := u64_sum _).
  destruct (Z.leb_spec total (target ctx)) as [Le|Gt].
  { exists (PlanLedger_sized (length segs)), (mkLegacyCompactionPlan [] []), [], []. split; [|done].
    cbn [mbind option_bind]. unfold drop_oldest_apply, drop_tool_pairs_apply.
    change (total_tokens ctx) with total. by rewrite (proj2 (Z.leb_le _ _) Le). }
  destruct strip_sheds as (sheds & M & Fs & Ls). set (strip := strip_reasoning body segs) in *.
  rewrite M. cbn [mbind option_bind].
  destruct (strip_loop_appends ctx strip (PlanLedger_sized (length segs)) sheds) as (l1 & E1 & A1);
    [exact M | exact (sublist_NoDup _ _ Ni strip_sublist) | by intros i _ ?%not_elem_of_nil |].
  change (ctx_body ctx) with body. change (ctx_segments ctx) with segs. fold strip. rewrite E1.
  cbn [mbind option_bind ok_or]. unfold appended in A1. cbn in A1. fold (stripped strip sheds) in A1.
  assert (R1 : removed_so_far l1 = u64_sum sheds) by (unfold removed_so_far; by rewrite A1, stripped_removed).
  unfold drop_oldest_apply, drop_tool_pairs_apply. change (total_tokens ctx) with total.
  rewrite (proj2 (Z.leb_gt _ _) Gt), R1. change (ctx_segments ctx) with segs.
  destruct (Z.leb_spec (sat_sub total (u64_sum sheds)) (target ctx)) as [Le|_].
  { rewrite pairs_idle by done. cbn [snd]. rewrite R1. rewrite oldest_idle by done.
    eexists _, _, strip, []. split; [reflexivity|]. split; [reflexivity|]. split; [done|]. cbn [snd filterb].
    by rewrite A1, app_nil_r, stripped_indices. }
  destruct (later_rungs_agree total sheds l1 Ls Fs A1) as (ds & os & L & I).
  destruct (legacy_drop_pairs _ _ _ _) as [r d].
  eexists _, _, (strip ++ ds), os. split; [reflexivity|]. split; [reflexivity|].
  split; [cbn [legacy_strip legacy_dropped]; by rewrite L, app_assoc | exact I].
Qed.
End Plans.

(** Repeated indices do not show in the bytes. *)
Section Repeats.
Context (body : WireBody) (segments : list Segment) (policy : PolicyConfig).
Let R := legacy_rendered body segments policy.

Lemma legacy_rendered_app a b : R (a ++ b) = R a ++ R b.
Proof.
  unfold R, legacy_rendered. by rewrite omap_app, filterb_app, fmap_app, concat_app, omap_app.
Qed.

Lemma legacy_rendered_drops ks r : r ∈ R ks -> drops body r.
Proof.
  intros (t & Ht & E)%list_elem_of_omap. apply elem_of_concat in Ht as (l & Hl & Ht).
  apply list_elem_of_fmap in Hl as (seg & -> & _). exists t. split; [by eapply squash_targets_slot|].
  unfold shrinking_target in E. change (render_proposal_text Drop None) with (Some DROP_PLACEHOLDER) in E.
  cbn [mbind option_bind] in E. destruct (_ <? _) in E; [exact (eq_sym (inj Some _ _ E)) | discriminate E].
Qed.

Lemma alike_empty a b : writes_alike a b -> is_empty a = is_empty b.
Proof.
  assert (K : forall x l, is_empty (targets_of (target_message (rs_target x)) (x :: l)) = false)
    by (intros x l; unfold targets_of; cbn [filterb]; by rewrite Nat.eqb_refl).
  intros W. destruct a as [|x a], b as [|y b]; try done.
  - destruct (W (target_message (rs_target y))) as [E _]. by rewrite K in E.
  - destruct (W (target_message (rs_target x))) as [E _]. by rewrite K in E.
Qed.

Lemma alike_trans a b c : writes_alike a b -> writes_alike b c -> writes_alike a c.
Proof. intros W1 W2 m. destruct (W1 m) as [E1 F1], (W2 m) as [E2 F2]. split; [congruence|]. intros v. by rewrite F1. Qed.

Lemma repeats_alike base os : forall pre,
  (forall r, r ∈ pre -> drops body r) -> (forall i r, i ∈ base -> r ∈ R [i] -> r ∈ pre) ->
  writes_alike (pre ++ R os) (pre ++ R (filterb (fun i => negb (contains i base)) os)).
Proof.
  induction os as [|i os IH]; intros pre D B; [done|]. change (i :: os) with ([i] ++ os). rewrite filterb_app, !legacy_rendered_app.
  cbn [filterb]. unfold contains at 1. case_bool_decide as I; cbn [negb].
  - eapply alike_trans; [apply (drop_repeat body); [exact D | intros x; by apply B]|]. by apply IH.
  - rewrite !app_assoc. apply IH.
    + intros r [?|?]%elem_of_app; [by apply D | by eapply legacy_rendered_drops].
    + intros j r Hj Hr. apply elem_of_app. left. by eapply B.
Qed.

Lemma same_blocks base os : writes_alike (R (base ++ os)) (R (base ++ filterb (fun i => negb (contains i base)) os)).
Proof.
  rewrite !legacy_rendered_app. apply repeats_alike; [intros r; apply legacy_rendered_drops|].
  intros i r Hi Hr. apply list_elem_of_split in Hi as (a & b & ->). change (i :: b) with ([i] ++ b).
  rewrite !legacy_rendered_app. set_solver.
Qed.
End Repeats.
End Ladder.

Lemma deterministic_run `{SerdeJson, SerdeValue, Sha256, Libm, FormatCore} bytes body policy :
  Z.of_nat (length (segment_prompt body)) < 2 ^ 31 ->
  deterministic_compact bytes body (segment_prompt body) policy [] =
  legacy_deterministic_compact bytes body (segment_prompt body) policy.
Proof.
  intros L. unfold deterministic_compact, legacy_deterministic_compact. destruct (soft_pressure _ _); [done|].
  destruct (ladder_plans body policy L) as (l & plan & base & os & Rn & Pl & E & I).
  change (for_request false OverBudget) with budget_fallback. rewrite Rn.
  change (hard_target _ _) with (target (fallback_ctx body (segment_prompt body) policy)). rewrite Pl.
  cbn [mbind option_bind ok]. rewrite E. f_equal.
  assert (C : compact_rendered body (segment_prompt body) policy l =
    legacy_rendered body (segment_prompt body) policy (base ++ filterb (fun i => negb (contains i base)) os)).
  { rewrite <- I. unfold compact_rendered, legacy_rendered. by rewrite omap_fmap. }
  pose proof (same_blocks body (segment_prompt body) policy base os) as W. rewrite <- C in W.
  unfold finish. cbn [open_lane filterb fmap list_fmap concat]. rewrite app_nil_r, <- (alike_empty _ _ W).
  destruct (is_empty _); [done|]. unfold splice_and_gate. by rewrite (splice_alike _ _ _ _ W).
Qed.

(** ** Properties *)

(** C11. The pipeline reproduces the code it replaced, on every request: with
    the default score floor, no recode staged and nothing committed to the fast
    lane, [continuous] returns what [legacy_continuous] returns, bytes,
    prediction and commitments, whatever the request, the plan, the prices, the
    cache and the hot refs, provided the plan holds no entry for an ordinary
    human turn. *)
Theorem continuous_matches_legacy `{SerdeJson, SerdeValue, Sha256, Libm, FormatCore}
    (bytes : list byte) (body : WireBody) (keys : list RefId) (plan : StagedPlan) (inputs : InterceptInputs) :
  let segments := segment_prompt body in
  mapM (fun seg => content_address (segment_payload_bytes seg body)) segments = Some keys ->
  w_score_floor (weights (in_policy inputs)) = f64_neg_inf -> in_fast_lane inputs = ∅ ->
  (forall key e, by_content plan !! key = Some e -> se_recode e = None) ->
  (forall seg key, (seg, key) ∈ zip segments keys -> is_Some (by_content plan !! key) ->
     is_squash_candidate seg WorkingState_default (in_policy inputs) = true) ->
  intercept_continuous bytes body segments keys plan inputs [] = legacy_continuous bytes body segments plan inputs.
Proof. intros segments K Fl L R S. apply legacy_run; [apply segment_prompt_indexed | done..]. Qed.

(** C12. The fallback reproduces the code it replaced, on every request: on the
    segments of any body, fewer than [2 ^ 31] of them, [deterministic_compact]
    with no lane returns what [legacy_deterministic_compact] returns.  The two
    disagree on a segment that is stripped of its reasoning and later dropped,
    which one proposes once and the other lists twice: the request leaves with
    the same bytes all the same. *)
Theorem deterministic_matches_legacy `{SerdeJson, SerdeValue, Sha256, Libm, FormatCore}
    (bytes : list byte) (body : WireBody) (policy : PolicyConfig) :
  Z.of_nat (length (segment_prompt body)) < 2 ^ 31 ->
  deterministic_compact bytes body (segment_prompt body) policy [] =
  legacy_deterministic_compact bytes body (segment_prompt body) policy.
Proof. apply deterministic_run. Qed.

(** ** The fixtures of the tests *)

Section Fixtures.
#[local] Existing Instances rolling_digest coarse_libm no_format.

Definition rec (ref_id : RefId) (bytes : Z) : RefRecord :=
  mkRefRecord ref_id bytes 100 (MessageId_new (str "0")) (SessionId_new (str "s")) UserTurn f64_zero.

(** An entry the language model compressed. *)
Definition compressed (ref_id : RefId) (bytes : Z) (summary : string) : StagedEntry :=
  mkStagedEntry (rec ref_id bytes) (mkContentDecision ChoiceTag_Compress [] (Some (str summary))) None.

Definition inputs (staged : option StagedPlan) : InterceptInputs :=
  mkInterceptInputs (default econ (economics_for (ModelId_new (str "claude-opus-4-8")))) (mkCacheState 8000 (f64_of_Z 1000000) (f64_of_Z 3600) (ModelId_new (str "claude-opus-4-8")) [])
    f64_zero PolicyConfig_default (f64_of_Z 50) ∅ ∅ 0 true staged TokenScale_default (f64_of_Z 1000000).

(** Idle past the cache's lifetime. *)
Definition gone_cold (i : InterceptInputs) : InterceptInputs :=
  let c := in_cache i in
  mkInterceptInputs (in_econ i)
    (mkCacheState (cached_prefix_tokens c) (f64_sub (f64_sub (in_now i) (assumed_ttl_s c)) f64_one) (assumed_ttl_s c)
       (cache_model c) (cache_breakpoints c))
    (in_npv_floor i) (in_policy i) (in_remaining_turns i) (in_hot_refs i) (in_fast_lane i) (in_last_message_count i)
    (in_window_closed i) (in_staged i) (in_token_scale i) (in_now i).

Definition said (role text : string) : rstr := message role (lit (str text)).

Definition squashable_large_body : list byte :=
  json_bytes (request 200000
    [said "user" "kick off the work";
     message "assistant" (lit (repeat_str "the assistant produced a long, detailed historical explanation here. " 120));
     said "user" "second turn";
     message "assistant" (lit (repeat_str "another sizable historical assistant turn that pads the cacheable prefix. " 120));
     said "user" "third turn"; said "assistant" "third reply"; said "user" "fourth turn that is current"]).

(** The plan for the first segment of a kind that has something to squash. *)
Definition plan_for (k : SegmentKind) (summary : string) (body : WireBody) : option (RefId * StagedPlan) :=
  seg ← List.find (fun s => bool_decide (kind s = k) && negb (is_empty (squash_targets body s))) (segment_prompt body);
  let payload := segment_payload_bytes seg body in
  ref_id ← content_address payload;
  Some (ref_id, mkStagedPlan {[ ref_id := compressed ref_id (Z.of_nat (length payload)) summary ]}).

Definition large_run : option (WireBody * list RefId * StagedPlan) :=
  body ← parse_body squashable_large_body;
  keys ← mapM (fun seg => content_address (segment_payload_bytes seg body)) (segment_prompt body);
  '(_, plan) ← plan_for AssistantTurn "condensed historical context" body;
  Some (body, keys, plan).

(** The two side conditions on a plan, as tests. *)
Definition no_recodes (plan : StagedPlan) : bool := allb (fun p => is_none (se_recode p.2)) (map_to_list (by_content plan)).
Definition spares_humans (body : WireBody) (keys : list RefId) (plan : StagedPlan) (cfg : PolicyConfig) : bool :=
  allb (fun p => is_none (by_content plan !! p.2) || is_squash_candidate p.1 WorkingState_default cfg) (zip (segment_prompt body) keys).

Lemma no_recodes_spec plan : no_recodes plan = true -> forall key e, by_content plan !! key = Some e -> se_recode e = None.
Proof.
  intros E key e Hk. apply (proj1 (allb_spec _ _)) with (x := (key, e)) in E; [|by apply elem_of_map_to_list].
  cbn [snd] in E. by destruct (se_recode e).
Qed.

Lemma spares_humans_spec body keys plan cfg :
  spares_humans body keys plan cfg = true ->
  forall seg key, (seg, key) ∈ zip (segment_prompt body) keys -> is_Some (by_content plan !! key) ->
  is_squash_candidate seg WorkingState_default cfg = true.
Proof.
  intros E seg key Hz [e Hk]. apply (proj1 (allb_spec _ _)) with (x := (seg, key)) in E; [|done].
  cbn [fst snd] in E. by rewrite Hk in E.
Qed.

(** What the large run is: a plan within the theorem's bounds, squashed. *)
Definition large_facts (body : WireBody) (keys : list RefId) (plan : StagedPlan) : bool :=
  let cold := gone_cold (inputs (Some plan)) in
  eqb_dec (mapM (fun seg => content_address (segment_payload_bytes seg body)) (segment_prompt body)) (Some keys) &&
  no_recodes plan && spares_humans body keys plan PolicyConfig_default &&
  check_some (intercept_continuous squashable_large_body body (segment_prompt body) keys plan cold [])
    (fun out => (length (out_bytes out) <? length squashable_large_body)%nat).

Lemma large_run_facts : check_some large_run (fun '(body, keys, plan) => large_facts body keys plan) = true.
Proof. vm_compute. reflexivity. Qed.

(** The staged turn of the large body goes out squashed when the cache is cold,
    by the old code as by the new. *)
Lemma continuous_matches_legacy_witness :
  exists body keys plan out, large_run = Some (body, keys, plan) /\
    let cold := gone_cold (inputs (Some plan)) in
    intercept_continuous squashable_large_body body (segment_prompt body) keys plan cold [] = Some out /\
    legacy_continuous squashable_large_body body (segment_prompt body) plan cold = Some out /\
    (length (out_bytes out) <? length squashable_large_body)%nat = true.
Proof.
  pose proof large_run_facts as F. destruct large_run as [[[body keys] plan]|]; [|discriminate F].
  unfold check_some, large_facts in F. rewrite !andb_true_iff in F. destruct F as [[[K R] S] C].
  apply bool_decide_eq_true in K.
  pose proof (continuous_matches_legacy squashable_large_body body keys plan (gone_cold (inputs (Some plan))) K
    eq_refl eq_refl (no_recodes_spec plan R) (spares_humans_spec body keys plan PolicyConfig_default S)) as T.
  exists body, keys, plan. cbv zeta. rewrite <- T. clear T. revert C.
  destruct (intercept_continuous _ _ _ _ _ _ _) as [out|]; [|discriminate].
  cbn [check_some]. intros C. exists out. exact (conj eq_refl (conj eq_refl (conj eq_refl C))).
Defined.

Definition overbudget_body : list byte :=
  json_bytes (request 100
    [said "user" "kick off the work for the fallback test";
     message "assistant" (lit (repeat_str "an old assistant reply with plenty of detail to drop. " 30));
     said "user" "second turn here"; said "assistant" "second reply with some content";
     said "user" "third turn here"; said "assistant" "third reply with some content";
     message "user" (lit (repeat_str "current turn with a very large payload that blows the budget. " 80))]).

(** The fallback drops something from it. *)
Definition overbudget_facts (body : WireBody) : bool :=
  (Z.of_nat (length (segment_prompt body)) <? 2 ^ 31) &&
  check_some (deterministic_compact overbudget_body body (segment_prompt body) PolicyConfig_default [])
    (fun out => (length (out_bytes out) <? length overbudget_body)%nat).

Lemma overbudget_run_facts : check_some (parse_body overbudget_body) overbudget_facts = true.
Proof. vm_compute. reflexivity. Qed.

Lemma deterministic_matches_legacy_witness :
  exists body out, parse_body overbudget_body = Some body /\
    deterministic_compact overbudget_body body (segment_prompt body) PolicyConfig_default [] = Some out /\
    legacy_deterministic_compact overbudget_body body (segment_prompt body) PolicyConfig_default = Some out /\
    (length (out_bytes out) <? length overbudget_body)%nat = true.
Proof.
  pose proof overbudget_run_facts as F. destruct (parse_body overbudget_body) as [body|]; [|discriminate F].
  unfold check_some, overbudget_facts in F. apply andb_true_iff in F as [L C]. apply Z.ltb_lt in L.
  pose proof (deterministic_matches_legacy overbudget_body body PolicyConfig_default L) as T.
  exists body. rewrite <- T. clear T. revert C. destruct (deterministic_compact _ _ _ _ _) as [out|]; [|discriminate].
  cbn [check_some]. intros C. exists out. exact (conj eq_refl (conj eq_refl (conj eq_refl C))).
Defined.
End Fixtures.
