(* ===== verification/TestsCore.v ===== *)
(** * Conformance: ccs-core

    The unit tests of [estimate.rs], [ids.rs], [kind.rs] and [units.rs]; those
    of serde's derived readers are the library's. *)
From S2P Require Import Prelude RStr F64 Core Wire Json TestKit.

Local Open Scope Z_scope.

(** ** [estimate.rs] *)

Definition char_proxy_exact_values : bool :=
  (estimate_chars_proxy [] =? 0) && (estimate_chars_proxy (str "abc") =? 1) &&
  (estimate_chars_proxy (str "abcdefg") =? 2) && (estimate_chars_proxy (str "abcdefgh") =? 3).

Definition char_proxy_counts_chars_not_bytes : bool :=
  (estimate_chars_proxy (str "café") =? 2) && (estimate_chars_proxy (str "é") =? 1).

Definition default_scale_is_identity : bool :=
  let scale := TokenScale_default in
  f64_eqb (scale_get scale) f64_one && (TokenScale_apply scale 1000 =? 1000) && (TokenScale_apply_signed scale (-500) =? -500).

Definition first_fold_snaps_to_ratio : bool :=
  let scale := TokenScale_fold TokenScale_default (f64_of_Z 2000) (f64_of_Z 1000) in
  f64_eqb (scale_get scale) (f64_of_Z 2) && (TokenScale_apply scale 100 =? 200) && (TokenScale_apply_signed scale 100 =? 200).

Definition repeated_folds_converge_toward_steady_ratio : bool :=
  let scale := Nat.iter 20 (fun s => TokenScale_fold s (f64_of_Z 1500) (f64_of_Z 1000)) TokenScale_default in
  close_to 9 (scale_get scale) (f64_lit 3 2).

Definition ewma_blends_after_warmup : bool :=
  let scale := TokenScale_fold (TokenScale_fold TokenScale_default (f64_of_Z 2000) (f64_of_Z 1000)) (f64_of_Z 1000) (f64_of_Z 1000) in
  close_to 9 (scale_get scale) (f64_lit 17 10).

Definition degenerate_observation_is_ignored : bool :=
  let scale := TokenScale_default in
  let same s := f64_eqb (scale_get s) (scale_get scale) in
  same (TokenScale_fold scale f64_zero (f64_of_Z 1000)) && same (TokenScale_fold scale (f64_of_Z 1000) f64_zero) &&
  same (TokenScale_fold scale F64_nan (f64_of_Z 1000)).

(** ** [ids.rs] *)

Definition to_ascii_upper (c : char) : char := if is_ascii_lower c then c - 32 else c.

Definition ref_id_parses_valid_sha256 : bool :=
  let s := str "sha256:" ++ HEX64 in check_ok (RefId_parse s) (fun id => eqb_dec (RefId_as_str id) s).

Definition ref_id_rejects_missing_prefix : bool :=
  eqb_dec (RefId_parse HEX64) (Err MissingPrefix) && eqb_dec (RefId_parse (str "md5:" ++ HEX64)) (Err MissingPrefix).

Definition ref_id_rejects_wrong_length : bool :=
  eqb_dec (RefId_parse (str "sha256:abc")) (Err BadLength) &&
  eqb_dec (RefId_parse (str "sha256:" ++ HEX64 ++ str "f")) (Err BadLength) &&
  eqb_dec (RefId_parse (str "sha256:" ++ take 63 HEX64)) (Err BadLength).

Definition ref_id_rejects_uppercase_and_non_hex : bool :=
  eqb_dec (RefId_parse (str "sha256:" ++ (to_ascii_upper <$> HEX64))) (Err NonHex) &&
  eqb_dec (RefId_parse (str "sha256:g" ++ drop 1 HEX64)) (Err NonHex).

(** [serde_json::from_str::<RefId>] *)
Definition ref_id_from_str (s : rstr) : result rstr RefId :=
  RefId_deserialize id (ok_or (str "invalid type") (from_str s ≫= as_string)).

Definition ref_id_deserialize_validates : bool :=
  let text := str "sha256:" ++ HEX64 in
  check_ok (ref_id_from_str (print_string text)) (fun id => eqb_dec (RefId_as_str id) text) &&
  eqb_dec (ref_id_from_str (print_string (str "not-a-ref"))) (Err (str "ref id must start with `sha256:`")) &&
  negb (check_ok (ref_id_from_str (print_string (str "sha256:" ++ (to_ascii_upper <$> HEX64)))) (fun _ => true)).

Definition ref_id_serialize_roundtrips_string : bool :=
  let s := str "sha256:" ++ HEX64 in
  check_ok (RefId_parse s) (fun id => eqb_dec (print_string (RefId_as_str id)) ([DQUOTE] ++ s ++ [DQUOTE])).

Definition model_and_message_ids_brand_strings : bool :=
  eqb_dec (ModelId_as_str (ModelId_new (str "claude-opus-4-8"))) (str "claude-opus-4-8") &&
  eqb_dec (MessageId_as_str (MessageId_new (str "uuid-1"))) (str "uuid-1") &&
  eqb_dec (SessionId_as_str (SessionId_new (str "sess-1"))) (str "sess-1").

(** ** [kind.rs]: the display strings *)

Definition segment_kind_wire_strings : bool :=
  allb (fun c => eqb_dec (SegmentKind_to_string c.1) c.2)
    [(UserTurn, str "user_turn"); (AssistantTurn, str "assistant_turn"); (ToolPair, str "tool_pair");
     (System, str "system"); (Tools, str "tools")].

Definition choice_tag_wire_strings : bool :=
  allb (fun c => eqb_dec (ChoiceTag_to_string c.1) c.2)
    [(ChoiceTag_Truncate, str "truncate"); (ChoiceTag_Summarize, str "summarize");
     (ChoiceTag_Compress, str "compress"); (ChoiceTag_Keep, str "keep")].

Definition core_tests : list bool :=
  [char_proxy_exact_values; char_proxy_counts_chars_not_bytes; default_scale_is_identity; first_fold_snaps_to_ratio;
   repeated_folds_converge_toward_steady_ratio; ewma_blends_after_warmup; degenerate_observation_is_ignored;
   ref_id_parses_valid_sha256; ref_id_rejects_missing_prefix; ref_id_rejects_wrong_length;
   ref_id_rejects_uppercase_and_non_hex; ref_id_deserialize_validates;
   ref_id_serialize_roundtrips_string; model_and_message_ids_brand_strings; segment_kind_wire_strings;
   choice_tag_wire_strings].

Lemma core_tests_pass : allb id core_tests = true.
Proof. vm_compute. reflexivity. Qed.
