(* ===== verification/TestsPipeline.v ===== *)
(** * Conformance: the scorer and the pipeline runner

    The unit tests of [pipeline/scorer.rs] and [pipeline/mod.rs] in
    [ccs-policy], with the scenario's exponential one that decreases (the
    tests compare signs only).  The property test on vetoes is a theorem. *)
From S2P Require Import Prelude RStr F64 Core Economics Config Wire Segment Policy Scorer Pipeline Rewrite Json TestKit.

Local Open Scope Z_scope.
Local Existing Instance coarse_libm.

(** ** [scorer.rs] *)

Definition score_at (index : nat) (segments : list Segment) : option SegmentScore :=
  (fun s => score_segment s segments WorkingState_default cache econ f64_zero PolicyConfig_default) <$> segments !! index.

Definition pinned_segment_value_is_neg_infinity : bool :=
  check_some (score_at 0 [seg 0 UserTurn 100 true]) (fun score => f64_eqb (value score ScoreWeights_default) f64_neg_inf).

Definition recency_protected_segment_value_is_neg_infinity : bool :=
  check_some (score_at 1 [seg 0 ToolPair 100 false; seg 1 ToolPair 100 false]) (fun score =>
    f64_eqb (recency score) f64_one && f64_eqb (value score ScoreWeights_default) f64_neg_inf).

Definition value_is_finite_and_non_negative_for_unvetoed : bool :=
  let segments := [seg 0 ToolPair 8192 false; seg 1 ToolPair 100 false; seg 2 ToolPair 100 false; seg 3 ToolPair 100 false] in
  check_some (score_at 0 segments) (fun score =>
    let v := value score ScoreWeights_default in f64_is_finite v && f64_leb f64_zero v).

Definition freshness_is_monotone_in_age : bool :=
  let segments := [with_generation (seg 0 ToolPair 100 false) 10; with_generation (seg 1 ToolPair 100 false) 5;
                   with_generation (seg 2 ToolPair 100 false) 10] in
  let w := ScoreWeights_default in
  check_some (segments !! 0%nat) (fun s => f64_eqb (freshness_signal s segments w) f64_zero) &&
  check_some (segments !! 1%nat) (fun s => f64_ltb f64_zero (freshness_signal s segments w)).

Definition with_q_weight (w : ScoreWeights) (q floor : f64) : ScoreWeights :=
  mkScoreWeights (w_freshness w) (w_economics w) (w_size w) (w_content_type w) (w_access_count w) (w_tau w)
    (w_size_scale w) q floor.

Definition quality_gain_scales_with_q_weight_and_is_zero_at_baseline : bool :=
  let score := mkSegmentScore f64_zero f64_zero f64_one f64_one f64_one f64_one f64_zero in
  let lit := ScoreWeights_default in
  let baseline := with_q_weight lit f64_zero (w_score_floor lit) in
  let gain := score_quality_gain score lit in
  f64_eqb (score_quality_gain score baseline) f64_zero && f64_ltb f64_zero gain &&
  close_to 12 gain (f64_mul (w_q_weight lit) (value score lit)).

Definition admission_floor_defaults_to_admit_all : bool :=
  let low := SegmentScore_default in
  let w := ScoreWeights_default in
  admitted low w && negb (admitted low (with_q_weight w (w_q_weight w) (f64_lit 1 2))).

Definition score_table_is_dense_and_indexed : bool :=
  let half := mkSegmentScore f64_zero f64_zero f64_zero f64_zero (f64_lit 1 2) f64_zero f64_zero in
  let size_is t i x := check_some (ScoreTable_get t i) (fun s => f64_eqb (size s) x) in
  (length (scores (ScoreTable_sized 3)) =? 3)%nat &&
  check_some (ScoreTable_set (ScoreTable_sized 3) 1 half) (fun table =>
    size_is table 1%nat (f64_lit 1 2) && size_is table 0%nat f64_zero && is_none (ScoreTable_get table 3)).

(** The property test: one veto high, every other signal and every weight
    arbitrary. *)
Lemma vetoes_force_neg_infinity_under_any_weights (salience_vetoed : bool) (fr ec sz ct ac : f64) (w : ScoreWeights) :
  let score := mkSegmentScore (veto salience_vetoed) (veto (negb salience_vetoed)) fr ec sz ct ac in
  value score w = f64_neg_inf.
Proof. destruct salience_vetoed; reflexivity. Qed.

(** ** [mod.rs] *)

Definition CP : CheckpointId := mkCheckpointId (str "cp").

Definition IdentityPass (id : string) (phase : Phase) : Pass :=
  mkPass (mkPassId (str id)) phase (fun _ ledger =>
    Some (record ledger (mkProvenance 0 (mkPassId (str id)) (str "identity")), Continue)).

Definition boxed (id : string) (phase : Phase) : Pipeline := Pipeline_of [Stage_Pass (IdentityPass id phase)].

Definition fixture_body : list byte :=
  as_bytes (q "{'model':'claude-opus-4-8','messages':[{'role':'user','content':'hi'}],'max_tokens':256}").

Definition fixture_seg : Segment := mkSegment 0 UserTurn 0 1 1 false true true [].

Definition fixture_run (runner : Runner) (pipeline : Pipeline) : option PlanLedger :=
  match parse_body fixture_body with
  | None => None
  | Some body =>
      ok (Runner_run runner pipeline
            (mkPassCtx body [fixture_seg] WorkingState_default econ cache PolicyConfig_default (mkStagedDecisions false [] [])
               (f64_of_Z 10) f64_zero)
            (PlanLedger_sized 1))
  end.

Definition of_flattens_nested_pipelines : bool :=
  let nested := extend (boxed "a" OnPath) (boxed "b" OnPath) in
  let outer := extend (extend (boxed "x" OnPath) nested) (boxed "y" OnPath) in
  (length (stages outer) =? 4)%nat.

Definition stage_names (p : Pipeline) : list rstr :=
  omap (fun s => match s with Stage_Pass p => Some (pass_id_str (pass_id p)) | _ => None end) (stages p).

Definition on_path_drops_off_path_passes : bool :=
  let pipeline := extend (extend (shr (boxed "on" OnPath) (Stage_Checkpoint CP)) (boxed "off" OffPath)) (boxed "on2" OnPath) in
  let filtered := on_path pipeline in
  eqb_dec (stage_names filtered) [str "on"; str "on2"] &&
  (length (filterb (fun s => match s with Stage_Checkpoint _ => true | _ => false end) (stages filtered)) =? 1)%nat.

Definition runner_runs_passes_in_order_and_mutates_ledger : bool :=
  let pipeline := extend (extend (boxed "a" OnPath) (boxed "b" OnPath)) (boxed "c" OnPath) in
  check_some (fixture_run Runner_default pipeline) (fun ledger =>
    eqb_dec ((fun p => pass_id_str (prov_by p)) <$> provenance ledger) [str "a"; str "b"; str "c"]).

(** The counter the Rust pass bumps is the length of the ledger's log here. *)
Definition Reverting : Pass :=
  mkPass (mkPassId (str "reverting")) OnPath (fun _ ledger =>
    Some (record ledger (mkProvenance 0 (mkPassId (str "reverting")) []), RevertTo CP)).

Definition revert_to_loops_back_and_is_capped : bool :=
  let pipeline := Pipeline_of [Stage_Checkpoint CP; Stage_Pass Reverting] in
  check_some (fixture_run (mkRunner 2) pipeline) (fun ledger => (length (provenance ledger) =? 3)%nat).

Definition pipeline_tests : list bool :=
  [pinned_segment_value_is_neg_infinity; recency_protected_segment_value_is_neg_infinity;
   value_is_finite_and_non_negative_for_unvetoed; freshness_is_monotone_in_age;
   quality_gain_scales_with_q_weight_and_is_zero_at_baseline; admission_floor_defaults_to_admit_all;
   score_table_is_dense_and_indexed; of_flattens_nested_pipelines; on_path_drops_off_path_passes;
   runner_runs_passes_in_order_and_mutates_ledger; revert_to_loops_back_and_is_capped].

Lemma pipeline_tests_pass : allb id pipeline_tests = true.
Proof. vm_compute. reflexivity. Qed.
