(* ===== verification/TestsRewrite.v ===== *)
(** * Conformance: targets, payload, splice and gate

    The unit tests of [targets.rs], [payload.rs], [rewrite.rs] and
    [rewrite_gate.rs] in [ccs-policy], over the executable JSON reader.  A
    request is written with apostrophes for quotes and printed as [json!]
    prints it, its keys sorted. *)
From S2P Require Import Prelude RStr F64 Core Config Wire Segment Policy Targets Rewrite Json TestKit.

Local Open Scope Z_scope.

(** ** [targets.rs] *)

Definition long (prefix : string) : rstr := str prefix ++ str " " ++ repeat_str "padding to clear the span floor. " 12.

Definition kick_off : rstr := message "user" (q "'kick off'").
Definition current : rstr := message "user" (q "'current'").
Definition second : rstr := message "user" (q "'second'").
Definition calc_use : rstr := message "assistant" (items [tool_use "tu_1" "calc" (str "{}")]).
Definition result_turn (id : string) (flags : string) (out : rstr) : rstr :=
  message "user" (items [tool_result id flags (lit out)]).

(** The targets of the first segment a predicate selects. *)
Definition targets_where (p : WireBody -> Segment -> bool) (turns : list rstr) : option (list BlockTarget) :=
  match parse_body (json_bytes (request 1024 turns)) with
  | None => None
  | Some body => squash_targets body <$> List.find (p body) (segment_prompt body)
  end.
Definition of_kind (k : SegmentKind) (_ : WireBody) (s : Segment) : bool := bool_decide (kind s = k).

Definition only_target (ts : option (list BlockTarget)) (f : BlockTarget -> bool) : bool :=
  match ts with Some [t] => f t | _ => false end.

Definition tool_result_block_is_selected_and_tool_use_is_not : bool :=
  only_target (targets_where (of_kind ToolPair) [kick_off; calc_use; result_turn "tu_1" "" (long "the answer"); current])
    (fun t => eqb_dec (bt_target t) (mkSegmentTarget 2 (Some 0%nat)) && eqb_dec (bt_kind t) (ToolResult (str "tu_1") false)).

Definition tool_result_is_error_flag_is_preserved : bool :=
  only_target (targets_where (of_kind ToolPair)
      [kick_off; calc_use; result_turn "tu_1" "'is_error':true," (long "boom"); current])
    (fun t => eqb_dec (bt_kind t) (ToolResult (str "tu_1") true)).

Definition thinking_block_is_never_targeted : bool :=
  only_target (targets_where (of_kind AssistantTurn)
      [kick_off;
       message "assistant" (q "[{'type':'thinking','thinking':" ++ lit (long "deep") ++
         q ",'signature':'SIG'},{'type':'text','text':" ++ lit (long "the reply") ++ q "}]");
       second; current])
    (fun t => eqb_dec (target_block (bt_target t)) (Some 1%nat) && eqb_dec (bt_kind t) TextBlock).

Definition string_content_segment_still_works : bool :=
  only_target (targets_where (of_kind AssistantTurn)
      [kick_off; message "assistant" (lit (long "a long historical reply")); second; current])
    (fun t => eqb_dec (target_block (bt_target t)) None && eqb_dec (bt_kind t) StringContent).

Definition tiny_block_is_not_selected : bool :=
  check_some (targets_where (of_kind ToolPair) [kick_off; calc_use; result_turn "tu_1" "" (str "42"); current]) is_empty.

Definition targets_a_result (body : WireBody) (s : Segment) : bool :=
  bool_decide (kind s = UserTurn) &&
  existsb (fun t => match bt_kind t with ToolResult _ _ => true | _ => false end) (squash_targets body s).

Definition synthetic_user_tool_result_is_targeted : bool :=
  check_some (targets_where targets_a_result [kick_off; result_turn "srv_1" "" (long "injected output"); second; current])
    (fun ts => check_some (head ts) (fun t => eqb_dec (bt_kind t) (ToolResult (str "srv_1") false))).

(** ** [payload.rs] *)

Definition body_bytes (turns : list (string * string)) : list byte :=
  json_bytes (q "{'model':'claude-opus-4-20250514','max_tokens':1024,'messages':[" ++
    join (str ",") ((fun t => message t.1 (lit (str t.2))) <$> turns) ++ q "]}").

Definition payload_at (bytes : list byte) (index : nat) : option (list byte) :=
  body ← parse_body bytes; s ← segment_prompt body !! index; Some (segment_payload_bytes s body).

Definition payload_base : list (string * string) :=
  [("user", "the first human prompt that is long enough to segment"); ("assistant", "an assistant reply to the first prompt");
   ("user", "a second human prompt continuing the conversation")]%string.
Definition payload_grown : list (string * string) :=
  payload_base ++ [("assistant", "a later reply appended after the fact");
                   ("user", "a still-later human prompt appended after the fact")]%string.

Definition segment_payload_bytes_is_stable_across_appended_turns : bool :=
  check_some (payload_at (body_bytes payload_base) 0) (fun b =>
    negb (is_empty b) && eqb_dec (payload_at (body_bytes payload_grown) 0) (Some b)).

Definition segment_payload_bytes_are_distinct_per_segment : bool :=
  let bytes := body_bytes [("user", "the first human prompt that is distinct from the rest"); ("assistant", "an assistant reply");
                           ("user", "a wholly different second human prompt")]%string in
  check_some (payload_at bytes 0) (fun a => check_some (payload_at bytes 2) (fun b => negb (eqb_dec a b))).

(** ** [rewrite.rs] *)

Definition rendered_at (message : nat) (block : option nat) (json : string) : RenderedSegment :=
  mkRenderedSegment (mkSegmentTarget message block) (q json).

Definition rich_body : rstr :=
  to_json (q "{'model':'claude-opus-4-8','max_tokens':1024,'metadata':{'user_id':'u-42'},'temperature':0.7,'top_p':0.9,'stop_sequences':['STOP'],'tool_choice':{'type':'auto'},'stream':true,'anthropic_beta':['prompt-caching-2024-07-31'],'system':'you are a helpful assistant','tools':[{'name':'calc','description':'math'}],'messages':[{'role':'user','content':'first long human prompt that segments'},{'role':'assistant','content':[{'type':'thinking','thinking':'deep reasoning','signature':'sig-abc-123'},{'type':'text','text':'an earlier assistant reply with quite a bit of content'}]},{'role':'user','content':'a follow up human prompt here'},{'role':'assistant','content':[{'type':'thinking','thinking':'latest reasoning','signature':'LATEST-SIG-XYZ'},{'type':'text','text':'the current assistant reply'}]}]}").

(** An envelope key's value, as its compact text. *)
Definition key (bytes : list byte) (k : string) : option rstr := env ← raw_map bytes; to_json <$> env !! str k.

Definition at_key (k : string) (v : Value) : option Value := match v with Value_Object m => m !! str k | _ => None end.
Definition at_index (i : nat) (v : Value) : option Value := match v with Value_Array vs => vs !! i | _ => None end.
Definition string_is (s : string) (v : Value) : bool := match v with Value_String t => eqb_dec t (str s) | _ => false end.

(** [parse_body], [splice], and what a test says of the result. *)
Definition spliced_of (original : rstr) (segs : list RenderedSegment) (plan : list nat) : option (WireBody * Spliced) :=
  body ← parse_body (as_bytes original); out ← ok (splice (as_bytes original) body segs (mkBreakpointPlan plan)); Some (body, out).

Definition preserves_unmodeled_envelope_keys : bool :=
  check_some (spliced_of rich_body [rendered_at 1 (Some 1%nat) "{'type':'text','text':'<ref:abc>'}"] []) (fun r =>
    allb (fun k => check_some (key (spliced_bytes r.2) k) (fun v => eqb_dec (key (as_bytes rich_body) k) (Some v)))
      ["metadata"; "temperature"; "top_p"; "stop_sequences"; "tool_choice"; "stream"; "anthropic_beta"; "system"; "tools";
       "max_tokens"; "model"]%string).

Definition preserves_latest_assistant_thinking_byte_for_byte : bool :=
  check_some (spliced_of rich_body [rendered_at 1 (Some 1%nat) "{'type':'text','text':'<ref:abc>'}"] []) (fun r =>
    check_some (m ← messages r.1 !! 3%nat; b ← head (blocks (content m)); Some (block_raw b)) (fun latest_thinking =>
      contains_sub (str "LATEST-SIG-XYZ") latest_thinking &&
      check_some (from_utf8 (spliced_bytes r.2)) (contains_sub latest_thinking))).

Definition replaces_targeted_block_with_placeholder : bool :=
  check_some (spliced_of rich_body [rendered_at 1 (Some 1%nat) "{'type':'text','text':'<placeholder>'}"] []) (fun r =>
    check_some (msgs ← key (spliced_bytes r.2) "messages"; m ← at_index 1 (json_of msgs); at_key "content" m) (fun c =>
      check_some (b ← at_index 1 c; at_key "text" b) (string_is "<placeholder>") &&
      check_some (b ← at_index 0 c; at_key "type" b) (string_is "thinking"))).

Definition hinted_original : rstr :=
  to_json (q "{'model':'claude-opus-4-8','max_tokens':1024,'system':[{'type':'text','text':'sys','cache_control':{'type':'ephemeral'}}],'tools':[{'name':'t','cache_control':{'type':'ephemeral'}}],'messages':[{'role':'user','content':'m0'},{'role':'user','content':'m1'},{'role':'user','content':'m2'},{'role':'user','content':'m3'}]}").

Definition caps_total_cache_control_at_four_when_prefix_has_some : bool :=
  check_some (spliced_of hinted_original [] [0; 1; 2; 3]%nat) (fun r =>
    let out := r.2 in
    let hint_of i := msgs ← key (spliced_bytes out) "messages"; m ← at_index i (json_of msgs); c ← at_key "content" m;
                     b ← at_index 0 c; at_key "cache_control" b in
    (match from_utf8 (spliced_bytes out) with Some t => count_sub HINT t | None => 0 end =? 4)%nat &&
    (suppressed_breakpoints out =? 2)%nat && allb (fun i => negb (is_none (hint_of i))) [2; 3]%nat &&
    allb (fun i => is_none (hint_of i)) [0; 1]%nat).

Definition shrinks_total_bytes : bool :=
  let original := to_json (q "{'model':'claude-opus-4-8','max_tokens':1024,'messages':[{'role':'user','content':'short prompt'},{'role':'assistant','content':[{'type':'text','text':'A very very long assistant reply that goes on and on and on and on, repeated many times to ensure the placeholder is strictly smaller than the original block text content span here.'}]}]}") in
  check_some (spliced_of original [rendered_at 1 (Some 0%nat) "{'type':'text','text':'<ref>'}"] []) (fun r =>
    (length (spliced_bytes r.2) <? length (as_bytes original))%nat).

(** ** [rewrite_gate.rs] *)

Definition ORIGINAL : rstr :=
  q "{'model':'claude-opus-4-8','max_tokens':1024,'metadata':{'u':'1'},'system':'you are helpful','tools':[{'name':'calc'}],'messages':[{'role':'user','content':'the first long human prompt that is comfortably long enough to segment and shrink'},{'role':'assistant','content':[{'type':'tool_use','id':'tu_1','name':'calc','input':{}}]},{'role':'user','content':[{'type':'tool_result','tool_use_id':'tu_1','content':'42 is the long-winded answer that we will splice into a tiny placeholder'}]},{'role':'assistant','content':[{'type':'thinking','thinking':'reason','signature':'SIG-LATEST'},{'type':'text','text':'the current assistant reply with enough length'}]}]}".

(** [validate(bytes, &original())] *)
Definition validates (bytes : list byte) (expected : result GateError unit) : bool :=
  check_some (parse_body (as_bytes ORIGINAL)) (fun original => eqb_dec (validate bytes original) expected).

Definition result_placeholder (json : string) : option (list byte) :=
  (fun r => spliced_bytes r.2) <$> spliced_of ORIGINAL [rendered_at 2 (Some 0%nat) json] [].

Definition happy_rewrite : option (list byte) :=
  result_placeholder "{'type':'tool_result','tool_use_id':'tu_1','content':'<ref>'}".

Definition happy_path_validates : bool := check_some happy_rewrite (fun bytes => validates bytes (Ok tt)).

Definition reparse_on_garbage : bool := validates (as_bytes (str "{not valid json")) (Err Reparse).

Definition tool_pair_broken_when_result_dropped : bool :=
  validates (as_bytes (q "{'model':'claude-opus-4-8','max_tokens':1024,'system':'you are helpful','tools':[{'name':'calc'}],'messages':[{'role':'user','content':'x'},{'role':'assistant','content':[{'type':'tool_use','id':'tu_1','name':'calc','input':{}}]},{'role':'user','content':[{'type':'text','text':'hi'}]},{'role':'assistant','content':[{'type':'thinking','thinking':'reason','signature':'SIG-LATEST'}]}]}"))
    (Err ToolPairBroken).

Definition tool_pair_broken_when_result_drops_tool_use_id : bool :=
  check_some (result_placeholder "{'type':'tool_result','content':'<ref>'}") (fun bytes => validates bytes (Err ToolPairBroken)).

Definition role_dropped_when_a_message_vanishes : bool :=
  validates (as_bytes (q "{'model':'claude-opus-4-8','max_tokens':1024,'system':'you are helpful','tools':[{'name':'calc'}],'messages':[{'role':'assistant','content':[{'type':'tool_use','id':'tu_1','name':'calc','input':{}}]},{'role':'user','content':[{'type':'tool_result','tool_use_id':'tu_1','content':'42'}]},{'role':'assistant','content':[{'type':'thinking','thinking':'reason','signature':'SIG-LATEST'}]}]}"))
    (Err RoleDropped).

Definition too_many_breakpoints_when_five_hints : bool :=
  validates (as_bytes (q "{'model':'claude-opus-4-8','max_tokens':1024,'system':'you are helpful','tools':[{'name':'calc'}],'messages':[{'role':'user','content':[{'type':'text','text':'x','cache_control':{'type':'ephemeral'}}]},{'role':'assistant','content':[{'type':'tool_use','id':'tu_1','name':'calc','input':{},'cache_control':{'type':'ephemeral'}}]},{'role':'user','content':[{'type':'tool_result','tool_use_id':'tu_1','content':'42','cache_control':{'type':'ephemeral'}}]},{'role':'assistant','content':[{'type':'thinking','thinking':'reason','signature':'SIG-LATEST','cache_control':{'type':'ephemeral'}},{'type':'text','text':'y','cache_control':{'type':'ephemeral'}}]}]}"))
    (Err (TooManyBreakpoints 5)).

Definition grew_instead_of_shrank_when_content_expands : bool :=
  validates (as_bytes (q "{'model':'claude-opus-4-8','max_tokens':1024,'system':'you are helpful','tools':[{'name':'calc'}],'messages':[{'role':'user','content':'the first long human prompt that is comfortably long enough to segment and shrink, now made even much much much longer than before'},{'role':'assistant','content':[{'type':'tool_use','id':'tu_1','name':'calc','input':{}}]},{'role':'user','content':[{'type':'tool_result','tool_use_id':'tu_1','content':'42 is the long-winded answer that we will splice into a tiny placeholder'}]},{'role':'assistant','content':[{'type':'thinking','thinking':'reason','signature':'SIG-LATEST'},{'type':'text','text':'the current assistant reply with enough length'}]}]}"))
    (Err GrewInsteadOfShrank).

Definition thinking_mutated_when_signature_changes : bool :=
  validates (as_bytes (q "{'model':'claude-opus-4-8','max_tokens':1024,'system':'you are helpful','tools':[{'name':'calc'}],'messages':[{'role':'user','content':'the first long human prompt that is comfortably long enough to segment and shrink'},{'role':'assistant','content':[{'type':'tool_use','id':'tu_1','name':'calc','input':{}}]},{'role':'user','content':[{'type':'tool_result','tool_use_id':'tu_1','content':'<ref>'}]},{'role':'assistant','content':[{'type':'thinking','thinking':'reason','signature':'XIG-LATEST'},{'type':'text','text':'the current assistant reply with enough length'}]}]}"))
    (Err ThinkingMutated).

Definition envelope_key_dropped_when_system_vanishes : bool :=
  validates (as_bytes (q "{'model':'claude-opus-4-8','max_tokens':1024,'tools':[{'name':'calc'}],'messages':[{'role':'user','content':'the first long human prompt that is comfortably long enough to segment and shrink'},{'role':'assistant','content':[{'type':'tool_use','id':'tu_1','name':'calc','input':{}}]},{'role':'user','content':[{'type':'tool_result','tool_use_id':'tu_1','content':'<ref>'}]},{'role':'assistant','content':[{'type':'thinking','thinking':'reason','signature':'SIG-LATEST'},{'type':'text','text':'the current assistant reply with enough length'}]}]}"))
    (Err EnvelopeKeyDropped).

Definition rewrite_tests : list bool :=
  [tool_result_block_is_selected_and_tool_use_is_not; tool_result_is_error_flag_is_preserved;
   thinking_block_is_never_targeted; string_content_segment_still_works; tiny_block_is_not_selected;
   synthetic_user_tool_result_is_targeted; segment_payload_bytes_is_stable_across_appended_turns;
   segment_payload_bytes_are_distinct_per_segment; preserves_unmodeled_envelope_keys;
   preserves_latest_assistant_thinking_byte_for_byte; replaces_targeted_block_with_placeholder;
   caps_total_cache_control_at_four_when_prefix_has_some; shrinks_total_bytes; happy_path_validates;
   reparse_on_garbage; tool_pair_broken_when_result_dropped; tool_pair_broken_when_result_drops_tool_use_id;
   role_dropped_when_a_message_vanishes; too_many_breakpoints_when_five_hints;
   grew_instead_of_shrank_when_content_expands; thinking_mutated_when_signature_changes;
   envelope_key_dropped_when_system_vanishes].

Lemma rewrite_tests_pass : allb id rewrite_tests = true.
Proof. vm_compute. reflexivity. Qed.
