(* ===== verification/TestsPasses.v ===== *)
(** * Conformance: the text transforms and the recode passes

    The unit tests of [ansi_strip.rs], [whitespace.rs], [head_tail.rs],
    [blob_extract.rs], [markup_strip.rs], [dedup_backref.rs],
    [fast_lane.rs], [recode.rs] and [seq_diff.rs] (the 5,000-line case of
    [head_tail] is left to [Text.head_tail_spec]).  The JSON passes call
    [format_core] and the diff pass calls [similar]: stand-ins read a sequence
    of documents and print one hunk. *)
From S2P Require Import Prelude RStr F64 Core Economics Config Wire Segment Policy Scorer Pipeline Text Targets Markup Recode Rewrite Json TestKit.

Local Open Scope Z_scope.

Definition shrinks (out input : rstr) : bool := str_len out <? str_len input.

(** ** [ansi_strip.rs] *)

Definition strips_sgr_colour_codes : bool :=
  eqb_dec (strip_ansi (u "\x1b[31mred\x1b[0m and \x1b[1;32mbold-green\x1b[0m")) (str "red and bold-green").

Definition shrinks_an_ansi_laden_log : bool :=
  let input := unescape (repeat_str "\x1b[2K\rbuilding \x1b[33m[####    ]\x1b[0m 50%\n" 40) in
  let cleaned := strip_ansi input in
  shrinks cleaned input && negb (contains ESC cleaned) && negb (contains CR cleaned).

Definition drops_carriage_returns_and_control_bytes_keeps_tab_newline : bool :=
  eqb_dec (strip_ansi (u "a\r\nb\tc\x07d")) (filterb (fun c => negb (c =? 32)) (u "a\nb\tc d")) &&
  eqb_dec (strip_ansi (u "a\r\nb\tc\x07d")) (u "a\nb\tcd").

Definition ansi_idempotent : bool :=
  let once := strip_ansi (u "\x1b[31mx\x1b[0m\rprogress\x07\n") in eqb_dec (strip_ansi once) once.

Definition no_op_on_clean_text : bool :=
  let clean := u "plain text\nwith\ttabs and newlines\n" in eqb_dec (strip_ansi clean) clean.

(** ** [whitespace.rs] *)

Definition collapses_blank_runs_and_strips_trailing_ws : bool :=
  eqb_dec (normalize_ws (u "a   \n\n\n\n\nb\t\n")) (u "a\n\nb\n").

Definition crlf_becomes_lf : bool :=
  eqb_dec (normalize_ws (u "a\r\nb\r\n")) (u "a\nb\n") && negb (contains CR (normalize_ws (u "a\r\nb"))).

Definition shrinks_a_padded_blob : bool :=
  let input := fmt [u "header   \n"; repeat LF 50; u "done\n"] in shrinks (normalize_ws input) input.

Definition ws_idempotent : bool :=
  let once := normalize_ws (u "x  \n\n\n\n\ny\r\n\r\n\r\n\r\nz   \n") in eqb_dec (normalize_ws once) once.

Definition no_op_on_already_clean : bool := let clean := u "a\nb\n\nc\n" in eqb_dec (normalize_ws clean) clean.

Definition preserves_missing_trailing_newline : bool := eqb_dec (normalize_ws (u "a  \nb  ")) (u "a\nb").

(** ** [head_tail.rs] *)

Definition log (n : nat) : rstr :=
  join [LF] ((fun i => fmt [str "log line number "; dec i; str " with some payload text"]) <$> seq 0 n).

Definition elided_count_is_exact : bool :=
  check_some (head_tail (log 100)) (contains_sub (fmt [str "[… "; dec (100 - HEAD_LINES - TAIL_LINES); str " lines elided …]"])).

Definition no_op_on_short_leaf : bool :=
  eqb_dec (head_tail (log (HEAD_LINES + TAIL_LINES))) None && eqb_dec (head_tail (log 5)) None.

Definition kept_ranges_cover_head_and_tail : bool :=
  eqb_dec (kept_ranges (HEAD_LINES + TAIL_LINES)) None &&
  eqb_dec (kept_ranges 5000) (Some [mkLineRange 1 HEAD_LINES; mkLineRange (5000 - TAIL_LINES + 1) 5000]).

(** ** [blob_extract.rs] *)

Definition blob (n : nat) : rstr := take n (repeat_str "QWxhZGRpbjpvcGVuIHNlc2FtrZQ" (n / 27 + 1)).

Definition extracts_large_blob_and_shrinks : bool :=
  let input := fmt [u "prefix text\ndata:image/png;base64,"; blob 2000; u "\nsuffix"] in
  check_some (extract_blob input) (fun out =>
    contains_sub (str "prefix text") out && contains_sub (str "suffix") out && contains_sub (str "bytes elided]") out &&
    shrinks out input && negb (contains_sub (blob 2000) out)).

Definition preserves_surrounding_text : bool :=
  check_some (extract_blob (fmt [str "before "; blob 1000; str " after"])) (fun out =>
    starts_with (str "before [") out && ends_with (str "] after") out).

Definition no_op_below_threshold : bool := eqb_dec (extract_blob (fmt [str "token "; blob 100; str " end"])) None.

Definition no_op_on_plain_prose : bool :=
  eqb_dec (extract_blob (unescape (repeat_str "a normal log line with words and spaces, nothing base64-shaped.\n" 20))) None.

Definition picks_the_longest_run : bool :=
  check_some (extract_blob (fmt [blob 600; str " gap "; blob 2000; str " gap "; blob 600])) (fun out =>
    contains_sub (str "2000 bytes elided]") out && contains_sub (blob 600) out).

(** ** [markup_strip.rs] *)

Definition strips_to (input : rstr) (expected : rstr) : bool := eqb_dec (strip_html input) (Some expected).
Definition aborts (input : rstr) : bool := eqb_dec (strip_html input) None.

Definition recognizes_html_prefixes_case_insensitively : bool :=
  looks_like_html (str "  <!DoCtYpE HTML><title>page</title>") && looks_like_html (u "\n<HTML lang=\qen\q><body>page</body></HTML>").

Definition recognizes_only_at_the_tag_hit_threshold : bool :=
  negb (looks_like_html (fmt [str "<main>"; repeat_str "<div>text</div>" 4; str "</main>"])) &&
  negb (looks_like_html (str "<div><ul><li>a</li></ul></div>")) &&
  looks_like_html (str "<DiV><ul><LI>a</li><li>b</LI></UL></div>").

Definition does_not_treat_generics_as_html : bool :=
  negb (looks_like_html (unescape (repeat_str "let values: Vec<String> = Vec::new();\nlet map: HashMap<K, V> = HashMap::new();\nif left < right && right > floor { work(); }\n" 20))).

Definition xml_declaration_excludes_tag_dense_documents : bool :=
  negb (looks_like_html (fmt [u "<?xml version=\q1.0\q?><root>"; repeat_str "<div><p>x</p></div>" 8; str "</root>"])).

Definition decodes_entities_and_uses_ascii_space_for_nbsp : bool :=
  strips_to (str "<p>A &amp; B &lt; C &gt; D &quot;q&quot; &#39;s&#39;&nbsp;x</p>") (u "A & B < C > D \qq\q 's' x").

Definition preserves_pre_and_code_text : bool :=
  strips_to (u "<pre><code>let answer = 42;\nprintln!(\q{answer}\q);</code></pre>") (u "let answer = 42;\nprintln!(\q{answer}\q);").

Definition decodes_entities_inside_pre_as_rendered_text : bool :=
  strips_to (str "<pre>if (a &lt; b &amp;&amp; c) { run(); }</pre>") (str "if (a < b && c) { run(); }").

Definition removes_script_style_and_comments_non_greedily : bool :=
  strips_to (str "<ScRiPt>first()</sCrIpT><p>kept</p><STYLE>.gone{}</style><!-- gone -->") (str "kept").

Definition markup_strip_ignores_invalid_script_close : bool :=
  strips_to (str "<script>one</script!>two</script><p>kept</p>") (str "kept").

Definition markup_strip_separates_pre_from_following_block : bool :=
  strips_to (str "<pre>a</pre><p>b</p>") (u "a\nb") && strips_to (str "<blockquote>a</blockquote><p>b</p>") (u "a\nb").

Definition preserves_multibyte_text_at_tag_boundaries : bool :=
  strips_to (str "<p>café 猫 &amp; чай</p>") (str "café 猫 & чай").

Definition malformed_markup_aborts : bool :=
  aborts (str "<div>kept</div><unfinished") && aborts (str "<script>never closed") && aborts (str "<style>never closed") &&
  aborts (str "<!-- never closed").

Definition collapses_excess_blank_lines : bool := strips_to (u "<div>a</div>\n\n\n\n<div>b</div>") (u "a\n\nb").

Definition unchanged_output_does_not_pass_size_gate : bool := aborts (str "plain text without markup").

Definition markup_strip_keeps_text_with_gt_inside_quoted_attr : bool :=
  strips_to (u "<p title=\q1 > 0\q>alpha</p>") (str "alpha").

Definition markup_strip_keeps_bare_lt_as_text : bool := strips_to (str "<p>2 < 3</p>") (str "2 < 3").

Definition markup_strip_no_op_on_source_with_repeated_html_literals : bool :=
  negb (looks_like_html (unescape (repeat_str "let x = \q<div>a</div>\q;\n" 20))).

Definition markup_strip_separates_block_elements : bool := strips_to (str "<p>alpha</p><p>beta</p>") (u "alpha\nbeta").

Definition markup_strip_preserves_pre_blank_lines : bool :=
  strips_to (u "<p>intro</p><pre>line1\n\n\n\nline2</pre>") (u "intro\nline1\n\n\n\nline2").

Definition markup_strip_strips_page_with_long_data_uri_attr : bool :=
  strips_to (fmt [u "<p>before</p><img src=\qdata:image/png;base64,"; repeat_str "A" 10000; u "\q/><p>after</p>"]) (u "before\nafter").

Definition markup_strip_bails_on_unterminated_quote : bool := aborts (u "<p class=\qnever closed>text").

Definition separates_table_cells_with_spaces : bool :=
  strips_to (str "<table><tr><td>a</td><td>b</td></tr><tr><td>c</td></tr></table>") (u "a b\nc").

(** ** The fixtures of the recode passes *)

(** The stand-in for [format_core]: a run of documents, folded to one array
    when there are several, printed without blanks in their own order. *)
Fixpoint read_documents (fuel : nat) (s : rstr) : option (list Json) :=
  match fuel, skip_ws s with
  | _, [] => Some []
  | O, _ => None
  | S fuel, s => '(v, r) ← read_value (S (length s)) s; vs ← read_documents fuel r; Some (v :: vs)
  end.

Fixpoint print_json (v : Json) : rstr :=
  match v with
  | J_Null => str "null"
  | J_Bool true => str "true"
  | J_Bool false => str "false"
  | J_Num s => s
  | J_Str s _ => print_string s
  | J_Arr xs => print_items ((fix go l := match l with [] => [] | (_, x) :: l => print_json x :: go l end) xs)
  | J_Obj fs =>
      let print_field := fun k v => print_string k ++ str ":" ++ v in
      str "{" ++ join (str ",")
        ((fix go l := match l with [] => [] | (k, (_, x)) :: l => print_field k (print_json x) :: go l end) fs) ++ str "}"
  end.

#[local] Instance doc_format : FormatCore := {|
  IR := list Json;
  decode_ir := fun s => vs ← read_documents 64 s; match vs with [] => None | _ => Some vs end;
  compact_json := fun vs => match vs with [v] => print_json v | _ => print_items (print_json <$> vs) end;
  select_encoding := fun _ => None;
|}.

(** One hunk with the lines that differ at their place: the tests change lines
    of equal-length texts. *)
#[local] Instance hunk_diff : Similar := {|
  unified_diff := fun base target =>
    str "@@ @@" ++ [LF] ++ concat (zip_with (fun a b => if eqb_dec a b then [] else str "-" ++ a ++ [LF] ++ str "+" ++ b ++ [LF])
                                     (lines base) (lines target));
|}.

Definition opening_prompt : rstr := message "user" (lit (repeat_str "open with a long human prompt to seed. " 8)).
Definition trailing_prompt : rstr := message "user" (lit (repeat_str "a trailing human prompt of some length here. " 8)).
Definition latest_reply : rstr := message "assistant" (q "[{'type':'text','text':'latest reply.'}]").
Definition bash_use : rstr := message "assistant" (items [tool_use "tu1" "Bash" (q "{'command':'x'}")]).
Definition bash_result (leaf : rstr) : rstr := message "user" (items [tool_result "tu1" "" (lit leaf)]).

(** A parsed request with its segments, for a test to inspect. *)
Definition parsed (turns : list rstr) (f : WireBody -> list Segment -> bool) : bool :=
  check_some (parse_body (json_bytes (request 100000 turns))) (fun body => f body (segment_prompt body)).

Definition proposals_after (pipeline : Pipeline) (econ : ModelEconomics) (cache : CacheState) (turns_left : Z)
    (body : WireBody) (segments : list Segment) (ledger : PlanLedger) : option PlanLedger :=
  ok (Runner_run Runner_default pipeline
        (mkPassCtx body segments WorkingState_default econ cache PolicyConfig_default (mkStagedDecisions false [] [])
           (f64_of_Z turns_left) f64_zero) ledger).

(** The run of one pass under the shared fixtures. *)
Definition run_pass (p : Pass) (body : WireBody) (segments : list Segment) (ledger : PlanLedger) : option (list Proposal) :=
  econ ← economics_for (ModelId_new (str "claude-opus-4-8"));
  proposals <$> proposals_after (Pipeline_of [Stage_Pass p]) econ cache 10 body segments ledger.

(** ** [dedup_backref.rs] *)

Definition two_results (first second : rstr) : list rstr :=
  [message "user" (lit (repeat_str "kick things off with a long human prompt here. " 8));
   message "assistant" (items [tool_use "tu1" "Bash" (q "{'command':'a'}")]);
   message "user" (items [tool_result "tu1" "" (lit first)]);
   message "assistant" (items [tool_use "tu2" "Bash" (q "{'command':'b'}")]);
   message "user" (items [tool_result "tu2" "" (lit second)]);
   trailing_prompt; latest_reply].

Definition dedup_run (first second : rstr) (f : list Proposal -> bool) : bool :=
  parsed (two_results first second) (fun body segments =>
    check_some (run_pass DedupBackrefPass body segments (PlanLedger_sized (length segments))) f).

Definition backrefs_the_second_identical_occurrence : bool :=
  let dup := repeat_str "repeated tool output line. " 60 in
  dedup_run dup dup (fun props =>
    match props with
    | [p] => eqb_dec (prop_strategy p) (Recode [] None) && eqb_dec (needs_ref p) (Some (as_bytes dup))
    | _ => false
    end).

Definition no_backref_when_distinct : bool :=
  dedup_run (repeat_str "first distinct output. " 60) (repeat_str "second distinct output. " 60) is_empty.

Definition no_backref_below_min_chars : bool :=
  let dup := repeat_str "short dup line. " 20 in dedup_run dup dup is_empty.

(** ** [fast_lane.rs] *)

Definition of_tool_pair (s : Segment) : bool := bool_decide (kind s = ToolPair).

Definition chain_recode (leaf : rstr) : option (option rstr) :=
  body ← parse_body (json_bytes (request 100000 [opening_prompt; bash_use; bash_result leaf; trailing_prompt]));
  let segments := segment_prompt body in
  seg ← List.find of_tool_pair segments;
  ledger ← proposals_after (Pipeline_of [Stage_Pass AnsiStripPass; Stage_Pass WhitespacePass; Stage_Pass JsonMinifyPass])
             (mkModelEconomics f64_zero f64_zero f64_zero 0) (mkCacheState 0 f64_zero (f64_of_Z 3600) (body_model body) []) 0
             body segments (PlanLedger_sized (length segments));
  match proposal_for ledger (seg_index seg) with
  | None => Some None
  | Some p => match prop_strategy p with Recode content _ => Some (Some content) | _ => None end
  end.

Definition pretty_rows : rstr :=
  fmt [u "{\n  \qok\q: true,\n  \qrows\q: [\n";
       join (u ",\n") ((fun i => fmt [u "    {\n      \qid\q: "; dec i; u ",\n      \qname\q: \qalpha\q\n    }"]) <$> seq 0 12);
       u "\n  ]\n}"].

Definition ndjson_rows : rstr :=
  unescape (repeat_str "{ \qid\q: 1, \qname\q: \qalpha\q }\n{ \qid\q: 2, \qname\q: \qbeta\q }\n" 8).

Definition fast_lane_cases : list rstr :=
  [unescape (repeat_str "\x1b[2K\rbuilding \x1b[33m[####    ]\x1b[0m 50%   \n" 20);
   fmt [u "header   \n"; repeat LF 30; u "done  \ntrailer padding to clear the span floor. "; repeat_str "x" 200; [LF]];
   pretty_rows; ndjson_rows; unescape (repeat_str "{\qa\q:1}\n" 40);
   unescape (repeat_str "a clean line of tool output.\n" 20)].

Definition staged_inline_recode_matches_fast_lane_bytes : bool :=
  allb (fun leaf => (256 <? str_len leaf) && eqb_dec (chain_recode leaf) (Some (fast_lane_clean leaf))) fast_lane_cases.

Definition multi_doc_ndjson_folds_to_one_array : bool :=
  check_some (fast_lane_clean ndjson_rows) (fun cleaned =>
    starts_with (str "[") cleaned && ends_with (str "]") cleaned &&
    match json_of cleaned with Value_Array vs => (length vs =? 16)%nat | _ => false end).

Definition red_lines : rstr := unescape (repeat_str "\x1b[31mred output line that repeats for span\x1b[0m\n" 20).

Definition fast_lane_leaf_targets_only_unpinned_tool_pairs : bool :=
  parsed [opening_prompt; bash_use; bash_result red_lines; trailing_prompt] (fun body segments =>
    allb (fun seg => eqb_dec (of_tool_pair seg) (negb (is_none (fast_lane_leaf body seg)))) segments).

Definition fast_lane_leaf_exempts_the_pinned_current_tool_result : bool :=
  parsed [opening_prompt; bash_use; bash_result red_lines] (fun body segments =>
    check_some (List.find of_tool_pair segments) (fun pair => pinned pair && is_none (fast_lane_leaf body pair))).

(** ** [recode.rs] *)

Definition recode_request (leaf : rstr) : list rstr := [opening_prompt; bash_use; bash_result leaf; trailing_prompt; latest_reply].

Definition leaf_at (body : WireBody) (segs : list Segment) (i : nat) (ledger : PlanLedger) : option RecodeLeaf :=
  seg ← segs !! i; recode_leaf body seg ledger.

Definition extracts_tool_result_leaf_above_floor : bool :=
  parsed (recode_request (repeat_str "tool output line. " 40)) (fun body segs =>
    check_some (leaf_at body segs 1 (PlanLedger_sized (length segs))) (fun leaf =>
      starts_with (str "tool output line.") (leaf_content leaf))).

Definition excludes_true_human_string_content : bool :=
  parsed (recode_request (str "short")) (fun body segs =>
    check_some (head segs) seg_is_true_human && is_none (leaf_at body segs 0 (PlanLedger_sized (length segs)))).

Definition excludes_pinned_and_sub_floor : bool :=
  parsed (recode_request (str "tiny")) (fun body segs =>
    let ledger := PlanLedger_sized (length segs) in
    is_none (leaf_at body segs 1 ledger) &&
    check_some (last segs) (fun l => pinned l && is_none (recode_leaf body l ledger))).

Definition recode_prop (seg_index : nat) (content : rstr) (needs : option (list byte)) (net : Z) (by_ : string) : Proposal :=
  mkProposal seg_index (Recode content None) None needs net f64_zero (mkPassId (str by_)).

Definition threads_prior_recode_over_raw_leaf : bool :=
  parsed (recode_request (repeat_str "raw tool output. " 40)) (fun body segs =>
    let ledger := upsert_proposal (PlanLedger_sized (length segs))
                    (recode_prop 1 (str "cleaned by an earlier pass") None 1 "earlier") in
    check_some (leaf_at body segs 1 ledger) (fun leaf => eqb_dec (leaf_content leaf) (str "cleaned by an earlier pass"))).

Definition pair_seg (index : nat) (tokens : Z) : Segment := mkSegment index ToolPair 0 tokens 1 false false false [].
Definition pass_t : PassId := mkPassId (str "t").

Definition inline_recode_gates_on_strict_shrink : bool :=
  let leaf := mkRecodeLeaf (str "abcdef") 2 None in
  let recode s := inline_recode (pair_seg 0 2) leaf (str s) pass_t in
  negb (is_none (recode "abc"%string)) && is_none (recode "abcdef"%string) && is_none (recode "abcdefgh"%string).

Definition inline_recode_after_ref_backed_preserves_needs_ref : bool :=
  let original := as_bytes (str "pre-extract original bytes") in
  check_some (inline_recode (pair_seg 1 8) (mkRecodeLeaf (str "cleaned but still shrinkable") 8 (Some original)) (str "cleaned")
                (mkPassId (str "d")))
    (fun p => eqb_dec (needs_ref p) (Some original) &&
              match prop_strategy p with Recode _ None => true | _ => false end).

Definition ref_recode_carries_original_bytes_and_leaves_ref_id_none : bool :=
  let leaf := mkRecodeLeaf (str "the original long content") 8 None in
  let original := as_bytes (str "original bytes") in
  check_some (ref_recode (pair_seg 3 8) leaf (str "short") original pass_t) (fun p =>
    (prop_seg_index p =? 3)%nat && eqb_dec (needs_ref p) (Some original) &&
    match prop_strategy p with Recode _ None => true | _ => false end && is_none (prop_ref_id p)) &&
  is_none (ref_recode (pair_seg 3 8) leaf (leaf_content leaf) (as_bytes (str "x")) pass_t).

Definition mixed_pair_body (string_result structured : rstr) : list rstr :=
  [opening_prompt;
   message "assistant" (items [tool_use "tu1" "Bash" (q "{'command':'x'}"); tool_use "tu2" "Read" (q "{'file_path':'/f'}")]);
   message "user" (items [tool_result "tu1" "" (lit string_result); tool_result "tu2" "" structured]);
   trailing_prompt; latest_reply].

Definition mixed_pair_with_structured_result_yields_no_recode_proposal : bool :=
  let string_result := repeat_str "tool output line. " 120 in
  let structured text := items [q "{'type':'text','text':" ++ lit text ++ q "}"] in
  let leaf_of text k := parsed (mixed_pair_body string_result (structured text)) (fun body segs =>
    check_some (List.find of_tool_pair segs) (fun pair => k (recode_leaf body pair (PlanLedger_sized (length segs))))) in
  leaf_of (repeat_str "structured payload block. " 40) is_none && leaf_of (str "tiny") (fun o => negb (is_none o)).

(** ** [seq_diff.rs] *)

Definition tool_results (results : list (string * string * rstr)) : list rstr :=
  [message "user" (lit (repeat_str "kick things off with a long human prompt here. " 8))] ++
  (results ≫= fun '(tool, id, content) =>
     [message "assistant" (items [tool_use id tool (str "{}")]); message "user" (items [tool_result id "" (lit content)])]) ++
  [trailing_prompt; latest_reply].

Definition seg_index_for (body : WireBody) (segs : list Segment) (tool_id : string) : option nat :=
  seg_index <$> List.find (fun s => match resolve_tool body s with Some (_, id) => eqb_dec id (str tool_id) | None => false end) segs.

Definition run_with_ledger (results : list (string * string * rstr))
    (seed : WireBody -> list Segment -> PlanLedger -> option PlanLedger) (f : list Proposal -> bool) : bool :=
  parsed (tool_results results) (fun body segments =>
    check_some (ledger ← seed body segments (PlanLedger_sized (length segments)); run_pass SeqDiffPass body segments ledger) f).

Definition diff_lines (n : nat) (changed : list nat) : rstr :=
  join [LF] ((fun i => fmt [str "line "; dec i;
                            str (if contains i changed then ": MUTATED payload content for the diff"
                                 else ": stable payload content for the diff")]) <$> seq 0 n).

Definition resolves_tool_name_and_id_from_pair : bool :=
  parsed (tool_results [("Bash", "tu-a", repeat_str "stdout line. " 80)]%string) (fun body segs =>
    check_some (List.find (fun s => negb (pinned s) && (0 <? seg_index s)%nat) segs) (fun pair =>
      eqb_dec (resolve_tool body pair) (Some (str "Bash", str "tu-a")))).

Definition recode_text (p : Proposal) : rstr := match prop_strategy p with Recode c _ => c | _ => [] end.
Definition diff_of (base_id : string) (p : Proposal) : bool :=
  starts_with (fmt [str "[cc-squash: near-duplicate of the earlier Bash result (tool_use_id="; str base_id; str ")"]) (recode_text p) &&
  contains_sub (str "@@") (recode_text p).

Definition proposes_diff_for_near_duplicate : bool :=
  let target := diff_lines 120 [60%nat] in
  run_with_ledger [("Bash", "tu1", diff_lines 120 []); ("Bash", "tu2", target)]%string (fun _ _ l => Some l) (fun props =>
    match props with
    | [p] =>
        match prop_strategy p with Recode _ None => true | _ => false end && is_none (prop_ref_id p) && diff_of "tu1" p &&
        shrinks (recode_text p) target && eqb_dec (needs_ref p) (Some (as_bytes target))
    | _ => false
    end).

Definition by_seq_diff (p : Proposal) : bool := eqb_dec (prop_by p) SEQ_DIFF.

Definition seeded (tool_id : string) (content : rstr) (needs : option (list byte)) (by_ : string)
    (body : WireBody) (segs : list Segment) (ledger : PlanLedger) : option PlanLedger :=
  a ← seg_index_for body segs tool_id; Some (upsert_proposal ledger (recode_prop a content needs 0 by_)).

Definition seq_diff_ref_backed_leaf_never_becomes_base : bool :=
  let recoded_a := diff_lines 120 [] in
  run_with_ledger [("Bash", "tuA", recoded_a); ("Bash", "tuB", diff_lines 120 [60%nat])]%string
    (seeded "tuA" recoded_a (Some (as_bytes (str "byte-exact original A"))) "json_toon") (fun props =>
    allb (fun p => negb (by_seq_diff p)) props && negb (existsb (fun p => contains_sub (str "tool_use_id=tuA") (recode_text p)) props)).

Definition seq_diff_inline_cleaned_leaf_is_valid_base : bool :=
  let cleaned_a := diff_lines 120 [] in
  let target_b := diff_lines 120 [60%nat] in
  run_with_ledger [("Bash", "tuA", cleaned_a); ("Bash", "tuB", target_b)]%string
    (seeded "tuA" cleaned_a None "ansi_strip") (fun props =>
    check_some (List.find by_seq_diff props) (fun d =>
      diff_of "tuA" d && eqb_dec (needs_ref d) (Some (as_bytes target_b)))).

Definition pass_tests : list bool :=
  [strips_sgr_colour_codes; shrinks_an_ansi_laden_log; drops_carriage_returns_and_control_bytes_keeps_tab_newline;
   ansi_idempotent; no_op_on_clean_text; collapses_blank_runs_and_strips_trailing_ws; crlf_becomes_lf;
   shrinks_a_padded_blob; ws_idempotent; no_op_on_already_clean; preserves_missing_trailing_newline;
   elided_count_is_exact; no_op_on_short_leaf; kept_ranges_cover_head_and_tail; extracts_large_blob_and_shrinks;
   preserves_surrounding_text; no_op_below_threshold; no_op_on_plain_prose; picks_the_longest_run;
   recognizes_html_prefixes_case_insensitively; recognizes_only_at_the_tag_hit_threshold;
   does_not_treat_generics_as_html; xml_declaration_excludes_tag_dense_documents;
   decodes_entities_and_uses_ascii_space_for_nbsp; preserves_pre_and_code_text;
   decodes_entities_inside_pre_as_rendered_text; removes_script_style_and_comments_non_greedily;
   markup_strip_ignores_invalid_script_close; markup_strip_separates_pre_from_following_block;
   preserves_multibyte_text_at_tag_boundaries; malformed_markup_aborts; collapses_excess_blank_lines;
   unchanged_output_does_not_pass_size_gate; markup_strip_keeps_text_with_gt_inside_quoted_attr;
   markup_strip_keeps_bare_lt_as_text; markup_strip_no_op_on_source_with_repeated_html_literals;
   markup_strip_separates_block_elements; markup_strip_preserves_pre_blank_lines;
   markup_strip_strips_page_with_long_data_uri_attr; markup_strip_bails_on_unterminated_quote;
   separates_table_cells_with_spaces; backrefs_the_second_identical_occurrence; no_backref_when_distinct;
   no_backref_below_min_chars; staged_inline_recode_matches_fast_lane_bytes; multi_doc_ndjson_folds_to_one_array;
   fast_lane_leaf_targets_only_unpinned_tool_pairs; fast_lane_leaf_exempts_the_pinned_current_tool_result;
   extracts_tool_result_leaf_above_floor; excludes_true_human_string_content; excludes_pinned_and_sub_floor;
   threads_prior_recode_over_raw_leaf; inline_recode_gates_on_strict_shrink;
   inline_recode_after_ref_backed_preserves_needs_ref; ref_recode_carries_original_bytes_and_leaves_ref_id_none;
   mixed_pair_with_structured_result_yields_no_recode_proposal; resolves_tool_name_and_id_from_pair;
   proposes_diff_for_near_duplicate; seq_diff_ref_backed_leaf_never_becomes_base;
   seq_diff_inline_cleaned_leaf_is_valid_base].

Lemma pass_tests_pass : allb id pass_tests = true.
Proof. vm_compute. reflexivity. Qed.
