(* ===== verification/TestsRefs.v ===== *)
(** * Conformance: the references

    The unit tests of [marker.rs], [dedup.rs] and [bm25.rs] in [ccs-refs],
    over a rolling digest for SHA-256 and ASCII for Unicode. *)
From S2P Require Import Prelude RStr F64 Core Scorer Rewrite Json Marker Bm25 TestKit.

Local Open Scope Z_scope.
Local Existing Instances coarse_libm ascii_unicode rolling_digest.

(** ** [marker.rs] *)

Definition on_address (payload : string) (f : RefId -> bool) : bool := check_some (content_address (as_bytes (str payload))) f.

Definition record_of (id : RefId) : RefRecord :=
  mkRefRecord id 8210 2050 (MessageId_new (str "uuid-1")) (SessionId_new (str "sess-1")) ToolPair (f64_of_Z 100).
Definition on_record (f : RefRecord -> bool) : bool := on_address "original payload" (fun id => f (record_of id)).

Definition finds (text : rstr) (ids : list RefId) : bool := eqb_dec (extract_refs text) ids.

Definition extract_refs_finds_real_marker_in_noise : bool :=
  on_address "x" (fun id => finds (fmt [str "noise "; render_backref id; str " more noise"]) [id]).

Definition extract_refs_skips_non_marker_and_uppercase : bool :=
  finds (fmt [str "ref=sha256:"; (fun c => if is_ascii_lower c then c - 32 else c) <$> HEX64]) [] && finds (str "no refs here") [].

Definition extract_refs_rejects_overlong_digest : bool :=
  let overlong := HEX64 ++ str "0" in
  finds (fmt [str "[same as earlier message · ref=sha256:"; overlong; str "]"]) [] &&
  finds (fmt [str "[cc-squash: squashed segment · ref=sha256:"; overlong; str " · ~1 tokens · 1 bytes]"]) [].

Definition extract_refs_rejects_hybrid_marker_shapes : bool :=
  finds (fmt [str "[cc-squash: squashed segment · ref=sha256:"; HEX64; str "]"]) [] &&
  finds (fmt [str "[cc-squash: squashed segment · ref=sha256:"; HEX64; str " ·"]) [].

Definition extract_refs_finds_multiple : bool :=
  on_address "a" (fun a => on_address "b" (fun b => finds (fmt [render_backref a; str " and "; render_backref b]) [a; b])).

Definition extract_refs_ignores_bare_prose_ref : bool :=
  on_address "diff base" (fun id =>
    finds (fmt [str "near-duplicate of the earlier Bash result mentions ref="; RefId_as_str id; str " inline"]) [] &&
    finds (render_backref id) [id]).

Definition placeholder_omits_read_line_when_fuse_down : bool :=
  on_record (fun rec =>
    let rendered := render_placeholder rec (str "a summary") false in
    contains_sub (str "[cc-squash: squashed segment · ref=sha256:") rendered &&
    contains_sub (str "~2050 tokens · 8210 bytes]") rendered && contains_sub (str "a summary") rendered &&
    contains_sub (u "retrieve(\q") rendered && negb (contains_sub (str "Read(") rendered)).

Definition placeholder_includes_read_line_when_fuse_up : bool :=
  on_record (fun rec =>
    let rendered := render_placeholder rec (str "a summary") true in
    let fuse_name := replace_char 58 (str "-") (RefId_as_str (rec_ref_id rec)) in
    contains_sub (fmt [u "Read(\q.cc-squash/refs/"; fuse_name; u ".txt\q)"]) rendered &&
    (negb (contains_sub (str "sha256:") rendered) || contains_sub (str "ref=sha256:") rendered)).

Definition placeholder_roundtrips_through_extract : bool :=
  on_record (fun rec => finds (render_placeholder rec (str "summary") true) [rec_ref_id rec]).

Definition backref_format_and_roundtrip : bool :=
  on_address "dup" (fun id =>
    let rendered := render_backref id in
    eqb_dec rendered (fmt [str "[same as earlier message · ref="; RefId_as_str id; str "]"]) && finds rendered [id]).

(** ** [dedup.rs] *)

Definition key_is_content_address : bool :=
  let payload := as_bytes (str "payload") in eqb_dec (dedupe_key payload) (content_address payload).

Definition skips_forced : bool := negb (should_dedupe (str "user") 2048 true true).

Definition skips_short : bool := negb (should_dedupe (str "user") 1023 false true) && should_dedupe (str "user") 1024 false true.

Definition assistant_gated_on_allow_flag : bool :=
  negb (should_dedupe (str "assistant") 2048 false false) && should_dedupe (str "assistant") 2048 false true &&
  should_dedupe (str "user") 2048 false false.

Definition can_dedupe_from_rules : bool :=
  can_dedupe_from (str "user") (str "user") && can_dedupe_from (str "assistant") (str "assistant") &&
  can_dedupe_from (str "assistant") (str "user") && negb (can_dedupe_from (str "user") (str "assistant")).

(** ** [bm25.rs] *)

Definition DOC : rstr :=
  u "The cat sat on the mat.\nDogs are loyal companions to humans.\nQuantum entanglement links distant particles.\nThe weather today is sunny and warm.\nRust ownership prevents data races at compile time.\nBananas are a good source of potassium.".

Definition searched (doc : rstr) (query : string) (f : rstr -> bool) : bool := check_some (search_within doc (str query)) f.

Definition query_selects_relevant_passage : bool :=
  searched DOC "quantum particles entanglement" (contains_sub (str "Quantum entanglement")).

Definition rust_query_selects_rust_line : bool := searched DOC "rust ownership compile" (contains_sub (str "Rust ownership")).

Definition empty_query_returns_leading_passages : bool :=
  searched DOC "" (fun r => starts_with (str "The cat sat on the mat.") r && (length (lines r) =? DEFAULT_TOP_N)%nat).

Definition no_match_falls_back_to_default : bool :=
  searched DOC "zzzzz nonexistent xyzzy" (starts_with (str "The cat sat on the mat.")).

Definition short_doc_returns_whole : bool :=
  searched (str "one short line") "anything" (fun r => eqb_dec r (str "one short line")).

Definition results_preserve_original_order : bool :=
  searched (u "alpha keyword here\nbeta nothing\ngamma keyword again\ndelta keyword too") "keyword" (fun r =>
    match position (starts_with (str "alpha")) (lines r), position (starts_with (str "gamma")) (lines r) with
    | Some a, Some g => (a <? g)%nat
    | _, _ => false
    end).

Definition search_deterministic : bool :=
  searched DOC "rust ownership" (fun a => searched DOC "rust ownership" (fun b => eqb_dec a b)).

Definition refs_tests : list bool :=
  [extract_refs_finds_real_marker_in_noise; extract_refs_skips_non_marker_and_uppercase;
   extract_refs_rejects_overlong_digest; extract_refs_rejects_hybrid_marker_shapes; extract_refs_finds_multiple;
   extract_refs_ignores_bare_prose_ref; placeholder_omits_read_line_when_fuse_down;
   placeholder_includes_read_line_when_fuse_up; placeholder_roundtrips_through_extract;
   backref_format_and_roundtrip; key_is_content_address; skips_forced; skips_short; assistant_gated_on_allow_flag;
   can_dedupe_from_rules; query_selects_relevant_passage; rust_query_selects_rust_line;
   empty_query_returns_leading_passages; no_match_falls_back_to_default; short_doc_returns_whole;
   results_preserve_original_order; search_deterministic].

Lemma refs_tests_pass : allb id refs_tests = true.
Proof. vm_compute. reflexivity. Qed.
