(* ===== verification/TestsProxy.v ===== *)
(** * Conformance: the proxy's parts

    The unit tests of [session.rs], [headers.rs], [demux.rs],
    [synth/sse.rs], [synth/detect.rs], [usage_tap.rs], [relay.rs],
    [staging.rs] and [seam.rs] in [ccs-proxy].  Frames are read with the JSON
    reader; of the mint configurations only the empty one is readable. *)
From S2P Require Import Prelude RStr F64 Core Economics Config Wire Segment Policy Scorer Pipeline Rewrite Json Utf8 Marker Store Session Intercept UsageTap Synth Summarizer Staging App Relay Seam Open Serve TestKit.

Local Open Scope Z_scope.

#[local] Existing Instances cooldown_breaker rolling_digest.

#[local] Instance json_slice : SerdeSlice := {| value_of_slice := fun bytes => to_value <$> from_slice bytes |}.

Definition u32_at (k : string) (v : Value) : option Z := z ← value_get v (str k) ≫= as_u64; if z <? 2 ^ 32 then Some z else None.

#[local] Instance json_usage : SerdeUsage := {|
  UsageTap.message_start := fun data =>
    root ← value_of_slice data; m ← value_get root (str "message");
    model ← value_get m (str "model") ≫= as_str; usage ← value_get m (str "usage");
    created ← u32_at "cache_creation_input_tokens" usage; read ← u32_at "cache_read_input_tokens" usage;
    input ← u32_at "input_tokens" usage;
    Some (mkObserved (mkCacheUsage created read input) (ModelId_new model));
|}.

Definition bool_at (k : string) (v : Value) : option bool :=
  match value_get v (str k) with
  | Some (Value_Scalar s) => if eqb_dec s (str "true") then Some true else if eqb_dec s (str "false") then Some false else None
  | _ => None
  end.

#[local] Instance json_frames : SerdeControl := {|
  json_control := fun line =>
    v ← to_value <$> from_str line; kind ← value_get v (str "type") ≫= as_str; p ← u32_at "protocol" v;
    let token := value_get v (str "token") ≫= as_str in
    if eqb_dec kind (str "mint") then
      t ← token; c ← value_get v (str "config");
      match c with Value_Object m => if eqb_dec (dom m) ∅ then Some (Control_Mint p t RelayConfig_default) else None | _ => None end
    else if eqb_dec kind (str "evict") then Control_Evict p <$> token
    else if eqb_dec kind (str "shadow") then Control_Shadow p <$> bool_at "on" v
    else if eqb_dec kind (str "kill") then Control_Kill p <$> bool_at "on" v
    else if eqb_dec kind (str "gc") then Some (Control_Gc p)
    else if eqb_dec kind (str "shutdown") then Some (Control_Shutdown p) else None;
|}.

(** ** [session.rs] *)

Definition usage (creation read : Z) : CacheUsage := mkCacheUsage creation read 10.
Definition test_auth : SessionAuthContext := mkSessionAuthContext [] (str "https://api.anthropic.com").
Definition session : SessionEcon := SessionEcon_new cache test_auth f64_zero PolicyConfig_default.

(** The breaker's own clock reads the same instants. *)
Definition observed (s : SessionEcon) (creation read : Z) (at_ : Z) : SessionEcon :=
  observe s (usage creation read) (f64_of_Z at_) (f64_of_Z at_).
Definition estimated (s : SessionEcon) (prefix : Z) : SessionEcon := set_estimate s (s_token_scale s) (Some prefix).
Definition predicted (s : SessionEcon) (tokens : Z) : SessionEcon := set_predicted s (Some (mkCost f64_zero tokens)).
Definition scale_of (s : SessionEcon) : f64 := scale_get (s_token_scale s).

Definition observe_folds_cache_and_bumps_turn : bool :=
  let s := observed session 100 250 1 in
  (s_turn s =? 1) && (cached_prefix_tokens (s_cache s) =? 350) && f64_eqb (last_request_ts (s_cache s)) f64_one.

Definition no_estimate_leaves_scale_at_identity : bool :=
  f64_eqb (scale_of (observed session 100 250 1)) (scale_get TokenScale_default).

Definition first_observation_calibrates_from_estimate : bool :=
  let s := observed (estimated session 180) 100 250 1 in
  close_to 9 (scale_of s) (f64_of_Z 2) && close_to 9 (scale_of (observed s 100 250 2)) (f64_of_Z 2).

Definition ewma_converges_toward_steady_mismatch : bool :=
  let s := foldl (fun s turn => observed (estimated s 240) 200 150 (Z.of_nat turn)) session (seq 1 20) in
  close_to 6 (scale_of s) (f64_lit 3 2).

Definition observed_cache_is_never_scaled : bool :=
  let s := observed (estimated session 180) 100 250 1 in
  (cached_prefix_tokens (s_cache s) =? 350) && close_to 9 (scale_of s) (f64_of_Z 2).

Definition known_model_resolves_economics : bool := negb (is_none (s_econ session)).

Definition unknown_model_disables_economics : bool :=
  is_none (s_econ (SessionEcon_new (mkCacheState 0 f64_zero (f64_of_Z 3600) (ModelId_new (str "totally-unknown-model")) [])
    test_auth f64_zero PolicyConfig_default)).

Definition breaker_ignores_coldstart_turn1 : bool := s_intercept_enabled (observed session 0 0 1).

Definition warm : SessionEcon := observed (observed session 500 0 1) 0 500 2.

Definition breaker_disengages_after_warmup_on_allzero : bool :=
  s_intercept_enabled warm && negb (s_intercept_enabled (observed warm 0 0 3)).

Definition breaker_disengages_when_realized_bust_overruns_prediction : bool :=
  s_intercept_enabled warm && negb (s_intercept_enabled (observed (predicted warm 100) 1000 200 3)).

Definition breaker_stays_engaged_when_realized_bust_matches_prediction : bool :=
  s_intercept_enabled (observed (predicted warm 1000) 900 200 3).

(** ** [headers.rs]: names arrive in lower case from the framework *)

Definition header_map (pairs : list (string * string)) : HeaderMap := (fun p => (to_ascii_lower <$> str p.1, str p.2)) <$> pairs.
Definition get_all (name : string) (h : HeaderMap) : list rstr := snd <$> filterb (fun p => eqb_dec p.1 (str name)) h.

Definition strips_hop_by_hop_and_framing : bool :=
  is_empty (sanitize (header_map
    [("connection", "keep-alive"); ("keep-alive", "timeout=5"); ("transfer-encoding", "chunked"); ("te", "trailers");
     ("trailer", "x-checksum"); ("upgrade", "h2c"); ("proxy-connection", "keep-alive"); ("host", "localhost:1234");
     ("content-length", "42")]%string)).

Definition keeps_end_to_end_headers : bool :=
  let kept := [("authorization", "Bearer x"); ("x-api-key", "sk-ant-123"); ("anthropic-version", "2023-06-01");
               ("anthropic-beta", "messages-2024"); ("content-type", "application/json"); ("accept-encoding", "gzip")]%string in
  allb (fun p => eqb_dec (get_all p.1 (sanitize (header_map kept))) [str p.2]) kept.

Definition is_case_insensitive : bool :=
  let out := sanitize (header_map [("Transfer-Encoding", "chunked"); ("Content-Type", "text/plain")]%string) in
  is_empty (get_all "transfer-encoding" out) && eqb_dec (get_all "content-type" out) [str "text/plain"].

Definition preserves_duplicate_values : bool :=
  eqb_dec (get_all "x-multi" (sanitize (header_map [("x-multi", "a"); ("x-multi", "b")]%string))) [str "a"; str "b"].

(** ** [demux.rs] *)

Definition rewritten (uri token expected : string) : bool :=
  let _ := any_uri in
  eqb_dec (req_target (strip_session_prefix (mkRequest (str "GET") (str uri) [] None) (str token))) (str expected).

Definition strips_prefix_from_messages_path : bool := rewritten "/s/tok123/v1/messages" "tok123" "/v1/messages".
Definition strips_prefix_preserving_query : bool :=
  rewritten "/s/tok123/v1/messages?beta=true" "tok123" "/v1/messages?beta=true".
Definition strips_prefix_from_nested_path : bool := rewritten "/s/tok123/v1/models/list" "tok123" "/v1/models/list".
Definition bare_prefix_becomes_root : bool := rewritten "/s/tok123" "tok123" "/".
Definition query_only_after_prefix_becomes_root_query : bool := rewritten "/s/tok123?x=1" "tok123" "/?x=1".

(** ** [synth/sse.rs] *)

Definition brief (working : WorkingState) (recap : list rstr) : BriefInputs :=
  mkBriefInputs (str "claude-opus-4-20250514") working recap.
Definition stream_of (inputs : BriefInputs) : rstr := utf8_decode (synth_response inputs).
Definition events : list rstr := utf8_decode <$> synth_events (brief WorkingState_default []).
Definition live_constraint (text : rstr) : Constraint := mkConstraint text (MessageId_new (str "m1")) None.

(** [split_once] on a text. *)
Definition split_at (sep s : rstr) : option (rstr * rstr) :=
  i ← find_sub sep s; Some (take i s, drop (i + length sep) s).
Definition check_summary (joined : rstr) (f : rstr -> bool) : bool :=
  check_some ('(_, rest) ← split_at (str "<summary>") joined; fst <$> split_at (str "</summary>") rest) f.

Definition emits_canonical_event_sequence : bool :=
  eqb_dec ((fun e => s ← strip_prefix (str "event: ") e; fst <$> split_once LF s) <$> events)
    (Some <$> [str "message_start"; str "content_block_start"; str "content_block_delta"; str "content_block_stop";
               str "message_delta"; str "message_stop"]).

Definition carries_summary_with_four_sections : bool :=
  let joined := concat events in
  allb (fun s => contains_sub (str s) joined)
    ["<summary>"; "</summary>"; "## Live Constraints (verbatim)"; "## Decisions"; "## In-Flight Work"; "## Narrative"]%string.

Definition live_constraint_is_copied_verbatim_inside_summary : bool :=
  let constraint := str "MUST fail open: any uncertainty relays upstream byte-for-byte." in
  check_summary (stream_of (brief (mkWorkingState [live_constraint constraint] [] None) [])) (contains_sub constraint).

Definition well_formed_and_non_empty_with_plausible_usage : bool :=
  let frames := utf8_decode <$> synth_events (brief (mkWorkingState [live_constraint (str "Keep the relay fail-open.")] [] None) []) in
  let frame_with s f := check_some (List.find (contains_sub (str s)) frames) f in
  allb (fun f => starts_with (str "event: ") f && ends_with [LF; LF] f) frames &&
  frame_with "message_start"%string (fun f => contains_sub (q "'input_tokens':") f && negb (contains_sub (q "'input_tokens':0") f)) &&
  frame_with "message_delta"%string (fun f => contains_sub (q "'output_tokens':") f && negb (contains_sub (q "'output_tokens':0") f)).

Definition decisions_render_with_rationale_and_status : bool :=
  let d := mkDecision (str "Terminate TLS at the relay") (str "lets us inspect the request body") false None in
  contains_sub (str "Terminate TLS at the relay — lets us inspect the request body — [implemented]")
    (stream_of (brief (mkWorkingState [] [d] None) [])).

Definition in_flight_renders_task_safe_point_and_paths : bool :=
  let w := mkInFlightWork (str "Wire the synth builder") (str "detect.rs compiles") [str "sse.rs"] [str "docs/synth.md"] in
  let joined := stream_of (brief (mkWorkingState [] [] (Some w)) []) in
  allb (fun s => contains_sub (str s) joined) ["Wire the synth builder"; "detect.rs compiles"; "sse.rs"; "docs/synth.md"]%string.

Definition empty_state_falls_back_to_request_recap : bool :=
  let turn := str "Refactor the synth module to read live state" in
  let joined := stream_of (brief WorkingState_default [turn]) in
  contains_sub turn joined && negb (contains_sub (str "placeholder summary") joined).

Definition empty_state_no_recap_is_honest_not_canned : bool :=
  let joined := concat events in
  contains_sub (str "no extracted working state") joined && negb (contains_sub (str "placeholder summary") joined).

(** ** [synth/detect.rs] *)

Definition marker_str : rstr := utf8_decode COMPACT_MARKER.

Definition compact_request (max_tokens : Z) (more : string) (turns : list rstr) : list byte :=
  json_bytes (q "{'model':'claude-opus-4-20250514','max_tokens':" ++ dec_of_Z max_tokens ++ q more ++
    q ",'messages':" ++ print_items turns ++ q "}").
Definition said (role : string) (text : rstr) : rstr := message role (lit text).

Definition compact_turns : list rstr :=
  [said "user" (str "Earlier instructions. " ++ marker_str); said "assistant" (str "Understood.");
   said "user" (str "Please summarize the conversation. " ++ marker_str)].
Definition compact_body (max_tokens : Z) : list byte := compact_request max_tokens "" compact_turns.

Definition not_detected (body : list byte) : bool := is_none (detect body).

Definition fires_on_realistic_compact_request : bool :=
  check_some (detect (compact_body 18000)) (fun inputs =>
    eqb_dec (brief_model inputs) (str "claude-opus-4-20250514") &&
    match brief_working inputs with mkWorkingState [] [] None => true | _ => false end).

Definition recap_harvests_earlier_user_turns_dropping_the_instruction : bool :=
  check_some (detect (compact_body 18000)) (fun inputs => eqb_dec (brief_recap inputs) [str "Earlier instructions. " ++ marker_str]).

Definition fires_at_exact_token_ceiling : bool := negb (not_detected (compact_body MAX_TOKENS_CEILING)).

Definition ignores_normal_turn_without_marker : bool :=
  not_detected (compact_request 1024 "" [said "user" (str "What is the capital of France?")]).

Definition ignores_marker_appearing_only_once : bool :=
  not_detected (compact_request 18000 "" [said "user" (str "Please summarize. " ++ marker_str)]).

Definition ignores_token_budget_above_ceiling : bool := not_detected (compact_body 30000).

Definition ignores_when_tool_choice_present : bool :=
  not_detected (compact_request 18000 ",'tool_choice':{'type':'auto'}" compact_turns).

Definition ignores_when_marker_not_in_last_user_message : bool :=
  not_detected (compact_request 18000 "" [said "user" (str "Old turn one. " ++ marker_str);
    said "user" (str "Old turn two. " ++ marker_str); said "user" (str "A plain follow-up with no marker.")]).

Definition ignores_malformed_json_with_marker : bool := not_detected (as_bytes (str "{ not valid json " ++ marker_str)).

(** ** [usage_tap.rs] *)

Definition message_start_event (creation read input : Z) : list byte :=
  as_bytes (fmt [u "event: message_start\n"; q "data: {'type':'message_start','message':{'id':'msg_1','model':'claude-opus-4-20250514','usage':{'input_tokens':"; dec_of_Z input; q ",'cache_creation_input_tokens':"; dec_of_Z creation;
    q ",'cache_read_input_tokens':"; dec_of_Z read; q "}}}"; [LF; LF]]).

(** What comes out, and the first observation sent. *)
Definition run_tap (chunks : list (list byte)) : list byte * option Observed :=
  let '(out, scanner) := tap chunks in (concat out, head (sent scanner)).
Definition tapped (chunks : list (list byte)) (f : option Observed -> bool) : bool :=
  let '(out, seen) := run_tap chunks in eqb_dec out (concat chunks) && f seen.

Definition passes_bytes_verbatim_and_observes_usage : bool :=
  tapped [message_start_event 100 250 7 ++ as_bytes (u "event: message_stop\ndata: {}\n\n")] (fun seen => check_some seen (fun o =>
    (cache_creation_input_tokens (obs_usage o) =? 100) && (cache_read_input_tokens (obs_usage o) =? 250) &&
    (Economics.input_tokens (obs_usage o) =? 7) && eqb_dec (ModelId_as_str (obs_model o)) (str "claude-opus-4-20250514"))).

Definition observes_across_a_split_event : bool :=
  let sse := message_start_event 0 0 13 in
  tapped [take 40 sse; drop 40 sse] (fun seen => check_some seen (fun o => Economics.input_tokens (obs_usage o) =? 13)).

Definition garbage_stream_passes_through_without_observation : bool := tapped [repeat_str "x" (8 * 1024)] is_none.

Definition no_newline_flood_past_cap_gives_up_cleanly : bool := tapped [repeat_str "x" (SCAN_CAP + 4096)] is_none.

(** ** [relay.rs] *)

Definition turns_body (n : nat) : list byte :=
  json_bytes (request 1024 ((fun i => message (if Nat.even i then "user" else "assistant")%string (lit (str "turn " ++ dec i))) <$> seq 0 n)).
Definition snapshot (s : SessionEcon) (n : nat) : SessionEcon := stash_egress_snapshot s (turns_body n).
Definition floor_is (s : SessionEcon) (n : nat) (closed : bool) : bool :=
  (s_last_message_count s =? n)%nat && eqb_dec (s_window_closed s) closed.

Definition stash_egress_snapshot_is_monotonic : bool :=
  let s := snapshot session 12 in
  (s_last_message_count s =? 12)%nat && (s_last_message_count (snapshot s 10) =? 12)%nat.

Definition kill_switch_passthrough_closes_window : bool :=
  let s := snapshot session 8 in
  let closed := close_window s in
  floor_is s 8 false && floor_is closed 8 true && floor_is (snapshot closed 10) 10 false.

Definition close_window_racing_inflight_snapshot_keeps_floor : bool :=
  floor_is (snapshot (close_window (snapshot session 12)) 8) 12 false &&
  floor_is (close_window (snapshot (snapshot session 12) 8)) 12 true.

Definition commit_fast_lane_unions_and_removes_in_one_update : bool :=
  check_some (content_address (as_bytes (str "a"))) (fun a => check_some (content_address (as_bytes (str "b"))) (fun b =>
    let s := commit_fast_lane (commit_fast_lane session [a] []) [b] [a] in
    negb (bool_decide (a ∈ s_fast_lane s)) && bool_decide (b ∈ s_fast_lane s))).

(** ** [staging.rs] *)

Definition staged_recode_prop (content : rstr) (ref_backed : bool) : Proposal :=
  mkProposal 0 (Recode content None) None (if ref_backed then Some (as_bytes (str "original")) else None) 0 f64_zero
    (mkPassId (str "test")).
Definition staged_record (id : RefId) : RefRecord :=
  mkRefRecord id 4096 1000 (MessageId_new (str "0")) (SessionId_new (str "s")) ToolPair f64_zero.

Definition prefers_recode_only_on_a_meaningful_shrink : bool :=
  let payload := repeat_str "x" 1000 in
  prefers_recode (staged_recode_prop (repeat_str "y" 700) false) payload &&
  negb (prefers_recode (staged_recode_prop (repeat_str "y" 999) false) payload) && prefers_recode (staged_recode_prop [] true) payload.

Definition recode_marker_renders_backref_for_empty_dedup_body : bool :=
  check_some (content_address (as_bytes (str "dup"))) (fun id =>
    eqb_dec (recode_marker (staged_recode_prop [] true) (staged_record id)) (render_backref id) &&
    eqb_dec (recode_marker (staged_recode_prop (u "toon\tbody") true) (staged_record id)) (render_placeholder (staged_record id) [] false)).

(** ** [seam.rs] *)

Definition fresh_state : AppState := with_upstream (str "http://127.0.0.1:1") ∅.

Definition after_frame (st : AppState) (line : rstr) : AppState := (seam_apply line st).1.1.
Definition outcome_of (st : AppState) (line : rstr) : ControlOutcome := (seam_apply line st).2.
Definition has_session (st : AppState) (token : string) : bool := negb (is_none (sessions st !! str token)).

Definition register_frame_shape : bool :=
  let json := Register_value (announce (BUILD_VERSION None) 7 8080 9090) in
  let number k z := eqb_dec (value_get json (str k) ≫= as_u64) (Some z) in
  let text k s := eqb_dec (value_get json (str k) ≫= as_str) (Some s) in
  text "type"%string (str "register") && number "protocol"%string PROTOCOL_VERSION && number "port"%string 8080 &&
  number "mcp_port"%string 9090 && text "version"%string (BUILD_VERSION None) && number "pid"%string 7.

Definition mint_inserts_session_with_config : bool :=
  let line := q "{'type':'mint','protocol':1,'token':'tok-a','config':{}}" in
  eqb_dec (outcome_of fresh_state line) Outcome_Continue && has_session (after_frame fresh_state line) "tok-a".

Definition rejected (line : rstr) (token : string) : bool :=
  eqb_dec (outcome_of fresh_state line) Outcome_ProtocolError && negb (has_session (after_frame fresh_state line) token).

Definition mint_without_config_is_rejected : bool := rejected (q "{'type':'mint','protocol':1,'token':'tok-b'}") "tok-b".

Definition mint_rejects_unknown_config_fields : bool :=
  rejected (q "{'type':'mint','protocol':1,'token':'tok-c','config':{'future_knob':42}}") "tok-c".

Definition evict_removes_session : bool :=
  let st := after_frame fresh_state (q "{'type':'mint','protocol':1,'token':'tok-d','config':{}}") in
  has_session st "tok-d" && negb (has_session (after_frame st (q "{'type':'evict','protocol':1,'token':'tok-d'}")) "tok-d").

Definition kill_and_shadow_flip_flags : bool :=
  let st := after_frame fresh_state (q "{'type':'kill','protocol':1,'on':true}") in
  let st' := after_frame st (q "{'type':'shadow','protocol':1,'on':true}") in
  kill st && shadow st' && negb (kill (after_frame st' (q "{'type':'kill','protocol':1,'on':false}"))).

Definition shutdown_frame_signals_shutdown : bool :=
  eqb_dec (outcome_of fresh_state (q "{'type':'shutdown','protocol':1}")) Outcome_Shutdown.

Definition malformed_or_non_v1_frame_is_rejected : bool :=
  allb (fun line => eqb_dec (outcome_of fresh_state line) Outcome_ProtocolError)
    [str "{ not json"; q "{'type':'unknown-kind','protocol':1}"; q "{'type':'gc','protocol':2}"].

Definition put_tools (st : RefStore) (text : rstr) (now : Z) : option (RefStore * RefId) :=
  '(st, rec) ← put st text (MessageId_new (str "u")) (SessionId_new (str "sess-x")) Tools (f64_of_Z now);
  Some (st, rec_ref_id rec).

(** A session whose plan holds one entry for a stored ref. *)
Definition staged_session (id : RefId) : SessionEcon :=
  set_staged session (Some (mkStagedPlan {[ id :=
    mkStagedEntry (mkRefRecord id 5000 1000 (MessageId_new (str "u")) (SessionId_new (str "sess-x")) Tools (f64_of_Z 1000))
      (mkContentDecision ChoiceTag_Compress [] None) None ]})).

Definition gc_frame_is_continue_and_reachable_is_the_staged_union : bool :=
  check_some ('(store, staged) ← put_tools ∅ (repeat_str "s" 5000) 1000; '(store, old) ← put_tools store (repeat_str "o" 5000) 0;
              Some (store, staged, old)) (fun '(store, staged_id, old_id) =>
    let ctx := mkSessionCtx RelayConfig_default (SessionId_new (str "sess-x")) (Some 0%nat) in
    let st := set_econs (set_sessions (set_store fresh_state store) {[ str "sess-x" := ctx ]}) {[ 0%nat := staged_session staged_id ]} in
    let reachable := reachable_refs st in
    let '(store, evicted) := gc store reachable GRACE_SECONDS 0 (f64_add (f64_add (f64_of_Z 1000) GRACE_SECONDS) f64_one) in
    eqb_dec reachable [staged_id] && negb (contains old_id reachable) && (evicted =? 1)%nat &&
    negb (is_none (materialize store staged_id (f64_of_Z 9999)).2) && is_none (materialize store old_id (f64_of_Z 9999)).2 &&
    eqb_dec (outcome_of st (q "{'type':'gc','protocol':1}")) Outcome_Continue).

Definition proxy_tests : list bool :=
  [observe_folds_cache_and_bumps_turn; no_estimate_leaves_scale_at_identity;
   first_observation_calibrates_from_estimate; ewma_converges_toward_steady_mismatch;
   observed_cache_is_never_scaled; known_model_resolves_economics; unknown_model_disables_economics;
   breaker_ignores_coldstart_turn1; breaker_disengages_after_warmup_on_allzero;
   breaker_disengages_when_realized_bust_overruns_prediction;
   breaker_stays_engaged_when_realized_bust_matches_prediction; strips_hop_by_hop_and_framing;
   keeps_end_to_end_headers; is_case_insensitive; preserves_duplicate_values; strips_prefix_from_messages_path;
   strips_prefix_preserving_query; strips_prefix_from_nested_path; bare_prefix_becomes_root;
   query_only_after_prefix_becomes_root_query; emits_canonical_event_sequence; carries_summary_with_four_sections;
   live_constraint_is_copied_verbatim_inside_summary; well_formed_and_non_empty_with_plausible_usage;
   decisions_render_with_rationale_and_status; in_flight_renders_task_safe_point_and_paths;
   empty_state_falls_back_to_request_recap; empty_state_no_recap_is_honest_not_canned;
   fires_on_realistic_compact_request; recap_harvests_earlier_user_turns_dropping_the_instruction;
   fires_at_exact_token_ceiling; ignores_normal_turn_without_marker; ignores_marker_appearing_only_once;
   ignores_token_budget_above_ceiling; ignores_when_tool_choice_present;
   ignores_when_marker_not_in_last_user_message; ignores_malformed_json_with_marker;
   passes_bytes_verbatim_and_observes_usage; observes_across_a_split_event;
   garbage_stream_passes_through_without_observation; no_newline_flood_past_cap_gives_up_cleanly;
   stash_egress_snapshot_is_monotonic; kill_switch_passthrough_closes_window;
   close_window_racing_inflight_snapshot_keeps_floor; commit_fast_lane_unions_and_removes_in_one_update;
   prefers_recode_only_on_a_meaningful_shrink; recode_marker_renders_backref_for_empty_dedup_body;
   register_frame_shape; mint_inserts_session_with_config; mint_without_config_is_rejected;
   mint_rejects_unknown_config_fields; evict_removes_session; kill_and_shadow_flip_flags;
   shutdown_frame_signals_shutdown; malformed_or_non_v1_frame_is_rejected;
   gc_frame_is_continue_and_reachable_is_the_staged_union].

Lemma proxy_tests_pass : allb id proxy_tests = true.
Proof. vm_compute. reflexivity. Qed.
