(* ===== verification/TestsIntercept.v ===== *)
(** * Conformance: the interceptor

    The unit tests of [intercept.rs], over a rolling digest for SHA-256, an
    exponential that decreases and no JSON formatter.  The tests of [guarded]
    give the outcome of the blocking task in place of a closure that panics or
    sleeps.  The comparisons with the code before the pipeline are theorems of
    [Legacy]; its fixtures are shared. *)
From S2P Require Import Prelude RStr F64 Core Economics Config Wire Segment Policy Scorer Pipeline Ladder Fallback Controller Text Targets Markup Recode Rewrite Json Marker Bm25 Store Session Intercept Synth Summarizer TestKit Legacy.

Local Open Scope Z_scope.
#[local] Existing Instances rolling_digest coarse_libm no_format ascii_unicode cooldown_breaker.

(** ** Inputs with one field replaced *)

Definition with_npv_floor (x : f64) (i : InterceptInputs) : InterceptInputs :=
  mkInterceptInputs (in_econ i) (in_cache i) x (in_policy i) (in_remaining_turns i) (in_hot_refs i) (in_fast_lane i)
    (in_last_message_count i) (in_window_closed i) (in_staged i) (in_token_scale i) (in_now i).
Definition with_hot (refs : list RefId) (i : InterceptInputs) : InterceptInputs :=
  mkInterceptInputs (in_econ i) (in_cache i) (in_npv_floor i) (in_policy i) (in_remaining_turns i) (list_to_set refs)
    (in_fast_lane i) (in_last_message_count i) (in_window_closed i) (in_staged i) (in_token_scale i) (in_now i).
Definition with_lane (keys : list RefId) (i : InterceptInputs) : InterceptInputs :=
  mkInterceptInputs (in_econ i) (in_cache i) (in_npv_floor i) (in_policy i) (in_remaining_turns i) (in_hot_refs i)
    (list_to_set keys) (in_last_message_count i) (in_window_closed i) (in_staged i) (in_token_scale i) (in_now i).
Definition with_window (floor : nat) (closed : bool) (i : InterceptInputs) : InterceptInputs :=
  mkInterceptInputs (in_econ i) (in_cache i) (in_npv_floor i) (in_policy i) (in_remaining_turns i) (in_hot_refs i)
    (in_fast_lane i) floor closed (in_staged i) (in_token_scale i) (in_now i).

Definition inputs_with_q_weight (staged : option StagedPlan) (q_weight : f64) : InterceptInputs :=
  let i := inputs staged in
  let p := in_policy i in
  let w := weights p in
  mkInterceptInputs (in_econ i) (in_cache i) (in_npv_floor i)
    (mkPolicyConfig (recency_window_n p) (human_verbatim_max p) (pre_gate_min_chars p) (cache_hint_cap p)
       (lookback_positions p)
       (mkScoreWeights (w_freshness w) (w_economics w) (w_size w) (w_content_type w) (w_access_count w) (w_tau w)
          (w_size_scale w) q_weight (w_score_floor w)))
    (in_remaining_turns i) (in_hot_refs i) (in_fast_lane i) (in_last_message_count i) (in_window_closed i)
    (in_staged i) (in_token_scale i) (in_now i).

Definition cold_inputs_with_q_weight (staged : option StagedPlan) (q_weight : f64) : InterceptInputs :=
  gone_cold (inputs_with_q_weight staged q_weight).

Definition lane_inputs (staged : option StagedPlan) (floor : nat) : InterceptInputs := with_window floor false (inputs staged).
Definition closed_lane_inputs (staged : option StagedPlan) : InterceptInputs := inputs staged.

(** ** The gate *)

Definition thinking_body : list byte :=
  json_bytes (q "{'model':'claude-opus-4-8','max_tokens':1024,'messages':" ++
    items [message "user" (lit (repeat_str "the first long human prompt that is comfortably long enough to segment. " 8));
           message "assistant" (items
             [q "{'type':'thinking','thinking':'reason','signature':'SIG-LATEST'}";
              q "{'type':'text','text':'the current assistant reply with enough length to matter'}"])] ++ str "}").

(** A parsed body with its segments. *)
Definition on_body (bytes : list byte) (f : WireBody -> list Segment -> bool) : bool :=
  check_some (parse_body bytes) (fun body => f body (segment_prompt body)).

Definition at_target (message : nat) (block : option nat) (json : rstr) : RenderedSegment :=
  mkRenderedSegment (mkSegmentTarget message block) json.

Definition splice_and_gate_rejects_thinking_mutation : bool :=
  on_body thinking_body (fun body _ =>
    is_none (splice_and_gate thinking_body body
      [at_target 1 (Some 0%nat) (q "{'type':'thinking','thinking':'reason','signature':'XIG-TAMPERED'}")] no_breakpoints)).

Definition splice_and_gate_rejects_growth : bool :=
  on_body thinking_body (fun body _ =>
    is_none (splice_and_gate thinking_body body
      [at_target 0 None (placeholder_block_json StringContent (repeat_str "x" 4096))] no_breakpoints)).

Definition shrunk (bytes : list byte) (out : option (list byte)) : bool :=
  check_some out (fun out => (length out <? length bytes)%nat).

(** [content_address(b"orig")] *)
Definition on_orig (f : RefId -> bool) : bool := check_some (content_address (as_bytes (str "orig"))) f.

Definition splice_and_gate_accepts_real_shrink : bool :=
  on_body thinking_body (fun body _ => on_orig (fun id =>
    shrunk thinking_body (splice_and_gate thinking_body body
      [at_target 0 None (placeholder_block_json StringContent (render_placeholder (rec id 80) (str "tiny") false))]
      no_breakpoints))).

(** ** Rendering *)

Definition bash_pair (leaf : rstr) : list rstr :=
  [message "assistant" (items [tool_use "tu_f" "Bash" (q "{'command':'build'}")]);
   message "user" (items [tool_result "tu_f" "" (lit leaf)])].

Definition read_pair (id : string) (file : rstr) : list rstr :=
  [message "assistant" (items [tool_use id "Read" (q "{}")]); message "user" (items [tool_result id "" (lit file)])].

Definition single_tool_pair_body : list byte :=
  json_bytes (request 4096
    ([said "user" "kick off the work with a long human prompt here. "] ++
     read_pair "tu_x" (repeat_str "the contents of a large file read tool result line. " 40) ++
     [said "user" "second turn"; said "assistant" "second reply"; said "user" "third turn that is current"])).

(** The first segment of a kind with something to squash. *)
Definition squashable (k : SegmentKind) (body : WireBody) (segments : list Segment) : option Segment :=
  List.find (fun s => bool_decide (kind s = k) && negb (is_empty (squash_targets body s))) segments.

Definition tool_pair_seg (body : WireBody) (segments : list Segment) : option nat :=
  seg_index <$> squashable ToolPair body segments.

Definition recode_entry (r : RefRecord) (content : rstr) (ref_id : option RefId) (marker : option rstr) : StagedEntry :=
  mkStagedEntry r (mkContentDecision ChoiceTag_Compress [] None) (Some (mkStagedRecode content ref_id marker)).

(** The one tool pair rendered from a staged recode. *)
Definition render_recode (entry : StagedEntry) (f : WireBody -> list RenderedSegment -> bool) : bool :=
  on_body single_tool_pair_body (fun body segments =>
    check_some (i ← tool_pair_seg body segments; seg ← segments !! i;
                cand ← recode_candidate seg segments body entry TokenScale_default f64_zero;
                rendered ← render_segments body segments [(i, entry, cand)]; rendered) (f body)).

Definition field_is (block : rstr) (key value : string) : bool :=
  eqb_dec (value_get (json_of block) (str key) ≫= as_str) (Some (str value)).

Definition content_of (block : rstr) : option rstr := value_get (json_of block) (str "content") ≫= as_str.

Definition one_block (rendered : list RenderedSegment) (f : rstr -> bool) : bool :=
  match rendered with [r] => f (block_json r) | _ => false end.

Definition render_recode_inline_preserves_tool_use_id_and_passes_gate : bool :=
  on_orig (fun id =>
    let cleaned := str "cleaned tool output (inline lossless)" in
    render_recode (recode_entry (rec id 80) cleaned None None) (fun body rendered =>
      one_block rendered (fun block =>
        field_is block "type" "tool_result" && field_is block "tool_use_id" "tu_x" &&
        check_some (content_of block) (fun content => eqb_dec content cleaned && negb (contains_sub (str "ref=") content))) &&
      shrunk single_tool_pair_body (splice_and_gate single_tool_pair_body body rendered no_breakpoints))).

Definition render_recode_ref_backed_appends_marker : bool :=
  on_orig (fun id =>
    let marker := render_placeholder (rec id 80) [] false in
    let cleaned := u "cleaned\tTOON\tbody" in
    render_recode (recode_entry (rec id 80) cleaned (Some id) (Some marker)) (fun body rendered =>
      check_some (head rendered) (fun r =>
        field_is (block_json r) "tool_use_id" "tu_x" &&
        check_some (content_of (block_json r)) (fun content =>
          starts_with cleaned content && contains_sub (str "ref=" ++ RefId_as_str id) content)) &&
      shrunk single_tool_pair_body (splice_and_gate single_tool_pair_body body rendered no_breakpoints))).

Definition render_recode_growth_is_rejected_by_the_gate : bool :=
  on_body single_tool_pair_body (fun body segments =>
    check_some (i ← tool_pair_seg body segments; segments !! i) (fun seg =>
      let recode := mkStagedRecode (repeat_str "x" 8192) None None in
      is_none (splice_and_gate single_tool_pair_body body (render_recode_segment body seg recode) no_breakpoints))).

Definition render_proposal_text_dispatches_each_arm : bool :=
  let marker := Some (str "MARKER") in
  on_orig (fun id =>
    is_none (render_proposal_text Keep (Some (str "m"))) &&
    eqb_dec (render_proposal_text Drop None) (Some DROP_PLACEHOLDER) &&
    eqb_dec (render_proposal_text (ReversibleRef id (str "s")) marker) marker &&
    eqb_dec (render_proposal_text (Summarize (str "x")) marker) marker).

Definition render_proposal_text_recode_inline_vs_ref_backed : bool :=
  on_orig (fun id =>
    let reference := str "ref=sha256:" ++ [8230] in
    eqb_dec (render_proposal_text (Recode (str "cleaned") None) (Some (str "MARKER"))) (Some (str "cleaned")) &&
    eqb_dec (render_proposal_text (Recode (str "toon") (Some id)) (Some reference)) (Some (u "toon\n" ++ reference))).

(** ** Failing open *)

Definition run_fails_open_on_panic : bool :=
  let out := run JoinError thinking_body (inputs None) in
  eqb_dec (out_bytes out) thinking_body && is_none (out_predicted_bust out).

Definition run_fails_open_on_timeout : bool := eqb_dec (out_bytes (run Elapsed thinking_body (inputs None))) thinking_body.

Definition run_returns_identity_when_no_plan_and_not_overbudget : bool :=
  eqb_dec (out_bytes (run Finished thinking_body (inputs None))) thinking_body.

(** ** Pricing *)

Definition historical_body : list byte :=
  json_bytes (request 4096
    [said "user" "kick off the work";
     message "assistant" (lit (repeat_str "the assistant explained a great deal of detailed context here. " 20));
     said "user" "second turn"; said "assistant" "second reply"; said "user" "third turn"; said "assistant" "third reply";
     said "user" "fourth turn that is current"]).

Definition historical_entry (body : WireBody) (segments : list Segment) : option (Segment * StagedEntry) :=
  seg ← squashable AssistantTurn body segments;
  let payload := segment_payload_bytes seg body in
  ref_id ← content_address payload;
  Some (seg, compressed ref_id (Z.of_nat (length payload)) "tiny summary").

Definition token_scale_raises_priced_quantities_proportionally : bool :=
  let double := TokenScale_fold TokenScale_default (f64_of_Z 2) f64_one in
  on_body historical_body (fun body segments =>
    check_some (historical_entry body segments) (fun '(seg, entry) =>
      check_some (live_candidate seg segments body entry TokenScale_default f64_zero) (fun base =>
      check_some (live_candidate seg segments body entry double f64_zero) (fun scaled =>
        (0 <? cand_net_removed base) &&
        (cand_suffix_tokens scaled =? TokenScale_apply double (cand_suffix_tokens base)) &&
        (cand_net_removed scaled =? cand_net_removed base * 2))))).

(** ** Backrefs for repeated payloads *)

Definition dup_tool_result_body : list byte :=
  let file := repeat_str "the contents of a large file read tool result. " 40 in
  json_bytes (request 4096
    (read_pair "tu_1" file ++ read_pair "tu_1" file ++
     [said "assistant" "third reply"; said "user" "fourth turn that is current"])).

Definition dedup_renders_backref_for_the_later_identical_occurrence : bool :=
  let bytes := dup_tool_result_body in
  on_body bytes (fun body segments =>
    match filterb (fun s => bool_decide (kind s = ToolPair) && negb (is_empty (squash_targets body s))) segments with
    | [a; b] =>
        let payload := segment_payload_bytes a body in
        let session := SessionId_new (str "s") in
        eqb_dec payload (segment_payload_bytes b body) && (1024 <=? length payload)%nat &&
        check_some (put ∅ payload (MessageId_new (str "0")) session ToolPair f64_zero) (fun '(store, record) =>
          let entry := mkStagedEntry record (mkContentDecision ChoiceTag_Compress [] (Some (str "a one-line summary"))) None in
          check_some (cand ← live_candidate a segments body entry TokenScale_default f64_zero;
                      rendered ← render_segments body segments [(seg_index a, entry, cand); (seg_index b, entry, cand)];
                      rendered) (fun rendered =>
            match rendered with
            | [first; later] =>
                contains_sub (str "[cc-squash: squashed segment") (block_json first) &&
                contains_sub (str "[same as earlier message") (block_json later) &&
                (str_len (block_json later) <? str_len (block_json first)) &&
                allb (fun r => field_is (block_json r) "type" "tool_result" && field_is (block_json r) "tool_use_id" "tu_1") rendered &&
                shrunk bytes (splice_and_gate bytes body rendered no_breakpoints) &&
                match snd (retrieve store (rec_ref_id record) session None f64_zero) with Some (Hit _ _) => true | _ => false end
            | _ => false
            end))
    | _ => false
    end).

(** ** The pipeline and the code before it *)

Definition seg_keys (body : WireBody) (segments : list Segment) : option (list RefId) :=
  mapM (fun seg => content_address (segment_payload_bytes seg body)) segments.

Definition plan_of (entry : StagedEntry) : StagedPlan := mkStagedPlan {[ rec_ref_id (se_rec entry) := entry ]}.

Definition staged_for (body : WireBody) (segments : list Segment) : option (StagedPlan * RefId) :=
  '(_, entry) ← historical_entry body segments; Some (plan_of entry, rec_ref_id (se_rec entry)).

Definition historical_plan (body : WireBody) (segments : list Segment) : option StagedPlan := fst <$> staged_for body segments.

Definition dup_pairs_plan (body : WireBody) (segments : list Segment) : option StagedPlan :=
  snd <$> plan_for ToolPair "a one-line summary" body.

(** Both paths on one body, plan and inputs. *)
Definition new_and_legacy (bytes : list byte) (make_plan : WireBody -> list Segment -> option StagedPlan)
    (at_inputs : StagedPlan -> InterceptInputs) (f : Intercepted -> bool) : bool :=
  on_body bytes (fun body segments =>
    check_some (make_plan body segments) (fun plan => check_some (seg_keys body segments) (fun keys =>
      check_some (intercept_continuous bytes body segments keys plan (at_inputs plan) []) (fun new =>
      check_some (legacy_continuous bytes body segments plan (at_inputs plan)) (fun legacy =>
        eqb_dec (out_bytes new) (out_bytes legacy) &&
        eqb (is_none (out_predicted_bust new)) (is_none (out_predicted_bust legacy)) && f new))))).

Definition continuous_pipeline_matches_legacy_on_historical_body : bool :=
  new_and_legacy historical_body historical_plan (fun plan => inputs (Some plan)) (fun _ => true).

Definition continuous_pipeline_matches_legacy_on_dup_tool_pairs : bool :=
  new_and_legacy dup_tool_result_body dup_pairs_plan (fun plan => inputs (Some plan)) (fun _ => true).

Definition continuous_pipeline_matches_legacy_when_ref_is_hot : bool :=
  new_and_legacy historical_body historical_plan
    (fun plan => with_hot (fst <$> map_to_list (by_content plan)) (inputs (Some plan)))
    (fun new => eqb_dec (out_bytes new) historical_body).

Definition tokens_saved (original egress : list byte) : nat := length original - length egress.

Definition assert_no_regression (bytes : list byte) (make_plan : WireBody -> list Segment -> option StagedPlan) : bool :=
  on_body bytes (fun body segments =>
    check_some (make_plan body segments) (fun plan => check_some (seg_keys body segments) (fun keys =>
      let run q_weight :=
        intercept_continuous bytes body segments keys plan (cold_inputs_with_q_weight (Some plan) q_weight) [] in
      check_some (run f64_zero) (fun baseline => check_some (run (w_q_weight ScoreWeights_default)) (fun lit =>
        (tokens_saved bytes (out_bytes baseline) <=? tokens_saved bytes (out_bytes lit))%nat &&
        (eqb_dec (out_bytes lit) bytes || is_ok (validate (out_bytes lit) body))))))).

Definition squashable_large_plan (body : WireBody) (segments : list Segment) : option StagedPlan :=
  snd <$> plan_for AssistantTurn "condensed historical context" body.

Definition scorer_lit_never_regresses_vs_baseline_on_historical_body : bool :=
  assert_no_regression historical_body historical_plan.

Definition scorer_lit_never_regresses_vs_baseline_on_dup_tool_pairs : bool :=
  assert_no_regression dup_tool_result_body dup_pairs_plan.

Definition scorer_lit_never_regresses_vs_baseline_on_large_body : bool :=
  assert_no_regression squashable_large_body squashable_large_plan.

Definition scorer_lit_actually_squashes_large_body : bool :=
  on_body squashable_large_body (fun body segments =>
    check_some (squashable_large_plan body segments) (fun plan => check_some (seg_keys body segments) (fun keys =>
      check_some (intercept_continuous squashable_large_body body segments keys plan
                    (cold_inputs_with_q_weight (Some plan) (w_q_weight ScoreWeights_default)) []) (fun lit =>
        (length (out_bytes lit) <? length squashable_large_body)%nat && is_ok (validate (out_bytes lit) body))))).

Definition compact_and_legacy (bytes : list byte) (f : Intercepted -> bool) : bool :=
  on_body bytes (fun body segments =>
    check_some (deterministic_compact bytes body segments PolicyConfig_default []) (fun new =>
    check_some (legacy_deterministic_compact bytes body segments PolicyConfig_default) (fun legacy =>
      eqb_dec (out_bytes new) (out_bytes legacy) && f new))).

Definition deterministic_pipeline_matches_legacy_on_overbudget_body : bool :=
  compact_and_legacy overbudget_body (fun new => (length (out_bytes new) <? length overbudget_body)%nat).

Definition deterministic_pipeline_matches_legacy_when_in_budget : bool :=
  compact_and_legacy thinking_body (fun new => eqb_dec (out_bytes new) thinking_body).

(** ** The fast lane *)

Definition dirty_leaf : rstr := unescape (repeat_str "\x1b[2K\rbuilding \x1b[33m[####    ]\x1b[0m 50%   \n" 40).

Definition dirty_tail_body : list byte :=
  json_bytes (request 200000
    ([said "user" "kick off the work with a long human prompt here."] ++ bash_pair dirty_leaf ++
     [said "user" "a trailing user turn that is current"])).

Definition history : list rstr :=
  [said "user" "kick off the work";
   message "assistant" (lit (repeat_str "the assistant produced a long, detailed historical explanation here. " 120));
   said "user" "second turn"].

Definition history_and_dirty_tail_body : list byte :=
  json_bytes (request 200000 (history ++ bash_pair dirty_leaf ++ [said "user" "a trailing user turn that is current"])).

Definition pinned_pair_body : list byte :=
  json_bytes (request 200000 ([said "user" "kick off the work with a long human prompt here."] ++ bash_pair dirty_leaf)).

Definition history_and_pinned_pair_body : list byte := json_bytes (request 200000 (history ++ bash_pair dirty_leaf)).

Definition overbudget_dirty_pair_body (max_tokens : Z) : list byte :=
  json_bytes (request max_tokens
    ([said "user" "kick off the work for the fallback test"] ++ bash_pair dirty_leaf ++
     [said "user" "second turn here"; said "assistant" "second reply with some content"; said "user" "third turn here";
      said "assistant" "third reply with some content";
      message "user" (lit (repeat_str "current turn with a very large payload that blows the budget. " 80))])).

Definition pair_key (body : WireBody) (segments : list Segment) : option RefId :=
  pair ← List.find (fun s => bool_decide (kind s = ToolPair)) segments;
  content_address (segment_payload_bytes pair body).

Definition tool_result_content (egress : list byte) (message : nat) : option rstr :=
  v ← to_value <$> from_slice egress;
  turns ← value_get v (str "messages") ≫= as_array;
  turn ← turns !! message;
  blocks ← value_get turn (str "content") ≫= as_array;
  block ← head blocks;
  value_get block (str "content") ≫= as_str.

(** [intercept] on a body, given its pair's key. *)
Definition laned (bytes : list byte) (at_inputs : RefId -> InterceptInputs) (f : RefId -> Intercepted -> bool) : bool :=
  on_body bytes (fun body segments => check_some (pair_key body segments) (fun key =>
    check_some (intercept bytes (at_inputs key)) (f key))).

Definition cleaned_at (message : nat) (out : Intercepted) : bool :=
  check_some (fast_lane_clean dirty_leaf) (fun cleaned => eqb_dec (tool_result_content (out_bytes out) message) (Some cleaned)).

Definition commits (keys : list RefId) (out : Intercepted) : bool := eqb_dec (fast_lane_committed out) keys.
Definition uncommits (keys : list RefId) (out : Intercepted) : bool := eqb_dec (fast_lane_uncommitted out) keys.

Definition fast_lane_fresh_tail_cleans_uncached_tool_result : bool :=
  laned dirty_tail_body (fun _ => lane_inputs None 1) (fun key out =>
    (length (out_bytes out) <? length dirty_tail_body)%nat && cleaned_at 2 out && commits [key] out).

(** [1e9] *)
Definition unreachable : f64 := f64_of_Z 1000000000.

Definition history_line : rstr := str "the assistant produced a long, detailed historical explanation here.".

Definition fast_lane_applies_even_on_hold : bool :=
  on_body history_and_dirty_tail_body (fun body segments =>
    check_some (historical_entry body segments) (fun '(_, entry) =>
      laned history_and_dirty_tail_body (fun _ => with_npv_floor unreachable (lane_inputs (Some (plan_of entry)) 3))
        (fun key out => cleaned_at 4 out && contains_sub history_line (utf8_decode (out_bytes out)) && commits [key] out))).

Definition fast_lane_recommits_committed_leaf_inside_cached_prefix : bool :=
  laned dirty_tail_body (fun key => with_lane [key] (closed_lane_inputs None))
    (fun _ out => cleaned_at 2 out && commits [] out).

Definition staged_pair_plan (key : RefId) : StagedPlan :=
  plan_of (recode_entry (rec key 80) (str "staged recode content wins") None None).

Definition staged_wins (out : Intercepted) : bool :=
  eqb_dec (tool_result_content (out_bytes out) 4) (Some (str "staged recode content wins")).

Definition fast_lane_staged_entry_takes_precedence : bool :=
  laned history_and_dirty_tail_body (fun key => gone_cold (lane_inputs (Some (staged_pair_plan key)) 3))
    (fun _ out => staged_wins out && commits [] out).

Definition fast_lane_commit_requires_successful_splice : bool :=
  let bytes := history_and_dirty_tail_body in
  on_body bytes (fun body segments =>
    check_some (historical_entry body segments) (fun '(_, historical) =>
      let plan := plan_of (recode_entry (se_rec historical) (repeat_str "x" 20000) None None) in
      laned bytes (fun _ => gone_cold (lane_inputs (Some plan) 3))
        (fun _ out => eqb_dec (out_bytes out) bytes && commits [] out))).

Definition fast_lane_exempts_pinned_current_tool_result : bool :=
  check_some (intercept pinned_pair_body (lane_inputs None 1)) (fun out =>
    eqb_dec (out_bytes out) pinned_pair_body && commits [] out).

Definition fast_lane_committed_key_rerenders_on_hold_even_when_staged : bool :=
  laned dirty_tail_body
    (fun key => with_npv_floor unreachable (with_lane [key] (closed_lane_inputs (Some (staged_pair_plan key)))))
    (fun _ out => cleaned_at 2 out && commits [] out && uncommits [] out).

Definition fast_lane_staged_application_uncommits : bool :=
  laned history_and_dirty_tail_body
    (fun key => gone_cold (with_lane [key] (closed_lane_inputs (Some (staged_pair_plan key)))))
    (fun key out => staged_wins out && uncommits [key] out && commits [] out) &&
  laned history_and_dirty_tail_body (fun key => gone_cold (closed_lane_inputs (Some (staged_pair_plan key))))
    (fun _ out => staged_wins out && commits [] out && uncommits [] out).

Definition fast_lane_staged_win_over_pinned_committed_key_uncommits : bool :=
  laned history_and_pinned_pair_body
    (fun key => gone_cold (with_lane [key] (closed_lane_inputs (Some (staged_pair_plan key)))))
    (fun key out => staged_wins out && uncommits [key] out && commits [] out).

Definition fast_lane_drop_collision_keeps_commitment : bool :=
  laned (overbudget_dirty_pair_body 100) (fun key => with_lane [key] (closed_lane_inputs None))
    (fun key out =>
      eqb_dec (tool_result_content (out_bytes out) 2) (Some DROP_PLACEHOLDER) && uncommits [] out &&
      check_some (intercept (overbudget_dirty_pair_body 200000) (with_lane [key] (closed_lane_inputs None)))
        (cleaned_at 2)).

Definition new_session_window_starts_closed : bool :=
  let fresh :=
    SessionEcon_new
      (mkCacheState 0 f64_zero (f64_of_Z 3600) (ModelId_new (str "claude-opus-4-8")) [])
      (mkSessionAuthContext [] (str "https://api.anthropic.com")) f64_zero PolicyConfig_default in
  let i := with_lane (elements (s_fast_lane fresh))
             (with_window (s_last_message_count fresh) (s_window_closed fresh) (closed_lane_inputs None)) in
  s_window_closed fresh && (s_last_message_count fresh =? 0)%nat &&
  check_some (intercept dirty_tail_body i) (fun out => eqb_dec (out_bytes out) dirty_tail_body).

Definition intercept_tests : list bool :=
  [splice_and_gate_rejects_thinking_mutation; splice_and_gate_rejects_growth; splice_and_gate_accepts_real_shrink;
   render_recode_inline_preserves_tool_use_id_and_passes_gate; render_recode_ref_backed_appends_marker;
   render_recode_growth_is_rejected_by_the_gate; render_proposal_text_dispatches_each_arm;
   render_proposal_text_recode_inline_vs_ref_backed; run_fails_open_on_panic; run_fails_open_on_timeout;
   run_returns_identity_when_no_plan_and_not_overbudget; token_scale_raises_priced_quantities_proportionally;
   dedup_renders_backref_for_the_later_identical_occurrence; continuous_pipeline_matches_legacy_on_historical_body;
   continuous_pipeline_matches_legacy_on_dup_tool_pairs; continuous_pipeline_matches_legacy_when_ref_is_hot;
   scorer_lit_never_regresses_vs_baseline_on_historical_body;
   scorer_lit_never_regresses_vs_baseline_on_dup_tool_pairs; scorer_lit_never_regresses_vs_baseline_on_large_body;
   scorer_lit_actually_squashes_large_body; deterministic_pipeline_matches_legacy_on_overbudget_body;
   deterministic_pipeline_matches_legacy_when_in_budget; fast_lane_fresh_tail_cleans_uncached_tool_result;
   fast_lane_applies_even_on_hold; fast_lane_recommits_committed_leaf_inside_cached_prefix;
   fast_lane_staged_entry_takes_precedence; fast_lane_commit_requires_successful_splice;
   fast_lane_exempts_pinned_current_tool_result; fast_lane_committed_key_rerenders_on_hold_even_when_staged;
   fast_lane_staged_application_uncommits; fast_lane_staged_win_over_pinned_committed_key_uncommits;
   fast_lane_drop_collision_keeps_commitment; new_session_window_starts_closed].

Lemma intercept_tests_pass : allb id intercept_tests = true.
Proof. vm_compute. reflexivity. Qed.
